(** * hidapi, Linux back-end (linux/hid.c): descriptor parser, uevent reader,
      device-info builder, enumerator and hotplug engine.

    The C code is embedded as Rocq functions.  Machine integers are [Z]
    with the wrap-around of their C type written out, byte buffers are
    [list byte], C strings are [string], out-parameters become components
    of the returned value, and [malloc]-family calls thread an explicit
    heap. *)

From Stdlib Require Import ZArith List Lia Bool Permutation.
From Stdlib.Strings Require Import String Ascii Byte.
Import ListNotations.
Local Open Scope Z_scope.

(** ** Machine integers *)

(** [unsigned int] / [__u32]. *)
Definition u32 (z : Z) : Z := z mod 2 ^ 32.
(** [unsigned short]. *)
Definition u16 (z : Z) : Z := z mod 2 ^ 16.
(** [int], two's complement. *)
Definition s32 (z : Z) : Z := (z + 2 ^ 31) mod 2 ^ 32 - 2 ^ 31.

(** [HID_MAX_DESCRIPTOR_SIZE] of <linux/hid.h>: the capacity of
    [struct hidraw_report_descriptor.value]. *)
Definition HID_MAX_DESCRIPTOR_SIZE : Z := 4096.

(** ** 4.A  Descriptor parser *)

Module Parser.

(** [report_descriptor[i]] for a [__u8 *] buffer. *)
Definition rd (report_descriptor : list byte) (i : Z) : Z :=
  Z.of_N (Byte.to_N (nth (Z.to_nat i) report_descriptor x00)).

(** The [switch (size_code)] of [get_hid_item_size]: result,
    [*data_len], [*key_size]. *)
Definition short_item_size (key : Z) : Z * Z * Z :=
  let size_code := Z.land key 0x3 in
  if (size_code =? 0) || (size_code =? 1) || (size_code =? 2)
  then (1, size_code, 1)
  else if size_code =? 3
  then (1, 4, 1)
  else (0, 0, 0).

(** [get_hid_item_size]: returns 1 if successful, 0 if an invalid key,
    together with [*data_len] and [*key_size].  When the key is a long
    item whose length byte is out of bounds the C code stores 0 in both
    out-parameters and then runs on into the short-item code, which
    overwrites them. *)
Definition get_hid_item_size (report_descriptor : list byte) (pos size : Z)
  : Z * Z * Z :=
  let key := rd report_descriptor pos in
  if Z.land key 0xf0 =? 0xf0 then
    if u32 (pos + 1) <? size
    then (1, rd report_descriptor (pos + 1), 3)
    else short_item_size key
  else short_item_size key.

(** [get_hid_report_bytes]; [size_t] arithmetic does not wrap for 32-bit
    operands; the sum of the four-byte case, formed in [int], is taken
    modulo [2^32] as the returned [__u32]. *)
Definition get_hid_report_bytes (rpt : list byte) (len num_bytes cur : Z) : Z :=
  if len <=? cur + num_bytes then 0
  else if num_bytes =? 0 then 0
  else if num_bytes =? 1 then rd rpt (cur + 1)
  else if num_bytes =? 2 then
    u32 (rd rpt (cur + 2) * 256 + rd rpt (cur + 1))
  else if num_bytes =? 4 then
    u32 (rd rpt (cur + 4) * 0x01000000 +
         rd rpt (cur + 3) * 0x00010000 +
         rd rpt (cur + 2) * 0x00000100 +
         rd rpt (cur + 1) * 0x00000001)
  else 0.

(** The three in/out parameters of [get_next_hid_usage]. *)
Record cursor : Type := Cursor {
  pos : Z;          (* unsigned int *pos *)
  usage_page : Z;   (* unsigned short *usage_page *)
  usage : Z         (* unsigned short *usage *)
}.

(** The [switch (key_cmd)] of one loop iteration: the updated cursor
    (position untouched), [usage_found] and [usage_pair_ready]. *)
Definition usage_switch (report_descriptor : list byte) (size : Z)
    (key_cmd data_len : Z) (c : cursor) (usage_found : bool)
  : cursor * bool * bool :=
  if key_cmd =? 0x4 then
    (Cursor (pos c)
            (u16 (get_hid_report_bytes report_descriptor size data_len (pos c)))
            (usage c),
     usage_found, false)
  else if key_cmd =? 0x8 then
    (Cursor (pos c) (usage_page c)
            (u16 (get_hid_report_bytes report_descriptor size data_len (pos c))),
     true, false)
  else if key_cmd =? 0xa0 then
    (c, false, usage_found)
  else if (key_cmd =? 0x80) || (key_cmd =? 0x90) || (key_cmd =? 0xb0)
          || (key_cmd =? 0xc0) then
    (c, false, false)
  else (c, usage_found, false).

(** The [while] loop (guard: cursor below [size]) of [get_next_hid_usage] and the code
    after it.  [None]: the fuel ran out. *)
Fixpoint get_next_hid_usage_loop (fuel : nat) (report_descriptor : list byte)
    (size : Z) (initial : bool) (c : cursor) (usage_found : bool)
  : option (Z * cursor) :=
  match fuel with
  | O => None
  | S fuel' =>
    if pos c <? size then
      let key := rd report_descriptor (pos c) in
      let key_cmd := Z.land key 0xfc in
      let '(ok, data_len, key_size) :=
        get_hid_item_size report_descriptor (pos c) size in
      if ok =? 0 then Some (-1, c)
      else
        let '(c1, usage_found1, usage_pair_ready) :=
          usage_switch report_descriptor size key_cmd data_len c usage_found in
        let c2 := Cursor (u32 (pos c1 + (data_len + key_size)))
                         (usage_page c1) (usage c1) in
        if usage_pair_ready then Some (0, c2)
        else get_next_hid_usage_loop fuel' report_descriptor size initial
                                     c2 usage_found1
    else if initial && usage_found then Some (0, c)
    else Some (1, c)
  end.

(** [get_next_hid_usage]: the return value (0 pair found, 1 finished,
    -1 malformed) and the updated [*pos], [*usage_page], [*usage]. *)
Definition get_next_hid_usage (report_descriptor : list byte) (size : Z)
    (c : cursor) : option (Z * cursor) :=
  get_next_hid_usage_loop (S (Z.to_nat size)) report_descriptor size
                          (pos c =? 0) c false.

(** Driving the parser from a cursor until it returns non-zero: the pairs
    it emitted, in order, and the final return value. *)
Fixpoint hid_usage_pairs_from (fuel : nat) (report_descriptor : list byte)
    (size : Z) (c : cursor) : option (list (Z * Z) * Z) :=
  match fuel with
  | O => None
  | S fuel' =>
    match get_next_hid_usage report_descriptor size c with
    | None => None
    | Some (r, c') =>
      if r =? 0 then
        match hid_usage_pairs_from fuel' report_descriptor size c' with
        | None => None
        | Some (ps, final) => Some ((usage_page c', usage c') :: ps, final)
        end
      else Some ([], r)
    end
  end.

Definition descriptor_size (report_descriptor : list byte) : Z :=
  Z.of_nat (List.length report_descriptor).

(** The pairs of a whole descriptor: [pos], page and usage start at 0. *)
Definition hid_usage_pairs (report_descriptor : list byte)
  : option (list (Z * Z) * Z) :=
  hid_usage_pairs_from (S (List.length report_descriptor)) report_descriptor
                       (descriptor_size report_descriptor) (Cursor 0 0 0).

(** The largest [size] for which the cursor cannot wrap around: an
    item starts below [size] and is at most 3 + 255 bytes long.  Every
    buffer of [HID_MAX_DESCRIPTOR_SIZE] bytes is far below it. *)
Definition no_wrap_size : Z := 2 ^ 32 - 259.

(** *** The items of a descriptor, for stating what the parser does *)

(** The [key_cmd] of every item the loop visits from [pos] to the end
    of the buffer. *)
Fixpoint item_keys_loop (fuel : nat) (report_descriptor : list byte)
    (size pos : Z) : list Z :=
  match fuel with
  | O => []
  | S fuel' =>
    if pos <? size then
      let '(_, data_len, key_size) :=
        get_hid_item_size report_descriptor pos size in
      Z.land (rd report_descriptor pos) 0xfc
      :: item_keys_loop fuel' report_descriptor size
                        (u32 (pos + (data_len + key_size)))
    else []
  end.

Definition item_keys (report_descriptor : list byte) (size pos : Z) : list Z :=
  item_keys_loop (S (Z.to_nat size)) report_descriptor size pos.

(** Collection, Input, Output, Feature, End Collection. *)
Definition is_main_item (key_cmd : Z) : bool :=
  (key_cmd =? 0xa0) || (key_cmd =? 0x80) || (key_cmd =? 0x90)
  || (key_cmd =? 0xb0) || (key_cmd =? 0xc0).

(** Whether a Usage is pending after an item: a Usage item sets it, a
    Main item consumes it. *)
Definition pending_after (key_cmd : Z) (pending : bool) : bool :=
  if key_cmd =? 0x8 then true
  else if is_main_item key_cmd then false
  else pending.

(** A Usage item is pending at the end of the items. *)
Fixpoint usage_pending (pending : bool) (keys : list Z) : bool :=
  match keys with
  | [] => pending
  | k :: rest => usage_pending (pending_after k pending) rest
  end.

(** Some Collection item among the items finds a Usage pending. *)
Fixpoint collection_with_usage (pending : bool) (keys : list Z) : bool :=
  match keys with
  | [] => false
  | k :: rest =>
    if (k =? 0xa0) && pending then true
    else collection_with_usage (pending_after k pending) rest
  end.

(** A Usage item occurs among the items with no Collection item
    before it. *)
Fixpoint usage_before_any_collection (keys : list Z) : bool :=
  match keys with
  | [] => false
  | k :: rest =>
    if k =? 0x8 then true
    else if k =? 0xa0 then false
    else usage_before_any_collection rest
  end.

End Parser.

(** ** C strings and the libc functions the uevent reader calls *)

Module Libc.

Local Open Scope string_scope.
Local Open Scope Z_scope.

Definition NUL : ascii := "000"%char.
Definition LF : ascii := "010"%char.

(** The C string held in a [char] buffer: the bytes before the first NUL. *)
Fixpoint c_str (buf : string) : string :=
  match buf with
  | EmptyString => EmptyString
  | String c rest => if Ascii.eqb c NUL then EmptyString
                     else String c (c_str rest)
  end.

(** [strlen]. *)
Definition strlen (s : string) : nat := String.length (c_str s).

(** [memcpy(tmp, s, n); tmp[n] = 0] for [n <= strlen s]. *)
Definition copy_prefix (n : nat) (s : string) : string :=
  substring 0 n (c_str s).

(** [strchr(s, c)] for [c <> 0], as the text before the match and the text
    after it ([*p = 0; p++]). *)
Fixpoint strchr_split (c : ascii) (s : string) : option (string * string) :=
  match s with
  | EmptyString => None
  | String a rest =>
    if Ascii.eqb a c then Some (EmptyString, rest)
    else match strchr_split c rest with
         | None => None
         | Some (k, v) => Some (String a k, v)
         end
  end.

(** The tokens that [strtok_r(s, delim, &save)] followed by
    [strtok_r(NULL, delim, &save)] calls return until NULL, for a
    one-character delimiter: the maximal non-empty runs of other
    characters.  [cur] is the token being read, reversed. *)
Fixpoint strtok_r_all (delim : ascii) (cur : list ascii) (s : string)
  : list string :=
  match s with
  | EmptyString =>
    match cur with
    | [] => []
    | _ => [string_of_list_ascii (rev cur)]
    end
  | String a rest =>
    if Ascii.eqb a delim then
      match cur with
      | [] => strtok_r_all delim [] rest
      | _ => string_of_list_ascii (rev cur) :: strtok_r_all delim [] rest
      end
    else strtok_r_all delim (a :: cur) rest
  end.

(** [isspace] in the C locale. *)
Definition isspace (c : ascii) : bool :=
  let n := N_of_ascii c in
  (N.eqb n 32 || (N.leb 9 n && N.leb n 13))%bool.

Fixpoint skip_space (s : string) : string :=
  match s with
  | String c rest => if isspace c then skip_space rest else s
  | EmptyString => s
  end.

(** Value of a hexadecimal digit. *)
Definition hex_digit (c : ascii) : option Z :=
  let n := Z.of_N (N_of_ascii c) in
  if (48 <=? n) && (n <=? 57) then Some (n - 48)
  else if (97 <=? n) && (n <=? 102) then Some (n - 87)
  else if (65 <=? n) && (n <=? 70) then Some (n - 55)
  else None.

(** The longest run of hexadecimal digits at the head of [s], read
    most-significant first onto [acc], and the text after it. *)
Fixpoint hex_digits (acc : Z) (s : string) : Z * string :=
  match s with
  | String c rest =>
    match hex_digit c with
    | Some d => hex_digits (acc * 16 + d) rest
    | None => (acc, s)
    end
  | EmptyString => (acc, s)
  end.

(** Subject sequence of [strtoul(s, &end, 16)] / [strtol(s, &end, 16)]:
    white space, an optional sign, an optional [0x] before a digit, then
    hexadecimal digits.  Returns the sign, the magnitude and the text
    after the number; [None]: no digits. *)
Definition scan_hex (s : string) : option (bool * Z * string) :=
  let s1 := skip_space s in
  let '(neg, s2) :=
    match s1 with
    | String "-" r => (true, r)
    | String "+" r => (false, r)
    | _ => (false, s1)
    end in
  let s3 :=
    match s2 with
    | String "0" (String x (String d r)) =>
      if (Ascii.eqb x "x" || Ascii.eqb x "X")
         && match hex_digit d with Some _ => true | None => false end
      then String d r else s2
    | _ => s2
    end in
  match s3 with
  | String c _ =>
    match hex_digit c with
    | None => None
    | Some _ => let '(v, rest) := hex_digits 0 s3 in Some (neg, v, rest)
    end
  | EmptyString => None
  end.

(** The [unsigned long] (LP64) that [strtoul] returns for a sign and a
    magnitude: saturated at [ULONG_MAX], negated modulo [2^64]. *)
Definition strtoul_value (neg : bool) (v : Z) : Z :=
  let v := Z.min v (2 ^ 64 - 1) in
  if neg then (2 ^ 64 - v) mod 2 ^ 64 else v.

(** [sscanf(value, "%x:%hx:%hx", bus_type, vendor_id, product_id)]: the
    return value and the three destinations, which keep their old
    content when their conversion is not reached.  (The value of EOF is
    -1.) *)
Definition sscanf_x_hx_hx (value : string) (bus_type vendor_id product_id : Z)
  : Z * Z * Z * Z :=
  match scan_hex value with
  | None =>
    (match skip_space value with EmptyString => -1 | _ => 0 end,
     bus_type, vendor_id, product_id)
  | Some (n1, b, r1) =>
    let bus := u32 (strtoul_value n1 b) in
    match r1 with
    | String ":" r1' =>
      match scan_hex r1' with
      | None => (1, bus, vendor_id, product_id)
      | Some (n2, v, r2) =>
        let vid := u16 (strtoul_value n2 v) in
        match r2 with
        | String ":" r2' =>
          match scan_hex r2' with
          | None => (2, bus, vid, product_id)
          | Some (n3, p, _) => (3, bus, vid, u16 (strtoul_value n3 p))
          end
        | _ => (2, bus, vid, product_id)
        end
      end
    | _ => (1, bus, vendor_id, product_id)
    end
  end.

(** [strtol(s, NULL, 16)] on an LP64 platform: 0 when there is no number,
    saturated at [LONG_MIN] and [LONG_MAX]. *)
Definition strtol16 (s : string) : Z :=
  match scan_hex s with
  | None => 0
  | Some (neg, v, _) =>
    if neg then - Z.min v (2 ^ 63) else Z.min v (2 ^ 63 - 1)
  end.

(** The lines of a text: the pieces between line feeds, empty ones
    included.  [cur] is the line being read, reversed. *)
Fixpoint split_on (delim : ascii) (cur : list ascii) (s : string)
  : list string :=
  match s with
  | EmptyString => [string_of_list_ascii (rev cur)]
  | String a rest =>
    if Ascii.eqb a delim
    then string_of_list_ascii (rev cur) :: split_on delim [] rest
    else split_on delim (a :: cur) rest
  end.

Definition text_lines (s : string) : list string := split_on LF [] s.

(** The value parses as [%x:%hx:%hx], all three fields. *)
Definition hid_id_parses (value : string) : bool :=
  let '(r, _, _, _) := sscanf_x_hx_hx value 0 0 0 in r =? 3.

(** Some line is [key=value] with a value that passes [ok]. *)
Definition has_line (key : string) (ok : string -> bool)
    (lines : list string) : Prop :=
  exists value, In (key ++ "=" ++ value) lines /\ ok value = true.

End Libc.

(** ** Process memory *)

(** Pointers into the heap; [None] is NULL. *)
Definition addr : Type := nat.
Definition ptr : Type := option addr.

(** What a heap cell holds: a [char] string or a [wchar_t] string. *)
Inductive block : Type :=
| Chars (s : string)
| Wide (w : list Z).

(** The heap, the outcome of the coming allocation requests ([true]:
    the request fails; past the end of the list every request succeeds)
    and the static [last_global_error_str]. *)
Record mem : Type := Mem {
  cells : list (option block);
  oom : list bool;
  last_global_error_str : ptr
}.

(** A computation on the process memory.  [None]: the run leaves the
    model (a loop out of fuel, a NULL or dangling pointer dereferenced). *)
Definition prog (A : Type) : Type := mem -> option (A * mem).

Definition ret {A : Type} (a : A) : prog A := fun m => Some (a, m).

Definition bind {A B : Type} (e : prog A) (k : A -> prog B) : prog B :=
  fun m => match e m with
           | None => None
           | Some (a, m') => k a m'
           end.

Definition stuck {A : Type} : prog A := fun _ => None.

Definition lift {A : Type} (o : option A) : prog A :=
  fun m => match o with None => None | Some a => Some (a, m) end.

Notation "x <- e ;; k" := (bind e (fun x => k))
  (at level 61, e at next level, right associativity).
Notation "' pat <- e ;; k" := (bind e (fun x => match x with pat => k end))
  (at level 61, pat pattern, e at next level, right associativity).
Notation "e ;;; k" := (bind e (fun _ => k))
  (at level 61, right associativity).

(** One request to [malloc]/[calloc]: does it succeed? *)
Definition request : prog bool :=
  fun m => match oom m with
           | [] => Some (true, m)
           | fails :: rest =>
             Some (negb fails, Mem (cells m) rest (last_global_error_str m))
           end.

(** An allocation that is initialised with [b]: a fresh address, or NULL. *)
Definition malloc (b : block) : prog ptr :=
  ok <- request ;;
  if ok : bool then
    fun m => Some (Some (List.length (cells m)),
                   Mem (cells m ++ [Some b]) (oom m) (last_global_error_str m))
  else ret None.

Fixpoint clear_cell (a : nat) (l : list (option block)) : list (option block) :=
  match l, a with
  | [], _ => []
  | _ :: t, O => None :: t
  | x :: t, S a' => x :: clear_cell a' t
  end.

(** [free(p)]; [free(NULL)] does nothing. *)
Definition free (p : ptr) : prog unit :=
  fun m => match p with
           | None => Some (tt, m)
           | Some a =>
             Some (tt, Mem (clear_cell a (cells m)) (oom m)
                           (last_global_error_str m))
           end.

Definition load (a : addr) (m : mem) : option block :=
  match nth_error (cells m) a with
  | Some (Some b) => Some b
  | _ => None
  end.

(** The [char] string a non-NULL pointer points to. *)
Definition read_chars (p : ptr) : prog string :=
  fun m => match p with
           | Some a => match load a m with
                       | Some (Chars s) => Some (s, m)
                       | _ => None
                       end
           | None => None
           end.

(** The [wchar_t] string a non-NULL pointer points to. *)
Definition read_wide (p : ptr) : prog (list Z) :=
  fun m => match p with
           | Some a => match load a m with
                       | Some (Wide w) => Some (w, m)
                       | _ => None
                       end
           | None => None
           end.

(** [strdup(s)]. *)
Definition strdup (s : string) : prog ptr := malloc (Chars (Libc.c_str s)).

(** [wcsdup(w)]. *)
Definition wcsdup (w : list Z) : prog ptr := malloc (Wide w).

(** [p ? wcsdup(p) : NULL]. *)
Definition wcsdup_ptr (p : ptr) : prog ptr :=
  match p with
  | None => ret None
  | Some _ => w <- read_wide p ;; wcsdup w
  end.

(** The multibyte decoding of the process locale: [mbstowcs] of a C
    string, [None] for [(size_t) -1] (an invalid sequence). *)
Class Locale : Type := { mbstowcs : string -> option (list Z) }.

(** ** Error registry *)

Section ErrorRegistry.
Context {locale : Locale}.

(** [utf8_to_wchar_t]; the argument is the C string, [None] for NULL. *)
Definition utf8_to_wchar_t (utf8 : option string) : prog ptr :=
  match utf8 with
  | None => ret None
  | Some s =>
    match mbstowcs (Libc.c_str s) with
    | None => wcsdup []
    | Some w => malloc (Wide w)
    end
  end.

(** [utf8_to_wchar_t] of a heap string. *)
Definition utf8_to_wchar_t_ptr (p : ptr) : prog ptr :=
  match p with
  | None => ret None
  | Some _ => s <- read_chars p ;; utf8_to_wchar_t (Some s)
  end.

(** [register_error_str(error_str, msg)]: the new content of [*error_str]. *)
Definition register_error_str (error_str : ptr) (msg : option string)
  : prog ptr :=
  free error_str ;;; utf8_to_wchar_t msg.

(** [register_global_error(msg)]. *)
Definition register_global_error (msg : option string) : prog unit :=
  fun m =>
    match register_error_str (last_global_error_str m) msg m with
    | None => None
    | Some (p, m') => Some (tt, Mem (cells m') (oom m') p)
    end.

(** [register_global_error_format(format, ...)] for a message already
    rendered: [vsnprintf] into [char msg[256]] keeps 255 characters. *)
Definition register_global_error_format (rendered : string) : prog unit :=
  register_global_error (Some (Libc.copy_prefix 255 rendered)).

End ErrorRegistry.

(** ** 4.B  Sysfs/uevent reader *)

(** What [open] and [read] give for a file. *)
Inductive file_result : Type :=
| FileOk (content : list byte)
| OpenFailed (strerror : string)
| ReadFailed (strerror : string).

Section UeventReader.
Context {locale : Locale}.
Local Open Scope string_scope.
Local Open Scope Z_scope.

(** [char tmp[1024]] filled from [uevent]: at most [sizeof(tmp) - 1]
    characters. *)
Definition uevent_tmp (uevent : string) : string :=
  Libc.copy_prefix 1023 uevent.

(** The lines the [strtok_r] loop visits. *)
Definition uevent_lines (uevent : string) : list string :=
  Libc.strtok_r_all Libc.LF [] (uevent_tmp uevent).

(** The loop of [parse_hid_vid_pid_from_uevent] over the remaining
    lines; the destinations are passed along because a failing [sscanf]
    may already have written some of them. *)
Fixpoint parse_hid_vid_pid_lines (lines : list string)
    (bus_type vendor_id product_id : Z) : prog (Z * Z * Z * Z) :=
  match lines with
  | [] =>
    register_global_error (Some "Couldn't find/parse HID_ID") ;;;
    ret (0, bus_type, vendor_id, product_id)
  | line :: rest =>
    match Libc.strchr_split "=" line with
    | None => parse_hid_vid_pid_lines rest bus_type vendor_id product_id
    | Some (key, value) =>
      if String.eqb key "HID_ID" then
        let '(r, b, v, p) :=
          Libc.sscanf_x_hx_hx value bus_type vendor_id product_id in
        if r =? 3 then ret (1, b, v, p)
        else parse_hid_vid_pid_lines rest b v p
      else parse_hid_vid_pid_lines rest bus_type vendor_id product_id
    end
  end.

(** [parse_hid_vid_pid_from_uevent]: the return value and [*bus_type],
    [*vendor_id], [*product_id]. *)
Definition parse_hid_vid_pid_from_uevent (uevent : string)
    (bus_type vendor_id product_id : Z) : prog (Z * Z * Z * Z) :=
  parse_hid_vid_pid_lines (uevent_lines uevent) bus_type vendor_id product_id.

(** [parse_hid_vid_pid_from_uevent_path].  [read] fills at most
    [sizeof(buf)] = 1024 bytes and returns their number [res]; the
    terminator goes to [buf[res]], which is one past the end of
    [char buf[1024]] when the file has 1024 bytes or more: that run
    leaves the model. *)
Definition parse_hid_vid_pid_from_uevent_path (files : string -> file_result)
    (uevent_path : string) (bus_type vendor_id product_id : Z)
  : prog (Z * Z * Z * Z) :=
  match files uevent_path with
  | OpenFailed e =>
    register_global_error_format
      ("open failed (" ++ uevent_path ++ "): " ++ e) ;;;
    ret (0, bus_type, vendor_id, product_id)
  | ReadFailed e =>
    register_global_error_format
      ("read failed (" ++ uevent_path ++ "): " ++ e) ;;;
    ret (0, bus_type, vendor_id, product_id)
  | FileOk content =>
    let buf := firstn 1024 content in
    let res := Z.of_nat (List.length buf) in
    if 1024 <=? res then stuck
    else
      parse_hid_vid_pid_from_uevent (string_of_list_byte buf)
                                    bus_type vendor_id product_id
  end.

(** [parse_hid_vid_pid_from_sysfs]: the path is built in a [calloc]ed
    buffer that is written without a NULL check. *)
Definition parse_hid_vid_pid_from_sysfs (files : string -> file_result)
    (sysfs_path : string) (bus_type vendor_id product_id : Z)
  : prog (Z * Z * Z * Z) :=
  let path := Libc.c_str sysfs_path ++ "/device/uevent" in
  uevent_path <- malloc (Chars path) ;;
  match uevent_path with
  | None => stuck
  | Some _ =>
    res <- parse_hid_vid_pid_from_uevent_path files path
             bus_type vendor_id product_id ;;
    free uevent_path ;;;
    ret res
  end.

(** [get_hid_report_descriptor]: the return value and, when the file
    opened, [rpt_desc->size] and [rpt_desc->value] (the bytes read; the
    rest of the buffer is zero and is never reached below [size]). *)
Definition get_hid_report_descriptor (files : string -> file_result)
    (rpt_path : string) : prog (Z * Z * list byte) :=
  match files rpt_path with
  | OpenFailed e =>
    register_global_error_format
      ("open failed (" ++ rpt_path ++ "): " ++ e) ;;;
    ret (-1, 0, [])
  | ReadFailed e =>
    register_global_error_format
      ("read failed (" ++ rpt_path ++ "): " ++ e) ;;;
    ret (-1, u32 (-1), [])
  | FileOk content =>
    let value := firstn (Z.to_nat HID_MAX_DESCRIPTOR_SIZE) content in
    let res := Z.of_nat (List.length value) in
    ret (res, u32 res, value)
  end.

(** [get_hid_report_descriptor_from_sysfs]. *)
Definition get_hid_report_descriptor_from_sysfs
    (files : string -> file_result) (sysfs_path : string)
  : prog (Z * Z * list byte) :=
  let path := Libc.c_str sysfs_path ++ "/device/report_descriptor" in
  rpt_path <- malloc (Chars path) ;;
  match rpt_path with
  | None => stuck
  | Some _ =>
    res <- get_hid_report_descriptor files path ;;
    free rpt_path ;;;
    ret res
  end.

(** The variables the loop of [parse_uevent_info] updates. *)
Record uevent_info : Type := UeventInfo {
  ui_bus_type : Z;
  ui_vendor_id : Z;
  ui_product_id : Z;
  ui_serial_number_utf8 : ptr;
  ui_product_name_utf8 : ptr;
  found_id : bool;
  found_serial : bool;
  found_name : bool
}.

(** The loop of [parse_uevent_info] over the remaining lines. *)
Fixpoint parse_uevent_info_lines (lines : list string) (st : uevent_info)
  : prog uevent_info :=
  match lines with
  | [] => ret st
  | line :: rest =>
    match Libc.strchr_split "=" line with
    | None => parse_uevent_info_lines rest st
    | Some (key, value) =>
      if String.eqb key "HID_ID" then
        let '(r, b, v, p) :=
          Libc.sscanf_x_hx_hx value (ui_bus_type st) (ui_vendor_id st)
                              (ui_product_id st) in
        parse_uevent_info_lines rest
          (UeventInfo b v p (ui_serial_number_utf8 st)
                      (ui_product_name_utf8 st)
                      (if r =? 3 then true else found_id st)
                      (found_serial st) (found_name st))
      else if String.eqb key "HID_NAME" then
        name <- strdup value ;;
        parse_uevent_info_lines rest
          (UeventInfo (ui_bus_type st) (ui_vendor_id st) (ui_product_id st)
                      (ui_serial_number_utf8 st) name
                      (found_id st) (found_serial st) true)
      else if String.eqb key "HID_UNIQ" then
        serial <- strdup value ;;
        parse_uevent_info_lines rest
          (UeventInfo (ui_bus_type st) (ui_vendor_id st) (ui_product_id st)
                      serial (ui_product_name_utf8 st)
                      (found_id st) true (found_name st))
      else parse_uevent_info_lines rest st
    end
  end.

(** [parse_uevent_info]: the return value with [*bus_type], [*vendor_id],
    [*product_id], [*serial_number_utf8] and [*product_name_utf8], given
    what the five destinations held before the call. *)
Definition parse_uevent_info (uevent : string)
    (bus_type vendor_id product_id : Z)
    (serial_number_utf8 product_name_utf8 : ptr)
  : prog (Z * Z * Z * Z * ptr * ptr) :=
  st <- parse_uevent_info_lines (uevent_lines uevent)
          (UeventInfo bus_type vendor_id product_id
                      serial_number_utf8 product_name_utf8
                      false false false) ;;
  ret (if found_id st && found_name st && found_serial st then 1 else 0,
       ui_bus_type st, ui_vendor_id st, ui_product_id st,
       ui_serial_number_utf8 st, ui_product_name_utf8 st).

End UeventReader.

(** ** 4.C  The udev view of the system *)

(** Attributes read off the ("usb", "usb_device") ancestor. *)
Record usb_device_attrs : Type := UsbDevice {
  manufacturer : option string;
  product : option string;
  bcdDevice : option string
}.

(** What the code asks of a [struct udev_device]. *)
Record udev_device : Type := UdevDevice {
  syspath : string;                      (* udev_device_get_syspath *)
  devnode : option string;               (* udev_device_get_devnode *)
  hid_parent : option (option string);   (* "hid" ancestor: its uevent *)
  usb_device_parent : option usb_device_attrs;
  usb_interface_parent : option (option string)  (* its bInterfaceNumber *)
}.

(** What the code asks of libudev and of the file system. *)
Record udev_env : Type := UdevEnv {
  udev_new_ok : bool;                       (* udev_new() is not NULL *)
  hidraw_entries : list (option string);    (* udev_list_entry_get_name *)
  device_new_from_syspath : string -> option udev_device;
  files : string -> file_result;
  monitor_get_fd : Z                        (* udev_monitor_get_fd *)
}.

(** Bus numbers of <linux/input.h>. *)
Definition BUS_USB : Z := 0x03.
Definition BUS_BLUETOOTH : Z := 0x05.
Definition BUS_I2C : Z := 0x18.
Definition BUS_SPI : Z := 0x1C.

(** [hid_bus_type] of hidapi.h. *)
Inductive hid_bus_type : Type :=
| HID_API_BUS_UNKNOWN
| HID_API_BUS_USB
| HID_API_BUS_BLUETOOTH
| HID_API_BUS_I2C
| HID_API_BUS_SPI.

(** [struct hid_device_info]; the [next] link is the list the records
    are kept in. *)
Record hid_device_info : Type := DeviceInfo {
  path : ptr;
  vendor_id : Z;
  product_id : Z;
  serial_number : ptr;
  release_number : Z;
  manufacturer_string : ptr;
  product_string : ptr;
  info_usage_page : Z;
  info_usage : Z;
  interface_number : Z;
  bus_type : hid_bus_type
}.

(** ** 4.D  Device-info builder *)

Section Builder.
Context {locale : Locale}.
Local Open Scope Z_scope.

(** [dev_path ? strdup(dev_path) : NULL]. *)
Definition strdup_opt (s : option string) : prog ptr :=
  match s with
  | None => ret None
  | Some s => strdup s
  end.

(** [(str) ? strtol(str, NULL, 16) : dflt]. *)
Definition strtol16_or (str : option string) (dflt : Z) : Z :=
  match str with
  | Some s => Libc.strtol16 s
  | None => dflt
  end.

(** The [while (!get_next_hid_usage(...))] loop of
    [create_device_info_for_device]: the records appended after
    [cur_dev]. *)
Fixpoint additional_usages (fuel : nat) (dev_path : option string)
    (dev_vid dev_pid : Z) (value : list byte) (size : Z)
    (c : Parser.cursor) (cur_dev : hid_device_info)
  : prog (list hid_device_info) :=
  match fuel with
  | O => stuck
  | S fuel' =>
    '(r, c') <- lift (Parser.get_next_hid_usage value size c) ;;
    if r =? 0 then
      tmp <- request ;;
      let prev_dev := cur_dev in
      if negb tmp then
        additional_usages fuel' dev_path dev_vid dev_pid value size c' cur_dev
      else
        p <- strdup_opt dev_path ;;
        sn <- wcsdup_ptr (serial_number prev_dev) ;;
        ms <- wcsdup_ptr (manufacturer_string prev_dev) ;;
        ps <- wcsdup_ptr (product_string prev_dev) ;;
        let cur_dev :=
          DeviceInfo p dev_vid dev_pid sn (release_number prev_dev) ms ps
                     (Parser.usage_page c') (Parser.usage c')
                     (interface_number prev_dev) (bus_type prev_dev) in
        rest <- additional_usages fuel' dev_path dev_vid dev_pid value size
                                  c' cur_dev ;;
        ret (cur_dev :: rest)
    else ret []
  end.

(** The part of [create_device_info_for_device] after the record has
    been allocated, up to the label [end]. *)
Definition fill_device_info (files : string -> file_result)
    (raw_dev : udev_device) (bus : Z) (dev_vid dev_pid : Z)
    (serial_number_utf8 product_name_utf8 : ptr)
  : prog (list hid_device_info) :=
  let sysfs_path := syspath raw_dev in
  let dev_path := devnode raw_dev in
  p <- strdup_opt dev_path ;;
  sn <- utf8_to_wchar_t_ptr serial_number_utf8 ;;
  let seed (ms ps : ptr) (release iface : Z) (bt : hid_bus_type) :=
    DeviceInfo p dev_vid dev_pid sn release ms ps 0 0 iface bt in
  cur_dev <-
    (if bus =? BUS_USB then
       match usb_device_parent raw_dev with
       | None =>
         ms <- wcsdup [] ;;
         ps <- utf8_to_wchar_t_ptr product_name_utf8 ;;
         ret (seed ms ps 0 (-1) HID_API_BUS_UNKNOWN)
       | Some usb_dev =>
         ms <- utf8_to_wchar_t (manufacturer usb_dev) ;;
         ps <- utf8_to_wchar_t (product usb_dev) ;;
         let release := u16 (strtol16_or (bcdDevice usb_dev) 0) in
         let iface :=
           match usb_interface_parent raw_dev with
           | Some str => s32 (strtol16_or str (-1))
           | None => -1
           end in
         ret (seed ms ps release iface HID_API_BUS_USB)
       end
     else if bus =? BUS_BLUETOOTH then
       ms <- wcsdup [] ;;
       ps <- utf8_to_wchar_t_ptr product_name_utf8 ;;
       ret (seed ms ps 0 (-1) HID_API_BUS_BLUETOOTH)
     else if bus =? BUS_I2C then
       ms <- wcsdup [] ;;
       ps <- utf8_to_wchar_t_ptr product_name_utf8 ;;
       ret (seed ms ps 0 (-1) HID_API_BUS_I2C)
     else if bus =? BUS_SPI then
       ms <- wcsdup [] ;;
       ps <- utf8_to_wchar_t_ptr product_name_utf8 ;;
       ret (seed ms ps 0 (-1) HID_API_BUS_SPI)
     else ret (seed None None 0 (-1) HID_API_BUS_UNKNOWN)) ;;
  '(result, size, value) <-
    get_hid_report_descriptor_from_sysfs files sysfs_path ;;
  if 0 <=? result then
    '(r, c) <- lift (Parser.get_next_hid_usage value size
                                               (Parser.Cursor 0 0 0)) ;;
    let cur_dev :=
      if r =? 0 then
        DeviceInfo (path cur_dev) (vendor_id cur_dev) (product_id cur_dev)
                   (serial_number cur_dev) (release_number cur_dev)
                   (manufacturer_string cur_dev) (product_string cur_dev)
                   (Parser.usage_page c) (Parser.usage c)
                   (interface_number cur_dev) (bus_type cur_dev)
      else cur_dev in
    rest <- additional_usages (S (Z.to_nat size)) dev_path dev_vid dev_pid
                              value size c cur_dev ;;
    ret (cur_dev :: rest)
  else ret [cur_dev].

(** [create_device_info_for_device]: the list headed by [root], empty
    for NULL.  The locals [bus_type], [dev_vid] and [dev_pid] are not
    initialised in C; they are read only after [parse_uevent_info] has
    returned non-zero, that is, after an [sscanf] has stored all three. *)
Definition create_device_info_for_device (files : string -> file_result)
    (raw_dev : udev_device) : prog (list hid_device_info) :=
  match hid_parent raw_dev with
  | None => free None ;;; free None ;;; ret []
  | Some uevent_attr =>
    uevent <- lift uevent_attr ;;
    '(result, bus, dev_vid, dev_pid, serial_number_utf8, product_name_utf8)
      <- parse_uevent_info uevent 0 0 0 None None ;;
    root <-
      (if result =? 0 then ret []
       else if negb ((bus =? BUS_BLUETOOTH) || (bus =? BUS_I2C)
                     || (bus =? BUS_USB) || (bus =? BUS_SPI)) then ret []
       else
         root <- request ;;
         if negb root then ret []
         else fill_device_info files raw_dev bus dev_vid dev_pid
                               serial_number_utf8 product_name_utf8) ;;
    free serial_number_utf8 ;;;
    free product_name_utf8 ;;;
    ret root
  end.

End Builder.

(** ** 4.E  Enumerator *)

Section Enumerator.
Context {locale : Locale}.
Local Open Scope string_scope.
Local Open Scope Z_scope.

(** [hid_init]; the calls to [setlocale] and [pthread_mutex_init] touch
    nothing that is modelled. *)
Definition hid_init : prog Z :=
  register_global_error None ;;; ret 0.

(** [hid_internal_match_device_id]. *)
Definition hid_internal_match_device_id
    (vendor_id product_id expected_vendor_id expected_product_id : Z) : bool :=
  ((expected_vendor_id =? 0x0) || (vendor_id =? expected_vendor_id))
  && ((expected_product_id =? 0x0) || (product_id =? expected_product_id)).

(** The body of [udev_list_entry_foreach] in [hid_enumerate], over the
    remaining entries: the records appended behind [cur_dev]. *)
Fixpoint enumerate_entries (env : udev_env) (vendor_id product_id : Z)
    (entries : list (option string)) : prog (list hid_device_info) :=
  match entries with
  | [] => ret []
  | None :: rest => enumerate_entries env vendor_id product_id rest
  | Some sysfs_path :: rest =>
    skip <-
      (if negb (vendor_id =? 0) || negb (product_id =? 0) then
         '(ok, _, dev_vid, dev_pid) <-
           parse_hid_vid_pid_from_sysfs (files env) sysfs_path 0 0 0 ;;
         if ok =? 0 then ret true
         else if negb (vendor_id =? 0) && negb (vendor_id =? dev_vid)
         then ret true
         else if negb (product_id =? 0) && negb (product_id =? dev_pid)
         then ret true
         else ret false
       else ret false) ;;
    if skip : bool then enumerate_entries env vendor_id product_id rest
    else
      match device_new_from_syspath env sysfs_path with
      | None => enumerate_entries env vendor_id product_id rest
      | Some raw_dev =>
        tmp <- create_device_info_for_device (files env) raw_dev ;;
        more <- enumerate_entries env vendor_id product_id rest ;;
        ret (tmp ++ more)%list
      end
  end.

(** [hid_enumerate]: the returned list, empty for NULL. *)
Definition hid_enumerate (env : udev_env) (vendor_id product_id : Z)
  : prog (list hid_device_info) :=
  hid_init ;;;
  if negb (udev_new_ok env) then
    register_global_error (Some "Couldn't create udev context") ;;;
    ret []
  else
    root <- enumerate_entries env vendor_id product_id (hidraw_entries env) ;;
    match root with
    | [] =>
      (if (vendor_id =? 0) && (product_id =? 0)
       then register_global_error (Some "No HID devices found in the system.")
       else register_global_error
              (Some "No HID devices with requested VID/PID found in the system."))
      ;;; ret root
    | _ => ret root
    end.

(** [hid_free_enumeration]. *)
Fixpoint hid_free_enumeration (devs : list hid_device_info) : prog unit :=
  match devs with
  | [] => ret tt
  | d :: next =>
    free (path d) ;;;
    free (serial_number d) ;;;
    free (manufacturer_string d) ;;;
    free (product_string d) ;;;
    hid_free_enumeration next
  end.

End Enumerator.

(** ** 4.F  Hotplug engine *)

(** Constants of hidapi.h. *)
Definition HID_API_HOTPLUG_EVENT_DEVICE_ARRIVED : Z := 1.
Definition HID_API_HOTPLUG_EVENT_DEVICE_LEFT : Z := 2.
Definition HID_API_HOTPLUG_ENUMERATE : Z := 1.

Section Hotplug.
Context {locale : Locale}.
(** The state a user callback can read and write. *)
Variable world : Type.
Local Open Scope string_scope.
Local Open Scope Z_scope.

(** [hid_hotplug_callback_fn]: handle, device, event, user data. *)
Definition hid_hotplug_callback_fn : Type :=
  Z -> hid_device_info -> Z -> Z -> world -> Z * world.

(** [struct hid_hotplug_callback]; [next] is the list it is kept in. *)
Record hid_hotplug_callback : Type := HotplugCallback {
  handle : Z;
  cb_vendor_id : Z;
  cb_product_id : Z;
  events : Z;
  user_data : Z;
  callback : hid_hotplug_callback_fn
}.

(** [hid_hotplug_context].  [udev_ctx] and [mon] count the references
    this code holds on its udev context and monitor, [workers] the
    threads started with [pthread_create] that run [hotplug_thread]; the
    mutex is not modelled: every API call and every pass of the worker
    is one step. *)
Record hid_hotplug_context : Type := HotplugContext {
  udev_ctx : nat;
  mon : nat;
  monitor_fd : Z;
  workers : nat;
  next_handle : Z;
  hotplug_cbs : list hid_hotplug_callback;
  devs : list hid_device_info
}.

(** The static initialiser of [hid_hotplug_context]. *)
Definition hid_hotplug_context_init : hid_hotplug_context :=
  HotplugContext 0 0 (-1) 0 1 [] [].

(** One call of a user callback, as dispatch made it: the handle it
    was made with and what it returned. *)
Definition call : Type := (Z * Z)%type.

(** [hid_internal_invoke_callbacks] over the callbacks from [*current]
    on: the list that remains, the world, and the calls made in order. *)
Fixpoint hid_internal_invoke_callbacks (current : list hid_hotplug_callback)
    (info : hid_device_info) (event : Z) (w : world)
  : list hid_hotplug_callback * world * list call :=
  match current with
  | [] => ([], w, [])
  | cb :: next =>
    if negb (Z.land (events cb) event =? 0)
       && hid_internal_match_device_id (vendor_id info) (product_id info)
                                       (cb_vendor_id cb) (cb_product_id cb)
    then
      let '(result, w1) :=
        callback cb (handle cb) info event (user_data cb) w in
      let '(rest, w2, calls) :=
        hid_internal_invoke_callbacks next info event w1 in
      if negb (result =? 0)
      then (rest, w2, (handle cb, result) :: calls)
      else (cb :: rest, w2, (handle cb, result) :: calls)
    else
      let '(rest, w2, calls) :=
        hid_internal_invoke_callbacks next info event w in
      (cb :: rest, w2, calls)
  end.

(** [hid_internal_hotplug_cleanup]. *)
Definition hid_internal_hotplug_cleanup (ctx : hid_hotplug_context)
  : prog hid_hotplug_context :=
  match hotplug_cbs ctx with
  | [] =>
    hid_free_enumeration (devs ctx) ;;;
    ret (HotplugContext (pred (udev_ctx ctx)) (pred (mon ctx))
                        (monitor_fd ctx) (workers ctx) (next_handle ctx)
                        [] [])
  | _ => ret ctx
  end.

(** The guard of the [while] loop of [hotplug_thread]. *)
Definition hotplug_thread_guard (ctx : hid_hotplug_context) : bool :=
  0 <? monitor_fd ctx.

(** The [for] loop of the "remove" branch of [hotplug_thread] over the
    records from [*current] on; [match_udev_to_info] is the [strcmp] of
    the device node with the record's path.  [free(info)] releases the
    record alone, none of its strings. *)
Fixpoint hotplug_remove (dev_path : option string)
    (current : list hid_device_info)
    (cbs : list hid_hotplug_callback) (w : world)
  : prog (list hid_device_info * list hid_hotplug_callback * world
          * list call) :=
  match current with
  | [] => ret ([], cbs, w, [])
  | info :: next =>
    udev_path <- lift dev_path ;;
    info_path <- read_chars (path info) ;;
    if String.eqb (Libc.c_str udev_path) info_path then
      let '(cbs1, w1, calls1) :=
        hid_internal_invoke_callbacks cbs info
          HID_API_HOTPLUG_EVENT_DEVICE_LEFT w in
      '(rest, cbs2, w2, calls2) <- hotplug_remove dev_path next cbs1 w1 ;;
      ret (rest, cbs2, w2, (calls1 ++ calls2)%list)
    else
      '(rest, cbs2, w2, calls2) <- hotplug_remove dev_path next cbs w ;;
      ret (info :: rest, cbs2, w2, calls2)
  end.

(** The [while (info_cur)] loop of the "add" branch. *)
Fixpoint hotplug_arrived (infos : list hid_device_info)
    (cbs : list hid_hotplug_callback) (w : world)
  : list hid_hotplug_callback * world * list call :=
  match infos with
  | [] => (cbs, w, [])
  | info_cur :: next =>
    let '(cbs1, w1, calls1) :=
      hid_internal_invoke_callbacks cbs info_cur
        HID_API_HOTPLUG_EVENT_DEVICE_ARRIVED w in
    let '(cbs2, w2, calls2) := hotplug_arrived next cbs1 w1 in
    (cbs2, w2, (calls1 ++ calls2)%list)
  end.

(** One pass of the body of the [while] loop of [hotplug_thread].
    [received]: what [select] and [udev_monitor_receive_device] deliver
    in this pass, a device with its [udev_device_get_action], if any. *)
Definition hotplug_thread_pass (files : string -> file_result)
    (received : option (udev_device * option string))
    (ctx : hid_hotplug_context) (w : world)
  : prog (hid_hotplug_context * world * list call) :=
  match received with
  | None => ret (ctx, w, [])
  | Some (raw_dev, action) =>
    action <- lift action ;;
    if String.eqb (Libc.c_str action) "add" then
      info <- create_device_info_for_device files raw_dev ;;
      let '(cbs, w', calls) := hotplug_arrived info (hotplug_cbs ctx) w in
      ret (HotplugContext (udev_ctx ctx) (mon ctx) (monitor_fd ctx)
                          (workers ctx) (next_handle ctx) cbs
                          (devs ctx ++ info)%list,
           w', calls)
    else if String.eqb (Libc.c_str action) "remove" then
      '(devs', cbs, w', calls) <-
        hotplug_remove (devnode raw_dev) (devs ctx) (hotplug_cbs ctx) w ;;
      ret (HotplugContext (udev_ctx ctx) (mon ctx) (monitor_fd ctx)
                          (workers ctx) (next_handle ctx) cbs devs',
           w', calls)
    else ret (ctx, w, [])
  end.

(** One turn of [hotplug_thread]: a pass of the loop body while the
    guard holds, else the thread returns. *)
Definition hotplug_thread_step (files : string -> file_result)
    (received : option (udev_device * option string))
    (ctx : hid_hotplug_context) (w : world)
  : prog (hid_hotplug_context * world * list call) :=
  if hotplug_thread_guard ctx then hotplug_thread_pass files received ctx w
  else ret (HotplugContext (udev_ctx ctx) (mon ctx) (monitor_fd ctx)
                           (pred (workers ctx)) (next_handle ctx)
                           (hotplug_cbs ctx) (devs ctx),
            w, []).

(** [hid_hotplug_register_callback]: the return value, the context and
    what is stored through [callback_handle] when it is not NULL.
    [callback] is [None] for a NULL function pointer. *)
Definition hid_hotplug_register_callback (env : udev_env)
    (vendor_id product_id : Z) (events flags : Z)
    (callback : option hid_hotplug_callback_fn) (user_data : Z)
    (callback_handle : bool) (ctx : hid_hotplug_context)
  : prog (Z * hid_hotplug_context * option Z) :=
  if (events =? 0)
     || negb (Z.land events
                (Z.lnot (Z.lor HID_API_HOTPLUG_EVENT_DEVICE_ARRIVED
                               HID_API_HOTPLUG_EVENT_DEVICE_LEFT)) =? 0)
     || negb (Z.land flags (Z.lnot HID_API_HOTPLUG_ENUMERATE) =? 0)
     || match callback with None => true | Some _ => false end
  then ret (-1, ctx, None)
  else
    match callback with
    | None => ret (-1, ctx, None)
    | Some fn =>
      hotplug_cb <- request ;;
      if negb hotplug_cb then ret (-1, ctx, None)
      else
        let h := next_handle ctx in
        let cb := HotplugCallback h vendor_id product_id events
                                  user_data fn in
        let next := s32 (h + 1) in
        let next := if next <? 0 then 1 else next in
        let out := if callback_handle then Some h else None in
        match hotplug_cbs ctx with
        | _ :: _ =>
          ret (-1,
               HotplugContext (udev_ctx ctx) (mon ctx) (monitor_fd ctx)
                              (workers ctx) next
                              (hotplug_cbs ctx ++ [cb])%list (devs ctx),
               out)
        | [] =>
          if negb (udev_new_ok env) then
            ret (-1,
                 HotplugContext (udev_ctx ctx) (mon ctx) (monitor_fd ctx)
                                (workers ctx) next [] (devs ctx),
                 out)
          else
            enumerated <- hid_enumerate env 0 0 ;;
            ret (-1,
                 HotplugContext (S (udev_ctx ctx)) (S (mon ctx))
                                (monitor_get_fd env) (S (workers ctx)) next
                                [cb] enumerated,
                 out)
        end
    end.

(** The [for] loop of [hid_hotplug_deregister_callback]: the list
    without the first callback that has the handle, and [result]. *)
Fixpoint remove_callback (callback_handle : Z)
    (current : list hid_hotplug_callback)
  : list hid_hotplug_callback * Z :=
  match current with
  | [] => ([], -1)
  | cb :: next =>
    if handle cb =? callback_handle then (next, 0)
    else let '(rest, result) := remove_callback callback_handle next in
         (cb :: rest, result)
  end.

(** [hid_hotplug_deregister_callback].  The C text calls
    [hid_internal_cleanup_hotplugs], a name the file does not define;
    the cleanup routine it defines is [hid_internal_hotplug_cleanup]. *)
Definition hid_hotplug_deregister_callback (callback_handle : Z)
    (ctx : hid_hotplug_context) : prog (Z * hid_hotplug_context) :=
  match hotplug_cbs ctx with
  | [] => ret (-1, ctx)
  | _ =>
    let '(cbs, result) := remove_callback callback_handle (hotplug_cbs ctx) in
    ctx' <- hid_internal_hotplug_cleanup
              (HotplugContext (udev_ctx ctx) (mon ctx) (monitor_fd ctx)
                              (workers ctx) (next_handle ctx) cbs (devs ctx)) ;;
    ret (result, ctx')
  end.

(** Whether dispatch calls a callback for a device and an event. *)
Definition callback_matches (info : hid_device_info) (event : Z)
    (cb : hid_hotplug_callback) : bool :=
  negb (Z.land (events cb) event =? 0)
  && hid_internal_match_device_id (vendor_id info) (product_id info)
                                  (cb_vendor_id cb) (cb_product_id cb).

(** A run of dispatches, one per (device, event), each on the callback
    list the one before left: the final list, the world and all calls
    made, in order. *)
Fixpoint dispatch_events (cbs : list hid_hotplug_callback)
    (evs : list (hid_device_info * Z)) (w : world)
  : list hid_hotplug_callback * world * list call :=
  match evs with
  | [] => (cbs, w, [])
  | (info, event) :: later =>
    let '(cbs1, w1, calls1) :=
      hid_internal_invoke_callbacks cbs info event w in
    let '(cbs2, w2, calls2) := dispatch_events cbs1 later w1 in
    (cbs2, w2, (calls1 ++ calls2)%list)
  end.

End Hotplug.

(** ** What the builder is to produce *)

(** A device-info record with its strings read out of the heap. *)
Record device_record : Type := DeviceRecord {
  r_path : option string;
  r_vendor_id : Z;
  r_product_id : Z;
  r_serial_number : option (list Z);
  r_release_number : Z;
  r_manufacturer_string : option (list Z);
  r_product_string : option (list Z);
  r_usage_page : Z;
  r_usage : Z;
  r_interface_number : Z;
  r_bus_type : hid_bus_type
}.

Definition deref_chars (m : mem) (p : ptr) : option string :=
  match p with
  | Some a => match load a m with Some (Chars s) => Some s | _ => None end
  | None => None
  end.

Definition deref_wide (m : mem) (p : ptr) : option (list Z) :=
  match p with
  | Some a => match load a m with Some (Wide w) => Some w | _ => None end
  | None => None
  end.

(** The record [d] as a reader of the heap [m] sees it. *)
Definition resolve (m : mem) (d : hid_device_info) : device_record :=
  DeviceRecord (deref_chars m (path d)) (vendor_id d) (product_id d)
               (deref_wide m (serial_number d)) (release_number d)
               (deref_wide m (manufacturer_string d))
               (deref_wide m (product_string d))
               (info_usage_page d) (info_usage d)
               (interface_number d) (bus_type d).

Definition ptr_addrs (p : ptr) : list addr :=
  match p with Some a => [a] | None => [] end.

(** The heap addresses of the strings of a record. *)
Definition string_addrs (d : hid_device_info) : list addr :=
  (ptr_addrs (product_string d) ++ ptr_addrs (manufacturer_string d)
   ++ ptr_addrs (serial_number d) ++ ptr_addrs (path d))%list.

Section BuilderSpec.
Context {locale : Locale}.
Local Open Scope string_scope.
Local Open Scope Z_scope.

(** Wide-decoding of UTF-8 text: empty when the text does not decode. *)
Definition widen (s : string) : list Z :=
  match mbstowcs (Libc.c_str s) with
  | Some w => w
  | None => []
  end.

(** What [parse_uevent(text)] of 4.B finds: bus, vendor, product,
    serial and name, and whether each key was found. *)
Record uevent_fields : Type := UeventFields {
  uf_bus : Z;
  uf_vid : Z;
  uf_pid : Z;
  uf_serial : option string;
  uf_name : option string;
  uf_found_id : bool;
  uf_found_serial : bool;
  uf_found_name : bool
}.

(** Specification ([parse_uevent(text)] of 4.B), on the lines of the
    text: the fields as the last matching lines give them. *)
Fixpoint scan_uevent (lines : list string) (f : uevent_fields)
  : uevent_fields :=
  match lines with
  | [] => f
  | line :: rest =>
    match Libc.strchr_split "=" line with
    | None => scan_uevent rest f
    | Some (key, value) =>
      if String.eqb key "HID_ID" then
        let '(r, b, v, p) :=
          Libc.sscanf_x_hx_hx value (uf_bus f) (uf_vid f) (uf_pid f) in
        scan_uevent rest
          (UeventFields b v p (uf_serial f) (uf_name f)
                        (if r =? 3 then true else uf_found_id f)
                        (uf_found_serial f) (uf_found_name f))
      else if String.eqb key "HID_NAME" then
        scan_uevent rest
          (UeventFields (uf_bus f) (uf_vid f) (uf_pid f) (uf_serial f)
                        (Some value) (uf_found_id f) (uf_found_serial f) true)
      else if String.eqb key "HID_UNIQ" then
        scan_uevent rest
          (UeventFields (uf_bus f) (uf_vid f) (uf_pid f) (Some value)
                        (uf_name f) (uf_found_id f) true (uf_found_name f))
      else scan_uevent rest f
    end
  end.

Definition no_fields : uevent_fields :=
  UeventFields 0 0 0 None None false false false.

(** Specification ([parse_vid_pid_only(text)] of 4.B): the first
    [HID_ID] line that parses in full decides; the result is 1 with
    its three numbers, or 0. *)
Fixpoint scan_hid_id (lines : list string) (bus vid pid : Z)
  : Z * Z * Z * Z :=
  match lines with
  | [] => (0, bus, vid, pid)
  | line :: rest =>
    match Libc.strchr_split "=" line with
    | None => scan_hid_id rest bus vid pid
    | Some (key, value) =>
      if String.eqb key "HID_ID" then
        let '(r, b, v, p) := Libc.sscanf_x_hx_hx value bus vid pid in
        if r =? 3 then (1, b, v, p) else scan_hid_id rest b v p
      else scan_hid_id rest bus vid pid
    end
  end.

(** What the pre-filter of the enumerator reads for a node. *)
Definition prefilter_ids (files : string -> file_result)
    (sysfs_path : string) : Z * Z * Z * Z :=
  match files (Libc.c_str sysfs_path ++ "/device/uevent") with
  | FileOk content =>
    scan_hid_id (uevent_lines (string_of_list_byte (firstn 1024 content)))
                0 0 0
  | _ => (0, 0, 0, 0)
  end.

(** Specification: the usage pairs of the descriptor file of
    a node (4.D step 7); [None] when the file cannot be read. *)
Definition descriptor_pairs (files : string -> file_result)
    (sysfs_path : string) : option (list (Z * Z)) :=
  match files (Libc.c_str sysfs_path ++ "/device/report_descriptor") with
  | FileOk content =>
    match Parser.hid_usage_pairs
            (firstn (Z.to_nat HID_MAX_DESCRIPTOR_SIZE) content) with
    | Some (pairs, _) => Some pairs
    | None => None
    end
  | _ => None
  end.

(** Specification: the seed record of 4.D steps 5 and 6 for a
    node on a handled bus. *)
Definition seed_record (raw_dev : udev_device) (bus vid pid : Z)
    (serial name : option string) : device_record :=
  let base ms ps release iface bt :=
    DeviceRecord (option_map Libc.c_str (devnode raw_dev)) vid pid
                 (option_map widen serial) release ms ps 0 0 iface bt in
  let plain bt := base (Some []) (option_map widen name) 0 (-1) bt in
  if bus =? BUS_USB then
    match usb_device_parent raw_dev with
    | None => plain HID_API_BUS_UNKNOWN
    | Some usb_dev =>
      base (option_map widen (manufacturer usb_dev))
           (option_map widen (product usb_dev))
           (u16 (strtol16_or (bcdDevice usb_dev) 0))
           (match usb_interface_parent raw_dev with
            | Some str => s32 (strtol16_or str (-1))
            | None => -1
            end)
           HID_API_BUS_USB
    end
  else if bus =? BUS_BLUETOOTH then plain HID_API_BUS_BLUETOOTH
  else if bus =? BUS_I2C then plain HID_API_BUS_I2C
  else plain HID_API_BUS_SPI.

Definition with_usage (r : device_record) (pu : Z * Z) : device_record :=
  DeviceRecord (r_path r) (r_vendor_id r) (r_product_id r)
               (r_serial_number r) (r_release_number r)
               (r_manufacturer_string r) (r_product_string r)
               (fst pu) (snd pu) (r_interface_number r) (r_bus_type r).

Definition bus_handled (bus : Z) : bool :=
  (bus =? BUS_BLUETOOTH) || (bus =? BUS_I2C) || (bus =? BUS_USB)
  || (bus =? BUS_SPI).

(** Specification: the records of a node that is not dropped (4.D
    step 7): the seed once per usage pair, or the seed with usage 0/0
    when there is no pair or no descriptor. *)
Definition records_of_seed (files : string -> file_result)
    (raw_dev : udev_device) (seed : device_record) : list device_record :=
  match descriptor_pairs files (syspath raw_dev) with
  | Some (pu :: pairs) => map (with_usage seed) (pu :: pairs)
  | _ => [seed]
  end.

(** The node passes the checks of 4.D steps 2 to 4: it has a "hid"
    parent whose uevent gives all three keys and a handled bus. *)
Definition node_accepted (raw_dev : udev_device) : bool :=
  match hid_parent raw_dev with
  | Some (Some uevent) =>
    let f := scan_uevent (uevent_lines uevent) no_fields in
    uf_found_id f && uf_found_name f && uf_found_serial f
    && bus_handled (uf_bus f)
  | _ => false
  end.

(** Specification: the records of one node (4.D): none when the node
    is dropped. *)
Definition device_records (files : string -> file_result)
    (raw_dev : udev_device) : list device_record :=
  match hid_parent raw_dev with
  | Some (Some uevent) =>
    let f := scan_uevent (uevent_lines uevent) no_fields in
    if uf_found_id f && uf_found_name f && uf_found_serial f
       && bus_handled (uf_bus f) then
      records_of_seed files raw_dev
        (seed_record raw_dev (uf_bus f) (uf_vid f) (uf_pid f)
                     (uf_serial f) (uf_name f))
    else []
  | _ => []
  end.

(** The pre-filter of the enumerator rejects a node (4.E step 3). *)
Definition prefilter_rejects (files : string -> file_result)
    (vendor_id product_id : Z) (sysfs_path : string) : bool :=
  if negb (vendor_id =? 0) || negb (product_id =? 0) then
    let '(ok, _, dev_vid, dev_pid) := prefilter_ids files sysfs_path in
    (ok =? 0)
    || (negb (vendor_id =? 0) && negb (vendor_id =? dev_vid))
    || (negb (product_id =? 0) && negb (product_id =? dev_pid))
  else false.

(** Specification: the records the enumerator appends for one entry
    of the hidraw list (4.E steps 3 and 4). *)
Definition entry_records (env : udev_env) (vendor_id product_id : Z)
    (entry : option string) : list device_record :=
  match entry with
  | None => []
  | Some sysfs_path =>
    if prefilter_rejects (files env) vendor_id product_id sysfs_path then []
    else match device_new_from_syspath env sysfs_path with
         | None => []
         | Some raw_dev => device_records (files env) raw_dev
         end
  end.

(** Specification: the records of an enumeration (4.E). *)
Definition enumeration (env : udev_env) (vendor_id product_id : Z)
  : list device_record :=
  if udev_new_ok env
  then flat_map (entry_records env vendor_id product_id) (hidraw_entries env)
  else [].

(** The key of a line is [k]. *)
Definition line_has_key (k : string) (line : string) : bool :=
  match Libc.strchr_split "=" line with
  | Some (key, _) => String.eqb key k
  | None => false
  end.

(** The system is as the kernel presents it: for every hidraw entry
    with a device, the "hid" parent (if any) has a uevent attribute,
    the file [<entry>/device/uevent] reads to the same lines as that
    attribute, and at most one of these lines has the key [HID_ID]. *)
Definition uevent_consistent (env : udev_env) : Prop :=
  forall sysfs_path raw_dev,
    In (Some sysfs_path) (hidraw_entries env) ->
    device_new_from_syspath env sysfs_path = Some raw_dev ->
    match hid_parent raw_dev with
    | None => True
    | Some None => False
    | Some (Some uevent) =>
      (exists content,
          files env (Libc.c_str sysfs_path ++ "/device/uevent")
          = FileOk content
          /\ uevent_lines (string_of_list_byte (firstn 1024 content))
             = uevent_lines uevent)
      /\ (List.length (filter (line_has_key "HID_ID") (uevent_lines uevent))
          <= 1)%nat
    end.

(** The uevent file of a hidraw entry, if it can be read, has fewer
    than 1024 bytes: in [parse_hid_vid_pid_from_uevent_path], [read]
    returns less than [sizeof(buf)]. *)
Definition uevent_file_fits (files : string -> file_result)
    (sysfs_path : string) : Prop :=
  match files (Libc.c_str sysfs_path ++ "/device/uevent") with
  | FileOk content => (List.length content < 1024)%nat
  | _ => True
  end.

(** Every uevent file that the pre-filter of [hid_enumerate(v, p)]
    reads fits its buffer.  The pre-filter reads the file of every
    entry of the hidraw list when [v] or [p] is not 0, and no file when
    both are 0. *)
Definition prefilter_reads_fit (env : udev_env) (vendor_id product_id : Z)
  : Prop :=
  negb (vendor_id =? 0) || negb (product_id =? 0) = true ->
  forall sysfs_path,
    In (Some sysfs_path) (hidraw_entries env) ->
    uevent_file_fits (files env) sysfs_path.

(** Specification: the records of the system, which are the records
    the builder makes (4.D) for the device of each entry of the hidraw
    list, in list order. *)
Definition system_records (env : udev_env) : list device_record :=
  flat_map (fun entry =>
              match entry with
              | Some sysfs_path =>
                match device_new_from_syspath env sysfs_path with
                | Some raw_dev => device_records (files env) raw_dev
                | None => []
                end
              | None => []
              end)
           (hidraw_entries env).

End BuilderSpec.

(** ** A sample system *)

Module Sample.
Local Open Scope string_scope.

(** A locale in which every byte is one character. *)
Definition byte_locale : Locale :=
  {| mbstowcs := fun s =>
       Some (map (fun c => Z.of_N (N_of_ascii c)) (list_ascii_of_string s)) |}.

Definition nl : string := String Libc.LF "".

Definition keyboard_uevent : string :=
  "HID_ID=0003:000005AC:00008242" ++ nl ++
  "HID_NAME=Keyboard" ++ nl ++
  "HID_UNIQ=abc" ++ nl.

(** The same keys, with a line of 1004 characters before the last. *)
Definition long_uevent : string :=
  "HID_ID=0003:000005AC:00008242" ++ nl ++
  "HID_NAME=Keyboard" ++ nl ++
  "PAD=" ++ string_of_list_ascii (repeat "x"%char 1000) ++ nl ++
  "HID_UNIQ=abc" ++ nl.

Definition keyboard_descriptor : list byte :=
  [x05; x01; x09; x06; xa1; x01; x05; x0c; x09; x01; xa1; x02; xc0; xc0].

Definition keyboard_syspath : string := "/sys/class/hidraw/hidraw0".

(** A USB keyboard behind /dev/hidraw0. *)
Definition keyboard : udev_device :=
  UdevDevice keyboard_syspath (Some "/dev/hidraw0")
             (Some (Some keyboard_uevent))
             (Some (UsbDevice (Some "Apple Inc.") (Some "Keyboard")
                              (Some "0100")))
             (Some (Some "01")).

Definition keyboard_files (uevent : string) (file : string) : file_result :=
  if String.eqb file (keyboard_syspath ++ "/device/uevent")
  then FileOk (list_byte_of_string uevent)
  else if String.eqb file (keyboard_syspath ++ "/device/report_descriptor")
  then FileOk keyboard_descriptor
  else OpenFailed "No such file or directory".

(** A system whose only hidraw node is a device with the given uevent. *)
Definition system_of (uevent : string) (dev : udev_device) : udev_env :=
  UdevEnv true [Some keyboard_syspath]
          (fun p => if String.eqb p keyboard_syspath then Some dev else None)
          (keyboard_files uevent) 5.

Definition keyboard_system : udev_env := system_of keyboard_uevent keyboard.

(** The same keyboard as a node on bus 1 (PCI), which the builder
    does not handle. *)
Definition pci_uevent : string :=
  "HID_ID=0001:000005AC:00008242" ++ nl ++
  "HID_NAME=Keyboard" ++ nl ++
  "HID_UNIQ=abc" ++ nl.

Definition pci_keyboard : udev_device :=
  UdevDevice keyboard_syspath (Some "/dev/hidraw0")
             (Some (Some pci_uevent)) None None.

(** A uevent with two [HID_ID] lines. *)
Definition twice_uevent : string :=
  "HID_ID=0003:00000001:00000002" ++ nl ++
  "HID_ID=0003:00000003:00000004" ++ nl ++
  "HID_NAME=Keyboard" ++ nl ++
  "HID_UNIQ=abc" ++ nl.

Definition twice_keyboard : udev_device :=
  UdevDevice keyboard_syspath (Some "/dev/hidraw0")
             (Some (Some twice_uevent)) None None.

Definition twice_system : udev_env := system_of twice_uevent twice_keyboard.

(** An empty heap on which every allocation succeeds. *)
Definition empty_mem : mem := Mem [] [] None.

(** Two callbacks on a world that counts calls: the first asks to be
    deregistered, the second stays. *)
Definition sample_callbacks : list (hid_hotplug_callback nat) :=
  [HotplugCallback nat 1 0 0 3 0 (fun _ _ _ _ n => (1, S n));
   HotplugCallback nat 2 0 0 3 0 (fun _ _ _ _ n => (0, S n))].

Definition sample_info : hid_device_info :=
  DeviceInfo None 0x05AC 0x8242 None 0 None None 1 6 (-1) HID_API_BUS_USB.

End Sample.

(** ** Assertions about the heap, for the proofs *)

Section Assertions.
Local Open Scope string_scope.
Local Open Scope Z_scope.

(** [e] returns from [m], with a result and a memory that satisfy [Q]. *)
Definition wp {A : Type} (e : prog A) (Q : A -> mem -> Prop) (m : mem)
  : Prop :=
  exists a m', e m = Some (a, m') /\ Q a m'.

(** The memory holds the blocks [O] at distinct addresses, every
    allocation request will succeed, the global error string is inside
    the heap and is none of [O], and the heap has at least [lo] cells. *)
Definition owns (O : list (addr * block)) (lo : nat) (m : mem) : Prop :=
  oom m = []
  /\ NoDup (map fst O)
  /\ (forall a b, In (a, b) O -> load a m = Some b)
  /\ (forall g, last_global_error_str m = Some g ->
                (g < List.length (cells m))%nat /\ ~ In g (map fst O))
  /\ (lo <= List.length (cells m))%nat.

(** The block behind an optional string: none for NULL. *)
Definition cell_of (p : ptr) (e : option block) : list (addr * block) :=
  match p, e with
  | Some a, Some b => [(a, b)]
  | _, _ => []
  end.

(** The pointer is NULL exactly when there is no content. *)
Definition agree (p : ptr) (e : option block) : Prop :=
  match p, e with
  | Some _, Some _ | None, None => True
  | _, _ => False
  end.

(** A pointer that is NULL or at an address from [lo] on. *)
Definition fresh (lo : nat) (p : ptr) : Prop :=
  forall a, p = Some a -> (lo <= a)%nat.

(** The block [strdup] makes of an optional text. *)
Definition chars_of (s : option string) : option block :=
  option_map (fun x => Chars (Libc.c_str x)) s.

Section WithLocale.
Context {locale : Locale}.

(** The block [utf8_to_wchar_t] makes of an optional text. *)
Definition wide_of (s : option string) : option block :=
  option_map (fun x => Wide (widen x)) s.

End WithLocale.

(** The loop state of [parse_uevent_info] stands for the fields [f]:
    same numbers and flags, and the two strings owned in [O] at
    addresses from [lo] on. *)
Definition fields_rel (O : list (addr * block)) (lo : nat)
    (st : uevent_info) (f : uevent_fields) : Prop :=
  ui_bus_type st = uf_bus f /\ ui_vendor_id st = uf_vid f
  /\ ui_product_id st = uf_pid f
  /\ found_id st = uf_found_id f /\ found_serial st = uf_found_serial f
  /\ found_name st = uf_found_name f
  /\ agree (ui_serial_number_utf8 st) (chars_of (uf_serial f))
  /\ incl (cell_of (ui_serial_number_utf8 st) (chars_of (uf_serial f))) O
  /\ agree (ui_product_name_utf8 st) (chars_of (uf_name f))
  /\ incl (cell_of (ui_product_name_utf8 st) (chars_of (uf_name f))) O
  /\ fresh lo (ui_serial_number_utf8 st)
  /\ fresh lo (ui_product_name_utf8 st).

(** What [get_hid_report_descriptor_from_sysfs] returns. *)
Definition read_descriptor (files : string -> file_result)
    (sysfs_path : string) : Z * Z * list byte :=
  match files (Libc.c_str sysfs_path ++ "/device/report_descriptor") with
  | OpenFailed _ => (-1, 0, [])
  | ReadFailed _ => (-1, u32 (-1), [])
  | FileOk content =>
    let value := firstn (Z.to_nat HID_MAX_DESCRIPTOR_SIZE) content in
    (Z.of_nat (List.length value), u32 (Z.of_nat (List.length value)), value)
  end.

(** The record [d] stands for [r]: same numbers, and each string
    pointer is NULL exactly when [r] has no such string. *)
Definition record_rel (d : hid_device_info) (r : device_record) : Prop :=
  vendor_id d = r_vendor_id r /\ product_id d = r_product_id r
  /\ release_number d = r_release_number r
  /\ info_usage_page d = r_usage_page r /\ info_usage d = r_usage r
  /\ interface_number d = r_interface_number r
  /\ bus_type d = r_bus_type r
  /\ agree (path d) (option_map Chars (r_path r))
  /\ agree (serial_number d) (option_map Wide (r_serial_number r))
  /\ agree (manufacturer_string d) (option_map Wide (r_manufacturer_string r))
  /\ agree (product_string d) (option_map Wide (r_product_string r)).

(** The heap blocks of the strings of [d], the latest allocated first. *)
Definition cells_of (d : hid_device_info) (r : device_record)
  : list (addr * block) :=
  (cell_of (product_string d) (option_map Wide (r_product_string r))
   ++ cell_of (manufacturer_string d)
              (option_map Wide (r_manufacturer_string r))
   ++ cell_of (serial_number d) (option_map Wide (r_serial_number r))
   ++ cell_of (path d) (option_map Chars (r_path r)))%list.

(** The blocks of a list of records, the latest record first. *)
Fixpoint all_cells (ds : list hid_device_info) (rs : list device_record)
  : list (addr * block) :=
  match ds, rs with
  | d :: ds', r :: rs' => (all_cells ds' rs' ++ cells_of d r)%list
  | _, _ => []
  end.

(** Every string of the record is at an address from [lo] on. *)
Definition fresh_record (lo : nat) (d : hid_device_info) : Prop :=
  forall a, In a (string_addrs d) -> (lo <= a)%nat.

(** The numbers of a record other than its usage pair. *)
Definition other_numbers (d : hid_device_info) : Z * Z * Z * Z * hid_bus_type :=
  (vendor_id d, product_id d, release_number d, interface_number d,
   bus_type d).

(** The strings of a record, read out of the heap. *)
Definition strings_in (m : mem) (d : hid_device_info)
  : option string * option (list Z) * option (list Z) * option (list Z) :=
  (deref_chars m (path d), deref_wide m (serial_number d),
   deref_wide m (manufacturer_string d), deref_wide m (product_string d)).

(** The record passes the vendor/product filter [(v, p)]. *)
Definition matches_filter (v p : Z) (r : device_record) : bool :=
  hid_internal_match_device_id (r_vendor_id r) (r_product_id r) v p.

(** What one line contributes to the three flags. *)
Definition line_sets_id (line : string) : bool :=
  match Libc.strchr_split "=" line with
  | Some (key, value) => String.eqb key "HID_ID" && Libc.hid_id_parses value
  | None => false
  end.

End Assertions.

(** ** The pairs of a descriptor in one pass *)

Module ParserSpec.
Import Parser.

(** The byte with value [z mod 256]. *)
Definition byte_of_Z (z : Z) : byte :=
  match Byte.of_N (Z.to_N (z mod 256)) with
  | Some b => b
  | None => x00
  end.

(** The data bytes of an item that carries the number [v] in [n] bytes,
    least significant byte first (HID 1.11, 6.2.2.2). *)
Fixpoint le_bytes (n : nat) (v : Z) : list byte :=
  match n with
  | O => []
  | S n' => byte_of_Z v :: le_bytes n' (v / 256)
  end.

(** A reference scan, which the C code does not contain: one pass
    over the items from the cursor to the end of the buffer, which
    lists, at every Collection item that finds a Usage pending, the
    page and usage in force and, at the end, the page and usage in
    force if a Usage is pending and nothing was listed before.  The
    pairs that repeated calls of [get_next_hid_usage] yield are stated
    against it. *)
Fixpoint usage_pairs_scan_loop (fuel : nat) (d : list byte) (size : Z)
    (c : cursor) (pending emitted : bool) : list (Z * Z) :=
  match fuel with
  | O => []
  | S fuel' =>
    if pos c <? size then
      let key_cmd := Z.land (rd d (pos c)) 0xfc in
      let '(_, data_len, key_size) := get_hid_item_size d (pos c) size in
      let data := u16 (get_hid_report_bytes d size data_len (pos c)) in
      let emit := (key_cmd =? 0xa0) && pending in
      let rest :=
        usage_pairs_scan_loop fuel' d size
          (Cursor (u32 (pos c + (data_len + key_size)))
                  (if key_cmd =? 0x4 then data else usage_page c)
                  (if key_cmd =? 0x8 then data else usage c))
          (pending_after key_cmd pending) (emitted || emit) in
      if emit then (usage_page c, usage c) :: rest else rest
    else if negb emitted && pending then [(usage_page c, usage c)]
    else []
  end.

Definition usage_pairs_scan (d : list byte) : list (Z * Z) :=
  usage_pairs_scan_loop (S (List.length d)) d (descriptor_size d)
                        (Cursor 0 0 0) false false.

End ParserSpec.

(** ** Device handles *)

(** Wide strings in caller-provided buffers. *)
Module Wchar.

(** A wide string literal [L"..."] of ASCII characters. *)
Definition wide_literal (s : string) : list Z :=
  map (fun c => Z.of_N (N_of_ascii c)) (list_ascii_of_string s).

(** The wide C string held in a [wchar_t] buffer: the characters before
    the first [L'\0']. *)
Fixpoint wcs (buf : list Z) : list Z :=
  match buf with
  | [] => []
  | c :: rest => if c =? 0 then [] else c :: wcs rest
  end.

(** [wcsncpy(dst, src, n)]: exactly [n] characters are written, the
    string [src] followed by null characters.  [None]: the buffer has
    fewer than [n] characters. *)
Definition wcsncpy (dst src : list Z) (n : nat) : option (list Z) :=
  if (List.length dst <? n)%nat then None
  else Some (firstn n (wcs src ++ repeat 0 n) ++ skipn n dst).

(** [buf[i] = c].  [None]: [i] is outside the buffer. *)
Definition store (buf : list Z) (i : nat) (c : Z) : option (list Z) :=
  if (i <? List.length buf)%nat
  then Some (firstn i buf ++ c :: skipn (S i) buf)
  else None.

(** [wcscmp(a, b) == 0]. *)
Definition wcs_eqb (a b : list Z) : bool :=
  if list_eq_dec Z.eq_dec (wcs a) (wcs b) then true else false.

End Wchar.

(** Numbers of <errno.h> and <poll.h>. *)
Definition EINVAL : Z := 22.
Definition EAGAIN : Z := 11.
Definition EINPROGRESS : Z := 115.
Definition POLLERR : Z := 0x008.
Definition POLLHUP : Z := 0x010.
Definition POLLNVAL : Z := 0x020.

(** [struct hid_device_]; [device_info] is the list its pointer heads,
    empty for NULL. *)
Record hid_device : Type := HidDevice {
  device_handle : Z;
  blocking : Z;
  last_error_str : ptr;
  device_info : list hid_device_info
}.

Section Device.
Context {locale : Locale}.
(** [strerror]. *)
Variable strerror : Z -> string.
Local Open Scope string_scope.
Local Open Scope Z_scope.

(** [new_hid_device]: NULL when [calloc] fails. *)
Definition new_hid_device : prog (option hid_device) :=
  dev <- request ;;
  if dev : bool then ret (Some (HidDevice (-1) 1 None []))
  else ret None.

(** [register_device_error(dev, msg)]: the device with its new
    [last_error_str]. *)
Definition register_device_error (dev : hid_device) (msg : option string)
  : prog hid_device :=
  p <- register_error_str (last_error_str dev) msg ;;
  ret (HidDevice (device_handle dev) (blocking dev) p (device_info dev)).

(** [register_device_error_format(dev, format, ...)] for a message
    already rendered: [vsnprintf] into [char msg[256]] keeps 255
    characters. *)
Definition register_device_error_format (dev : hid_device) (rendered : string)
  : prog hid_device :=
  register_device_error dev (Some (Libc.copy_prefix 255 rendered)).

(** [hid_error(dev)]: the wide string the returned pointer points to;
    [dev] is [None] for NULL. *)
Definition hid_error (dev : option hid_device) : prog (list Z) :=
  match dev with
  | Some dev =>
    match last_error_str dev with
    | None => ret (Wchar.wide_literal "Success")
    | Some _ => read_wide (last_error_str dev)
    end
  | None =>
    fun m => match last_global_error_str m with
             | None => Some (Wchar.wide_literal "Success", m)
             | Some _ => read_wide (last_global_error_str m) m
             end
  end.

(** [create_device_info_for_hid_device].  [fstat]: [st_rdev] of the
    handle, [None] when [fstat] returns -1; [device_new_from_devnum]:
    [udev_device_new_from_devnum(udev, 'c', st_rdev)]. *)
Definition create_device_info_for_hid_device (env : udev_env)
    (fstat : option Z) (device_new_from_devnum : Z -> option udev_device)
    (dev : hid_device) : prog (list hid_device_info * hid_device) :=
  dev <- register_device_error dev None ;;
  match fstat with
  | None =>
    dev <- register_device_error dev (Some "Failed to stat device handle") ;;
    ret ([], dev)
  | Some st_rdev =>
    if negb (udev_new_ok env) then
      dev <- register_device_error dev (Some "Couldn't create udev context") ;;
      ret ([], dev)
    else
      root <-
        match device_new_from_devnum st_rdev with
        | Some udev_dev => create_device_info_for_device (files env) udev_dev
        | None => ret []
        end ;;
      match root with
      | [] =>
        dev <- register_device_error dev
                 (Some "Couldn't create hid_device_info") ;;
        ret (root, dev)
      | _ => ret (root, dev)
      end
  end.

(** [hid_get_device_info]: the list [dev->device_info] heads after the
    call, and the device. *)
Definition hid_get_device_info (env : udev_env)
    (fstat : option Z) (device_new_from_devnum : Z -> option udev_device)
    (dev : hid_device) : prog (list hid_device_info * hid_device) :=
  match device_info dev with
  | [] =>
    '(info, dev) <- create_device_info_for_hid_device
                      env fstat device_new_from_devnum dev ;;
    ret (info, HidDevice (device_handle dev) (blocking dev)
                         (last_error_str dev) info)
  | info => ret (info, dev)
  end.

(** The body shared, word for word, by [hid_get_manufacturer_string],
    [hid_get_product_string] and [hid_get_serial_number_string]; [field]
    is the member of the record that is copied.  [string] is the
    caller's buffer, [None] for NULL; the result carries its new
    content. *)
Definition hid_get_info_string (field : hid_device_info -> ptr)
    (env : udev_env) (fstat : option Z)
    (device_new_from_devnum : Z -> option udev_device)
    (dev : hid_device) (string : option (list Z)) (maxlen : Z)
  : prog (Z * hid_device * option (list Z)) :=
  match string with
  | None =>
    dev <- register_device_error dev (Some "Zero buffer/length") ;;
    ret (-1, dev, string)
  | Some buf =>
    if maxlen =? 0 then
      dev <- register_device_error dev (Some "Zero buffer/length") ;;
      ret (-1, dev, string)
    else
      '(info, dev) <- hid_get_device_info env fstat device_new_from_devnum
                                          dev ;;
      match info with
      | [] => ret (-1, dev, string)
      | info :: _ =>
        match field info with
        | Some _ =>
          src <- read_wide (field info) ;;
          buf <- lift (Wchar.wcsncpy buf src (Z.to_nat maxlen)) ;;
          buf <- lift (Wchar.store buf (Z.to_nat (maxlen - 1)) 0) ;;
          ret (0, dev, Some buf)
        | None =>
          buf <- lift (Wchar.store buf 0 0) ;;
          ret (0, dev, Some buf)
        end
      end
  end.

Definition hid_get_manufacturer_string :=
  hid_get_info_string manufacturer_string.

Definition hid_get_product_string :=
  hid_get_info_string product_string.

Definition hid_get_serial_number_string :=
  hid_get_info_string serial_number.

(** [hid_write]; [data] is [None] for NULL, [write] is what the call of
    [write] returns, with [errno]. *)
Definition hid_write (dev : hid_device) (data : option (list byte))
    (length : Z) (write : Z * Z) : prog (Z * hid_device) :=
  if match data with None => true | Some _ => false end || (length =? 0)
  then
    dev <- register_device_error dev (Some (strerror EINVAL)) ;;
    ret (-1, dev)
  else
    let '(res, errno) := write in
    let bytes_written := s32 res in
    dev <- register_device_error dev
             (if bytes_written =? -1 then Some (strerror errno) else None) ;;
    ret (bytes_written, dev).

(** The part of [hid_read_timeout] from the call of [read] on; [read]
    is what that call returns, with the bytes it stored and [errno]. *)
Definition hid_read_bytes (dev : hid_device) (read : Z * list byte * Z)
  : prog (Z * hid_device * list byte) :=
  let '(res, bytes, errno) := read in
  let bytes_read := s32 res in
  if bytes_read <? 0 then
    if (errno =? EAGAIN) || (errno =? EINPROGRESS)
    then ret (0, dev, bytes)
    else
      dev <- register_device_error dev (Some (strerror errno)) ;;
      ret (bytes_read, dev, bytes)
  else ret (bytes_read, dev, bytes).

(** [hid_read_timeout]: the return value, the device and the bytes
    stored in [data].  [poll] answers [poll(&fds, 1, milliseconds)] with
    its return value, [fds.revents] and [errno], if that call is
    made. *)
Definition hid_read_timeout (dev : hid_device) (milliseconds : Z)
    (poll : Z -> Z * Z * Z) (read : Z * list byte * Z)
  : prog (Z * hid_device * list byte) :=
  dev <- register_device_error dev None ;;
  if 0 <=? milliseconds then
    let '(ret_, revents, errno) := poll milliseconds in
    if ret_ =? 0 then ret (ret_, dev, [])
    else if ret_ =? -1 then
      dev <- register_device_error dev (Some (strerror errno)) ;;
      ret (ret_, dev, [])
    else if negb (Z.land revents (Z.lor (Z.lor POLLERR POLLHUP) POLLNVAL)
                  =? 0) then
      dev <- register_device_error dev
               (Some "hid_read_timeout: unexpected poll error (device disconnected)") ;;
      ret (-1, dev, [])
    else hid_read_bytes dev read
  else hid_read_bytes dev read.

(** [hid_read]. *)
Definition hid_read (dev : hid_device)
    (poll : Z -> Z * Z * Z) (read : Z * list byte * Z)
  : prog (Z * hid_device * list byte) :=
  hid_read_timeout dev (if blocking dev =? 0 then 0 else -1) poll read.

(** [hid_set_nonblocking]. *)
Definition hid_set_nonblocking (dev : hid_device) (nonblock : Z)
  : Z * hid_device :=
  (0, HidDevice (device_handle dev) (if nonblock =? 0 then 1 else 0)
                (last_error_str dev) (device_info dev)).

(** The body shared by [hid_send_feature_report], [hid_get_feature_report]
    and [hid_get_input_report], which differ in the request and in the
    name printed; [ioctl] is what the call returns, with [errno]. *)
Definition hid_report_ioctl (name : string) (dev : hid_device)
    (ioctl : Z * Z) : prog (Z * hid_device) :=
  dev <- register_device_error dev None ;;
  let '(res, errno) := ioctl in
  if res <? 0 then
    dev <- register_device_error_format dev
             ("ioctl (" ++ name ++ "): " ++ strerror errno) ;;
    ret (res, dev)
  else ret (res, dev).

Definition hid_send_feature_report := hid_report_ioctl "SFEATURE".
Definition hid_get_feature_report := hid_report_ioctl "GFEATURE".
Definition hid_get_input_report := hid_report_ioctl "GINPUT".

(** [hid_close] of a device that is not NULL; [free(dev)] is the end
    of the record. *)
Definition hid_close (dev : hid_device) : prog unit :=
  dev <- register_device_error dev None ;;
  hid_free_enumeration (device_info dev).

(** [hid_open_path].  [open] is what [open(path, O_RDWR | O_CLOEXEC)]
    returns, with [errno]; [grdescsize] what [ioctl(HIDIOCGRDESCSIZE)]
    returns, with [errno].  When that [ioctl] fails the C code closes
    and frees the device and then stores the error message through the
    freed pointer: the run leaves the model. *)
Definition hid_open_path (path : string) (open : Z * Z) (grdescsize : Z * Z)
  : prog (option hid_device) :=
  hid_init ;;;
  dev <- new_hid_device ;;
  match dev with
  | None =>
    register_global_error (Some "Couldn't allocate memory") ;;;
    ret None
  | Some dev =>
    let '(fd, errno) := open in
    let dev := HidDevice fd (blocking dev) (last_error_str dev)
                         (device_info dev) in
    if 0 <=? fd then
      let '(res, _) := grdescsize in
      if res <? 0 then hid_close dev ;;; stuck
      else ret (Some dev)
    else
      register_global_error_format
        ("Failed to open a device with path '" ++ path ++ "': "
         ++ strerror errno) ;;;
      ret None
  end.

(** The [while (cur_dev)] loop of [hid_open]: [path_to_open]. *)
Fixpoint path_to_open (vid pid : Z) (serial : option (list Z))
    (devs : list hid_device_info) : prog ptr :=
  match devs with
  | [] => ret None
  | cur_dev :: next =>
    if (vendor_id cur_dev =? vid) && (product_id cur_dev =? pid) then
      match serial with
      | Some wanted =>
        found <- read_wide (serial_number cur_dev) ;;
        if Wchar.wcs_eqb wanted found then ret (path cur_dev)
        else path_to_open vid pid serial next
      | None => ret (path cur_dev)
      end
    else path_to_open vid pid serial next
  end.

(** [hid_open]; [serial_number] is [None] for NULL, [open] and
    [grdescsize] answer the two system calls of [hid_open_path] for the
    path that is opened. *)
Definition hid_open (env : udev_env) (vid pid : Z)
    (serial : option (list Z))
    (open : string -> Z * Z) (grdescsize : string -> Z * Z)
  : prog (option hid_device) :=
  devs <- hid_enumerate env vid pid ;;
  match devs with
  | [] => ret None
  | _ =>
    p <- path_to_open vid pid serial devs ;;
    handle <-
      match p with
      | Some _ =>
        path <- read_chars p ;;
        hid_open_path path (open path) (grdescsize path)
      | None =>
        register_global_error
          (Some "Device with requested VID/PID/(SerialNumber) not found") ;;;
        ret None
      end ;;
    hid_free_enumeration devs ;;;
    ret handle
  end.

End Device.

(** ** Further assertions about the heap *)

Section MoreAssertions.

(** The heap after [free] of each address in turn. *)
Definition clear_cells (l : list addr) (cs : list (option block))
  : list (option block) :=
  fold_left (fun cs a => clear_cell a cs) l cs.

(** The strings of a record in the order [hid_free_enumeration] frees
    them. *)
Definition free_order (d : hid_device_info) : list addr :=
  (ptr_addrs (path d) ++ ptr_addrs (serial_number d)
   ++ ptr_addrs (manufacturer_string d) ++ ptr_addrs (product_string d))%list.

(** No entry of the hidraw list is a device whose "hid" parent lacks
    the [uevent] attribute ([parse_uevent_info] would be handed NULL). *)
Definition uevent_attrs_present (env : udev_env) : Prop :=
  forall sysfs_path raw_dev,
    In (Some sysfs_path) (hidraw_entries env) ->
    device_new_from_syspath env sysfs_path = Some raw_dev ->
    hid_parent raw_dev <> Some None.

End MoreAssertions.

Section HotplugAssertions.
Variable world : Type.
Local Open Scope Z_scope.

(** The handles in the callback list are distinct, positive and below
    the handle counter, which is a positive [int]. *)
Definition handles_below (ctx : hid_hotplug_context world) : Prop :=
  NoDup (map (handle world) (hotplug_cbs world ctx))
  /\ Forall (fun cb => 0 < handle world cb < next_handle world ctx)
            (hotplug_cbs world ctx)
  /\ 0 < next_handle world ctx < 2 ^ 31.

(** The arguments pass the parameter check of
    [hid_hotplug_register_callback]. *)
Definition valid_registration (events flags : Z) : Prop :=
  (events = HID_API_HOTPLUG_EVENT_DEVICE_ARRIVED
   \/ events = HID_API_HOTPLUG_EVENT_DEVICE_LEFT
   \/ events = Z.lor HID_API_HOTPLUG_EVENT_DEVICE_ARRIVED
                     HID_API_HOTPLUG_EVENT_DEVICE_LEFT)
  /\ (flags = 0 \/ flags = HID_API_HOTPLUG_ENUMERATE).


End HotplugAssertions.

Section DeviceAssertions.
Local Open Scope Z_scope.

(** What a string getter leaves in the caller's buffer [buf] of
    [maxlen] characters: nothing is written from index [maxlen] on; on
    -1 nothing is written at all; on 0 the buffer holds, terminated,
    the first [maxlen - 1] characters of the string [field] of the
    first record of the device (the empty string if that is NULL). *)
Definition string_fits (field : hid_device_info -> ptr) (buf : list Z)
    (maxlen : Z) (r : Z) (dev' : hid_device) (out : option (list Z))
    (m' : mem) : Prop :=
  exists buf',
    out = Some buf'
    /\ List.length buf' = List.length buf
    /\ skipn (Z.to_nat maxlen) buf' = skipn (Z.to_nat maxlen) buf
    /\ (r = 0 \/ r = -1)
    /\ (r = -1 -> buf' = buf)
    /\ (r = 0 ->
        exists info rest,
          device_info dev' = info :: rest
          /\ Wchar.wcs buf'
             = firstn (Z.to_nat (maxlen - 1))
                      (match deref_wide m' (field info) with
                       | Some w => Wchar.wcs w
                       | None => []
                       end)
          /\ Z.of_nat (List.length (Wchar.wcs buf')) < maxlen).

(** The record [hid_open] looks for: vendor and product equal to the
    arguments as they are (0 included), and the serial number equal to
    the one given, if one is given. *)
Definition wanted_record (vid pid : Z) (serial : option (list Z))
    (r : device_record) : bool :=
  (r_vendor_id r =? vid) && (r_product_id r =? pid)
  && match serial with
     | Some wanted =>
       match r_serial_number r with
       | Some found => Wchar.wcs_eqb wanted found
       | None => false
       end
     | None => true
     end.

End DeviceAssertions.

Section LeakAssertions.

(** Every live cell from address [lo] on is one of [A] or the global
    error string: nothing else allocated since the heap had [lo] cells
    is still allocated. *)
Definition bounded (A : list addr) (lo : nat) (m : mem) : Prop :=
  (lo <= List.length (cells m))%nat
  /\ forall a, (lo <= a)%nat -> load a m <> None ->
               In a A \/ last_global_error_str m = Some a.

(** The lines hold the key [k] at most once, and not at all when the
    destination [p] of its value is already set. *)
Definition key_fits (k : string) (lines : list string) (p : ptr) : Prop :=
  (List.length (filter (line_has_key k) lines)
   <= match p with None => 1 | Some _ => 0 end)%nat.

(** The uevent attribute of every "hid" parent in the hidraw list is
    there, and has at most one [HID_NAME] and one [HID_UNIQ] line among
    the lines that are read. *)
Definition uevent_keys_unique (env : udev_env) : Prop :=
  forall sysfs_path raw_dev,
    In (Some sysfs_path) (hidraw_entries env) ->
    device_new_from_syspath env sysfs_path = Some raw_dev ->
    match hid_parent raw_dev with
    | None => True
    | Some None => False
    | Some (Some uevent) =>
      key_fits "HID_NAME" (uevent_lines uevent) None
      /\ key_fits "HID_UNIQ" (uevent_lines uevent) None
    end.

End LeakAssertions.

Section DeviceLeakAssertions.

(** The heap blocks a device holds: its error string and the strings
    of its device-info records. *)
Definition device_addrs (dev : hid_device) : list addr :=
  (ptr_addrs (last_error_str dev)
   ++ flat_map string_addrs (device_info dev))%list.

(** The node behind a device handle, if it has a "hid" parent, has a
    uevent attribute with at most one [HID_NAME] and one [HID_UNIQ]
    line among the lines that are read. *)
Definition node_keys_unique (fstat : option Z)
    (device_new_from_devnum : Z -> option udev_device) : Prop :=
  forall st_rdev raw_dev,
    fstat = Some st_rdev ->
    device_new_from_devnum st_rdev = Some raw_dev ->
    match hid_parent raw_dev with
    | Some (Some uevent) =>
      key_fits "HID_NAME" (uevent_lines uevent) None
      /\ key_fits "HID_UNIQ" (uevent_lines uevent) None
    | _ => True
    end.

Section NodeRecords.
Context {locale : Locale}.

(** The records of the node behind a device handle, as
    [create_device_info_for_hid_device] finds it. *)
Definition node_records (env : udev_env) (fstat : option Z)
    (device_new_from_devnum : Z -> option udev_device)
  : list device_record :=
  match fstat with
  | Some st_rdev =>
    if udev_new_ok env then
      match device_new_from_devnum st_rdev with
      | Some raw_dev => device_records (files env) raw_dev
      | None => []
      end
    else []
  | None => []
  end.

End NodeRecords.

(** The node behind a device handle, if there is one, is not one whose
    "hid" parent lacks a uevent attribute. *)
Definition node_attr_present (fstat : option Z)
    (device_new_from_devnum : Z -> option udev_device) : Prop :=
  forall st_rdev raw_dev,
    fstat = Some st_rdev ->
    device_new_from_devnum st_rdev = Some raw_dev ->
    hid_parent raw_dev <> Some None.

End DeviceLeakAssertions.

(** ** More samples *)

Module DeviceSample.
Local Open Scope string_scope.
Local Open Scope Z_scope.

(** A callback that counts its calls and stays registered. *)
Definition counting_callback : hid_hotplug_callback_fn nat :=
  fun _ _ _ _ n => (0, S n).

(** The hotplug context while the two sample callbacks are registered. *)
Definition armed_context : hid_hotplug_context nat :=
  HotplugContext nat 1 1 5 1 3 Sample.sample_callbacks [].




(** The device [hid_open_path] returns for descriptor 3. *)
Definition opened_device : hid_device := HidDevice 3 1 None [].

(** A [strerror] that knows [EIO]. *)
Definition numbered_strerror (errnum : Z) : string :=
  if errnum =? 5 then "Input/output error" else "Unknown error".

(** The character device number of the keyboard node. *)
Definition keyboard_devnum (st_rdev : Z) : option udev_device :=
  if st_rdev =? 0xf700 then Some Sample.keyboard else None.

End DeviceSample.

(** * Properties *)

(** ** Descriptor parser *)

Module ParserFacts.
Import Parser.

Lemma rd_range (d : list byte) (i : Z) : 0 <= rd d i <= 255.
Proof.
  unfold rd. generalize (nth (Z.to_nat i) d x00). intros b.
  pose proof (Byte.to_N_bounded b) as H. lia.
Qed.

(** Every key is sized as an item: the short-item code has no failing
    branch that can be reached. *)
Lemma short_item_size_ok (key : Z) :
  0 <= key ->
  exists data_len, short_item_size key = (1, data_len, 1)
                   /\ 0 <= data_len <= 4.
Proof.
  intros Hk. unfold short_item_size.
  assert (Hm : Z.land key 3 = key mod 4)
    by (change 3 with (Z.ones 2); rewrite Z.land_ones by lia; reflexivity).
  rewrite Hm.
  pose proof (Z.mod_pos_bound key 4 ltac:(lia)) as Hb.
  destruct (key mod 4 =? 0) eqn:E0; simpl.
  { exists (key mod 4). split; [reflexivity | lia]. }
  destruct (key mod 4 =? 1) eqn:E1; simpl.
  { exists (key mod 4). split; [reflexivity | lia]. }
  destruct (key mod 4 =? 2) eqn:E2; simpl.
  { exists (key mod 4). split; [reflexivity | lia]. }
  assert (E3 : (key mod 4 =? 3) = true) by lia.
  rewrite E3. exists 4. split; [reflexivity | lia].
Qed.

Lemma get_hid_item_size_ok (d : list byte) (p size : Z) :
  exists data_len key_size,
    get_hid_item_size d p size = (1, data_len, key_size)
    /\ 0 <= data_len <= 255 /\ (key_size = 1 \/ key_size = 3).
Proof.
  unfold get_hid_item_size.
  pose proof (rd_range d p) as Hk.
  destruct (short_item_size_ok (rd d p) ltac:(lia)) as (dl & Hs & Hdl).
  destruct (Z.land (rd d p) 240 =? 240).
  - destruct (u32 (p + 1) <? size).
    + exists (rd d (p + 1)), 3. pose proof (rd_range d (p + 1)). auto.
    + exists dl, 1. rewrite Hs. repeat split; lia.
  - exists dl, 1. rewrite Hs. repeat split; lia.
Qed.

Lemma usage_switch_pos d size key_cmd data_len c uf c1 uf1 ready :
  usage_switch d size key_cmd data_len c uf = (c1, uf1, ready) ->
  pos c1 = pos c.
Proof.
  unfold usage_switch.
  repeat match goal with
         | |- context [if ?b then _ else _] => destruct b
         end; intros H; inversion H; subst; reflexivity.
Qed.

Lemma u32_small (z : Z) : 0 <= z < 2 ^ 32 -> u32 z = z.
Proof. intros H. unfold u32. apply Z.mod_small. exact H. Qed.

(** The loop ends: with the descriptor at most [2^32 - 259] bytes long
    the cursor cannot wrap, every pass moves it forward, and
    [size - pos] passes and a last test exhaust the buffer. *)
Lemma loop_terminates (fuel : nat) :
  forall d size initial c uf,
    size <= 2 ^ 32 - 259 -> 0 <= pos c ->
    (Z.to_nat (size - pos c) < fuel)%nat ->
    exists r c',
      get_next_hid_usage_loop fuel d size initial c uf = Some (r, c')
      /\ (r = 0 \/ r = 1) /\ pos c <= pos c'.
Proof.
  induction fuel as [|fuel IH]; intros d size initial c uf Hs Hp Hf; [lia|].
  simpl. destruct (pos c <? size) eqn:E.
  - apply Z.ltb_lt in E.
    destruct (get_hid_item_size_ok d (pos c) size) as (dl & ks & Hi & Hdl & Hks).
    rewrite Hi. simpl.
    destruct (usage_switch d size (Z.land (rd d (pos c)) 252) dl c uf)
      as [[c1 uf1] ready] eqn:Hsw.
    pose proof (usage_switch_pos _ _ _ _ _ _ _ _ _ Hsw) as Hp1.
    rewrite Hp1.
    assert (Hadv : u32 (pos c + (dl + ks)) = pos c + (dl + ks))
      by (apply u32_small; lia).
    rewrite Hadv.
    destruct ready.
    + eexists _, _. split; [reflexivity|]. simpl. split; [auto | lia].
    + destruct (IH d size initial
                   (Cursor (pos c + (dl + ks)) (usage_page c1) (usage c1)) uf1)
        as (r & c' & Hr & Hrr & Hpp); simpl; try lia.
      exists r, c'. split; [exact Hr|]. split; [exact Hrr | simpl in Hpp; lia].
  - destruct (initial && uf); eexists _, _; (split; [reflexivity|]);
      split; auto; lia.
Qed.

(** More fuel does not change a result. *)
Lemma loop_fuel_mono (fuel : nat) :
  forall fuel' d size initial c uf x,
    (fuel <= fuel')%nat ->
    get_next_hid_usage_loop fuel d size initial c uf = Some x ->
    get_next_hid_usage_loop fuel' d size initial c uf = Some x.
Proof.
  induction fuel as [|fuel IH]; intros fuel' d size initial c uf x Hle H;
    [discriminate|].
  destruct fuel' as [|fuel']; [lia|].
  simpl in *. destruct (pos c <? size); [|exact H].
  destruct (get_hid_item_size d (pos c) size) as [[ok dl] ks].
  destruct (ok =? 0); [exact H|].
  destruct (usage_switch d size (Z.land (rd d (pos c)) 252) dl c uf)
    as [[c1 uf1] ready].
  destruct ready; [exact H|].
  apply IH; [lia | exact H].
Qed.

Lemma usage_switch_flags d size k data_len c uf c1 uf1 ready :
  usage_switch d size k data_len c uf = (c1, uf1, ready) ->
  uf1 = pending_after k uf /\ ready = ((k =? 0xa0) && uf).
Proof.
  unfold usage_switch, pending_after, is_main_item.
  destruct (k =? 4) eqn:E4; [apply Z.eqb_eq in E4; subst k; simpl;
    intros H; inversion H; subst; auto|].
  destruct (k =? 8) eqn:E8; [apply Z.eqb_eq in E8; subst k; simpl;
    intros H; inversion H; subst; auto|].
  destruct (k =? 160) eqn:Ea; [simpl; intros H; inversion H; subst; auto|].
  simpl.
  destruct ((k =? 128) || (k =? 144) || (k =? 176) || (k =? 192));
    intros H; inversion H; subst; auto.
Qed.

(** A call that starts at or past the end of the buffer, after some
    item was walked, reports "finished" and leaves the cursor alone. *)
Lemma finished_stays_finished d size c :
  size <= pos c -> get_next_hid_usage d size c = Some (1, c).
Proof.
  intros H. unfold get_next_hid_usage. simpl.
  assert (E : (pos c <? size) = false) by lia. rewrite E.
  rewrite andb_false_r. reflexivity.
Qed.

(** What the loop returns when no Collection item finds a Usage
    pending: it runs to the end of the buffer and answers from
    [initial] and the pending flag alone. *)
Lemma loop_at_end (fuel : nat) :
  forall d size initial c uf,
    size <= 2 ^ 32 - 259 -> 0 <= pos c ->
    (Z.to_nat (size - pos c) < fuel)%nat ->
    collection_with_usage uf (item_keys_loop fuel d size (pos c)) = false ->
    exists c',
      get_next_hid_usage_loop fuel d size initial c uf
      = Some (if initial
                 && usage_pending uf (item_keys_loop fuel d size (pos c))
              then 0 else 1, c')
      /\ size <= pos c'.
Proof.
  induction fuel as [|fuel IH]; intros d size initial c uf Hs Hp Hf Hc; [lia|].
  simpl in *. destruct (pos c <? size) eqn:E.
  - apply Z.ltb_lt in E.
    destruct (get_hid_item_size_ok d (pos c) size) as (dl & ks & Hi & Hdl & Hks).
    rewrite Hi in *. simpl in *.
    destruct (usage_switch d size (Z.land (rd d (pos c)) 252) dl c uf)
      as [[c1 uf1] ready] eqn:Hsw.
    pose proof (usage_switch_pos _ _ _ _ _ _ _ _ _ Hsw) as Hp1.
    destruct (usage_switch_flags _ _ _ _ _ _ _ _ _ Hsw) as [Huf Hready].
    rewrite Hp1.
    assert (Hadv : u32 (pos c + (dl + ks)) = pos c + (dl + ks))
      by (apply u32_small; lia).
    rewrite Hadv in *.
    destruct ((Z.land (rd d (pos c)) 252 =? 160) && uf) eqn:Er;
      [discriminate|].
    subst ready uf1.
    destruct (IH d size initial
                 (Cursor (pos c + (dl + ks)) (usage_page c1) (usage c1))
                 (pending_after (Z.land (rd d (pos c)) 252) uf))
      as (c' & Hr & Hpp); simpl; try lia; [exact Hc|].
    exists c'. split; [exact Hr | exact Hpp].
  - simpl. exists c. split; [destruct (initial && uf); reflexivity | lia].
Qed.

(** The loop answers 1 only at or past the end of the buffer. *)
Lemma loop_one_at_end (fuel : nat) :
  forall d size initial c uf c',
    get_next_hid_usage_loop fuel d size initial c uf = Some (1, c') ->
    size <= pos c'.
Proof.
  induction fuel as [|fuel IH]; intros d size initial c uf c' H;
    [discriminate|].
  simpl in H. destruct (pos c <? size) eqn:E.
  - destruct (get_hid_item_size d (pos c) size) as [[ok dl] ks].
    destruct (ok =? 0); [discriminate|].
    destruct (usage_switch d size (Z.land (rd d (pos c)) 252) dl c uf)
      as [[c1 uf1] ready].
    destruct ready; [discriminate|].
    eapply IH. exact H.
  - destruct (initial && uf); inversion H; subst. lia.
Qed.

(** The cursor never moves back. *)
Lemma loop_pos_mono (fuel : nat) :
  forall d size initial c uf r c',
    size <= 2 ^ 32 - 259 -> 0 <= pos c ->
    get_next_hid_usage_loop fuel d size initial c uf = Some (r, c') ->
    pos c <= pos c'.
Proof.
  induction fuel as [|fuel IH]; intros d size initial c uf r c' Hs Hp H;
    [discriminate|].
  simpl in H. destruct (pos c <? size) eqn:E.
  - apply Z.ltb_lt in E.
    destruct (get_hid_item_size_ok d (pos c) size) as (dl & ks & Hi & Hdl & Hks).
    rewrite Hi in H. simpl in H.
    destruct (usage_switch d size (Z.land (rd d (pos c)) 252) dl c uf)
      as [[c1 uf1] ready] eqn:Hsw.
    pose proof (usage_switch_pos _ _ _ _ _ _ _ _ _ Hsw) as Hp1.
    rewrite Hp1 in H.
    assert (Hadv : u32 (pos c + (dl + ks)) = pos c + (dl + ks))
      by (apply u32_small; lia).
    rewrite Hadv in H.
    destruct ready.
    + inversion H; subst. simpl. lia.
    + apply IH in H; simpl in *; lia.
  - destruct (initial && uf); inversion H; subst; lia.
Qed.

(** A call that answers 0 from a fresh [usage_found] has walked at
    least one item: the cursor was inside the buffer and has moved
    forward. *)
Lemma loop_zero_advances (fuel : nat) d size initial c c' :
  size <= 2 ^ 32 - 259 -> 0 <= pos c ->
  get_next_hid_usage_loop fuel d size initial c false = Some (0, c') ->
  pos c < pos c' /\ pos c < size.
Proof.
  intros Hs Hp H. destruct fuel as [|fuel]; [discriminate|].
  simpl in H. destruct (pos c <? size) eqn:E.
  - apply Z.ltb_lt in E. split; [|exact E].
    destruct (get_hid_item_size_ok d (pos c) size) as (dl & ks & Hi & Hdl & Hks).
    rewrite Hi in H. simpl in H.
    destruct (usage_switch d size (Z.land (rd d (pos c)) 252) dl c false)
      as [[c1 uf1] ready] eqn:Hsw.
    pose proof (usage_switch_pos _ _ _ _ _ _ _ _ _ Hsw) as Hp1.
    rewrite Hp1 in H.
    assert (Hadv : u32 (pos c + (dl + ks)) = pos c + (dl + ks))
      by (apply u32_small; lia).
    rewrite Hadv in H.
    destruct ready.
    + inversion H; subst. simpl. lia.
    + apply loop_pos_mono in H; simpl in *; lia.
  - rewrite andb_false_r in H. discriminate.
Qed.

(** [get_next_hid_usage] on a buffer of at most
    [HID_MAX_DESCRIPTOR_SIZE] bytes: it returns 0 or 1; with 0 the
    cursor was inside the buffer and has moved forward, with 1 it is
    at or past the end. *)
Lemma get_next_hid_usage_total d size c :
  0 <= size <= HID_MAX_DESCRIPTOR_SIZE -> 0 <= pos c ->
  exists r c',
    get_next_hid_usage d size c = Some (r, c')
    /\ ((r = 0 /\ pos c < pos c' /\ pos c < size)
        \/ (r = 1 /\ size <= pos c')).
Proof.
  unfold HID_MAX_DESCRIPTOR_SIZE. intros Hs Hp. unfold get_next_hid_usage.
  destruct (loop_terminates (S (Z.to_nat size)) d size (pos c =? 0) c false)
    as (r & c' & Hr & [Hr0|Hr1] & _); try lia.
  - subst r. exists 0, c'. split; [exact Hr|]. left. split; [reflexivity|].
    eapply loop_zero_advances; [| |exact Hr]; lia.
  - subst r. exists 1, c'. split; [exact Hr|]. right. split; [reflexivity|].
    eapply loop_one_at_end. exact Hr.
Qed.

(** Driving the parser: more fuel does not change a result. *)
Lemma hid_usage_pairs_from_mono (fuel : nat) :
  forall fuel' d size c x,
    (fuel <= fuel')%nat ->
    hid_usage_pairs_from fuel d size c = Some x ->
    hid_usage_pairs_from fuel' d size c = Some x.
Proof.
  induction fuel as [|fuel IH]; intros fuel' d size c x Hle H;
    [discriminate|].
  destruct fuel' as [|fuel']; [lia|].
  simpl in *. destruct (get_next_hid_usage d size c) as [[r c']|];
    [|discriminate].
  destruct (r =? 0); [|exact H].
  destruct (hid_usage_pairs_from fuel d size c') as [[ps final]|] eqn:E;
    [|discriminate].
  rewrite (IH fuel' d size c' (ps, final)); [exact H | lia | exact E].
Qed.

(** Driving the parser ends with 1 once there is fuel for every byte
    left. *)
Lemma hid_usage_pairs_from_total (fuel : nat) :
  forall d size c,
    0 <= size <= HID_MAX_DESCRIPTOR_SIZE -> 0 <= pos c ->
    (Z.to_nat (size - pos c) < fuel)%nat ->
    exists pairs, hid_usage_pairs_from fuel d size c = Some (pairs, 1).
Proof.
  induction fuel as [|fuel IH]; intros d size c Hs Hp Hf; [lia|].
  simpl.
  destruct (get_next_hid_usage_total d size c Hs Hp)
    as (r & c' & Hg & [(Hr & Hadv & Hin)|(Hr & Hend)]); subst r;
    rewrite Hg; simpl.
  - destruct (IH d size c' Hs) as (pairs & Hd); [lia | lia|].
    rewrite Hd. eexists. reflexivity.
  - eexists. reflexivity.
Qed.

End ParserFacts.

Section ParserClaims.
Import Parser ParserFacts.

(** C1 (the code departs from the specification).  A long-item key whose
    length byte lies past the end of the buffer is not reported as
    malformed: [get_hid_item_size] sizes it as a short item and returns
    1, as it does for every key at every position.  On the descriptor
    [F0] the parser therefore returns 1 ("finished"), not -1; on
    [09 02 F0] it even emits the pair (0, 2) before finishing. *)
Theorem truncated_long_item_not_malformed :
  get_hid_item_size [xf0] 0 1 = (1, 0, 1)
  /\ get_next_hid_usage [xf0] 1 (Cursor 0 0 0) = Some (1, Cursor 1 0 0)
  /\ hid_usage_pairs [x09; x02; xf0] = Some ([(0, 2)], 1)
  /\ forall d p size, fst (fst (get_hid_item_size d p size)) = 1.
Proof.
  split; [vm_compute; reflexivity|].
  split; [vm_compute; reflexivity|].
  split; [vm_compute; reflexivity|].
  intros d p size.
  destruct (get_hid_item_size_ok d p size) as (dl & ks & H & _).
  rewrite H. reflexivity.
Qed.

(** C3.  Driven from [pos = 0] until it returns non-zero, the parser
    yields exactly the pair (0x0001, 0x0002) on 05 01 09 02 A1 01 C0,
    and exactly the pairs (0x0001, 0x0006) then (0x000C, 0x0001) on
    05 01 09 06 A1 01 05 0C 09 01 A1 02 C0 C0; both runs end with the
    return value 1. *)
Theorem usage_pairs_of_mouse_and_keyboard :
  hid_usage_pairs [x05; x01; x09; x02; xa1; x01; xc0]
  = Some ([(0x0001, 0x0002)], 1)
  /\ hid_usage_pairs [x05; x01; x09; x06; xa1; x01; x05; x0c; x09; x01;
                      xa1; x02; xc0; xc0]
     = Some ([(0x0001, 0x0006); (0x000C, 0x0001)], 1).
Proof. split; vm_compute; reflexivity. Qed.

(** C10.  For every descriptor of at most [no_wrap_size] bytes (which
    includes every buffer of [HID_MAX_DESCRIPTOR_SIZE] bytes) and every
    starting position, [get_next_hid_usage] terminates: every item is
    sized with success, [key_size] 1 or 3 and a non-negative
    [data_len], so each pass of the loop moves the cursor strictly
    forward; [size - pos + 1] units of fuel always suffice, the result
    does not depend on the fuel, and the cursor never moves back. *)
Theorem get_next_hid_usage_terminates (d : list byte) (size : Z) (c : cursor) :
  0 <= size <= no_wrap_size ->
  0 <= pos c < 2 ^ 32 ->
  (forall p, 0 <= p < size ->
     exists data_len key_size,
       get_hid_item_size d p size = (1, data_len, key_size)
       /\ (key_size = 1 \/ key_size = 3) /\ 0 <= data_len
       /\ p < u32 (p + (data_len + key_size)))
  /\ exists r c',
       get_next_hid_usage d size c = Some (r, c')
       /\ (forall fuel, (Z.to_nat (size - pos c) < fuel)%nat ->
             get_next_hid_usage_loop fuel d size (pos c =? 0) c false
             = Some (r, c'))
       /\ (r = 0 \/ r = 1) /\ pos c <= pos c'.
Proof.
  unfold no_wrap_size. intros Hs Hp. split.
  - intros p Hpp.
    destruct (get_hid_item_size_ok d p size) as (dl & ks & H & Hdl & Hks).
    exists dl, ks. split; [exact H|]. split; [exact Hks|]. split; [lia|].
    rewrite u32_small; lia.
  - destruct (loop_terminates (S (Z.to_nat (size - pos c))) d size
                (pos c =? 0) c false) as (r & c' & Hr & Hrr & Hpp);
      try lia.
    exists r, c'. split.
    + unfold get_next_hid_usage.
      apply (loop_fuel_mono (S (Z.to_nat (size - pos c)))); [lia | exact Hr].
    + split; [|split; assumption].
      intros fuel Hf.
      apply (loop_fuel_mono (S (Z.to_nat (size - pos c)))); [lia | exact Hr].
Qed.

Lemma get_next_hid_usage_terminates_witness :
  exists r c',
    get_next_hid_usage [x05; x01; x09; x02; xa1; x01; xc0] 7 (Cursor 0 0 0)
    = Some (r, c') /\ pos c' = 6.
Proof.
  destruct (get_next_hid_usage_terminates
              [x05; x01; x09; x02; xa1; x01; xc0] 7 (Cursor 0 0 0))
    as [_ (r & c' & H & _)].
  - unfold no_wrap_size. lia.
  - simpl. lia.
  - exists r, c'. split; [exact H|].
    vm_compute in H. inversion H. reflexivity.
Defined.

(** C4 (the code departs from the specification).  The emission at the
    end of the descriptor is there for descriptors in which no
    top-level collection is found (the comments on [initial] and on the
    last test of [get_next_hid_usage]), and the claim asks for a Usage
    item seen before any Collection item.  The code tests only
    [initial && usage_found], and neither flag records a Collection
    item.  On A1 01 09 02 (Collection, Usage) the only Usage item comes
    after a Collection item and no item precedes that Collection; yet
    the first call returns 0 with the pair (0, 2) in the cursor, and
    the parser driven to the end yields that pair.  The same happens on
    05 01 A1 01 C0 09 02, where a complete collection without a usage
    is followed by a Usage item: the pair (1, 2) is yielded. *)
Theorem pair_emitted_though_collection_seen :
  (item_keys [xa1; x01; x09; x02] 4 0 = [0xa0; 0x08]
   /\ usage_before_any_collection [0xa0; 0x08] = false
   /\ get_next_hid_usage [xa1; x01; x09; x02] 4 (Cursor 0 0 0)
      = Some (0, Cursor 4 0 2)
   /\ hid_usage_pairs [xa1; x01; x09; x02] = Some ([(0, 2)], 1))
  /\ (item_keys [x05; x01; xa1; x01; xc0; x09; x02] 7 0
      = [0x04; 0xa0; 0xc0; 0x08]
      /\ usage_before_any_collection [0x04; 0xa0; 0xc0; 0x08] = false
      /\ get_next_hid_usage [x05; x01; xa1; x01; xc0; x09; x02] 7
                            (Cursor 0 0 0)
         = Some (0, Cursor 7 1 2)
      /\ hid_usage_pairs [x05; x01; xa1; x01; xc0; x09; x02]
         = Some ([(1, 2)], 1)).
Proof. repeat split; vm_compute; reflexivity. Qed.

(** In the other direction the claim asks for more than the code is
    written to do: on 09 02 81 00 (Usage, Input) a Usage item is seen
    and there is no Collection item, yet the call returns 1, because
    the Input item, a Main item, consumes the Usage ("Usage is a Local
    Item, unset it"). *)
Lemma usage_consumed_before_the_end :
  item_keys [x09; x02; x81; x00] 4 0 = [0x08; 0x80]
  /\ usage_before_any_collection [0x08; 0x80] = true
  /\ collection_with_usage false [0x08; 0x80] = false
  /\ get_next_hid_usage [x09; x02; x81; x00] 4 (Cursor 0 0 0)
     = Some (1, Cursor 4 0 2).
Proof. repeat split; vm_compute; reflexivity. Qed.

(** The rule the code applies.  On a descriptor of at most
    [no_wrap_size] bytes: when no Collection item of the call finds a
    Usage pending, the call runs to the end of the descriptor and
    returns 0 exactly when it started at [pos = 0] and a Usage item is
    pending at the end (seen, with no Collection, Input, Output,
    Feature or End Collection item after it), whether or not a
    Collection item was met; otherwise it returns 1.  The cursor is
    then at or past the end, and the next call returns 1 and changes
    nothing.  On the empty descriptor the first call returns 1. *)
Lemma end_of_descriptor_rule (d : list byte) (size : Z) (c : cursor) :
  0 <= size <= no_wrap_size ->
  0 <= pos c < 2 ^ 32 ->
  collection_with_usage false (item_keys d size (pos c)) = false ->
  (exists c',
     get_next_hid_usage d size c
     = Some (if (pos c =? 0)
                && usage_pending false (item_keys d size (pos c))
             then 0 else 1, c')
     /\ size <= pos c'
     /\ get_next_hid_usage d size c' = Some (1, c'))
  /\ get_next_hid_usage [] 0 (Cursor 0 0 0) = Some (1, Cursor 0 0 0).
Proof.
  unfold no_wrap_size. intros Hs Hp Hc.
  split; [|vm_compute; reflexivity].
  destruct (loop_at_end (S (Z.to_nat size)) d size (pos c =? 0) c false)
    as (c' & Hr & Hpp); try lia; [exact Hc|].
  exists c'. split; [exact Hr|]. split; [exact Hpp|].
  apply finished_stays_finished. exact Hpp.
Qed.

End ParserClaims.

(** ** Hotplug dispatch *)

Section DispatchFacts.
Variable world : Type.
Implicit Types (cbs : list (hid_hotplug_callback world)) (w : world).

Local Notation "'invoke'" := (hid_internal_invoke_callbacks world).
Local Notation "'handles'" := (map (handle world)).

(** One step of dispatch, by cases on the head callback. *)
Lemma invoke_cons cb cbs info event w :
  invoke (cb :: cbs) info event w =
  if callback_matches world info event cb then
    let '(result, w1) :=
      callback world cb (handle world cb) info event (user_data world cb) w in
    let '(rest, w2, calls) := invoke cbs info event w1 in
    if negb (result =? 0)
    then (rest, w2, (handle world cb, result) :: calls)
    else (cb :: rest, w2, (handle world cb, result) :: calls)
  else
    let '(rest, w2, calls) := invoke cbs info event w in
    (cb :: rest, w2, calls).
Proof. reflexivity. Qed.

(** Induction over dispatch: the three ways the head callback is
    treated. *)
Lemma invoke_ind
    (P : list (hid_hotplug_callback world) -> world ->
         list (hid_hotplug_callback world) -> world -> list call -> Prop)
    info event :
  (forall w, P [] w [] w []) ->
  (forall cb cbs w rest w2 calls,
      callback_matches world info event cb = false ->
      invoke cbs info event w = (rest, w2, calls) ->
      P cbs w rest w2 calls ->
      P (cb :: cbs) w (cb :: rest) w2 calls) ->
  (forall cb cbs w result w1 rest w2 calls,
      callback_matches world info event cb = true ->
      callback world cb (handle world cb) info event (user_data world cb) w
      = (result, w1) ->
      invoke cbs info event w1 = (rest, w2, calls) ->
      P cbs w1 rest w2 calls ->
      result <> 0 ->
      P (cb :: cbs) w rest w2 ((handle world cb, result) :: calls)) ->
  (forall cb cbs w w1 rest w2 calls,
      callback_matches world info event cb = true ->
      callback world cb (handle world cb) info event (user_data world cb) w
      = (0, w1) ->
      invoke cbs info event w1 = (rest, w2, calls) ->
      P cbs w1 rest w2 calls ->
      P (cb :: cbs) w (cb :: rest) w2 ((handle world cb, 0) :: calls)) ->
  forall cbs w rest w2 calls,
    invoke cbs info event w = (rest, w2, calls) -> P cbs w rest w2 calls.
Proof.
  intros Hnil Hskip Hdrop Hkeep cbs.
  induction cbs as [|cb cbs IH]; intros w rest w2 calls H.
  - simpl in H. inversion H; subst. apply Hnil.
  - rewrite invoke_cons in H.
    destruct (callback_matches world info event cb) eqn:Em.
    + destruct (callback world cb (handle world cb) info event
                         (user_data world cb) w) as [result w1] eqn:Ec.
      destruct (invoke cbs info event w1) as [[rest1 w3] calls1] eqn:Ei.
      destruct (result =? 0) eqn:Er; simpl in H; inversion H; subst.
      * apply Z.eqb_eq in Er. subst result.
        eapply Hkeep; eauto.
      * apply Z.eqb_neq in Er. eapply Hdrop; eauto.
    + destruct (invoke cbs info event w) as [[rest1 w3] calls1] eqn:Ei.
      inversion H; subst. eapply Hskip; eauto.
Qed.

(** Dispatch calls exactly the matching callbacks, once each, in the
    order of the list, whatever the calls return. *)
Lemma invoke_calls cbs info event w rest w2 calls :
  invoke cbs info event w = (rest, w2, calls) ->
  map fst calls = handles (filter (callback_matches world info event) cbs).
Proof.
  revert cbs w rest w2 calls.
  apply (invoke_ind (fun cbs _ _ _ calls =>
    map fst calls = handles (filter (callback_matches world info event) cbs))).
  - reflexivity.
  - intros cb cbs w rest w2 calls Em _ IH. simpl. rewrite Em. exact IH.
  - intros cb cbs w result w1 rest w2 calls Em _ _ IH _.
    simpl. rewrite Em. simpl. f_equal. exact IH.
  - intros cb cbs w w1 rest w2 calls Em _ _ IH.
    simpl. rewrite Em. simpl. f_equal. exact IH.
Qed.

(** The list that remains: the callbacks that were not called with a
    non-zero result, in their order. *)
Lemma invoke_rest cbs info event w rest w2 calls :
  invoke cbs info event w = (rest, w2, calls) ->
  NoDup (handles cbs) ->
  rest = filter (fun cb =>
                   negb (existsb (fun c : call =>
                                    (fst c =? handle world cb)
                                    && negb (snd c =? 0)) calls)) cbs.
Proof.
  intros H. pose proof (invoke_calls _ _ _ _ _ _ _ H) as Hcalls.
  revert cbs w rest w2 calls H Hcalls.
  apply (invoke_ind (fun cbs _ rest _ calls =>
    map fst calls = handles (filter (callback_matches world info event) cbs) ->
    NoDup (handles cbs) ->
    rest = filter (fun cb =>
                     negb (existsb (fun c : call =>
                                      (fst c =? handle world cb)
                                      && negb (snd c =? 0)) calls)) cbs)).
  - reflexivity.
  - intros cb cbs w rest w2 calls Em _ IH Hc Hnd.
    simpl in *. rewrite Em in Hc. inversion Hnd as [|? ? Hni Hnd']; subst.
    assert (Hx : existsb (fun c : call =>
                   (fst c =? handle world cb) && negb (snd c =? 0)) calls
                 = false).
    { apply not_true_is_false. intros Hex.
      apply existsb_exists in Hex. destruct Hex as ([h r] & Hin & Hh).
      simpl in Hh. apply andb_true_iff in Hh. destruct Hh as [Hh _].
      apply Z.eqb_eq in Hh. subst h.
      apply Hni. apply (in_map fst) in Hin. simpl in Hin.
      rewrite Hc in Hin. apply in_map_iff in Hin.
      destruct Hin as (cb' & Hh' & Hin'). apply filter_In in Hin'.
      rewrite <- Hh'. apply in_map. apply Hin'. }
    rewrite Hx. simpl. f_equal. apply IH; assumption.
  - intros cb cbs w result w1 rest w2 calls Em _ _ IH Hr Hc Hnd.
    simpl in *. rewrite Em in Hc. simpl in Hc.
    inversion Hc as [Hc']. inversion Hnd as [|? ? Hni Hnd']; subst.
    rewrite Z.eqb_refl. simpl.
    assert (Er : (result =? 0) = false) by (apply Z.eqb_neq; exact Hr).
    rewrite Er. simpl.
    rewrite (IH Hc' Hnd'). apply filter_ext_in. intros cb' Hin'.
    assert (En : (handle world cb =? handle world cb') = false).
    { apply Z.eqb_neq. intros E. apply Hni. rewrite E. apply in_map. exact Hin'. }
    rewrite En. reflexivity.
  - intros cb cbs w w1 rest w2 calls Em _ _ IH Hc Hnd.
    simpl in *. rewrite Em in Hc. simpl in Hc.
    inversion Hc as [Hc']. inversion Hnd as [|? ? Hni Hnd']; subst.
    rewrite andb_false_r. simpl.
    assert (Hx : existsb (fun c : call =>
                   (fst c =? handle world cb) && negb (snd c =? 0)) calls
                 = false).
    { apply not_true_is_false. intros Hex.
      apply existsb_exists in Hex. destruct Hex as ([h r] & Hin & Hh).
      simpl in Hh. apply andb_true_iff in Hh. destruct Hh as [Hh _].
      apply Z.eqb_eq in Hh. subst h.
      apply Hni. apply (in_map fst) in Hin. simpl in Hin.
      rewrite Hc' in Hin. apply in_map_iff in Hin.
      destruct Hin as (cb' & Hh' & Hin'). apply filter_In in Hin'.
      rewrite <- Hh'. apply in_map. apply Hin'. }
    rewrite Hx. simpl. f_equal. rewrite (IH Hc' Hnd').
    apply filter_ext. intros a. rewrite andb_false_r. reflexivity.
Qed.

Lemma NoDup_map_filter {A B : Type} (g : A -> B) (f : A -> bool) (l : list A) :
  NoDup (map g l) -> NoDup (map g (filter f l)).
Proof.
  induction l as [|a l IH]; simpl; intros H; [constructor|].
  inversion H as [|? ? Hni Hnd]; subst.
  destruct (f a); simpl; [constructor|]; auto.
  intros Hin. apply Hni. apply in_map_iff in Hin.
  destruct Hin as (x & Hx & Hin). apply filter_In in Hin.
  rewrite <- Hx. apply in_map. apply Hin.
Qed.

(** Dispatch only ever drops callbacks. *)
Lemma invoke_rest_incl cbs info event w rest w2 calls :
  invoke cbs info event w = (rest, w2, calls) -> incl rest cbs.
Proof.
  revert cbs w rest w2 calls.
  apply (invoke_ind (fun cbs _ rest _ _ => incl rest cbs)).
  - intros _ x Hx. exact Hx.
  - intros cb cbs w rest w2 calls _ _ IH x [Hx|Hx];
      [left; exact Hx | right; apply IH; exact Hx].
  - intros cb cbs w result w1 rest w2 calls _ _ _ IH _ x Hx.
    right. apply IH. exact Hx.
  - intros cb cbs w w1 rest w2 calls _ _ _ IH x [Hx|Hx];
      [left; exact Hx | right; apply IH; exact Hx].
Qed.

Lemma invoke_rest_NoDup cbs info event w rest w2 calls :
  invoke cbs info event w = (rest, w2, calls) ->
  NoDup (handles cbs) -> NoDup (handles rest).
Proof.
  intros H Hnd. rewrite (invoke_rest _ _ _ _ _ _ _ H Hnd).
  apply NoDup_map_filter. exact Hnd.
Qed.

Lemma invoke_calls_NoDup cbs info event w rest w2 calls :
  invoke cbs info event w = (rest, w2, calls) ->
  NoDup (handles cbs) -> NoDup (map fst calls).
Proof.
  intros H Hnd. rewrite (invoke_calls _ _ _ _ _ _ _ H).
  apply NoDup_map_filter. exact Hnd.
Qed.

(** A callback whose call returned non-zero is not in the list that
    dispatch leaves. *)
Lemma invoke_removed cbs info event w rest w2 calls h r :
  invoke cbs info event w = (rest, w2, calls) ->
  NoDup (handles cbs) ->
  In (h, r) calls -> r <> 0 -> ~ In h (handles rest).
Proof.
  intros H Hnd Hin Hr Hh.
  rewrite (invoke_rest _ _ _ _ _ _ _ H Hnd) in Hh.
  apply in_map_iff in Hh. destruct Hh as (cb & Hcb & Hf).
  apply filter_In in Hf. destruct Hf as [_ Hf].
  apply negb_true_iff in Hf.
  assert (Hex : existsb (fun c : call =>
                  (fst c =? handle world cb) && negb (snd c =? 0)) calls
                = true).
  { apply existsb_exists. exists (h, r). split; [exact Hin|]. simpl.
    apply andb_true_iff. split; [apply Z.eqb_eq; auto|].
    apply negb_true_iff. apply Z.eqb_neq. exact Hr. }
  congruence.
Qed.

(** Over a run of dispatches only callbacks of the starting list are
    called, and the final list is drawn from it. *)
Lemma dispatch_events_incl evs :
  forall cbs w rest w2 calls,
    dispatch_events world cbs evs w = (rest, w2, calls) ->
    incl rest cbs /\ incl (map fst calls) (handles cbs).
Proof.
  induction evs as [|[info event] evs IH]; intros cbs w rest w2 calls H.
  - simpl in H. inversion H; subst. split; [apply incl_refl|].
    intros x [].
  - simpl in H.
    destruct (invoke cbs info event w) as [[cbs1 w1] calls1] eqn:E1.
    destruct (dispatch_events world cbs1 evs w1) as [[cbs2 w3] calls2] eqn:E2.
    inversion H; subst.
    destruct (IH _ _ _ _ _ E2) as [Hr Hc].
    pose proof (invoke_rest_incl _ _ _ _ _ _ _ E1) as Hi.
    split; [eapply incl_tran; eauto|].
    rewrite map_app. apply incl_app.
    + pose proof (invoke_calls _ _ _ _ _ _ _ E1) as Hc1.
      intros x Hx.
      assert (Hx' : In x (handles (filter (callback_matches world info event)
                                          cbs)))
        by (rewrite <- Hc1; exact Hx).
      clear Hx. rename Hx' into Hx.
      apply in_map_iff in Hx. destruct Hx as (cb & Hcb & Hf).
      apply filter_In in Hf. rewrite <- Hcb. apply in_map. apply Hf.
    + intros x Hx. apply Hc in Hx. apply in_map_iff in Hx.
      destruct Hx as (cb & Hcb & Hin). rewrite <- Hcb. apply in_map.
      apply Hi. exact Hin.
Qed.

(** Once a call has returned non-zero, its callback is called in no
    later dispatch of the run and is not in the final list. *)
Lemma dispatch_events_removed evs :
  forall cbs w rest w2 calls,
    dispatch_events world cbs evs w = (rest, w2, calls) ->
    NoDup (handles cbs) ->
    forall pre h r post,
      calls = (pre ++ (h, r) :: post)%list -> r <> 0 ->
      ~ In h (map fst post) /\ ~ In h (handles rest).
Proof.
  induction evs as [|[info event] evs IH];
    intros cbs w rest w2 calls H Hnd pre h r post Hcalls Hr.
  - simpl in H. inversion H; subst. destruct pre; discriminate.
  - simpl in H.
    destruct (invoke cbs info event w) as [[cbs1 w1] calls1] eqn:E1.
    destruct (dispatch_events world cbs1 evs w1) as [[cbs2 w3] calls2] eqn:E2.
    inversion H as [[Hrest Hw Hc]]. clear H.
    rewrite <- Hc in Hcalls. clear Hc. subst rest w2.
    pose proof (invoke_rest_NoDup _ _ _ _ _ _ _ E1 Hnd) as Hnd1.
    destruct (dispatch_events_incl _ _ _ _ _ _ E2) as [Hr2 Hc2].
    apply app_eq_app in Hcalls.
    destruct Hcalls as (l & [[Ha Hb] | [Ha Hb]]).
    + destruct l as [|x l].
      * rewrite app_nil_r in Ha. simpl in Hb. subst pre.
        apply (IH _ _ _ _ _ E2 Hnd1 [] h r post (eq_sym Hb) Hr).
      * simpl in Hb. inversion Hb; subst x post. clear Hb.
        assert (Hin : In (h, r) calls1)
          by (rewrite Ha; apply in_or_app; right; left; reflexivity).
        pose proof (invoke_removed _ _ _ _ _ _ _ _ _ E1 Hnd Hin Hr) as Hrm.
        pose proof (invoke_calls_NoDup _ _ _ _ _ _ _ E1 Hnd) as Hndc.
        rewrite Ha in Hndc. rewrite map_app in Hndc. simpl in Hndc.
        apply NoDup_remove_2 in Hndc.
        split.
        -- rewrite map_app. intros Hx. apply in_app_or in Hx.
           destruct Hx as [Hx|Hx].
           ++ apply Hndc. apply in_or_app. right. exact Hx.
           ++ apply Hrm. apply Hc2. exact Hx.
        -- intros Hx. apply Hrm. apply in_map_iff in Hx.
           destruct Hx as (cb & Hcb & Hx). rewrite <- Hcb. apply in_map.
           apply Hr2. exact Hx.
    + (* the call is in a later dispatch *)
      apply (IH _ _ _ _ _ E2 Hnd1 l h r post Hb Hr).
Qed.

End DispatchFacts.

Section DispatchClaims.
Variable world : Type.

(** C9.  With distinct handles in the callback list: one dispatch calls
    exactly the callbacks that match the event and the device, once
    each and in list (registration) order, whatever the calls return,
    and leaves in the list, in order, exactly the callbacks that did
    not return non-zero; and over any run of dispatches, once a call of
    a callback has returned non-zero, that callback is called in no
    later dispatch and is not in the list at the end. *)
Theorem nonzero_return_deregisters
    (cbs : list (hid_hotplug_callback world))
    (info : hid_device_info) (event : Z)
    (evs : list (hid_device_info * Z)) (w : world) :
  NoDup (map (handle world) cbs) ->
  (let '(rest, _, calls) :=
     hid_internal_invoke_callbacks world cbs info event w in
   map fst calls
   = map (handle world) (filter (callback_matches world info event) cbs)
   /\ rest = filter (fun cb =>
                       negb (existsb (fun c : call =>
                                        (fst c =? handle world cb)
                                        && negb (snd c =? 0)) calls)) cbs)
  /\ (let '(rest, _, calls) := dispatch_events world cbs evs w in
      forall pre h r post,
        calls = (pre ++ (h, r) :: post)%list -> r <> 0 ->
        ~ In h (map fst post) /\ ~ In h (map (handle world) rest)).
Proof.
  intros Hnd. split.
  - destruct (hid_internal_invoke_callbacks world cbs info event w)
      as [[rest w2] calls] eqn:E.
    split.
    + eapply invoke_calls; eauto.
    + eapply invoke_rest; eauto.
  - destruct (dispatch_events world cbs evs w) as [[rest w2] calls] eqn:E.
    eapply dispatch_events_removed; eauto.
Qed.

End DispatchClaims.


Lemma nonzero_return_deregisters_witness :
  NoDup (map (handle nat) Sample.sample_callbacks)
  /\ dispatch_events nat Sample.sample_callbacks
       [(Sample.sample_info, HID_API_HOTPLUG_EVENT_DEVICE_ARRIVED);
        (Sample.sample_info, HID_API_HOTPLUG_EVENT_DEVICE_LEFT)] O
     = (tl Sample.sample_callbacks, 3%nat, [(1, 1); (2, 0); (2, 0)])
  /\ ~ In 1 (map fst [(2, 0); (2, 0)]).
Proof.
  assert (Hnd : NoDup (map (handle nat) Sample.sample_callbacks)).
  { simpl. constructor.
    - simpl. intros [H|[]]. discriminate H.
    - constructor; [intros [] | constructor]. }
  split; [exact Hnd|]. split; [reflexivity|].
  pose proof (nonzero_return_deregisters nat Sample.sample_callbacks
                Sample.sample_info HID_API_HOTPLUG_EVENT_DEVICE_ARRIVED
                [(Sample.sample_info, HID_API_HOTPLUG_EVENT_DEVICE_ARRIVED);
                 (Sample.sample_info, HID_API_HOTPLUG_EVENT_DEVICE_LEFT)]
                O Hnd) as [_ H].
  simpl in H.
  exact (proj1 (H [] 1 1 [(2, 0); (2, 0)] eq_refl ltac:(discriminate))).
Defined.

(** ** Hotplug registration and teardown *)

Section HotplugFacts.
Context {locale : Locale}.
Variable world : Type.

(** Every path through [hid_hotplug_register_callback] ends in
    [return -1]. *)
Lemma register_returns_minus_one env v p ev fl cb ud out ctx m :
  match hid_hotplug_register_callback world env v p ev fl cb ud out ctx m with
  | Some (r, _, _, _) => r = -1
  | None => True
  end.
Proof.
  unfold hid_hotplug_register_callback.
  destruct ((ev =? 0)
            || negb (Z.land ev
                       (Z.lnot (Z.lor HID_API_HOTPLUG_EVENT_DEVICE_ARRIVED
                                      HID_API_HOTPLUG_EVENT_DEVICE_LEFT)) =? 0)
            || negb (Z.land fl (Z.lnot HID_API_HOTPLUG_ENUMERATE) =? 0)
            || match cb with None => true | Some _ => false end);
    [exact eq_refl|].
  destruct cb as [fn|]; [|exact eq_refl].
  unfold bind at 1. destruct (request m) as [[ok m1]|]; [|exact I].
  destruct ok; simpl; [|exact eq_refl].
  destruct (hotplug_cbs world ctx); [|exact eq_refl].
  destruct (udev_new_ok env); simpl; [|exact eq_refl].
  unfold bind. destruct (hid_enumerate env 0 0 m1) as [[l m2]|];
    [exact eq_refl | exact I].
Qed.

(** Neither deregistration nor the cleanup it runs writes
    [monitor_fd], and neither ends a worker. *)
Lemma deregister_keeps_monitor_fd h ctx m :
  match hid_hotplug_deregister_callback world h ctx m with
  | Some (_, ctx', _) =>
    monitor_fd world ctx' = monitor_fd world ctx
    /\ workers world ctx' = workers world ctx
  | None => True
  end.
Proof.
  unfold hid_hotplug_deregister_callback.
  destruct (hotplug_cbs world ctx) as [|cb cbs] eqn:E; [simpl; auto|].
  destruct (remove_callback world h (cb :: cbs)) as [rest result].
  unfold bind, hid_internal_hotplug_cleanup. simpl.
  destruct rest; simpl; [|auto].
  unfold bind. destruct (hid_free_enumeration (devs world ctx) m) as [[[] m1]|];
    simpl; auto.
Qed.

(** A pass of the worker's loop body writes neither. *)
Lemma hotplug_thread_pass_keeps_monitor_fd files received ctx w m :
  match hotplug_thread_pass world files received ctx w m with
  | Some (ctx', _, _, _) =>
    monitor_fd world ctx' = monitor_fd world ctx
    /\ workers world ctx' = workers world ctx
  | None => True
  end.
Proof.
  unfold hotplug_thread_pass.
  destruct received as [[raw_dev action]|]; [|simpl; auto].
  unfold bind at 1, lift. destruct action as [action|]; [|exact I].
  destruct (String.eqb (Libc.c_str action) "add").
  - unfold bind.
    destruct (create_device_info_for_device files raw_dev m) as [[info m1]|];
      [|exact I].
    destruct (hotplug_arrived world info (hotplug_cbs world ctx) w)
      as [[cbs w'] calls].
    simpl. auto.
  - destruct (String.eqb (Libc.c_str action) "remove"); [|simpl; auto].
    unfold bind.
    destruct (hotplug_remove world (devnode raw_dev) (devs world ctx)
                             (hotplug_cbs world ctx) w m)
      as [[[[[devs' cbs] w'] calls] m1]|]; [|exact I].
    simpl. auto.
Qed.

End HotplugFacts.

Section HotplugClaims.
Import Sample.

(** C7 (the code departs from the specification).  A registration with valid
    arguments on the idle context of the sample system succeeds in
    every respect (the callback is installed with handle 1, the monitor
    descriptor is stored, the device list is seeded, a worker is
    started) and returns -1; and whatever the arguments, the context
    and the memory, the function returns -1 whenever it returns. *)
Theorem register_callback_success_returns_minus_one :
  (exists armed m1,
     @hid_hotplug_register_callback byte_locale nat keyboard_system 0 0
       HID_API_HOTPLUG_EVENT_DEVICE_ARRIVED 0
       (Some (fun _ _ _ _ n => (0, S n))) 0 true
       (hid_hotplug_context_init nat) empty_mem
     = Some (-1, armed, Some 1, m1)
     /\ map (handle nat) (hotplug_cbs nat armed) = [1]
     /\ monitor_fd nat armed = 5
     /\ List.length (devs nat armed) = 2%nat
     /\ workers nat armed = 1%nat)
  /\ forall (locale : Locale) (world : Type) env v p ev fl cb ud out ctx m,
       match @hid_hotplug_register_callback locale world env v p ev fl cb
                                            ud out ctx m with
       | Some (r, _, _, _) => r = -1
       | None => True
       end.
Proof.
  split.
  - eexists _, _. split; [vm_compute; reflexivity|].
    repeat split.
  - intros. apply register_returns_minus_one.
Qed.

(** C8 (the code departs from the specification).  On the sample system,
    registering one callback arms the context with monitor descriptor 5
    and one worker; deregistering that callback returns 0 and tears
    down the rest (the callback and device lists are empty, every heap
    cell is released, the references on monitor and udev context are
    dropped), but [monitor_fd] is still 5, the guard of the worker's
    loop still holds, and the worker is still there after its next
    turn.  In general neither deregistration nor a turn of the worker
    under a true guard writes [monitor_fd] or ends a worker. *)
Theorem last_deregistration_leaves_worker_running :
  (exists armed m1 idle m2,
     @hid_hotplug_register_callback byte_locale nat keyboard_system 0 0
       HID_API_HOTPLUG_EVENT_DEVICE_ARRIVED 0
       (Some (fun _ _ _ _ n => (0, S n))) 0 true
       (hid_hotplug_context_init nat) empty_mem
     = Some (-1, armed, Some 1, m1)
     /\ monitor_fd nat armed = 5 /\ workers nat armed = 1%nat
     /\ hid_hotplug_deregister_callback nat 1 armed m1 = Some (0, idle, m2)
     /\ hotplug_cbs nat idle = [] /\ devs nat idle = []
     /\ udev_ctx nat idle = 0%nat /\ mon nat idle = 0%nat
     /\ Forall (fun cell => cell = None) (cells m2)
     /\ monitor_fd nat idle = 5
     /\ hotplug_thread_guard nat idle = true
     /\ @hotplug_thread_step byte_locale nat (files keyboard_system) None
                             idle O m2
        = Some (idle, O, [], m2)
     /\ workers nat idle = 1%nat)
  /\ (forall (world : Type) h ctx m,
        match hid_hotplug_deregister_callback world h ctx m with
        | Some (_, ctx', _) =>
          monitor_fd world ctx' = monitor_fd world ctx
          /\ workers world ctx' = workers world ctx
        | None => True
        end)
  /\ (forall (locale : Locale) (world : Type) files received ctx w m,
        match @hotplug_thread_pass locale world files received ctx w m with
        | Some (ctx', _, _, _) =>
          monitor_fd world ctx' = monitor_fd world ctx
          /\ workers world ctx' = workers world ctx
        | None => True
        end).
Proof.
  split; [|split].
  - eexists _, _, _, _.
    split; [vm_compute; reflexivity|].
    split; [reflexivity|]. split; [reflexivity|].
    split; [vm_compute; reflexivity|].
    repeat split; repeat constructor.
  - intros. apply deregister_keeps_monitor_fd.
  - intros. apply hotplug_thread_pass_keeps_monitor_fd.
Qed.

End HotplugClaims.

(** ** Uevent reader *)

Section UeventFacts.
Context {locale : Locale}.
Import Libc.
Local Open Scope string_scope.
Local Open Scope Z_scope.

Lemma string_of_rev_cons_nonempty (a : ascii) (cur : list ascii) :
  string_of_list_ascii (rev (a :: cur)) <> "".
Proof.
  simpl. destruct (rev cur); simpl; discriminate.
Qed.

(** The tokens of [strtok_r] are the non-empty lines. *)
Lemma strtok_r_all_split_on (delim : ascii) (s : string) :
  forall cur,
    strtok_r_all delim cur s
    = filter (fun l => negb (String.eqb l "")) (split_on delim cur s).
Proof.
  induction s as [|a rest IH]; intros cur; simpl.
  - destruct cur as [|c cur]; [reflexivity|].
    destruct (string_of_list_ascii (rev (c :: cur))) eqn:E;
      [exfalso; exact (string_of_rev_cons_nonempty _ _ E) | reflexivity].
  - destruct (Ascii.eqb a delim).
    + simpl. destruct cur as [|c cur]; [simpl; apply IH|].
      destruct (string_of_list_ascii (rev (c :: cur))) eqn:E;
        [exfalso; exact (string_of_rev_cons_nonempty _ _ E)|].
      simpl. rewrite IH. reflexivity.
    + apply IH.
Qed.

Lemma in_uevent_lines (uevent line : string) :
  In line (uevent_lines uevent)
  <-> In line (text_lines (uevent_tmp uevent)) /\ line <> "".
Proof.
  unfold uevent_lines, text_lines. rewrite strtok_r_all_split_on.
  rewrite filter_In. rewrite negb_true_iff.
  split; intros [H1 H2]; (split; [exact H1|]).
  - intros E. subst line. discriminate H2.
  - destruct (String.eqb_spec line ""); [contradiction | reflexivity].
Qed.

Lemma strchr_split_sound (c : ascii) (s : string) :
  forall k v, strchr_split c s = Some (k, v) -> s = k ++ String c v.
Proof.
  induction s as [|a rest IH]; intros k v H; simpl in H; [discriminate|].
  destruct (Ascii.eqb_spec a c) as [E|E].
  - inversion H; subst. reflexivity.
  - destruct (strchr_split c rest) as [[k' v']|]; [|discriminate].
    inversion H; subst. simpl. f_equal. apply IH. reflexivity.
Qed.

(** The number of conversions [sscanf] makes does not depend on what
    the destinations held. *)
Lemma sscanf_count (value : string) (b v p : Z) :
  fst (fst (fst (sscanf_x_hx_hx value b v p)))
  = fst (fst (fst (sscanf_x_hx_hx value 0 0 0))).
Proof.
  unfold sscanf_x_hx_hx.
  destruct (scan_hex value) as [[[n1 x1] r1]|]; [|reflexivity].
  destruct r1 as [|c1 r1]; [reflexivity|].
  destruct c1 as [[] [] [] [] [] [] [] []]; try reflexivity.
  destruct (scan_hex r1) as [[[n2 x2] r2]|]; [|reflexivity].
  destruct r2 as [|c2 r2]; [reflexivity|].
  destruct c2 as [[] [] [] [] [] [] [] []]; try reflexivity.
  destruct (scan_hex r2) as [[[n3 x3] r3]|]; reflexivity.
Qed.

Lemma line_sets_id_iff (line : string) :
  line_sets_id line = true
  <-> exists value, line = "HID_ID" ++ "=" ++ value
                    /\ hid_id_parses value = true.
Proof.
  unfold line_sets_id. split.
  - destruct (strchr_split "=" line) as [[key value]|] eqn:E; [|discriminate].
    intros H. apply andb_true_iff in H. destruct H as [Hk Hv].
    apply String.eqb_eq in Hk. subst key.
    exists value. split; [|exact Hv].
    apply strchr_split_sound in E. exact E.
  - intros (value & E & Hv). subst line. simpl. exact Hv.
Qed.

Lemma line_has_key_iff (k line : string) :
  (k = "HID_NAME" \/ k = "HID_UNIQ") ->
  line_has_key k line = true
  <-> exists value, line = k ++ "=" ++ value /\ (fun _ => true) value = true.
Proof.
  intros Hk. unfold line_has_key. split.
  - destruct (strchr_split "=" line) as [[key value]|] eqn:E; [|discriminate].
    intros H. apply String.eqb_eq in H. subst key.
    exists value. split; [|reflexivity].
    apply strchr_split_sound in E. exact E.
  - intros (value & E & _). subst line.
    destruct Hk; subst k; reflexivity.
Qed.

(** The loop never leaves the model, and its flags are the old flags
    or-ed with what the lines contribute. *)
Lemma parse_uevent_info_lines_flags (lines : list string) :
  forall st m,
  exists st' m',
    parse_uevent_info_lines lines st m = Some (st', m')
    /\ found_id st' = found_id st || existsb line_sets_id lines
    /\ found_name st' = found_name st || existsb (line_has_key "HID_NAME") lines
    /\ found_serial st'
       = found_serial st || existsb (line_has_key "HID_UNIQ") lines.
Proof.
  induction lines as [|line rest IH]; intros st m.
  - exists st, m. simpl. rewrite !orb_false_r. auto.
  - simpl. unfold line_sets_id, line_has_key.
    destruct (strchr_split "=" line) as [[key value]|] eqn:E.
    2:{ simpl. apply IH. }
    destruct (String.eqb_spec key "HID_ID") as [Ek|Ek].
    { subst key. simpl.
      pose proof (sscanf_count value (ui_bus_type st) (ui_vendor_id st)
                               (ui_product_id st)) as Hc.
      unfold hid_id_parses.
      destruct (sscanf_x_hx_hx value (ui_bus_type st) (ui_vendor_id st)
                               (ui_product_id st)) as [[[r b] v] p].
      destruct (sscanf_x_hx_hx value 0 0 0) as [[[r0 b0] v0] p0].
      simpl in Hc. subst r0.
      edestruct IH as (st' & m' & H & Hi & Hn & Hs). 
      exists st', m'. split; [exact H|].
      rewrite Hi, Hn, Hs. simpl.
      destruct (r =? 3); simpl; rewrite ?orb_true_r; auto. }
    destruct (String.eqb_spec key "HID_NAME") as [En|En].
    { subst key. simpl. unfold bind, strdup, malloc at 1, bind, request.
      destruct (oom m) as [|[] o]; simpl;
        edestruct IH as (st' & m' & H & Hi & Hn & Hs);
        exists st', m'; (split; [exact H|]);
        rewrite Hi, Hn, Hs; simpl; rewrite ?orb_true_r; auto. }
    destruct (String.eqb_spec key "HID_UNIQ") as [Eu|Eu].
    { subst key. simpl. unfold bind, strdup, malloc at 1, bind, request.
      destruct (oom m) as [|[] o]; simpl;
        edestruct IH as (st' & m' & H & Hi & Hn & Hs);
        exists st', m'; (split; [exact H|]);
        rewrite Hi, Hn, Hs; simpl; rewrite ?orb_true_r; auto. }
    simpl. apply IH.
Qed.

Lemma existsb_has_line (f : string -> bool) (key : string)
    (ok : string -> bool) (uevent : string) :
  (forall line, f line = true
                <-> exists value, line = key ++ "=" ++ value
                                  /\ ok value = true) ->
  existsb f (uevent_lines uevent) = true
  <-> has_line key ok (text_lines (uevent_tmp uevent)).
Proof.
  intros Hf. rewrite existsb_exists. unfold has_line. split.
  - intros (line & Hin & Hl). apply Hf in Hl. destruct Hl as (value & E & Hv).
    subst line. apply in_uevent_lines in Hin. exists value. tauto.
  - intros (value & Hin & Hv). exists (key ++ "=" ++ value). split.
    + apply in_uevent_lines. split; [exact Hin|].
      destruct key; discriminate.
    + apply Hf. exists value. auto.
Qed.

End UeventFacts.

Section UeventClaims.
Import Libc Sample.
Local Open Scope string_scope.
Local Open Scope Z_scope.

(** C6, as stated, fails.  The text [long_uevent] (1066 characters)
    contains a line [HID_ID=0003:000005AC:00008242], a line
    [HID_NAME=Keyboard] and a line [HID_UNIQ=abc], yet
    [parse_uevent_info] returns 0: only the first 1023 characters are
    copied into [tmp], and the [HID_UNIQ] line lies beyond them. *)
Lemma long_uevent_not_parsed :
  (has_line "HID_ID" hid_id_parses (text_lines long_uevent)
   /\ has_line "HID_NAME" (fun _ => true) (text_lines long_uevent)
   /\ has_line "HID_UNIQ" (fun _ => true) (text_lines long_uevent))
  /\ parse_uevent_info long_uevent 0 0 0 None None empty_mem
     = Some (0, 3, 0x05AC, 0x8242, None, Some 0%nat,
             Mem [Some (Chars "Keyboard")] [] None).
Proof.
  split; [|vm_compute; reflexivity].
  assert (E : text_lines long_uevent
              = ["HID_ID=0003:000005AC:00008242"; "HID_NAME=Keyboard";
                 ("PAD=" ++ string_of_list_ascii (repeat "x"%char 1000))%string;
                 "HID_UNIQ=abc"; ""]%list)
    by (vm_compute; reflexivity).
  rewrite E. unfold has_line. repeat split.
  - exists "0003:000005AC:00008242". split; [left; reflexivity|].
    vm_compute. reflexivity.
  - exists "Keyboard". split; [right; left; reflexivity | reflexivity].
  - exists "abc". split; [do 3 right; left; reflexivity | reflexivity].
Qed.

(** C6, amended.  [parse_uevent_info] always returns, with 1 or 0, and
    it returns non-zero if and only if the first 1023 characters of the
    text contain a line [HID_ID=<value>] whose value parses as
    [%x:%hx:%hx] (all three fields), a line [HID_NAME=<value>] and a
    line [HID_UNIQ=<value>].  The sample text parses to bus 3, vendor
    0x05AC, product 0x8242, name "Keyboard" and serial "abc"; leaving
    out any one of its three lines makes the parse return 0. *)
Theorem parse_uevent_info_succeeds_iff
    (uevent : string) (b v p : Z) (s n : ptr) (m : mem) :
  (exists r b' v' p' s' n' m',
     parse_uevent_info uevent b v p s n m
     = Some (r, b', v', p', s', n', m')
     /\ (r = 0 \/ r = 1)
     /\ (r <> 0 <->
         has_line "HID_ID" hid_id_parses (text_lines (uevent_tmp uevent))
         /\ has_line "HID_NAME" (fun _ => true)
                     (text_lines (uevent_tmp uevent))
         /\ has_line "HID_UNIQ" (fun _ => true)
                     (text_lines (uevent_tmp uevent))))
  /\ parse_uevent_info
       ("HID_ID=0003:000005AC:00008242" ++ nl ++ "HID_NAME=Keyboard" ++ nl
        ++ "HID_UNIQ=abc" ++ nl) 0 0 0 None None empty_mem
     = Some (1, 3, 0x05AC, 0x8242, Some 1%nat, Some 0%nat,
             Mem [Some (Chars "Keyboard"); Some (Chars "abc")] [] None)
  /\ (exists b' v' p' s' n' m', parse_uevent_info
                  ("HID_NAME=Keyboard" ++ nl ++ "HID_UNIQ=abc" ++ nl)
                  0 0 0 None None empty_mem
                = Some (0, b', v', p', s', n', m'))
  /\ (exists b' v' p' s' n' m', parse_uevent_info
                  ("HID_ID=0003:000005AC:00008242" ++ nl
                   ++ "HID_UNIQ=abc" ++ nl)
                  0 0 0 None None empty_mem
                = Some (0, b', v', p', s', n', m'))
  /\ (exists b' v' p' s' n' m', parse_uevent_info
                  ("HID_ID=0003:000005AC:00008242" ++ nl
                   ++ "HID_NAME=Keyboard" ++ nl)
                  0 0 0 None None empty_mem
                = Some (0, b', v', p', s', n', m')).
Proof.
  split.
  - unfold parse_uevent_info, bind.
    destruct (parse_uevent_info_lines_flags (uevent_lines uevent)
                (UeventInfo b v p s n false false false) m)
      as (st & m' & H & Hi & Hn & Hs).
    rewrite H. simpl in Hi, Hn, Hs.
    eexists _, _, _, _, _, _, _. split; [reflexivity|].
    rewrite <- (existsb_has_line line_sets_id "HID_ID" hid_id_parses uevent
                  line_sets_id_iff).
    rewrite <- (existsb_has_line (line_has_key "HID_NAME") "HID_NAME"
                  (fun _ => true) uevent
                  (fun l => line_has_key_iff "HID_NAME" l (or_introl eq_refl))).
    rewrite <- (existsb_has_line (line_has_key "HID_UNIQ") "HID_UNIQ"
                  (fun _ => true) uevent
                  (fun l => line_has_key_iff "HID_UNIQ" l (or_intror eq_refl))).
    rewrite <- Hi, <- Hn, <- Hs.
    destruct (found_id st), (found_name st), (found_serial st); simpl;
      (split; [auto|]); split; try (intros; discriminate);
      try (intros [? [? ?]]; discriminate); try tauto; try (intros; lia);
      auto.
  - split; [vm_compute; reflexivity|].
    repeat split; eexists _, _, _, _, _, _; vm_compute; reflexivity.
Qed.

End UeventClaims.

(** ** Reasoning about the heap *)

Section HeapFacts.

Lemma wp_ret {A : Type} (a : A) (Q : A -> mem -> Prop) (m : mem) :
  Q a m -> wp (ret a) Q m.
Proof. intros H. exists a, m. split; [reflexivity | exact H]. Qed.

Lemma wp_bind {A B : Type} (e : prog A) (k : A -> prog B)
    (Q : B -> mem -> Prop) (m : mem) :
  wp e (fun a m' => wp (k a) Q m') m -> wp (bind e k) Q m.
Proof.
  intros (a & m' & He & b & m'' & Hk & HQ).
  exists b, m''. unfold bind. rewrite He. split; assumption.
Qed.

Lemma wp_mono {A : Type} (e : prog A) (Q Q' : A -> mem -> Prop) (m : mem) :
  wp e Q m -> (forall a m', Q a m' -> Q' a m') -> wp e Q' m.
Proof.
  intros (a & m' & He & HQ) H. exists a, m'. split; [exact He | auto].
Qed.

Lemma wp_lift {A : Type} (o : option A) (a : A) (Q : A -> mem -> Prop)
    (m : mem) :
  o = Some a -> Q a m -> wp (lift o) Q m.
Proof. intros -> H. exists a, m. split; [reflexivity | exact H]. Qed.

Lemma load_lt (a : addr) (m : mem) (b : block) :
  load a m = Some b -> (a < List.length (cells m))%nat.
Proof.
  unfold load. intros H. apply nth_error_Some.
  destruct (nth_error (cells m) a); [discriminate | discriminate H].
Qed.

Lemma owns_addr_lt O lo m a :
  owns O lo m -> In a (map fst O) -> (a < List.length (cells m))%nat.
Proof.
  intros (_ & _ & Hl & _) Hin. apply in_map_iff in Hin.
  destruct Hin as ([a' b] & E & Hin). simpl in E. subst a'.
  eapply load_lt. apply Hl. exact Hin.
Qed.

(** Blocks may be forgotten and reordered. *)
Lemma owns_incl O O' lo m :
  owns O lo m -> incl O' O -> NoDup (map fst O') -> owns O' lo m.
Proof.
  intros (Ho & _ & Hl & Hg & Hlo) Hi Hnd.
  split; [exact Ho|]. split; [exact Hnd|].
  split; [intros a b Hin; apply Hl; apply Hi; exact Hin|].
  split; [|exact Hlo].
  intros g Eg. destruct (Hg g Eg) as [Hlt Hni]. split; [exact Hlt|].
  intros Hin. apply Hni. apply in_map_iff in Hin.
  destruct Hin as (x & E & Hin). rewrite <- E. apply in_map. apply Hi.
  exact Hin.
Qed.

Lemma owns_lo O lo lo' m :
  owns O lo m -> (lo' <= lo)%nat -> owns O lo' m.
Proof.
  intros (Ho & Hnd & Hl & Hg & Hlo) H.
  repeat split; auto; try apply Hg; auto. lia.
Qed.

Lemma wp_request O lo (Q : bool -> mem -> Prop) (m : mem) :
  owns O lo m -> Q true m -> wp request Q m.
Proof.
  intros (Ho & _) H. exists true, m. unfold request. cbv beta. rewrite Ho.
  split; [reflexivity | exact H].
Qed.

Lemma load_app_old (a : addr) (cs : list (option block)) (x : option block)
    (o : list bool) (g : ptr) :
  (a < List.length cs)%nat ->
  load a (Mem (cs ++ [x]) o g) = load a (Mem cs o g).
Proof.
  intros H. unfold load. simpl. rewrite nth_error_app1 by exact H.
  reflexivity.
Qed.

Lemma load_app_new (cs : list (option block)) (b : block)
    (o : list bool) (g : ptr) :
  load (List.length cs) (Mem (cs ++ [Some b]) o g) = Some b.
Proof.
  unfold load. simpl. rewrite nth_error_app2 by lia.
  rewrite Nat.sub_diag. reflexivity.
Qed.

(** An allocation yields an address that is new and at or above [lo]. *)
Lemma wp_malloc O lo (b : block) (Q : ptr -> mem -> Prop) (m : mem) :
  owns O lo m ->
  (forall n m', owns ((n, b) :: O) lo m' -> (lo <= n)%nat ->
                (List.length (cells m) <= n)%nat -> Q (Some n) m') ->
  wp (malloc b) Q m.
Proof.
  intros Hown H. pose proof Hown as (Ho & Hnd & Hl & Hg & Hlo).
  unfold wp, malloc, bind, request. cbv beta. rewrite Ho.
  eexists _, _. split; [reflexivity|].
  apply H; [|exact Hlo | lia].
  destruct m as [cs o g]. simpl in *. subst o.
  split; [reflexivity|]. split.
  - simpl. constructor; [|exact Hnd].
    intros Hin. pose proof (owns_addr_lt _ _ _ _ Hown Hin) as Hlt.
    simpl in Hlt. lia.
  - split.
    + intros a b' [E|Hin].
      * inversion E; subst. apply load_app_new.
      * rewrite load_app_old; [apply Hl; exact Hin|].
        apply (load_lt _ (Mem cs [] g) b'). apply Hl. exact Hin.
    + split.
      * intros g' Eg. destruct (Hg g' Eg) as [Hlt Hni].
        cbn [cells]. rewrite length_app. simpl. split; [lia|].
        intros [E|Hin]; [lia | contradiction].
      * cbn [cells]. rewrite length_app. simpl. lia.
Qed.

Lemma length_clear_cell (a : nat) (l : list (option block)) :
  List.length (clear_cell a l) = List.length l.
Proof.
  revert a. induction l as [|x l IH]; intros [|a]; simpl; auto.
Qed.

Lemma nth_error_clear_cell_other (a a' : nat) (l : list (option block)) :
  a <> a' -> nth_error (clear_cell a l) a' = nth_error l a'.
Proof.
  revert a a'. induction l as [|x l IH]; intros [|a] [|a'] H; simpl; auto;
    contradiction.
Qed.

(** After [free(p)] every block at another address is as before. *)
Lemma owns_free O lo (a : addr) (m : mem) :
  owns O lo m -> ~ In a (map fst O) ->
  owns O lo (Mem (clear_cell a (cells m)) (oom m) (last_global_error_str m)).
Proof.
  intros (Ho & Hnd & Hl & Hg & Hlo) Hni.
  split; [exact Ho|]. split; [exact Hnd|]. split.
  - intros a' b Hin. unfold load. simpl.
    rewrite nth_error_clear_cell_other.
    + apply Hl. exact Hin.
    + intros E. subst a'. apply Hni. apply (in_map fst) in Hin. exact Hin.
  - simpl. rewrite length_clear_cell. split; [|exact Hlo].
    intros g Eg. apply Hg. exact Eg.
Qed.

(** Freeing a block that is owned. *)
Lemma wp_free O lo (a : addr) (b : block) (Q : unit -> mem -> Prop)
    (m : mem) :
  owns ((a, b) :: O) lo m ->
  (forall m', owns O lo m' -> Q tt m') ->
  wp (free (Some a)) Q m.
Proof.
  intros Hown H. eexists _, _. split; [reflexivity|]. apply H.
  pose proof Hown as (_ & Hnd & _ & Hg & _).
  simpl in Hnd. inversion Hnd as [|? ? Hni Hnd']; subst.
  apply owns_free.
  - eapply owns_incl; [exact Hown | | exact Hnd'].
    intros x Hx. right. exact Hx.
  - exact Hni.
Qed.

Lemma wp_free_null (Q : unit -> mem -> Prop) (m : mem) :
  Q tt m -> wp (free None) Q m.
Proof. intros H. exists tt, m. split; [reflexivity | exact H]. Qed.

Lemma wp_read_chars O lo (a : addr) (s : string)
    (Q : string -> mem -> Prop) (m : mem) :
  owns O lo m -> In (a, Chars s) O -> Q s m -> wp (read_chars (Some a)) Q m.
Proof.
  intros (_ & _ & Hl & _) Hin H. exists s, m. unfold read_chars.
  rewrite (Hl _ _ Hin). split; [reflexivity | exact H].
Qed.

Lemma wp_read_wide O lo (a : addr) (w : list Z)
    (Q : list Z -> mem -> Prop) (m : mem) :
  owns O lo m -> In (a, Wide w) O -> Q w m -> wp (read_wide (Some a)) Q m.
Proof.
  intros (_ & _ & Hl & _) Hin H. exists w, m. unfold read_wide.
  rewrite (Hl _ _ Hin). split; [reflexivity | exact H].
Qed.

Lemma c_str_idem (s : string) : Libc.c_str (Libc.c_str s) = Libc.c_str s.
Proof.
  induction s as [|c s IH]; simpl; [reflexivity|].
  destruct (Ascii.eqb c Libc.NUL) eqn:E; simpl; [reflexivity|].
  rewrite E, IH. reflexivity.
Qed.

Lemma wp_strdup O lo (s : string) (Q : ptr -> mem -> Prop) (m : mem) :
  owns O lo m ->
  (forall n m', owns ((n, Chars (Libc.c_str s)) :: O) lo m' ->
                (lo <= n)%nat -> Q (Some n) m') ->
  wp (strdup s) Q m.
Proof.
  intros Hown H. unfold strdup. eapply wp_malloc; [exact Hown|].
  intros n m' Ho Hlo _. apply H; assumption.
Qed.

Lemma wp_strdup_opt O lo (s : option string) (Q : ptr -> mem -> Prop)
    (m : mem) :
  owns O lo m ->
  (forall p m',
      owns (cell_of p (option_map (fun x => Chars (Libc.c_str x)) s) ++ O)
           lo m' ->
      agree p (option_map (fun x => Chars (Libc.c_str x)) s) ->
      fresh lo p -> Q p m') ->
  wp (strdup_opt s) Q m.
Proof.
  intros Hown H. destruct s as [s|]; simpl.
  - eapply wp_strdup; [exact Hown|]. intros n m' Ho Hlo.
    apply H; simpl; auto. intros a E. inversion E; subst. exact Hlo.
  - apply wp_ret. apply H; simpl; auto. intros a E. discriminate.
Qed.

Section WithLocale.
Context {locale : Locale}.

Lemma widen_c_str (s : string) : widen (Libc.c_str s) = widen s.
Proof. unfold widen. rewrite c_str_idem. reflexivity. Qed.

Lemma wp_utf8_to_wchar_t O lo (utf8 : option string)
    (Q : ptr -> mem -> Prop) (m : mem) :
  owns O lo m ->
  (forall p m',
      owns (cell_of p (option_map (fun x => Wide (widen x)) utf8) ++ O)
           lo m' ->
      agree p (option_map (fun x => Wide (widen x)) utf8) ->
      fresh lo p -> Q p m') ->
  wp (utf8_to_wchar_t utf8) Q m.
Proof.
  intros Hown H. destruct utf8 as [s|]; simpl.
  - simpl in H. unfold widen in H.
    destruct (mbstowcs (Libc.c_str s)) as [w|]; unfold wcsdup;
      (eapply wp_malloc; [exact Hown|]); intros n m' Ho Hlo _;
      (apply H; [exact Ho | exact I
                | intros a E; inversion E; subst; exact Hlo]).
  - apply wp_ret. apply H; simpl; auto. intros a E. discriminate.
Qed.

(** [utf8_to_wchar_t] of a heap string that is owned. *)
Lemma wp_utf8_to_wchar_t_ptr O lo (p0 : ptr) (s0 : option string)
    (Q : ptr -> mem -> Prop) (m : mem) :
  owns O lo m ->
  agree p0 (option_map (fun x => Chars (Libc.c_str x)) s0) ->
  incl (cell_of p0 (option_map (fun x => Chars (Libc.c_str x)) s0)) O ->
  (forall p m',
      owns (cell_of p (option_map (fun x => Wide (widen x)) s0) ++ O)
           lo m' ->
      agree p (option_map (fun x => Wide (widen x)) s0) ->
      fresh lo p -> Q p m') ->
  wp (utf8_to_wchar_t_ptr p0) Q m.
Proof.
  intros Hown Ha Hi H. destruct p0 as [a0|], s0 as [s|]; simpl in Ha, Hi, H;
    try contradiction; unfold utf8_to_wchar_t_ptr.
  - apply wp_bind. eapply wp_read_chars; [exact Hown | apply Hi; left; reflexivity|].
    eapply wp_utf8_to_wchar_t; [exact Hown|].
    intros p m'. simpl. rewrite widen_c_str. apply H.
  - apply wp_ret. apply H; simpl; auto. intros a E. discriminate.
Qed.

(** Storing a new error string keeps what is owned. *)
Lemma wp_register_global_error O lo (msg : option string)
    (Q : unit -> mem -> Prop) (m : mem) :
  owns O lo m ->
  (forall m', owns O lo m' -> Q tt m') ->
  wp (register_global_error msg) Q m.
Proof.
  intros Hown H.
  assert (Hf : wp (register_error_str (last_global_error_str m) msg)
                  (fun p m' => owns O lo (Mem (cells m') (oom m') p)) m).
  { unfold register_error_str. apply wp_bind.
    assert (Hfree : wp (free (last_global_error_str m))
                       (fun _ m' => owns O lo m') m).
    { destruct (last_global_error_str m) as [g|] eqn:Eg.
      - eexists _, _. split; [reflexivity|].
        apply owns_free; [exact Hown|].
        destruct Hown as (_ & _ & _ & Hg & _). apply (Hg g Eg).
      - apply wp_free_null. exact Hown. }
    eapply wp_mono; [exact Hfree|]. intros [] m1 Ho1. cbv beta.
    eapply wp_utf8_to_wchar_t; [exact Ho1|].
    intros p m2 Ho2 Hag _.
    pose proof Ho2 as (Hoom & Hnd & Hl & Hg & Hlo).
    split; [exact Hoom|].
    split; [eapply NoDup_app_remove_l; rewrite <- map_app; exact Hnd|].
    split; [intros a b Hin; unfold load; simpl; apply Hl;
            apply in_or_app; right; exact Hin|].
    split; [|exact Hlo].
    intros g Eg. simpl in Eg. subst p. simpl.
    destruct (option_map (fun x => Wide (widen x)) msg) as [b|];
      [|contradiction].
    simpl in *. split.
    - apply (load_lt g m2 b). apply Hl. left. reflexivity.
    - inversion Hnd; assumption. }
  destruct Hf as (p & m' & He & Ho).
  exists tt, (Mem (cells m') (oom m') p).
  unfold register_global_error. rewrite He. split; [reflexivity|].
  apply H. exact Ho.
Qed.

Lemma wp_register_global_error_format O lo (msg : string)
    (Q : unit -> mem -> Prop) (m : mem) :
  owns O lo m ->
  (forall m', owns O lo m' -> Q tt m') ->
  wp (register_global_error_format msg) Q m.
Proof. apply wp_register_global_error. Qed.

End WithLocale.

(** [p ? wcsdup(p) : NULL] of a wide string that is owned. *)
Lemma wp_wcsdup_ptr O lo (p0 : ptr) (w0 : option (list Z))
    (Q : ptr -> mem -> Prop) (m : mem) :
  owns O lo m ->
  agree p0 (option_map Wide w0) ->
  incl (cell_of p0 (option_map Wide w0)) O ->
  (forall p m',
      owns (cell_of p (option_map Wide w0) ++ O) lo m' ->
      agree p (option_map Wide w0) ->
      fresh lo p -> Q p m') ->
  wp (wcsdup_ptr p0) Q m.
Proof.
  intros Hown Ha Hi H. destruct p0 as [a0|], w0 as [w|]; simpl in Ha, Hi, H;
    try contradiction; unfold wcsdup_ptr.
  - apply wp_bind. eapply wp_read_wide; [exact Hown | apply Hi; left; reflexivity|].
    unfold wcsdup. eapply wp_malloc; [exact Hown|].
    intros n m' Ho Hlo _. apply H; simpl; auto.
    intros a E. inversion E; subst. exact Hlo.
  - apply wp_ret. apply H; simpl; auto. intros a E. discriminate.
Qed.

End HeapFacts.

(** ** The readers against their specifications *)

Section ReaderRefinement.
Context {locale : Locale}.
Local Open Scope string_scope.
Local Open Scope Z_scope.

Lemma fresh_some (lo : nat) (n : addr) : (lo <= n)%nat -> fresh lo (Some n).
Proof. intros H a E. inversion E; subst. exact H. Qed.

Lemma fresh_none (lo : nat) : fresh lo None.
Proof. intros a E. discriminate. Qed.

Lemma parse_uevent_info_lines_refines (lines : list string) :
  forall st f O lo m,
    owns O lo m -> fields_rel O lo st f ->
    wp (parse_uevent_info_lines lines st)
       (fun st' m' =>
          exists O', owns O' lo m' /\ incl O O'
                     /\ fields_rel O' lo st' (scan_uevent lines f)) m.
Proof.
  induction lines as [|line rest IH]; intros st f O lo m Hown Hrel.
  - simpl. apply wp_ret. exists O. split; [exact Hown|].
    split; [apply incl_refl | exact Hrel].
  - simpl. destruct (Libc.strchr_split "=" line) as [[key value]|];
      [|apply IH; assumption].
    destruct Hrel as (Hb & Hv & Hp & Hfi & Hfs & Hfn & Has & His & Han & Hin
                      & Hfrs & Hfrn).
    destruct (String.eqb key "HID_ID").
    { rewrite Hb, Hv, Hp, Hfi.
      destruct (Libc.sscanf_x_hx_hx value (uf_bus f) (uf_vid f) (uf_pid f))
        as [[[r b] v] p].
      apply IH; [exact Hown|]. repeat split; simpl; auto. }
    destruct (String.eqb key "HID_NAME").
    { apply wp_bind. eapply wp_strdup; [exact Hown|]. intros n m1 Ho1 Hlo.
      eapply wp_mono.
      - eapply IH with (f := UeventFields (uf_bus f) (uf_vid f) (uf_pid f)
                               (uf_serial f) (Some value) (uf_found_id f)
                               (uf_found_serial f) true);
          [exact Ho1|].
        repeat split; simpl; auto using fresh_some.
        + intros x Hx. right. apply His. exact Hx.
        + intros x [Hx|[]]. left. exact Hx.
      - intros st' m' (O' & Ho' & Hi' & Hr'). exists O'.
        split; [exact Ho'|]. split; [|exact Hr'].
        intros x Hx. apply Hi'. right. exact Hx. }
    destruct (String.eqb key "HID_UNIQ").
    { apply wp_bind. eapply wp_strdup; [exact Hown|]. intros n m1 Ho1 Hlo.
      eapply wp_mono.
      - eapply IH with (f := UeventFields (uf_bus f) (uf_vid f) (uf_pid f)
                               (Some value) (uf_name f) (uf_found_id f)
                               true (uf_found_name f));
          [exact Ho1|].
        repeat split; simpl; auto using fresh_some.
        + intros x [Hx|[]]. left. exact Hx.
        + intros x Hx. right. apply Hin. exact Hx.
      - intros st' m' (O' & Ho' & Hi' & Hr'). exists O'.
        split; [exact Ho'|]. split; [|exact Hr'].
        intros x Hx. apply Hi'. right. exact Hx. }
    apply IH; [exact Hown|]. repeat split; auto.
Qed.

(** [parse_uevent_info] on fresh destinations. *)
Lemma parse_uevent_info_refines (uevent : string) O lo m :
  owns O lo m ->
  wp (parse_uevent_info uevent 0 0 0 None None)
     (fun res m' =>
        let f := scan_uevent (uevent_lines uevent) no_fields in
        exists s n O',
          res = (if uf_found_id f && uf_found_name f && uf_found_serial f
                 then 1 else 0,
                 uf_bus f, uf_vid f, uf_pid f, s, n)
          /\ owns O' lo m' /\ incl O O'
          /\ agree s (chars_of (uf_serial f))
          /\ incl (cell_of s (chars_of (uf_serial f))) O'
          /\ agree n (chars_of (uf_name f))
          /\ incl (cell_of n (chars_of (uf_name f))) O'
          /\ fresh lo s /\ fresh lo n) m.
Proof.
  intros Hown. unfold parse_uevent_info. apply wp_bind.
  eapply wp_mono.
  - apply (parse_uevent_info_lines_refines (uevent_lines uevent)
             (UeventInfo 0 0 0 None None false false false) no_fields O lo m
             Hown).
    repeat split; simpl; auto using fresh_none; intros x [].
  - intros st' m' (O' & Ho' & Hi' & Hr'). apply wp_ret.
    destruct Hr' as (Hb & Hv & Hp & Hfi & Hfs & Hfn & Has & His & Han & Hin
                     & Hfrs & Hfrn).
    exists (ui_serial_number_utf8 st'), (ui_product_name_utf8 st'), O'.
    rewrite Hb, Hv, Hp, Hfi, Hfs, Hfn.
    split; [reflexivity|]. split; [exact Ho'|]. split; [exact Hi'|].
    repeat split; assumption.
Qed.

Lemma parse_hid_vid_pid_lines_refines (lines : list string) :
  forall b v p O lo m,
    owns O lo m ->
    wp (parse_hid_vid_pid_lines lines b v p)
       (fun res m' => res = scan_hid_id lines b v p /\ owns O lo m') m.
Proof.
  induction lines as [|line rest IH]; intros b v p O lo m Hown; simpl.
  - apply wp_bind. eapply wp_register_global_error; [exact Hown|].
    intros m' Ho. apply wp_ret. split; [reflexivity | exact Ho].
  - destruct (Libc.strchr_split "=" line) as [[key value]|];
      [|apply IH; exact Hown].
    destruct (String.eqb key "HID_ID"); [|apply IH; exact Hown].
    destruct (Libc.sscanf_x_hx_hx value b v p) as [[[r b'] v'] p'].
    destruct (r =? 3); [|apply IH; exact Hown].
    apply wp_ret. split; [reflexivity | exact Hown].
Qed.

(** A uevent file of 1024 bytes or more: the terminator is written
    past the buffer, and the run is not defined. *)
Lemma oversized_uevent_file_leaves_the_model files path content b v p m :
  files path = FileOk content ->
  (1024 <= List.length content)%nat ->
  parse_hid_vid_pid_from_uevent_path files path b v p m = None.
Proof.
  intros Hf Hlen. unfold parse_hid_vid_pid_from_uevent_path. rewrite Hf.
  cbv zeta.
  assert (Hres : (1024 <=? Z.of_nat (List.length (firstn 1024 content)))
                 = true).
  { apply Z.leb_le. rewrite length_firstn. lia. }
  rewrite Hres. reflexivity.
Qed.

(** The pre-filter read of a file that fits: its result is
    [prefilter_ids], and what was owned still is. *)
Lemma parse_hid_vid_pid_from_sysfs_refines files sysfs_path O lo m :
  owns O lo m ->
  uevent_file_fits files sysfs_path ->
  wp (parse_hid_vid_pid_from_sysfs files sysfs_path 0 0 0)
     (fun res m' => res = prefilter_ids files sysfs_path /\ owns O lo m') m.
Proof.
  intros Hown Hfit. unfold parse_hid_vid_pid_from_sysfs. apply wp_bind.
  eapply wp_malloc; [exact Hown|]. intros n m1 Ho1 _ _.
  apply wp_bind.
  assert (Hin : wp (parse_hid_vid_pid_from_uevent_path files
                      (Libc.c_str sysfs_path ++ "/device/uevent") 0 0 0)
                   (fun res m' =>
                      res = prefilter_ids files sysfs_path
                      /\ owns ((n, Chars (Libc.c_str sysfs_path
                                          ++ "/device/uevent")) :: O) lo m')
                   m1).
  { unfold parse_hid_vid_pid_from_uevent_path, prefilter_ids.
    unfold uevent_file_fits in Hfit.
    destruct (files (Libc.c_str sysfs_path ++ "/device/uevent"))
      as [content|e|e].
    - cbv zeta.
      assert (Hres : (1024 <=? Z.of_nat (List.length (firstn 1024 content)))
                     = false).
      { apply Z.leb_gt. rewrite length_firstn. lia. }
      rewrite Hres. apply parse_hid_vid_pid_lines_refines. exact Ho1.
    - apply wp_bind. eapply wp_register_global_error_format; [exact Ho1|].
      intros m' Ho. apply wp_ret. split; [reflexivity | exact Ho].
    - apply wp_bind. eapply wp_register_global_error_format; [exact Ho1|].
      intros m' Ho. apply wp_ret. split; [reflexivity | exact Ho]. }
  eapply wp_mono; [exact Hin|]. intros res m2 [Hres Ho2]. cbv beta.
  apply wp_bind. eapply wp_free; [exact Ho2|]. intros m3 Ho3.
  apply wp_ret. split; assumption.
Qed.

Lemma get_hid_report_descriptor_from_sysfs_refines files sysfs_path O lo m :
  owns O lo m ->
  wp (get_hid_report_descriptor_from_sysfs files sysfs_path)
     (fun res m' => res = read_descriptor files sysfs_path /\ owns O lo m') m.
Proof.
  intros Hown. unfold get_hid_report_descriptor_from_sysfs. apply wp_bind.
  eapply wp_malloc; [exact Hown|]. intros n m1 Ho1 _ _.
  apply wp_bind.
  assert (Hin : wp (get_hid_report_descriptor files
                      (Libc.c_str sysfs_path ++ "/device/report_descriptor"))
                   (fun res m' =>
                      res = read_descriptor files sysfs_path
                      /\ owns ((n, Chars (Libc.c_str sysfs_path
                                          ++ "/device/report_descriptor"))
                               :: O) lo m')
                   m1).
  { unfold get_hid_report_descriptor, read_descriptor.
    destruct (files (Libc.c_str sysfs_path ++ "/device/report_descriptor")).
    - apply wp_ret. split; [reflexivity | exact Ho1].
    - apply wp_bind. eapply wp_register_global_error_format; [exact Ho1|].
      intros m' Ho. apply wp_ret. split; [reflexivity | exact Ho].
    - apply wp_bind. eapply wp_register_global_error_format; [exact Ho1|].
      intros m' Ho. apply wp_ret. split; [reflexivity | exact Ho]. }
  eapply wp_mono; [exact Hin|]. intros res m2 [Hres Ho2]. cbv beta.
  apply wp_bind. eapply wp_free; [exact Ho2|]. intros m3 Ho3.
  apply wp_ret. split; assumption.
Qed.

End ReaderRefinement.

(** ** The builder against its specification *)

Section BuilderRefinement.
Context {locale : Locale}.
Local Open Scope Z_scope.

Lemma with_usage_twice (r : device_record) (pu pu' : Z * Z) :
  with_usage (with_usage r pu) pu' = with_usage r pu'.
Proof. reflexivity. Qed.

Lemma fresh_ptr_addrs lo p a :
  fresh lo p -> In a (ptr_addrs p) -> (lo <= a)%nat.
Proof.
  intros H Hin. destruct p as [x|]; simpl in Hin; [|contradiction].
  destruct Hin as [E|[]]. subst. apply H. reflexivity.
Qed.

Lemma fresh_record_intro lo p sn ms ps v pd rel pg us ifc bt :
  fresh lo p -> fresh lo sn -> fresh lo ms -> fresh lo ps ->
  fresh_record lo (DeviceInfo p v pd sn rel ms ps pg us ifc bt).
Proof.
  intros Hp Hsn Hms Hps a Hin. unfold string_addrs in Hin. simpl in Hin.
  repeat (apply in_app_or in Hin; destruct Hin as [Hin|Hin]);
    eauto using fresh_ptr_addrs.
Qed.

Lemma option_map_chars_c_str (s : option string) :
  option_map Chars (option_map Libc.c_str s)
  = option_map (fun x => Chars (Libc.c_str x)) s.
Proof. destruct s; reflexivity. Qed.

Lemma option_map_wide_widen (s : option string) :
  option_map Wide (option_map widen s)
  = option_map (fun x => Wide (widen x)) s.
Proof. destruct s; reflexivity. Qed.

(** The loop that adds a record per further usage pair. *)
Lemma additional_usages_refines (fuel : nat) :
  forall c cur spec O lo m dev_path value size,
    0 <= size <= HID_MAX_DESCRIPTOR_SIZE -> 0 <= Parser.pos c ->
    (Z.to_nat (size - Parser.pos c) < fuel)%nat ->
    record_rel cur spec ->
    r_path spec = option_map Libc.c_str dev_path ->
    owns (cells_of cur spec ++ O) lo m ->
    wp (additional_usages fuel dev_path (r_vendor_id spec) (r_product_id spec)
                          value size c cur)
       (fun recs m' =>
          exists pairs,
            Parser.hid_usage_pairs_from fuel value size c = Some (pairs, 1)
            /\ Forall2 record_rel recs (map (with_usage spec) pairs)
            /\ owns (all_cells recs (map (with_usage spec) pairs)
                     ++ cells_of cur spec ++ O) lo m'
            /\ Forall (fresh_record lo) recs) m.
Proof.
  induction fuel as [|fuel IH];
    intros c cur spec O lo m dev_path value size Hs Hp Hf Hrel Hpath Hown;
    [lia|].
  simpl.
  destruct (ParserFacts.get_next_hid_usage_total value size c Hs Hp)
    as (r & c' & Hg & [(Hr & Hadv & Hin)|(Hr & Hend)]); subst r.
  - (* a further pair *)
    apply wp_bind. eapply wp_lift; [exact Hg|]. cbv beta iota. simpl.
    apply wp_bind. eapply wp_request; [exact Hown|]. simpl.
    destruct Hrel as (Hv & Hpd & Hrl & Hpg & Hus & Hif & Hbt
                      & Hap & Hasn & Hams & Haps).
    apply wp_bind. eapply wp_strdup_opt; [exact Hown|].
    intros p m1 Ho1 Ha1 Hf1.
    apply wp_bind.
    eapply (wp_wcsdup_ptr _ lo (serial_number cur) (r_serial_number spec));
      [exact Ho1 | exact Hasn | |].
    { intros x Hx. apply in_or_app. right. apply in_or_app. left.
      unfold cells_of. apply in_or_app. right. apply in_or_app. right.
      apply in_or_app. left. exact Hx. }
    intros sn m2 Ho2 Ha2 Hf2.
    apply wp_bind.
    eapply (wp_wcsdup_ptr _ lo (manufacturer_string cur)
                          (r_manufacturer_string spec));
      [exact Ho2 | exact Hams | |].
    { intros x Hx. apply in_or_app. right. apply in_or_app. right.
      apply in_or_app. left.
      unfold cells_of. apply in_or_app. right. apply in_or_app. left.
      exact Hx. }
    intros ms m3 Ho3 Ha3 Hf3.
    apply wp_bind.
    eapply (wp_wcsdup_ptr _ lo (product_string cur) (r_product_string spec));
      [exact Ho3 | exact Haps | |].
    { intros x Hx. do 3 (apply in_or_app; right). apply in_or_app. left.
      unfold cells_of. apply in_or_app. left. exact Hx. }
    intros ps m4 Ho4 Ha4 Hf4.
    set (cur' := DeviceInfo p (r_vendor_id spec) (r_product_id spec) sn
                            (release_number cur) ms ps
                            (Parser.usage_page c') (Parser.usage c')
                            (interface_number cur) (bus_type cur)).
    set (spec' := with_usage spec (Parser.usage_page c', Parser.usage c')).
    assert (Hrel' : record_rel cur' spec').
    { unfold record_rel, cur', spec'. simpl.
      rewrite Hpath, option_map_chars_c_str. repeat split; auto. }
    assert (Hown' : owns (cells_of cur' spec' ++ cells_of cur spec ++ O)
                         lo m4).
    { unfold cells_of at 1. unfold cur', spec'. simpl.
      rewrite Hpath, option_map_chars_c_str. rewrite <- !app_assoc.
      exact Ho4. }
    apply wp_bind. eapply wp_mono.
    + apply (IH c' cur' spec' (cells_of cur spec ++ O) lo m4 dev_path value
                size Hs); [lia | lia | exact Hrel' | exact Hpath | exact Hown'].
    + intros recs m5 (pairs & Hd & Hall & Ho5 & Hfr). apply wp_ret.
      exists ((Parser.usage_page c', Parser.usage c') :: pairs).
      split; [rewrite Hg; simpl; rewrite Hd; reflexivity|].
      split; [constructor; [exact Hrel' | exact Hall]|].
      split.
      * simpl. rewrite <- app_assoc. exact Ho5.
      * constructor; [|exact Hfr].
        apply fresh_record_intro; assumption.
  - (* finished *)
    apply wp_bind. eapply wp_lift; [exact Hg|]. cbv beta iota. simpl.
    apply wp_ret. exists []. rewrite Hg. simpl.
    split; [reflexivity|]. split; [constructor|].
    split; [exact Hown | constructor].
Qed.

Lemma length_firstn_le {A : Type} (n : nat) (l : list A) :
  (List.length (firstn n l) <= n)%nat.
Proof. rewrite length_firstn. lia. Qed.

(** The bus-specific part of the seed record. *)
Lemma bus_fields_refine (raw_dev : udev_device) (bus vid pid : Z)
    (serial name : option string) (p sn n : ptr) O lo m :
  bus_handled bus = true ->
  agree p (chars_of (devnode raw_dev)) ->
  agree sn (wide_of serial) ->
  agree n (chars_of name) -> incl (cell_of n (chars_of name)) O ->
  fresh lo p -> fresh lo sn ->
  owns (cell_of sn (wide_of serial) ++ cell_of p (chars_of (devnode raw_dev))
        ++ O) lo m ->
  let seed (ms ps : ptr) (release iface : Z) (bt : hid_bus_type) :=
    DeviceInfo p vid pid sn release ms ps 0 0 iface bt in
  wp (if bus =? BUS_USB then
        match usb_device_parent raw_dev with
        | None =>
          ms <- wcsdup [] ;;
          ps <- utf8_to_wchar_t_ptr n ;;
          ret (seed ms ps 0 (-1) HID_API_BUS_UNKNOWN)
        | Some usb_dev =>
          ms <- utf8_to_wchar_t (manufacturer usb_dev) ;;
          ps <- utf8_to_wchar_t (product usb_dev) ;;
          let release := u16 (strtol16_or (bcdDevice usb_dev) 0) in
          let iface :=
            match usb_interface_parent raw_dev with
            | Some str => s32 (strtol16_or str (-1))
            | None => -1
            end in
          ret (seed ms ps release iface HID_API_BUS_USB)
        end
      else if bus =? BUS_BLUETOOTH then
        ms <- wcsdup [] ;;
        ps <- utf8_to_wchar_t_ptr n ;;
        ret (seed ms ps 0 (-1) HID_API_BUS_BLUETOOTH)
      else if bus =? BUS_I2C then
        ms <- wcsdup [] ;;
        ps <- utf8_to_wchar_t_ptr n ;;
        ret (seed ms ps 0 (-1) HID_API_BUS_I2C)
      else if bus =? BUS_SPI then
        ms <- wcsdup [] ;;
        ps <- utf8_to_wchar_t_ptr n ;;
        ret (seed ms ps 0 (-1) HID_API_BUS_SPI)
      else ret (seed None None 0 (-1) HID_API_BUS_UNKNOWN))
     (fun cur m' =>
        record_rel cur (seed_record raw_dev bus vid pid serial name)
        /\ owns (cells_of cur (seed_record raw_dev bus vid pid serial name)
                 ++ O) lo m'
        /\ fresh_record lo cur) m.
Proof.
  intros Hbus Hap Hasn Han Hin Hfp Hfsn Hown seed.
  assert (Hplain : forall bt,
    wp (ms <- wcsdup [] ;;
        ps <- utf8_to_wchar_t_ptr n ;;
        ret (seed ms ps 0 (-1) bt))
       (fun cur m' =>
          let spec :=
            DeviceRecord (option_map Libc.c_str (devnode raw_dev)) vid pid
                         (option_map widen serial) 0 (Some [])
                         (option_map widen name) 0 0 (-1) bt in
          record_rel cur spec /\ owns (cells_of cur spec ++ O) lo m'
          /\ fresh_record lo cur) m).
  { intros bt. apply wp_bind. unfold wcsdup.
    eapply wp_malloc; [exact Hown|]. intros a m1 Ho1 Hlo1 _.
    apply wp_bind.
    eapply (wp_utf8_to_wchar_t_ptr _ lo n name); [exact Ho1 | exact Han | |].
    { intros x Hx. right. apply in_or_app. right. apply in_or_app. right.
      apply Hin. exact Hx. }
    intros ps m2 Ho2 Haps Hfps. apply wp_ret. cbv zeta.
    split; [|split].
    - unfold record_rel, seed. simpl.
      rewrite option_map_chars_c_str, !option_map_wide_widen.
      repeat split; auto.
    - unfold cells_of, seed. simpl.
      rewrite option_map_chars_c_str, !option_map_wide_widen.
      rewrite <- ?app_assoc, <- ?app_comm_cons, <- ?app_assoc. exact Ho2.
    - apply fresh_record_intro; auto using fresh_some. }
  unfold seed_record.
  destruct (bus =? BUS_USB) eqn:Eusb.
  - destruct (usb_device_parent raw_dev) as [usb_dev|]; [|apply Hplain].
    apply wp_bind.
    eapply (wp_utf8_to_wchar_t _ lo (manufacturer usb_dev)); [exact Hown|].
    intros ms m1 Ho1 Hams Hfms.
    apply wp_bind.
    eapply (wp_utf8_to_wchar_t _ lo (product usb_dev)); [exact Ho1|].
    intros ps m2 Ho2 Haps Hfps. apply wp_ret.
    split; [|split].
    + unfold record_rel, seed. simpl.
      rewrite option_map_chars_c_str, !option_map_wide_widen.
      repeat split; auto.
    + unfold cells_of, seed. simpl.
      rewrite option_map_chars_c_str, !option_map_wide_widen.
      rewrite <- !app_assoc. exact Ho2.
    + apply fresh_record_intro; auto.
  - destruct (bus =? BUS_BLUETOOTH) eqn:Ebt; [apply Hplain|].
    destruct (bus =? BUS_I2C) eqn:Ei2c; [apply Hplain|].
    destruct (bus =? BUS_SPI) eqn:Espi; [apply Hplain|].
    unfold bus_handled in Hbus. rewrite Eusb, Ebt, Ei2c, Espi in Hbus.
    discriminate Hbus.
Qed.

(** The part of the builder after the record has been allocated. *)
Lemma fill_device_info_refines files (raw_dev : udev_device)
    (bus vid pid : Z) (serial name : option string) (s n : ptr) O lo m :
  bus_handled bus = true ->
  agree s (chars_of serial) -> incl (cell_of s (chars_of serial)) O ->
  agree n (chars_of name) -> incl (cell_of n (chars_of name)) O ->
  owns O lo m ->
  wp (fill_device_info files raw_dev bus vid pid s n)
     (fun recs m' =>
        let specs := records_of_seed files raw_dev
                       (seed_record raw_dev bus vid pid serial name) in
        Forall2 record_rel recs specs
        /\ owns (all_cells recs specs ++ O) lo m'
        /\ Forall (fresh_record lo) recs) m.
Proof.
  intros Hbus Has His Han Hin Hown. unfold fill_device_info.
  apply wp_bind. eapply wp_strdup_opt; [exact Hown|].
  intros p m1 Ho1 Hap Hfp.
  apply wp_bind.
  eapply (wp_utf8_to_wchar_t_ptr _ lo s serial); [exact Ho1 | exact Has | |].
  { intros x Hx. apply in_or_app. right. apply His. exact Hx. }
  intros sn m2 Ho2 Hasn Hfsn.
  apply wp_bind. eapply wp_mono.
  { apply (bus_fields_refine raw_dev bus vid pid serial name p sn n O lo m2);
      assumption. }
  intros cur m3 (Hrel & Ho3 & Hfr). cbv beta.
  set (seed := seed_record raw_dev bus vid pid serial name) in *.
  assert (Hpath : r_path seed = option_map Libc.c_str (devnode raw_dev)).
  { unfold seed, seed_record.
    destruct (bus =? BUS_USB); [destruct (usb_device_parent raw_dev)|];
      try reflexivity.
    destruct (bus =? BUS_BLUETOOTH); [reflexivity|].
    destruct (bus =? BUS_I2C); reflexivity. }
  assert (Hvid : r_vendor_id seed = vid /\ r_product_id seed = pid).
  { unfold seed, seed_record.
    destruct (bus =? BUS_USB); [destruct (usb_device_parent raw_dev)|];
      try (split; reflexivity).
    destruct (bus =? BUS_BLUETOOTH); [split; reflexivity|].
    destruct (bus =? BUS_I2C); split; reflexivity. }
  destruct Hvid as [Hvid Hpid].
  apply wp_bind. eapply wp_mono.
  { apply (get_hid_report_descriptor_from_sysfs_refines files
             (syspath raw_dev) _ lo m3 Ho3). }
  intros res m4 [Hres Ho4]. subst res.
  unfold records_of_seed, descriptor_pairs, read_descriptor.
  destruct (files (Libc.c_str (syspath raw_dev)
                   ++ "/device/report_descriptor")%string)
    as [content|e|e].
  2:{ simpl. apply wp_ret. split; [constructor; [exact Hrel | constructor]|].
      split; [simpl; exact Ho4 | constructor; [exact Hfr | constructor]]. }
  2:{ simpl. apply wp_ret. split; [constructor; [exact Hrel | constructor]|].
      split; [simpl; exact Ho4 | constructor; [exact Hfr | constructor]]. }
  set (value := firstn (Z.to_nat HID_MAX_DESCRIPTOR_SIZE) content).
  pose proof (length_firstn_le (Z.to_nat HID_MAX_DESCRIPTOR_SIZE) content)
    as Hlen. fold value in Hlen.
  set (size := Z.of_nat (List.length value)) in *.
  assert (Hs : 0 <= size <= HID_MAX_DESCRIPTOR_SIZE).
  { unfold size, HID_MAX_DESCRIPTOR_SIZE in *. lia. }
  assert (Hu : u32 size = size).
  { apply ParserFacts.u32_small. unfold HID_MAX_DESCRIPTOR_SIZE in Hs. lia. }
  cbv beta iota zeta. rewrite Hu.
  assert (E0 : (0 <=? size) = true) by lia. rewrite E0.
  unfold Parser.hid_usage_pairs. fold value. unfold Parser.descriptor_size.
  fold size. simpl Parser.hid_usage_pairs_from.
  destruct (ParserFacts.get_next_hid_usage_total value size
              (Parser.Cursor 0 0 0) Hs) as
      (r & c & Hg & [(Hr & Hadv & Hinb)|(Hr & Hend)]); [simpl; lia | |];
    subst r; rewrite Hg; simpl.
  - (* the first pair goes into the seed record *)
    apply wp_bind. eapply wp_lift; [reflexivity|]. cbv beta iota. simpl.
    set (pu := (Parser.usage_page c, Parser.usage c)).
    set (cur' := DeviceInfo (path cur) (vendor_id cur) (product_id cur)
                            (serial_number cur) (release_number cur)
                            (manufacturer_string cur) (product_string cur)
                            (Parser.usage_page c) (Parser.usage c)
                            (interface_number cur) (bus_type cur)).
    assert (Hrel' : record_rel cur' (with_usage seed pu)).
    { destruct Hrel as (H1 & H2 & H3 & H4 & H5 & H6 & H7 & H8).
      unfold record_rel, cur'. simpl. repeat split; auto; apply H8. }
    simpl in Hadv, Hinb.
    assert (Hfuel : (Z.to_nat (size - Parser.pos c) < List.length value)%nat)
      by (unfold size in *; lia).
    destruct (ParserFacts.hid_usage_pairs_from_total
                (List.length value) value size c Hs)
      as (pairs & Hd); [lia | exact Hfuel|].
    rewrite Hd.
    apply wp_bind. eapply wp_mono.
    + pose proof (additional_usages_refines (S (Z.to_nat size)) c cur'
                    (with_usage seed pu) O lo m4 (devnode raw_dev) value size
                    Hs) as Hadd.
      simpl r_vendor_id in Hadd. simpl r_product_id in Hadd.
      rewrite Hvid, Hpid in Hadd.
      apply Hadd; [lia | lia | exact Hrel' | exact Hpath | exact Ho4].
    + intros recs m5 (pairs' & Hd' & Hall & Ho5 & Hfr5). apply wp_ret.
      assert (pairs' = pairs).
      { pose proof (ParserFacts.hid_usage_pairs_from_mono
                      (List.length value) (S (Z.to_nat size)) value size c
                      (pairs, 1)) as Hm.
        rewrite Hm in Hd'; [inversion Hd'; reflexivity | unfold size; lia
                           | exact Hd]. }
      subst pairs'.
      assert (Hmap : map (with_usage (with_usage seed pu)) pairs
                     = map (with_usage seed) pairs) by reflexivity.
      rewrite Hmap in Hall, Ho5.
      split; [constructor; [exact Hrel' | exact Hall]|].
      split.
      * simpl. rewrite <- app_assoc. exact Ho5.
      * constructor; [|exact Hfr5].
        intros a Ha. apply Hfr. exact Ha.
  - (* no pair: the seed record alone *)
    apply wp_bind. eapply wp_lift; [reflexivity|]. cbv beta iota. simpl.
    apply wp_bind. eapply wp_mono.
    + pose proof (additional_usages_refines (S (Z.to_nat size)) c cur
                    seed O lo m4 (devnode raw_dev) value size Hs) as Hadd.
      rewrite Hvid, Hpid in Hadd.
      apply Hadd; [lia | lia | exact Hrel | exact Hpath | exact Ho4].
    + intros recs m5 (pairs' & Hd' & Hall & Ho5 & Hfr5). apply wp_ret.
      simpl in Hd'.
      rewrite (ParserFacts.finished_stays_finished value size c Hend) in Hd'.
      simpl in Hd'. inversion Hd'; subst pairs'.
      simpl in Hall. inversion Hall; subst recs.
      split; [constructor; [exact Hrel | constructor]|].
      split; [simpl; exact Ho5 | constructor; [exact Hfr | constructor]].
Qed.

Lemma owns_raise O lo m : owns O lo m -> owns O (List.length (cells m)) m.
Proof.
  intros (H1 & H2 & H3 & H4 & _). repeat split; auto; apply H4; auto.
Qed.

(** After [free(p)], whatever was owned at other addresses still is. *)
Lemma wp_free_any O lo (p : ptr) (Q : unit -> mem -> Prop) (m : mem) :
  owns O lo m ->
  (forall m',
      (forall O', incl O' O -> NoDup (map fst O') ->
                  (forall a, p = Some a -> ~ In a (map fst O')) ->
                  owns O' lo m') -> Q tt m') ->
  wp (free p) Q m.
Proof.
  intros Hown H. destruct p as [a|].
  - eexists _, _. split; [reflexivity|]. apply H.
    intros O' Hi Hnd Hni. apply owns_free.
    + eapply owns_incl; eauto.
    + apply Hni. reflexivity.
  - apply wp_free_null. apply H. intros O' Hi Hnd _.
    eapply owns_incl; eauto.
Qed.

Lemma NoDup_app_swap_tail {A B : Type} (f : A -> B) (X Y Y' : list A) :
  NoDup (map f (X ++ Y')) -> incl Y Y' -> NoDup (map f Y) ->
  NoDup (map f (X ++ Y)).
Proof.
  induction X as [|x X IH]; simpl; intros H Hi Hy; [exact Hy|].
  inversion H as [|? ? Hni Hnd]; subst. constructor; [|auto].
  intros Hin. apply Hni. rewrite map_app in *.
  apply in_app_or in Hin. apply in_or_app.
  destruct Hin as [Hin|Hin]; [left; exact Hin|right].
  apply in_map_iff in Hin. destruct Hin as (y & E & Hin).
  rewrite <- E. apply in_map. apply Hi. exact Hin.
Qed.

Lemma cell_of_addr p e a :
  In a (map fst (cell_of p e)) -> p = Some a.
Proof.
  destruct p as [x|], e as [b|]; simpl; intros H; try contradiction.
  destruct H as [E|[]]. subst. reflexivity.
Qed.

(** The builder yields the records of the specification, with their
    strings in blocks of their own at addresses from [lo] on, and
    keeps what was owned. *)
Lemma create_device_info_for_device_refines files raw_dev O lo m :
  owns O lo m -> hid_parent raw_dev <> Some None ->
  wp (create_device_info_for_device files raw_dev)
     (fun recs m' =>
        Forall2 record_rel recs (device_records files raw_dev)
        /\ owns (all_cells recs (device_records files raw_dev) ++ O) lo m'
        /\ Forall (fresh_record lo) recs) m.
Proof.
  intros Hown Hhid. unfold create_device_info_for_device, device_records.
  destruct (hid_parent raw_dev) as [[uevent|]|]; [| contradiction |].
  2:{ apply wp_bind. apply wp_free_null. apply wp_bind. apply wp_free_null.
      apply wp_ret. split; [constructor|]. split; [exact Hown | constructor]. }
  apply wp_bind. eapply wp_lift; [reflexivity|].
  pose proof (owns_raise _ _ _ Hown) as Hown1.
  assert (Hlo : (lo <= List.length (cells m))%nat) by apply Hown.
  set (lo1 := List.length (cells m)) in *.
  apply wp_bind. eapply wp_mono.
  { apply (parse_uevent_info_refines uevent O lo1 m Hown1). }
  intros res m1 (s & n & O1 & Hres & Ho1 & Hi1 & Has & His & Han & Hin
                 & Hfs & Hfn).
  subst res. cbv beta iota.
  set (f := scan_uevent (uevent_lines uevent) no_fields) in *.
  set (specs := if uf_found_id f && uf_found_name f && uf_found_serial f
                   && bus_handled (uf_bus f)
                then records_of_seed files raw_dev
                       (seed_record raw_dev (uf_bus f) (uf_vid f) (uf_pid f)
                                    (uf_serial f) (uf_name f))
                else []).
  apply wp_bind.
  assert (Hroot :
    wp (if (if uf_found_id f && uf_found_name f && uf_found_serial f
            then 1 else 0) =? 0
        then ret []
        else if negb ((uf_bus f =? BUS_BLUETOOTH) || (uf_bus f =? BUS_I2C)
                      || (uf_bus f =? BUS_USB) || (uf_bus f =? BUS_SPI))
        then ret []
        else
          root <- request ;;
          if negb root then ret []
          else fill_device_info files raw_dev (uf_bus f) (uf_vid f)
                                (uf_pid f) s n)
       (fun recs m' =>
          Forall2 record_rel recs specs
          /\ owns (all_cells recs specs ++ O1) lo1 m'
          /\ Forall (fresh_record lo1) recs) m1).
  { unfold specs.
    destruct (uf_found_id f && uf_found_name f && uf_found_serial f); simpl.
    2:{ apply wp_ret. split; [constructor|].
        split; [exact Ho1 | constructor]. }
    fold (bus_handled (uf_bus f)).
    destruct (bus_handled (uf_bus f)) eqn:Ebus; simpl.
    2:{ apply wp_ret. split; [constructor|].
        split; [exact Ho1 | constructor]. }
    apply wp_bind. eapply wp_request; [exact Ho1|]. simpl.
    apply (fill_device_info_refines files raw_dev (uf_bus f) (uf_vid f)
             (uf_pid f) (uf_serial f) (uf_name f) s n O1 lo1 m1);
      assumption. }
  eapply wp_mono; [exact Hroot|].
  intros recs m2 (Hall & Ho2 & Hfr). cbv beta.
  assert (Hnd : NoDup (map fst (all_cells recs specs ++ O))).
  { eapply NoDup_app_swap_tail; [apply Ho2 | exact Hi1 | apply Hown]. }
  assert (Hincl : incl (all_cells recs specs ++ O) (all_cells recs specs ++ O1)).
  { apply incl_app; [apply incl_appl; apply incl_refl|].
    apply incl_appr. exact Hi1. }
  assert (Hout : forall p e, agree p e -> incl (cell_of p e) O1 ->
                   fresh lo1 p ->
                   forall a, p = Some a ->
                             ~ In a (map fst (all_cells recs specs ++ O))).
  { intros p e Hag Hic Hfp a Ep Hina. subst p.
    destruct e as [b|]; [|contradiction]. simpl in Hic.
    rewrite map_app in Hina. apply in_app_or in Hina.
    destruct Hina as [Hina|Hina].
    - destruct Ho2 as (_ & Hnd2 & _). rewrite map_app in Hnd2.
      revert Hnd2 Hina. clear - Hic.
      generalize (map fst (all_cells recs specs)). intros X Hnd2 Hina.
      induction X as [|x X IH]; [contradiction|].
      simpl in Hnd2. inversion Hnd2 as [|? ? Hni Hnd']; subst.
      destruct Hina as [E|Hina]; [|auto].
      subst x. apply Hni. apply in_or_app. right.
      apply (in_map fst O1 (a, b)). apply Hic. left. reflexivity.
    - pose proof (owns_addr_lt _ _ _ _ Hown1 Hina) as Hlt.
      specialize (Hfp a eq_refl). unfold lo1 in *. lia. }
  apply wp_bind. eapply wp_free_any; [exact Ho2|]. intros m3 Hfree3.
  assert (Ho3 : owns (all_cells recs specs ++ O) lo1 m3).
  { apply Hfree3; [exact Hincl | exact Hnd|].
    apply (Hout s _ Has His Hfs). }
  apply wp_bind. eapply wp_free_any; [exact Ho3|]. intros m4 Hfree4.
  assert (Ho4 : owns (all_cells recs specs ++ O) lo1 m4).
  { apply Hfree4; [apply incl_refl | exact Hnd|].
    apply (Hout n _ Han Hin Hfn). }
  apply wp_ret. split; [exact Hall|]. split.
  - eapply owns_lo; [exact Ho4 | exact Hlo].
  - eapply Forall_impl; [|exact Hfr].
    intros d Hd a Ha. specialize (Hd a Ha). lia.
Qed.

(** What a record is in the heap that owns its strings. *)
Lemma resolve_of_rel (d : hid_device_info) (r : device_record) O lo m :
  record_rel d r -> owns O lo m -> incl (cells_of d r) O -> resolve m d = r.
Proof.
  intros (H1 & H2 & H3 & H4 & H5 & H6 & H7 & Hp & Hsn & Hms & Hps) Hown Hi.
  destruct Hown as (_ & _ & Hl & _).
  destruct d as [p v pd sn rel ms ps pg us ifc bt].
  destruct r as [rp rv rpd rsn rrel rms rps rpg rus rifc rbt].
  unfold cells_of in Hi. simpl in H1, H2, H3, H4, H5, H6, H7, Hp, Hsn, Hms,
                                    Hps, Hi. subst.
  unfold resolve. simpl.
  assert (Hin : forall a b,
            In (a, b) (cell_of ps (option_map Wide rps))
            \/ In (a, b) (cell_of ms (option_map Wide rms))
            \/ In (a, b) (cell_of sn (option_map Wide rsn))
            \/ In (a, b) (cell_of p (option_map Chars rp)) ->
            load a m = Some b).
  { intros a b H. apply Hl. apply Hi. rewrite !in_app_iff. exact H. }
  clear Hi Hl.
  assert (Ep : deref_chars m p = rp).
  { destruct p as [a|], rp as [x|]; simpl in *; try contradiction; auto.
    rewrite (Hin a (Chars x)); [reflexivity|]. do 3 right. left. reflexivity. }
  assert (Esn : deref_wide m sn = rsn).
  { destruct sn as [a|], rsn as [x|]; simpl in *; try contradiction; auto.
    rewrite (Hin a (Wide x)); [reflexivity|]. do 2 right. left. left.
    reflexivity. }
  assert (Ems : deref_wide m ms = rms).
  { destruct ms as [a|], rms as [x|]; simpl in *; try contradiction; auto.
    rewrite (Hin a (Wide x)); [reflexivity|]. right. left. left.
    reflexivity. }
  assert (Eps : deref_wide m ps = rps).
  { destruct ps as [a|], rps as [x|]; simpl in *; try contradiction; auto.
    rewrite (Hin a (Wide x)); [reflexivity|]. left. left. reflexivity. }
  rewrite Ep, Esn, Ems, Eps. reflexivity.
Qed.

Lemma cell_of_addrs p e : agree p e -> map fst (cell_of p e) = ptr_addrs p.
Proof. destruct p, e; simpl; intros H; try contradiction; reflexivity. Qed.

Lemma cells_of_addrs d r :
  record_rel d r -> map fst (cells_of d r) = string_addrs d.
Proof.
  intros (_ & _ & _ & _ & _ & _ & _ & Hp & Hsn & Hms & Hps).
  unfold cells_of, string_addrs. rewrite !map_app.
  rewrite !cell_of_addrs by assumption. reflexivity.
Qed.

Lemma all_cells_addrs ds rs :
  Forall2 record_rel ds rs ->
  Permutation (map fst (all_cells ds rs)) (flat_map string_addrs ds).
Proof.
  induction 1 as [|d r ds rs Hrel _ IH]; simpl; [constructor|].
  rewrite map_app, (cells_of_addrs _ _ Hrel).
  eapply Permutation_trans; [apply Permutation_app_comm|].
  apply Permutation_app_head. exact IH.
Qed.

Lemma all_cells_incl ds rs d r :
  Forall2 record_rel ds rs -> In (d, r) (combine ds rs) ->
  incl (cells_of d r) (all_cells ds rs).
Proof.
  induction 1 as [|d0 r0 ds rs _ _ IH]; simpl; [contradiction|].
  intros [E|Hin].
  - inversion E; subst. apply incl_appr. apply incl_refl.
  - apply incl_appl. apply IH. exact Hin.
Qed.

(** Reading the records back gives the specification. *)
Lemma resolve_all ds rs O lo m :
  Forall2 record_rel ds rs -> owns (all_cells ds rs ++ O) lo m ->
  map (resolve m) ds = rs.
Proof.
  intros Hall Hown.
  assert (H : forall d r, In (d, r) (combine ds rs) -> resolve m d = r).
  { intros d r Hin.
    assert (Hrel : record_rel d r).
    { clear Hown. induction Hall as [|d0 r0 ds rs Hrel0 _ IH];
        simpl in Hin; [contradiction|].
      destruct Hin as [E|Hin]; [inversion E; subst; exact Hrel0 | auto]. }
    eapply resolve_of_rel; [exact Hrel | exact Hown|].
    apply incl_appl. apply all_cells_incl; assumption. }
  clear Hown. induction Hall as [|d r ds rs _ _ IH]; simpl; [reflexivity|].
  f_equal.
  - apply H. left. reflexivity.
  - apply IH. intros d' r' Hin. apply H. right. exact Hin.
Qed.

Lemma owns_nil (m : mem) :
  oom m = [] ->
  (forall g, last_global_error_str m = Some g ->
             (g < List.length (cells m))%nat) ->
  owns [] (List.length (cells m)) m.
Proof.
  intros Ho Hg. split; [exact Ho|]. split; [constructor|].
  split; [intros a b []|]. split; [|lia].
  intros g Eg. split; [apply Hg; exact Eg | intros []].
Qed.

End BuilderRefinement.

Section BuilderClaims.
Context {locale : Locale}.
Local Open Scope Z_scope.

(** C2, as stated, fails.  The sample keyboard on bus 1 (PCI) has a
    readable descriptor that yields two usage pairs, and the builder
    produces no record for it: the bus is not one of USB, Bluetooth,
    I2C and SPI, and the node is dropped before a record is
    allocated. *)
Lemma unhandled_bus_yields_no_record :
  files (Sample.system_of Sample.pci_uevent Sample.pci_keyboard)
        (Sample.keyboard_syspath ++ "/device/report_descriptor")%string
  = FileOk Sample.keyboard_descriptor
  /\ Parser.hid_usage_pairs Sample.keyboard_descriptor
     = Some ([(1, 6); (12, 1)], 1)
  /\ exists m',
       @create_device_info_for_device Sample.byte_locale
         (files (Sample.system_of Sample.pci_uevent Sample.pci_keyboard))
         Sample.pci_keyboard Sample.empty_mem
       = Some ([], m').
Proof.
  split; [reflexivity|]. split; [vm_compute; reflexivity|].
  eexists. vm_compute. reflexivity.
Qed.

(** C2, amended.  For a node that passes the builder's checks (a
    "hid" parent whose uevent gives all three keys and a handled bus),
    when every allocation succeeds, [create_device_info_for_device]
    returns: one record per usage pair of the descriptor, in order,
    when the descriptor is readable and yields a pair, and otherwise
    exactly one record with usage page and usage 0.  All records carry
    the same numbers other than the usage pair and the same four
    strings, and every string of every record is a block of its own:
    the addresses are pairwise distinct, lie outside the heap the call
    started with, and are allocated when the call returns. *)
Theorem device_info_fan_out (files : string -> file_result)
    (raw_dev : udev_device) (m : mem) :
  node_accepted raw_dev = true ->
  oom m = [] ->
  (forall g, last_global_error_str m = Some g ->
             (g < List.length (cells m))%nat) ->
  exists recs m',
    create_device_info_for_device files raw_dev m = Some (recs, m')
    /\ match descriptor_pairs files (syspath raw_dev) with
       | Some (pu :: pairs) =>
         map (fun d => (info_usage_page d, info_usage d)) recs = pu :: pairs
       | _ =>
         exists d, recs = [d] /\ info_usage_page d = 0 /\ info_usage d = 0
       end
    /\ (forall d d', In d recs -> In d' recs ->
                     other_numbers d = other_numbers d'
                     /\ strings_in m' d = strings_in m' d')
    /\ NoDup (flat_map string_addrs recs)
    /\ (forall a, In a (flat_map string_addrs recs) ->
                  (List.length (cells m) <= a)%nat /\ load a m' <> None).
Proof.
  intros Hacc Hoom Hg.
  pose proof (owns_nil m Hoom Hg) as Hown.
  assert (Hhid : hid_parent raw_dev <> Some None).
  { unfold node_accepted in Hacc. intros E. rewrite E in Hacc. discriminate. }
  destruct (create_device_info_for_device_refines files raw_dev [] _ m
              Hown Hhid) as (recs & m' & Hrun & Hall & Ho & Hfr).
  exists recs, m'. split; [exact Hrun|].
  pose proof (resolve_all _ _ _ _ _ Hall Ho) as Hres.
  pose proof (all_cells_addrs _ _ Hall) as Hperm.
  pose (f := scan_uevent (match hid_parent raw_dev with
                          | Some (Some u) => uevent_lines u
                          | _ => []
                          end) no_fields).
  pose (seed := seed_record raw_dev (uf_bus f) (uf_vid f) (uf_pid f)
                            (uf_serial f) (uf_name f)).
  assert (Hspecs : device_records files raw_dev
                   = records_of_seed files raw_dev seed).
  { unfold seed, f, device_records, node_accepted in *.
    destruct (hid_parent raw_dev) as [[u|]|]; try discriminate.
    cbv zeta in *. rewrite Hacc. reflexivity. }
  assert (Hseed0 : r_usage_page seed = 0 /\ r_usage seed = 0).
  { unfold seed, seed_record.
    destruct (uf_bus f =? BUS_USB); [destruct (usb_device_parent raw_dev)|];
      try (split; reflexivity).
    destruct (uf_bus f =? BUS_BLUETOOTH); [split; reflexivity|].
    destruct (uf_bus f =? BUS_I2C); split; reflexivity. }
  assert (Hsame : forall r, In r (device_records files raw_dev) ->
            exists pu, r = with_usage seed pu).
  { rewrite Hspecs. unfold records_of_seed. intros r Hin.
    destruct (descriptor_pairs files (syspath raw_dev)) as [[|pu pairs]|].
    - destruct Hin as [E|[]]. subst r.
      exists (r_usage_page seed, r_usage seed). destruct seed; reflexivity.
    - apply in_map_iff in Hin. destruct Hin as (x & E & _). eauto.
    - destruct Hin as [E|[]]. subst r.
      exists (r_usage_page seed, r_usage seed). destruct seed; reflexivity. }
  split; [|split; [|split]].
  - assert (Hu : map (fun d => (info_usage_page d, info_usage d)) recs
                 = map (fun r => (r_usage_page r, r_usage r))
                       (device_records files raw_dev)).
    { rewrite <- Hres, map_map. reflexivity. }
    rewrite Hspecs in Hu, Hall. unfold records_of_seed in Hu, Hall.
    destruct (descriptor_pairs files (syspath raw_dev)) as [[|pu pairs]|].
    + inversion Hall as [|d r ds rs Hrel Hnil]; subst. inversion Hnil; subst.
      exists d. split; [reflexivity|].
      simpl in Hu. inversion Hu as [[Hpg Hus]]. destruct Hseed0 as [E1 E2].
      split; congruence.
    + rewrite Hu, map_map. simpl. f_equal; [destruct pu; reflexivity|].
      rewrite <- (map_id pairs) at 2. apply map_ext. intros [a b]. reflexivity.
    + inversion Hall as [|d r ds rs Hrel Hnil]; subst. inversion Hnil; subst.
      exists d. split; [reflexivity|].
      simpl in Hu. inversion Hu as [[Hpg Hus]]. destruct Hseed0 as [E1 E2].
      split; congruence.
  - assert (Hone : forall d, In d recs ->
              other_numbers d
              = (r_vendor_id seed, r_product_id seed, r_release_number seed,
                 r_interface_number seed, r_bus_type seed)
              /\ strings_in m' d
                 = (r_path seed, r_serial_number seed,
                    r_manufacturer_string seed, r_product_string seed)).
    { intros d Hin. apply (in_map (resolve m')) in Hin. rewrite Hres in Hin.
      destruct (Hsame _ Hin) as (pu & E).
      unfold other_numbers, strings_in.
      change (vendor_id d) with (r_vendor_id (resolve m' d)).
      change (product_id d) with (r_product_id (resolve m' d)).
      change (release_number d) with (r_release_number (resolve m' d)).
      change (interface_number d) with (r_interface_number (resolve m' d)).
      change (bus_type d) with (r_bus_type (resolve m' d)).
      change (deref_chars m' (path d)) with (r_path (resolve m' d)).
      change (deref_wide m' (serial_number d))
        with (r_serial_number (resolve m' d)).
      change (deref_wide m' (manufacturer_string d))
        with (r_manufacturer_string (resolve m' d)).
      change (deref_wide m' (product_string d))
        with (r_product_string (resolve m' d)).
      rewrite E. split; reflexivity. }
    intros d d' Hd Hd'. destruct (Hone d Hd) as [E1 E2].
    destruct (Hone d' Hd') as [E1' E2']. split; congruence.
  - eapply Permutation_NoDup; [exact Hperm|].
    destruct Ho as (_ & Hnd & _). rewrite map_app in Hnd.
    rewrite app_nil_r in Hnd. exact Hnd.
  - intros a Hin. split.
    + apply in_flat_map in Hin. destruct Hin as (d & Hd & Ha).
      rewrite Forall_forall in Hfr. apply (Hfr d Hd a Ha).
    + apply (Permutation_in _ (Permutation_sym Hperm)) in Hin.
      apply in_map_iff in Hin. destruct Hin as ([a' b] & E & Hin).
      simpl in E. subst a'. destruct Ho as (_ & _ & Hl & _).
      rewrite (Hl a b); [discriminate|]. apply in_or_app. left. exact Hin.
Qed.

End BuilderClaims.

Lemma device_info_fan_out_witness :
  node_accepted Sample.keyboard = true
  /\ exists recs m',
       @create_device_info_for_device Sample.byte_locale
         (files Sample.keyboard_system) Sample.keyboard Sample.empty_mem
       = Some (recs, m')
       /\ NoDup (flat_map string_addrs recs).
Proof.
  split; [vm_compute; reflexivity|].
  destruct (@device_info_fan_out Sample.byte_locale
              (files Sample.keyboard_system) Sample.keyboard Sample.empty_mem)
    as (recs & m' & Hrun & _ & _ & Hnd & _).
  - vm_compute. reflexivity.
  - reflexivity.
  - intros g E. discriminate E.
  - exists recs, m'. split; assumption.
Defined.

(** ** The enumerator against its specification *)

Section EnumeratorRefinement.
Context {locale : Locale}.
Local Open Scope Z_scope.

Lemma all_cells_app ds1 rs1 ds2 rs2 :
  Forall2 record_rel ds1 rs1 ->
  all_cells (ds1 ++ ds2) (rs1 ++ rs2)
  = (all_cells ds2 rs2 ++ all_cells ds1 rs1)%list.
Proof.
  induction 1 as [|d r ds rs _ _ IH]; simpl.
  - rewrite app_nil_r. reflexivity.
  - rewrite IH, app_assoc. reflexivity.
Qed.

(** The pre-filter of one entry. *)
Lemma prefilter_refines (env : udev_env) (v p : Z) (sysfs_path : string)
    O lo m :
  owns O lo m ->
  (negb (v =? 0) || negb (p =? 0) = true ->
   uevent_file_fits (files env) sysfs_path) ->
  wp (if negb (v =? 0) || negb (p =? 0) then
        '(ok, _, dev_vid, dev_pid) <-
          parse_hid_vid_pid_from_sysfs (files env) sysfs_path 0 0 0 ;;
        if ok =? 0 then ret true
        else if negb (v =? 0) && negb (v =? dev_vid) then ret true
        else if negb (p =? 0) && negb (p =? dev_pid) then ret true
        else ret false
      else ret false)
     (fun skip m' =>
        skip = prefilter_rejects (files env) v p sysfs_path
        /\ owns O lo m') m.
Proof.
  intros Hown Hfit. unfold prefilter_rejects.
  destruct (negb (v =? 0) || negb (p =? 0)).
  - apply wp_bind. eapply wp_mono.
    { apply (parse_hid_vid_pid_from_sysfs_refines (files env) sysfs_path
               O lo m Hown (Hfit eq_refl)). }
    intros res m' [Hres Ho]. rewrite <- Hres.
    destruct res as [[[ok b] dv] dp]. cbv beta iota.
    destruct (ok =? 0); simpl; [apply wp_ret; auto|].
    destruct (negb (v =? 0) && negb (v =? dv)); simpl; [apply wp_ret; auto|].
    destruct (negb (p =? 0) && negb (p =? dp)); apply wp_ret; auto.
  - apply wp_ret. auto.
Qed.

Lemma enumerate_entries_refines (env : udev_env) (v p : Z)
    (entries : list (option string)) :
  forall O lo m,
    owns O lo m ->
    (forall sysfs_path raw_dev,
        In (Some sysfs_path) entries ->
        device_new_from_syspath env sysfs_path = Some raw_dev ->
        hid_parent raw_dev <> Some None) ->
    (negb (v =? 0) || negb (p =? 0) = true ->
     forall sysfs_path,
       In (Some sysfs_path) entries ->
       uevent_file_fits (files env) sysfs_path) ->
    wp (enumerate_entries env v p entries)
       (fun recs m' =>
          Forall2 record_rel recs (flat_map (entry_records env v p) entries)
          /\ owns (all_cells recs (flat_map (entry_records env v p) entries)
                   ++ O) lo m'
          /\ Forall (fresh_record lo) recs) m.
Proof.
  induction entries as [|[sysfs_path|] rest IH];
    intros O lo m Hown Hhid Hfit.
  - simpl. apply wp_ret. split; [constructor|].
    split; [exact Hown | constructor].
  - simpl. apply wp_bind. eapply wp_mono.
    { apply (prefilter_refines env v p sysfs_path O lo m Hown).
      intros Hnz. apply (Hfit Hnz). left. reflexivity. }
    intros skip m1 [Hskip Ho1]. cbv beta. rewrite <- Hskip.
    assert (Hrest : forall sp d, In (Some sp) rest ->
                      device_new_from_syspath env sp = Some d ->
                      hid_parent d <> Some None).
    { intros sp d Hin. apply Hhid. right. exact Hin. }
    assert (Hfrest : negb (v =? 0) || negb (p =? 0) = true ->
                     forall sp, In (Some sp) rest ->
                                uevent_file_fits (files env) sp).
    { intros Hnz sp Hin. apply (Hfit Hnz). right. exact Hin. }
    destruct skip.
    { simpl. apply IH; assumption. }
    destruct (device_new_from_syspath env sysfs_path) as [raw_dev|] eqn:Edev.
    2:{ simpl. apply IH; assumption. }
    apply wp_bind. eapply wp_mono.
    { apply (create_device_info_for_device_refines (files env) raw_dev
               O lo m1 Ho1).
      apply (Hhid sysfs_path raw_dev); [left; reflexivity | exact Edev]. }
    intros tmp m2 (Htmp & Ho2 & Hfr2). cbv beta.
    apply wp_bind. eapply wp_mono.
    { apply (IH _ lo m2 Ho2 Hrest Hfrest). }
    intros more m3 (Hmore & Ho3 & Hfr3). apply wp_ret.
    split; [apply Forall2_app; assumption|].
    split.
    + rewrite (all_cells_app _ _ _ _ Htmp), <- app_assoc. exact Ho3.
    + apply Forall_app. split; assumption.
  - simpl. apply IH; [exact Hown | |].
    + intros sp d Hin. apply Hhid. right. exact Hin.
    + intros Hnz sp Hin. apply (Hfit Hnz). right. exact Hin.
Qed.

(** [hid_enumerate] returns the records of the specification. *)
Lemma hid_enumerate_refines (env : udev_env) (v p : Z) O lo m :
  owns O lo m ->
  (forall sysfs_path raw_dev,
      In (Some sysfs_path) (hidraw_entries env) ->
      device_new_from_syspath env sysfs_path = Some raw_dev ->
      hid_parent raw_dev <> Some None) ->
  prefilter_reads_fit env v p ->
  wp (hid_enumerate env v p)
     (fun recs m' =>
        Forall2 record_rel recs (enumeration env v p)
        /\ owns (all_cells recs (enumeration env v p) ++ O) lo m'
        /\ Forall (fresh_record lo) recs) m.
Proof.
  intros Hown Hhid Hfit. unfold hid_enumerate, enumeration, hid_init.
  apply wp_bind. apply wp_bind.
  eapply wp_register_global_error; [exact Hown|]. intros m1 Ho1.
  apply wp_ret.
  destruct (udev_new_ok env); simpl.
  - apply wp_bind. eapply wp_mono.
    { apply (enumerate_entries_refines env v p (hidraw_entries env)
               O lo m1 Ho1 Hhid Hfit). }
    intros recs m2 (Hall & Ho2 & Hfr). cbv beta.
    destruct recs as [|d recs].
    + apply wp_bind.
      assert (Hreg : forall msg,
                wp (register_global_error msg)
                   (fun _ m' =>
                      owns (all_cells []
                              (flat_map (entry_records env v p)
                                        (hidraw_entries env)) ++ O) lo m')
                   m2).
      { intros msg. eapply wp_register_global_error; [exact Ho2|]. auto. }
      destruct ((v =? 0) && (p =? 0)); (eapply wp_mono; [apply Hreg|]);
        intros [] m3 Ho3; apply wp_ret;
        (split; [exact Hall|]); (split; [exact Ho3 | exact Hfr]).
    + apply wp_ret. split; [exact Hall|]. split; [exact Ho2 | exact Hfr].
  - apply wp_bind. eapply wp_register_global_error; [exact Ho1|].
    intros m2 Ho2. apply wp_ret. split; [constructor|].
    split; [exact Ho2 | constructor].
Qed.

(** *** The two uevent scans agree on texts with one [HID_ID] line *)

Local Open Scope string_scope.

Lemma scan_uevent_no_id (lines : list string) :
  forall f,
    filter (line_has_key "HID_ID") lines = [] ->
    let f' := scan_uevent lines f in
    uf_bus f' = uf_bus f /\ uf_vid f' = uf_vid f /\ uf_pid f' = uf_pid f
    /\ uf_found_id f' = uf_found_id f.
Proof.
  induction lines as [|line rest IH]; intros f Hno; [simpl; auto|].
  simpl in Hno. unfold line_has_key in Hno at 1. simpl.
  destruct (Libc.strchr_split "=" line) as [[key value]|]; [|apply IH; exact Hno].
  destruct (String.eqb key "HID_ID"); [discriminate|].
  destruct (String.eqb key "HID_NAME");
    [destruct (IH (UeventFields (uf_bus f) (uf_vid f) (uf_pid f) (uf_serial f)
                     (Some value) (uf_found_id f) (uf_found_serial f) true)
                  Hno) as (H1 & H2 & H3 & H4); simpl in *; auto|].
  destruct (String.eqb key "HID_UNIQ");
    [destruct (IH (UeventFields (uf_bus f) (uf_vid f) (uf_pid f) (Some value)
                     (uf_name f) (uf_found_id f) true (uf_found_name f))
                  Hno) as (H1 & H2 & H3 & H4); simpl in *; auto|].
  apply IH. exact Hno.
Qed.

Lemma scan_hid_id_no_id (lines : list string) :
  forall b v p,
    filter (line_has_key "HID_ID") lines = [] ->
    scan_hid_id lines b v p = (0, b, v, p)%Z.
Proof.
  induction lines as [|line rest IH]; intros b v p Hno; [reflexivity|].
  simpl in Hno. unfold line_has_key in Hno at 1. simpl.
  destruct (Libc.strchr_split "=" line) as [[key value]|]; [|apply IH; exact Hno].
  destruct (String.eqb key "HID_ID"); [discriminate|].
  apply IH. exact Hno.
Qed.

Lemma scan_agree (lines : list string) :
  forall f,
    (List.length (filter (line_has_key "HID_ID") lines) <= 1)%nat ->
    uf_found_id f = false ->
    let f' := scan_uevent lines f in
    scan_hid_id lines (uf_bus f) (uf_vid f) (uf_pid f)
    = (if uf_found_id f' then 1 else 0, uf_bus f', uf_vid f', uf_pid f')%Z.
Proof.
  induction lines as [|line rest IH]; intros f Hone Hf.
  - simpl. rewrite Hf. reflexivity.
  - simpl in Hone. unfold line_has_key in Hone at 1. simpl.
    destruct (Libc.strchr_split "=" line) as [[key value]|];
      [|apply IH; assumption].
    destruct (String.eqb key "HID_ID").
    + simpl in Hone.
      assert (Hno : filter (line_has_key "HID_ID") rest = []).
      { destruct (filter (line_has_key "HID_ID") rest); [reflexivity|].
        simpl in Hone. lia. }
      destruct (Libc.sscanf_x_hx_hx value (uf_bus f) (uf_vid f) (uf_pid f))
        as [[[r b] v] p].
      match goal with
      | |- context [scan_uevent rest ?g] =>
        destruct (scan_uevent_no_id rest g Hno) as (H1 & H2 & H3 & H4)
      end.
      simpl in H1, H2, H3, H4. rewrite H1, H2, H3, H4.
      destruct (r =? 3)%Z; [reflexivity|].
      rewrite Hf. apply scan_hid_id_no_id. exact Hno.
    + destruct (String.eqb key "HID_NAME");
        [apply (IH (UeventFields (uf_bus f) (uf_vid f) (uf_pid f)
                      (uf_serial f) (Some value) (uf_found_id f)
                      (uf_found_serial f) true)); assumption|].
      destruct (String.eqb key "HID_UNIQ");
        [apply (IH (UeventFields (uf_bus f) (uf_vid f) (uf_pid f)
                      (Some value) (uf_name f) (uf_found_id f) true
                      (uf_found_name f))); assumption|].
      apply IH; assumption.
Qed.

Local Open Scope Z_scope.

Lemma filter_all {A : Type} (f : A -> bool) (l : list A) (b : bool) :
  (forall x, In x l -> f x = b) -> filter f l = if b then l else [].
Proof.
  induction l as [|x l IH]; intros H; simpl; [destruct b; reflexivity|].
  rewrite (H x (or_introl eq_refl)), IH by (intros y Hy; apply H; right; exact Hy).
  destruct b; reflexivity.
Qed.

Lemma filter_flat_map_comm {A B : Type} (f : B -> bool) (g : A -> list B)
    (l : list A) :
  filter f (flat_map g l) = flat_map (fun x => filter f (g x)) l.
Proof.
  induction l as [|x l IH]; simpl; [reflexivity|].
  rewrite filter_app, IH. reflexivity.
Qed.

Lemma seed_record_ids raw_dev bus vid pid serial name :
  r_vendor_id (seed_record raw_dev bus vid pid serial name) = vid
  /\ r_product_id (seed_record raw_dev bus vid pid serial name) = pid.
Proof.
  unfold seed_record.
  destruct (bus =? BUS_USB); [destruct (usb_device_parent raw_dev)|];
    try (split; reflexivity).
  destruct (bus =? BUS_BLUETOOTH); [split; reflexivity|].
  destruct (bus =? BUS_I2C); split; reflexivity.
Qed.

Lemma records_of_seed_ids files raw_dev seed r :
  In r (records_of_seed files raw_dev seed) ->
  r_vendor_id r = r_vendor_id seed /\ r_product_id r = r_product_id seed.
Proof.
  unfold records_of_seed.
  destruct (descriptor_pairs files (syspath raw_dev)) as [[|pu pairs]|];
    intros Hin.
  - destruct Hin as [E|[]]. subst. auto.
  - apply in_map_iff in Hin. destruct Hin as (x & E & _). subst. auto.
  - destruct Hin as [E|[]]. subst. auto.
Qed.

Lemma flat_map_agree {A B : Type} (f g : A -> list B) (l : list A) :
  (forall x, In x l -> f x = g x) -> flat_map f l = flat_map g l.
Proof.
  induction l as [|x l IH]; intros H; simpl; [reflexivity|].
  rewrite (H x (or_introl eq_refl)), IH by (intros y Hy; apply H; right; exact Hy).
  reflexivity.
Qed.

(** For one entry, the records that pass the pre-filter are the
    records of the entry that match the filter. *)
Lemma entry_records_filter (env : udev_env) (v p : Z)
    (entry : option string) :
  (forall sysfs_path raw_dev,
      entry = Some sysfs_path ->
      device_new_from_syspath env sysfs_path = Some raw_dev ->
      match hid_parent raw_dev with
      | None => True
      | Some None => False
      | Some (Some uevent) =>
        (exists content,
            files env (Libc.c_str sysfs_path ++ "/device/uevent")%string
            = FileOk content
            /\ uevent_lines (string_of_list_byte (firstn 1024 content))
               = uevent_lines uevent)
        /\ (List.length (filter (line_has_key "HID_ID") (uevent_lines uevent))
            <= 1)%nat
      end) ->
  entry_records env v p entry
  = filter (matches_filter v p) (entry_records env 0 0 entry).
Proof.
  intros Hcons. destruct entry as [sysfs_path|]; [|reflexivity].
  unfold entry_records.
  assert (E00 : prefilter_rejects (files env) 0 0 sysfs_path = false)
    by reflexivity.
  rewrite E00.
  destruct (device_new_from_syspath env sysfs_path) as [raw_dev|] eqn:Edev.
  2:{ destruct (prefilter_rejects (files env) v p sysfs_path); reflexivity. }
  specialize (Hcons sysfs_path raw_dev eq_refl Edev).
  unfold prefilter_rejects.
  destruct (negb (v =? 0) || negb (p =? 0)) eqn:Econd.
  2:{ apply orb_false_iff in Econd. destruct Econd as [Ev Ep].
      apply negb_false_iff in Ev, Ep.
      rewrite (filter_all (matches_filter v p) _ true); [reflexivity|].
      intros r _. unfold matches_filter, hid_internal_match_device_id.
      change (v =? 0x0) with (v =? 0). change (p =? 0x0) with (p =? 0).
      rewrite Ev, Ep. reflexivity. }
  unfold device_records, prefilter_ids.
  destruct (hid_parent raw_dev) as [[uevent|]|];
    [| contradiction
     | destruct (let '(ok, _, dv, dp) := _ in _); reflexivity].
  destruct Hcons as [(content & Hfile & Hlines) Hone].
  rewrite Hfile, Hlines.
  pose proof (scan_agree (uevent_lines uevent) no_fields Hone eq_refl) as Hag.
  cbv zeta in Hag. simpl uf_bus in Hag at 1. simpl uf_vid in Hag at 1.
  simpl uf_pid in Hag at 1. rewrite Hag. cbv zeta.
  set (f := scan_uevent (uevent_lines uevent) no_fields) in *.
  destruct (uf_found_id f && uf_found_name f && uf_found_serial f
            && bus_handled (uf_bus f)) eqn:Eacc.
  2:{ destruct ((_ =? 0) || _ || _); reflexivity. }
  assert (Efid : uf_found_id f = true).
  { destruct (uf_found_id f); [reflexivity | discriminate Eacc]. }
  rewrite Efid. simpl (1 =? 0). simpl orb.
  destruct (seed_record_ids raw_dev (uf_bus f) (uf_vid f) (uf_pid f)
                            (uf_serial f) (uf_name f)) as [Hv Hp].
  rewrite (filter_all (matches_filter v p) _
             (hid_internal_match_device_id (uf_vid f) (uf_pid f) v p)).
  - unfold hid_internal_match_device_id.
    change (v =? 0x0) with (v =? 0). change (p =? 0x0) with (p =? 0).
    rewrite (Z.eqb_sym (uf_vid f) v), (Z.eqb_sym (uf_pid f) p).
    destruct (v =? 0), (p =? 0), (v =? uf_vid f), (p =? uf_pid f);
      reflexivity.
  - intros r Hin. apply records_of_seed_ids in Hin.
    destruct Hin as [E1 E2]. unfold matches_filter. rewrite E1, E2, Hv, Hp.
    reflexivity.
Qed.

(** Filtering the full enumeration gives the filtered enumeration. *)
Lemma enumeration_filter (env : udev_env) (v p : Z) :
  uevent_consistent env ->
  enumeration env v p = filter (matches_filter v p) (enumeration env 0 0).
Proof.
  intros Hcons. unfold enumeration.
  destruct (udev_new_ok env); [|reflexivity].
  rewrite filter_flat_map_comm. apply flat_map_agree.
  intros entry Hin. apply entry_records_filter.
  intros sp d E. subst entry. apply Hcons. exact Hin.
Qed.

(** With the filter (0, 0) the pre-filter reads no file. *)
Lemma prefilter_reads_fit_all (env : udev_env) : prefilter_reads_fit env 0 0.
Proof. intros H. discriminate H. Qed.

(** The specification of the unfiltered enumeration is the list of the
    records of the system. *)
Lemma enumeration_all (env : udev_env) :
  enumeration env 0 0
  = if udev_new_ok env then system_records env else [].
Proof.
  unfold enumeration, system_records.
  destruct (udev_new_ok env); [|reflexivity].
  apply flat_map_agree. intros [sysfs_path|] _; reflexivity.
Qed.

End EnumeratorRefinement.

Section EnumeratorClaims.
Context {locale : Locale}.
Local Open Scope Z_scope.

(** C5, as stated, fails.  On the sample system whose one node has a
    uevent with the two lines [HID_ID=0003:00000001:00000002] and
    [HID_ID=0003:00000003:00000004], the unfiltered enumeration returns
    two records (one per usage pair) with vendor 3; enumerating with
    vendor 1 returns these two records, whose vendor is not 1, and
    enumerating with vendor 3 returns none: the pre-filter decides on
    the first [HID_ID] line, the builder stores the last. *)
Lemma prefilter_and_builder_disagree :
  (exists all m0,
      @hid_enumerate Sample.byte_locale Sample.twice_system 0 0
                     Sample.empty_mem = Some (all, m0)
      /\ map vendor_id all = [3; 3])
  /\ (exists recs m1,
         @hid_enumerate Sample.byte_locale Sample.twice_system 1 0
                        Sample.empty_mem = Some (recs, m1)
         /\ map vendor_id recs = [3; 3])
  /\ (exists m2,
         @hid_enumerate Sample.byte_locale Sample.twice_system 3 0
                        Sample.empty_mem = Some ([], m2)).
Proof.
  split; [|split].
  - eexists _, _. split; [vm_compute; reflexivity | reflexivity].
  - eexists _, _. split; [vm_compute; reflexivity | reflexivity].
  - eexists. vm_compute. reflexivity.
Qed.

(** C5, amended.  On a system as the kernel presents it (every node's
    uevent reads to the same lines through the file and through the
    attribute of the "hid" parent, with at most one [HID_ID] line, and
    every uevent file the pre-filter reads has fewer than 1024 bytes),
    and when every allocation succeeds: [hid_enumerate(v, p)] returns,
    and its records, read out of the heap it returns, are exactly the
    records of the system (those the builder makes for the device of
    each entry of the hidraw list, in list order; none when [udev_new]
    fails) for which (v is 0 or the vendor is v) and (p is 0 or the
    product is p), in the same order.  [hid_enumerate(0, 0)] returns
    all records of the system. *)
Theorem enumerate_returns_matching_records
    (env : udev_env) (v p : Z) (m : mem) :
  uevent_consistent env ->
  prefilter_reads_fit env v p ->
  oom m = [] ->
  (forall g, last_global_error_str m = Some g ->
             (g < List.length (cells m))%nat) ->
  exists recs m1 all m0,
    hid_enumerate env v p m = Some (recs, m1)
    /\ hid_enumerate env 0 0 m = Some (all, m0)
    /\ map (resolve m0) all
       = (if udev_new_ok env then system_records env else [])
    /\ map (resolve m1) recs
       = filter (fun r => hid_internal_match_device_id
                            (r_vendor_id r) (r_product_id r) v p)
                (if udev_new_ok env then system_records env else [])
    /\ map (resolve m1) recs
       = filter (fun r => hid_internal_match_device_id
                            (r_vendor_id r) (r_product_id r) v p)
                (map (resolve m0) all).
Proof.
  intros Hcons Hfit Hoom Hg.
  pose proof (owns_nil m Hoom Hg) as Hown.
  assert (Hhid : forall sp d, In (Some sp) (hidraw_entries env) ->
                   device_new_from_syspath env sp = Some d ->
                   hid_parent d <> Some None).
  { intros sp d Hin Edev E. specialize (Hcons sp d Hin Edev).
    rewrite E in Hcons. exact Hcons. }
  destruct (hid_enumerate_refines env v p [] _ m Hown Hhid Hfit)
    as (recs & m1 & Hrun & Hall & Ho & _).
  destruct (hid_enumerate_refines env 0 0 [] _ m Hown Hhid
              (prefilter_reads_fit_all env))
    as (all & m0 & Hrun0 & Hall0 & Ho0 & _).
  exists recs, m1, all, m0. split; [exact Hrun|]. split; [exact Hrun0|].
  rewrite (resolve_all _ _ _ _ _ Hall Ho), (resolve_all _ _ _ _ _ Hall0 Ho0).
  rewrite <- enumeration_all.
  split; [reflexivity|].
  split; apply enumeration_filter; exact Hcons.
Qed.

End EnumeratorClaims.

(** The uevent file of the sample keyboard fits the buffer of the
    pre-filter. *)
Lemma keyboard_reads_fit (v p : Z) :
  prefilter_reads_fit Sample.keyboard_system v p.
Proof.
  intros _ sp [E|[]]. inversion E; subst sp. unfold uevent_file_fits.
  assert (Ef : files Sample.keyboard_system
                 (Libc.c_str Sample.keyboard_syspath ++ "/device/uevent")
               = FileOk (list_byte_of_string Sample.keyboard_uevent))
    by (vm_compute; reflexivity).
  rewrite Ef. apply Nat.ltb_lt. vm_compute. reflexivity.
Qed.

Lemma enumerate_returns_matching_records_witness :
  uevent_consistent Sample.keyboard_system
  /\ prefilter_reads_fit Sample.keyboard_system 0x05AC 0
  /\ exists recs m1,
       @hid_enumerate Sample.byte_locale Sample.keyboard_system 0x05AC 0
                      Sample.empty_mem = Some (recs, m1)
       /\ map (resolve m1) recs
          = filter (fun r => hid_internal_match_device_id
                               (r_vendor_id r) (r_product_id r) 0x05AC 0)
                   (@system_records Sample.byte_locale
                      Sample.keyboard_system)
       /\ map r_vendor_id (map (resolve m1) recs) = [0x05AC; 0x05AC]
       /\ map r_usage (map (resolve m1) recs) = [6; 1].
Proof.
  assert (Hcons : uevent_consistent Sample.keyboard_system).
  { intros sp d [E|[]] Edev. inversion E; subst sp.
    vm_compute in Edev. inversion Edev; subst d. simpl.
    split.
    - exists (list_byte_of_string Sample.keyboard_uevent).
      split; vm_compute; reflexivity.
    - vm_compute. apply le_n. }
  split; [exact Hcons|]. split; [exact (keyboard_reads_fit 0x05AC 0)|].
  destruct (@enumerate_returns_matching_records Sample.byte_locale
              Sample.keyboard_system 0x05AC 0 Sample.empty_mem Hcons
              (keyboard_reads_fit 0x05AC 0) eq_refl)
    as (recs & m1 & all & m0 & Hrun & _ & _ & Hrecs & _).
  - intros g E. discriminate E.
  - exists recs, m1. split; [exact Hrun|].
    change (if udev_new_ok Sample.keyboard_system
            then @system_records Sample.byte_locale Sample.keyboard_system
            else [])
      with (@system_records Sample.byte_locale Sample.keyboard_system)
      in Hrecs.
    split; [exact Hrecs|].
    rewrite Hrecs. split; vm_compute; reflexivity.
Defined.

(** * Further properties *)

(** ** Descriptor parser: byte order, bounds, repeated calls *)

Section ParserMore.
Import Parser ParserFacts ParserSpec.

Lemma to_N_byte_of_Z (z : Z) : Z.of_N (Byte.to_N (byte_of_Z z)) = z mod 256.
Proof.
  unfold byte_of_Z.
  pose proof (Z.mod_pos_bound z 256 ltac:(lia)) as Hb.
  destruct (Byte.of_N (Z.to_N (z mod 256))) as [b|] eqn:E.
  - apply Byte.to_of_N in E. rewrite E. lia.
  - apply Byte.of_N_None_iff in E. lia.
Qed.

Lemma rd_app (pre l : list byte) (k : nat) :
  rd (pre ++ l) (Z.of_nat (List.length pre) + Z.of_nat k)
  = Z.of_N (Byte.to_N (nth k l x00)).
Proof.
  unfold rd. replace (Z.to_nat (Z.of_nat (List.length pre) + Z.of_nat k))
    with (List.length pre + k)%nat by lia.
  rewrite app_nth2_plus. reflexivity.
Qed.

Lemma rd_data (pre post : list byte) (key : byte) (bytes : list byte)
    (k : nat) :
  (k < List.length bytes)%nat ->
  rd (pre ++ key :: bytes ++ post) (Z.of_nat (List.length pre) + Z.of_nat (S k))
  = Z.of_N (Byte.to_N (nth k bytes x00)).
Proof.
  intros Hk. rewrite rd_app. simpl. rewrite app_nth1 by exact Hk. reflexivity.
Qed.

(** X1.  get_hid_report_bytes reads the data field of an item as a
    little-endian number: when the 1, 2 or 4 bytes after the key byte
    hold the number v (below 256^n), it returns v if the field ends
    before the given buffer length, and 0 if it does not. *)
Theorem report_bytes_little_endian (pre post : list byte) (key : byte)
    (n : nat) (v len : Z) :
  (n = 1 \/ n = 2 \/ n = 4)%nat ->
  0 <= v < 256 ^ Z.of_nat n ->
  get_hid_report_bytes (pre ++ key :: le_bytes n v ++ post) len (Z.of_nat n)
                       (Z.of_nat (List.length pre))
  = if Z.of_nat (List.length pre) + Z.of_nat n <? len then v else 0.
Proof.
  intros Hn Hv. unfold get_hid_report_bytes.
  destruct (Z.of_nat (List.length pre) + Z.of_nat n <? len) eqn:E.
  2:{ assert (E' : (len <=? Z.of_nat (List.length pre) + Z.of_nat n) = true)
        by lia.
      rewrite E'. reflexivity. }
  assert (E' : (len <=? Z.of_nat (List.length pre) + Z.of_nat n) = false)
    by lia.
  rewrite E'. clear E E'.
  set (cur := Z.of_nat (List.length pre)).
  destruct Hn as [Hn|[Hn|Hn]]; subst n.
  - change (Z.of_nat 1) with 1 in *. simpl (_ =? _).
    replace (cur + 1) with (cur + Z.of_nat 1) by lia.
    unfold cur. rewrite rd_data by (simpl; lia). simpl.
    rewrite to_N_byte_of_Z. apply Z.mod_small. lia.
  - change (Z.of_nat 2) with 2 in *. simpl (_ =? _).
    replace (cur + 1) with (cur + Z.of_nat 1) by lia.
    replace (cur + 2) with (cur + Z.of_nat 2) by lia.
    unfold cur. rewrite !rd_data by (simpl; lia). simpl.
    rewrite !to_N_byte_of_Z.
    assert (Hq : 0 <= v / 256 < 256)
      by (split; [apply Z.div_pos; lia | apply Z.div_lt_upper_bound; lia]).
    rewrite (Z.mod_small (v / 256)) by lia.
    pose proof (Z.div_mod v 256 ltac:(lia)) as Hd.
    rewrite u32_small by (pose proof (Z.mod_pos_bound v 256 ltac:(lia)); lia).
    lia.
  - change (Z.of_nat 4) with 4 in *. simpl (_ =? _).
    replace (cur + 1) with (cur + Z.of_nat 1) by lia.
    replace (cur + 2) with (cur + Z.of_nat 2) by lia.
    replace (cur + 3) with (cur + Z.of_nat 3) by lia.
    replace (cur + 4) with (cur + Z.of_nat 4) by lia.
    unfold cur. rewrite !rd_data by (simpl; lia). simpl.
    rewrite !to_N_byte_of_Z.
    change (256 ^ 4) with 4294967296 in Hv.
    pose proof (Z.div_mod v 256 ltac:(lia)) as H0.
    pose proof (Z.div_mod (v / 256) 256 ltac:(lia)) as H1.
    pose proof (Z.div_mod (v / 256 / 256) 256 ltac:(lia)) as H2.
    pose proof (Z.mod_pos_bound v 256 ltac:(lia)) as B0.
    pose proof (Z.mod_pos_bound (v / 256) 256 ltac:(lia)) as B1.
    pose proof (Z.mod_pos_bound (v / 256 / 256) 256 ltac:(lia)) as B2.
    assert (Hq : 0 <= v / 256 / 256 / 256 < 256).
    { split.
      - repeat apply Z.div_pos; lia.
      - repeat (apply Z.div_lt_upper_bound; [lia|]). lia. }
    rewrite (Z.mod_small (v / 256 / 256 / 256)) by lia.
    rewrite u32_small; [lia|].
    change (2 ^ 32) with 4294967296. lia.
Qed.


(** *** Reads stay inside the buffer *)

Lemma rd_prefix (d d' : list byte) (n i : Z) :
  firstn (Z.to_nat n) d = firstn (Z.to_nat n) d' ->
  0 <= i < n -> rd d i = rd d' i.
Proof.
  intros Hp Hi. unfold rd. f_equal. f_equal.
  assert (H : forall l : list byte,
             nth (Z.to_nat i) l x00
             = nth (Z.to_nat i) (firstn (Z.to_nat n) l) x00).
  { intros l. rewrite <- (firstn_skipn (Z.to_nat n) l) at 1.
    destruct (Nat.lt_ge_cases (Z.to_nat i) (List.length (firstn (Z.to_nat n) l)))
      as [Hlt|Hge].
    - rewrite app_nth1 by exact Hlt. reflexivity.
    - rewrite length_firstn in Hge.
      assert (Hl : (List.length l <= Z.to_nat i)%nat) by lia.
      rewrite firstn_skipn. rewrite !nth_overflow; auto.
      rewrite length_firstn. lia. }
  rewrite (H d), (H d'), Hp. reflexivity.
Qed.

Lemma get_hid_item_size_prefix (d d' : list byte) (size p : Z) :
  firstn (Z.to_nat size) d = firstn (Z.to_nat size) d' ->
  0 <= p < size -> size < 2 ^ 32 ->
  get_hid_item_size d p size = get_hid_item_size d' p size.
Proof.
  intros Hp Hpos Hs. unfold get_hid_item_size.
  rewrite (rd_prefix d d' size p Hp Hpos).
  destruct (Z.land (rd d' p) 240 =? 240); [|reflexivity].
  rewrite u32_small by lia.
  destruct (p + 1 <? size) eqn:E; [|reflexivity].
  rewrite (rd_prefix d d' size (p + 1) Hp) by lia. reflexivity.
Qed.

Lemma get_hid_report_bytes_prefix (d d' : list byte) (len n cur : Z) :
  firstn (Z.to_nat len) d = firstn (Z.to_nat len) d' ->
  0 <= cur -> 0 <= n ->
  get_hid_report_bytes d len n cur = get_hid_report_bytes d' len n cur.
Proof.
  intros Hp Hc Hn. unfold get_hid_report_bytes.
  destruct (len <=? cur + n) eqn:E; [reflexivity|].
  destruct (n =? 0); [reflexivity|].
  destruct (n =? 1) eqn:E1.
  { apply (rd_prefix d d' len); [exact Hp | lia]. }
  destruct (n =? 2) eqn:E2.
  { rewrite (rd_prefix d d' len (cur + 2) Hp) by lia.
    rewrite (rd_prefix d d' len (cur + 1) Hp) by lia. reflexivity. }
  destruct (n =? 4) eqn:E4; [|reflexivity].
  rewrite (rd_prefix d d' len (cur + 4) Hp) by lia.
  rewrite (rd_prefix d d' len (cur + 3) Hp) by lia.
  rewrite (rd_prefix d d' len (cur + 2) Hp) by lia.
  rewrite (rd_prefix d d' len (cur + 1) Hp) by lia. reflexivity.
Qed.

Lemma usage_switch_prefix (d d' : list byte) (size k n : Z) (c : cursor)
    (uf : bool) :
  firstn (Z.to_nat size) d = firstn (Z.to_nat size) d' ->
  0 <= pos c -> 0 <= n ->
  usage_switch d size k n c uf = usage_switch d' size k n c uf.
Proof.
  intros Hp Hc Hn. unfold usage_switch.
  rewrite (get_hid_report_bytes_prefix d d' size n (pos c) Hp Hc Hn).
  reflexivity.
Qed.

Lemma u32_nonneg (z : Z) : 0 <= u32 z.
Proof. unfold u32. apply Z.mod_pos_bound. lia. Qed.

Lemma loop_prefix (fuel : nat) :
  forall d d' size initial c uf,
    firstn (Z.to_nat size) d = firstn (Z.to_nat size) d' ->
    size < 2 ^ 32 -> 0 <= pos c ->
    get_next_hid_usage_loop fuel d size initial c uf
    = get_next_hid_usage_loop fuel d' size initial c uf.
Proof.
  induction fuel as [|fuel IH]; intros d d' size initial c uf Hp Hs Hc;
    [reflexivity|].
  simpl. destruct (pos c <? size) eqn:E; [|reflexivity].
  apply Z.ltb_lt in E.
  rewrite (rd_prefix d d' size (pos c) Hp) by lia.
  rewrite (get_hid_item_size_prefix d d' size (pos c) Hp) by lia.
  destruct (get_hid_item_size_ok d' (pos c) size) as (dl & ks & Hi & Hdl & Hks).
  rewrite Hi. simpl.
  rewrite (usage_switch_prefix d d' size _ dl c uf Hp Hc) by lia.
  destruct (usage_switch d' size (Z.land (rd d' (pos c)) 252) dl c uf)
    as [[c1 uf1] ready].
  destruct ready; [reflexivity|].
  apply IH; [exact Hp | exact Hs | simpl; apply u32_nonneg].
Qed.

(** X2.  The result of get_next_hid_usage (return value and updated
    position, usage page and usage) depends only on the first size bytes
    of the buffer: two buffers that agree on those bytes give the same
    result, for every size below 2^32 and every cursor. *)
Theorem parser_reads_inside_buffer (d d' : list byte) (size : Z) (c : cursor) :
  firstn (Z.to_nat size) d = firstn (Z.to_nat size) d' ->
  size < 2 ^ 32 -> 0 <= pos c ->
  get_next_hid_usage d size c = get_next_hid_usage d' size c.
Proof.
  intros Hp Hs Hc. unfold get_next_hid_usage. apply loop_prefix; assumption.
Qed.

(** *** Repeated calls against one pass *)

Lemma scan_fuel (fuel : nat) :
  forall fuel' d size c pending emitted,
    size <= 2 ^ 32 - 259 -> 0 <= pos c ->
    (Z.to_nat (size - pos c) < fuel)%nat ->
    (Z.to_nat (size - pos c) < fuel')%nat ->
    usage_pairs_scan_loop fuel d size c pending emitted
    = usage_pairs_scan_loop fuel' d size c pending emitted.
Proof.
  induction fuel as [|fuel IH]; intros fuel' d size c pending emitted
    Hs Hp Hf Hf'; [lia|].
  destruct fuel' as [|fuel']; [lia|].
  simpl. destruct (pos c <? size) eqn:E; [|reflexivity].
  apply Z.ltb_lt in E.
  destruct (get_hid_item_size_ok d (pos c) size) as (dl & ks & Hi & Hdl & Hks).
  rewrite Hi.
  assert (Hadv : u32 (pos c + (dl + ks)) = pos c + (dl + ks))
    by (apply u32_small; lia).
  rewrite Hadv.
  rewrite (IH fuel'); [reflexivity | exact Hs | simpl; lia | simpl; lia
                       | simpl; lia].
Qed.

Lemma usage_switch_cursor d size k n c uf :
  fst (fst (usage_switch d size k n c uf))
  = Cursor (pos c)
           (if k =? 0x4 then u16 (get_hid_report_bytes d size n (pos c))
            else usage_page c)
           (if k =? 0x8 then u16 (get_hid_report_bytes d size n (pos c))
            else usage c).
Proof.
  unfold usage_switch.
  destruct (k =? 4) eqn:E4.
  { apply Z.eqb_eq in E4. subst k. reflexivity. }
  destruct (k =? 8) eqn:E8; [reflexivity|].
  destruct c; simpl.
  destruct (k =? 160); [reflexivity|].
  destruct ((k =? 128) || (k =? 144) || (k =? 176) || (k =? 192));
    reflexivity.
Qed.

(** One call against the pass: the call emits the head of what the
    pass emits from the same state, and stops where the pass goes on. *)
Lemma call_scan (fuel : nat) :
  forall F F' d size c uf emitted r c',
    size <= 2 ^ 32 - 259 -> 0 <= pos c ->
    (Z.to_nat (size - pos c) < F)%nat ->
    (Z.to_nat (size - pos c) < F')%nat ->
    get_next_hid_usage_loop fuel d size (negb emitted) c uf = Some (r, c') ->
    usage_pairs_scan_loop F d size c uf emitted
    = if r =? 0
      then (usage_page c', usage c')
           :: usage_pairs_scan_loop F' d size c' false true
      else [].
Proof.
  induction fuel as [|fuel IH]; intros F F' d size c uf emitted r c'
    Hs Hp HF HF' H; [discriminate|].
  destruct F as [|F]; [lia|].
  simpl in H. simpl usage_pairs_scan_loop at 1.
  destruct (pos c <? size) eqn:E.
  - apply Z.ltb_lt in E.
    destruct (get_hid_item_size_ok d (pos c) size) as (dl & ks & Hi & Hdl & Hks).
    rewrite Hi in *. simpl in H.
    destruct (usage_switch d size (Z.land (rd d (pos c)) 252) dl c uf)
      as [[c1 uf1] ready] eqn:Hsw.
    pose proof (usage_switch_flags _ _ _ _ _ _ _ _ _ Hsw) as [Huf Hready].
    pose proof (usage_switch_cursor d size (Z.land (rd d (pos c)) 252) dl c uf)
      as Hcur.
    rewrite Hsw in Hcur. simpl in Hcur. subst c1. simpl in H.
    assert (Hadv : u32 (pos c + (dl + ks)) = pos c + (dl + ks))
      by (apply u32_small; lia).
    rewrite Hadv in *.
    rewrite <- Hready. subst uf1.
    destruct ready.
    + (* a Collection item with a Usage pending *)
      inversion H; subst r c'. clear H.
      symmetry in Hready. apply andb_true_iff in Hready.
      destruct Hready as [Hk _]. apply Z.eqb_eq in Hk. rewrite Hk.
      change (160 =? 4) with false. change (160 =? 8) with false.
      change (pending_after 160 uf) with false.
      rewrite orb_true_r. change (0 =? 0) with true. cbv iota.
      cbn [usage_page usage]. f_equal.
      apply scan_fuel; cbn [pos]; lia.
    + rewrite orb_false_r.
      apply (IH F F') in H; cbn [pos]; try lia. exact H.
  - destruct emitted; cbn [negb andb] in *.
    + inversion H; subst. reflexivity.
    + destruct uf; inversion H; subst.
      * change (0 =? 0) with true. cbv iota. f_equal.
        destruct F' as [|F'']; [lia|]. simpl. rewrite E. reflexivity.
      * reflexivity.
Qed.

Lemma pairs_from_scan (fuel : nat) :
  forall d size c emitted,
    0 <= size <= HID_MAX_DESCRIPTOR_SIZE -> 0 <= pos c ->
    (pos c =? 0) = negb emitted ->
    (Z.to_nat (size - pos c) < fuel)%nat ->
    hid_usage_pairs_from fuel d size c
    = Some (usage_pairs_scan_loop (S (Z.to_nat size)) d size c false emitted, 1).
Proof.
  induction fuel as [|fuel IH]; intros d size c emitted Hs Hp Hi Hf; [lia|].
  destruct (get_next_hid_usage_total d size c Hs Hp)
    as (r & c' & Hg & Hcase).
  pose proof Hg as Hloop.
  unfold get_next_hid_usage in Hloop. rewrite Hi in Hloop.
  unfold HID_MAX_DESCRIPTOR_SIZE in Hs.
  rewrite (call_scan _ (S (Z.to_nat size)) (S (Z.to_nat size)) d size c
             false emitted r c' ltac:(lia) Hp ltac:(lia) ltac:(lia) Hloop).
  cbn [hid_usage_pairs_from]. rewrite Hg.
  destruct Hcase as [(Hr & Hadv & Hin)|(Hr & Hend)]; subst r.
  - change (0 =? 0) with true. cbv iota.
    rewrite (IH d size c' true); try reflexivity;
      unfold HID_MAX_DESCRIPTOR_SIZE; lia.
  - reflexivity.
Qed.

(** X3.  On a descriptor of at most 4096 bytes, calling
    get_next_hid_usage from position 0 until it returns non-zero always
    ends with the return value 1 (never -1) and yields the pairs of one
    left-to-right pass over the items: the usage page and usage in force
    at each Collection item that finds a Usage pending (set by a Usage
    item, cleared by every main item), or, when there was no such
    Collection and a Usage is pending at the end, that one pair. *)
Theorem repeated_calls_are_one_pass (d : list byte) :
  descriptor_size d <= HID_MAX_DESCRIPTOR_SIZE ->
  hid_usage_pairs d = Some (usage_pairs_scan d, 1).
Proof.
  intros Hs. unfold hid_usage_pairs, usage_pairs_scan.
  unfold descriptor_size in *.
  rewrite (pairs_from_scan _ d (Z.of_nat (List.length d)) (Cursor 0 0 0) false);
    simpl; try lia; try reflexivity.
  rewrite Nat2Z.id. reflexivity.
Qed.

Lemma report_bytes_little_endian_witness :
  (2 = 1 \/ 2 = 2 \/ 2 = 4)%nat
  /\ 0 <= 0x1234 < 256 ^ Z.of_nat 2
  /\ get_hid_report_bytes ([x05; x01] ++ x0a :: le_bytes 2 0x1234 ++ [xc0])
                          6 (Z.of_nat 2) (Z.of_nat (List.length [x05; x01]))
     = 0x1234.
Proof.
  assert (Hn : (2 = 1 \/ 2 = 2 \/ 2 = 4)%nat) by (right; left; reflexivity).
  assert (Hv : 0 <= 0x1234 < 256 ^ Z.of_nat 2) by (simpl; lia).
  split; [exact Hn|]. split; [exact Hv|].
  exact (report_bytes_little_endian [x05; x01] [xc0] x0a 2 0x1234 6 Hn Hv).
Defined.

Lemma parser_reads_inside_buffer_witness :
  firstn (Z.to_nat 14) Sample.keyboard_descriptor
  = firstn (Z.to_nat 14) (Sample.keyboard_descriptor ++ [x09; x07])
  /\ 14 < 2 ^ 32
  /\ 0 <= pos (Cursor 0 0 0)
  /\ get_next_hid_usage Sample.keyboard_descriptor 14 (Cursor 0 0 0)
     = get_next_hid_usage (Sample.keyboard_descriptor ++ [x09; x07]) 14
                          (Cursor 0 0 0).
Proof.
  assert (H1 : firstn (Z.to_nat 14) Sample.keyboard_descriptor
               = firstn (Z.to_nat 14)
                        (Sample.keyboard_descriptor ++ [x09; x07]))
    by reflexivity.
  assert (H2 : 14 < 2 ^ 32) by (simpl; lia).
  assert (H3 : 0 <= pos (Cursor 0 0 0)) by (simpl; lia).
  split; [exact H1|]. split; [exact H2|]. split; [exact H3|].
  exact (parser_reads_inside_buffer Sample.keyboard_descriptor
           (Sample.keyboard_descriptor ++ [x09; x07]) 14 (Cursor 0 0 0)
           H1 H2 H3).
Defined.

Lemma repeated_calls_are_one_pass_witness :
  descriptor_size Sample.keyboard_descriptor <= HID_MAX_DESCRIPTOR_SIZE
  /\ hid_usage_pairs Sample.keyboard_descriptor
     = Some (usage_pairs_scan Sample.keyboard_descriptor, 1).
Proof.
  assert (H : descriptor_size Sample.keyboard_descriptor
              <= HID_MAX_DESCRIPTOR_SIZE) by (vm_compute; discriminate).
  split; [exact H|].
  exact (repeated_calls_are_one_pass Sample.keyboard_descriptor H).
Defined.

End ParserMore.

(** ** Error registry, uevent ids and the enumerator *)

Section RegistryFacts.
Context {locale : Locale}.
Local Open Scope string_scope.

(** What [register_error_str] leaves: the old string released, the
    new one, if any, in a fresh cell at the end of the heap. *)
Lemma register_error_str_run (p : ptr) (msg : option string) (m : mem) :
  let cells1 := match p with
                | Some g => clear_cell g (cells m)
                | None => cells m
                end in
  register_error_str p msg m
  = match msg with
    | None => Some (None, Mem cells1 (oom m) (last_global_error_str m))
    | Some s =>
      match oom m with
      | true :: rest =>
        Some (None, Mem cells1 rest (last_global_error_str m))
      | _ =>
        Some (Some (List.length cells1),
              Mem (cells1 ++ [Some (Wide (widen s))]) (tl (oom m))
                  (last_global_error_str m))
      end
    end.
Proof.
  unfold register_error_str, bind, free, utf8_to_wchar_t, widen.
  destruct m as [cs o lge].
  destruct msg as [s|]; [|destruct p; reflexivity].
  destruct p as [g|]; simpl;
    destruct (mbstowcs (Libc.c_str s)) as [w|];
    unfold wcsdup, malloc, bind, request; simpl;
    destruct o as [|[] o]; reflexivity.
Qed.

Lemma load_clear_cell_same (g : nat) (cs : list (option block)) o lge :
  load g (Mem (clear_cell g cs) o lge) = None.
Proof.
  unfold load. simpl. revert g.
  induction cs as [|c cs IH]; intros [|g]; simpl; try reflexivity.
  apply IH.
Qed.

Lemma load_clear_cell_other (g a : nat) (cs : list (option block)) o lge
    o' lge' :
  g <> a ->
  load a (Mem (clear_cell g cs) o lge) = load a (Mem cs o' lge').
Proof.
  intros H. unfold load. simpl.
  rewrite nth_error_clear_cell_other by exact H. reflexivity.
Qed.

Lemma load_ignores (a : nat) cs o lge o' lge' :
  load a (Mem cs o lge) = load a (Mem cs o' lge').
Proof. reflexivity. Qed.

(** X4.  After register_global_error(msg), hid_error(NULL) returns the
    message as utf8_to_wchar_t converts it, or L'Success' when msg is
    NULL or the allocation of the copy fails. The call frees the
    previous global error string and changes no other heap block. *)
Theorem registered_error_is_reported (msg : option string) (m : mem) :
  exists m',
    register_global_error msg m = Some (tt, m')
    /\ hid_error None m'
       = Some (match msg with
               | Some s => if hd false (oom m)
                           then Wchar.wide_literal "Success"
                           else widen s
               | None => Wchar.wide_literal "Success"
               end, m')
    /\ (forall g, last_global_error_str m = Some g ->
                  (g < List.length (cells m))%nat -> load g m' = None)
    /\ (forall a, (a < List.length (cells m))%nat ->
                  last_global_error_str m <> Some a -> load a m' = load a m).
Proof.
  unfold register_global_error. rewrite register_error_str_run.
  destruct m as [cs o lge]. cbn [cells oom last_global_error_str].
  destruct msg as [s|].
  - destruct o as [|[] o]; cbn [hd tl].
    + (* the allocation succeeds *)
      eexists. split; [reflexivity|]. cbn [cells oom last_global_error_str].
      split; [|split].
      * unfold hid_error. cbn [last_global_error_str].
        unfold read_wide. rewrite load_app_new. reflexivity.
      * intros g Hg Hlt. simpl in Hg. subst lge.
        rewrite load_app_old by (rewrite length_clear_cell; exact Hlt).
        apply load_clear_cell_same.
      * intros a Ha Hne. simpl in Hne. destruct lge as [g|].
        -- rewrite load_app_old by (rewrite length_clear_cell; exact Ha).
           apply load_clear_cell_other. intros E; apply Hne; rewrite E; reflexivity.
        -- rewrite load_app_old by exact Ha. reflexivity.
    + (* the allocation fails *)
      eexists. split; [reflexivity|]. cbn [cells oom last_global_error_str].
      split; [reflexivity|]. split.
      * intros g Hg _. simpl in Hg. subst lge. apply load_clear_cell_same.
      * intros a _ Hne. simpl in Hne. destruct lge as [g|]; [|reflexivity].
        apply load_clear_cell_other. intros E; apply Hne; rewrite E; reflexivity.
    + eexists. split; [reflexivity|]. cbn [cells oom last_global_error_str].
      split; [|split].
      * unfold hid_error. cbn [last_global_error_str].
        unfold read_wide. rewrite load_app_new. reflexivity.
      * intros g Hg Hlt. simpl in Hg. subst lge.
        rewrite load_app_old by (rewrite length_clear_cell; exact Hlt).
        apply load_clear_cell_same.
      * intros a Ha Hne. simpl in Hne. destruct lge as [g|].
        -- rewrite load_app_old by (rewrite length_clear_cell; exact Ha).
           apply load_clear_cell_other. intros E; apply Hne; rewrite E; reflexivity.
        -- rewrite load_app_old by exact Ha. reflexivity.
  - eexists. split; [reflexivity|]. cbn [cells oom last_global_error_str].
    split; [reflexivity|]. split.
    + intros g Hg _. simpl in Hg. subst lge. apply load_clear_cell_same.
    + intros a _ Hne. simpl in Hne. destruct lge as [g|]; [|reflexivity].
      apply load_clear_cell_other. intros E; apply Hne; rewrite E; reflexivity.
Qed.

End RegistryFacts.

Section UeventMore.
Context {locale : Locale}.
Import Libc.
Local Open Scope string_scope.
Local Open Scope Z_scope.

(** A conversion of all three fields stores the same numbers whatever
    the destinations held. *)
Lemma sscanf_full (value : string) (b0 v0 p0 b1 v1 p1 b v p : Z) :
  sscanf_x_hx_hx value b0 v0 p0 = (3, b, v, p) ->
  sscanf_x_hx_hx value b1 v1 p1 = (3, b, v, p).
Proof.
  unfold sscanf_x_hx_hx.
  destruct (scan_hex value) as [[[n1 x1] r1]|].
  2:{ destruct (skip_space value); intros H; inversion H. }
  destruct r1 as [|c1 r1]; [intros H; inversion H|].
  destruct c1 as [[] [] [] [] [] [] [] []]; try (intros H; inversion H; fail).
  destruct (scan_hex r1) as [[[n2 x2] r2]|]; [|intros H; inversion H].
  destruct r2 as [|c2 r2]; [intros H; inversion H|].
  destruct c2 as [[] [] [] [] [] [] [] []]; try (intros H; inversion H; fail).
  destruct (scan_hex r2) as [[[n3 x3] r3]|]; intros H; inversion H.
  reflexivity.
Qed.

Lemma register_global_error_reported O lo (s : string) (m : mem) :
  owns O lo m ->
  exists m',
    register_global_error (Some s) m = Some (tt, m')
    /\ owns O lo m'
    /\ hid_error None m' = Some (widen s, m').
Proof.
  intros Hown.
  destruct (wp_register_global_error O lo (Some s)
              (fun _ m' => owns O lo m') m Hown (fun _ H => H))
    as ([] & m' & Hrun & Hown').
  exists m'. split; [exact Hrun|]. split; [exact Hown'|].
  destruct Hown as (Hoom & _).
  unfold register_global_error in Hrun.
  rewrite register_error_str_run, Hoom in Hrun.
  inversion Hrun; subst m'. unfold hid_error. cbn [last_global_error_str].
  unfold read_wide. rewrite load_app_new. reflexivity.
Qed.

Lemma parse_hid_vid_pid_lines_outcome (lines : list string) :
  forall b0 v0 p0 O lo m,
    owns O lo m ->
    exists r b v p m',
      parse_hid_vid_pid_lines lines b0 v0 p0 m = Some (r, b, v, p, m')
      /\ match find line_sets_id lines with
         | Some line =>
           r = 1 /\ m' = m
           /\ exists value, line = "HID_ID=" ++ value
                            /\ sscanf_x_hx_hx value 0 0 0 = (3, b, v, p)
         | None =>
           r = 0
           /\ hid_error None m'
              = Some (widen "Couldn't find/parse HID_ID", m')
         end.
Proof.
  induction lines as [|line rest IH]; intros b0 v0 p0 O lo m Hown.
  - simpl.
    destruct (register_global_error_reported O lo "Couldn't find/parse HID_ID"
                m Hown) as (m' & Hrun & _ & Herr).
    exists 0, b0, v0, p0, m'. unfold bind. rewrite Hrun. simpl. auto.
  - simpl. unfold line_sets_id at 1.
    destruct (strchr_split "=" line) as [[key value]|] eqn:E;
      [|apply (IH b0 v0 p0 O lo m Hown)].
    destruct (String.eqb_spec key "HID_ID") as [Ek|Ek];
      [|apply (IH b0 v0 p0 O lo m Hown)].
    subst key. simpl andb. unfold hid_id_parses.
    pose proof (sscanf_count value b0 v0 p0) as Hc.
    destruct (sscanf_x_hx_hx value b0 v0 p0) as [[[r b] v] p] eqn:Es.
    destruct (sscanf_x_hx_hx value 0 0 0) as [[[r0 b1] v1] p1] eqn:Es0.
    simpl in Hc. subst r0.
    destruct (r =? 3) eqn:Er; [|apply (IH b v p O lo m Hown)].
    apply Z.eqb_eq in Er. subst r.
    exists 1, b, v, p, m. split; [reflexivity|].
    split; [reflexivity|]. split; [reflexivity|].
    exists value. split; [apply strchr_split_sound in E; exact E|].
    eapply sscanf_full. exact Es.
Qed.

(** X5.  When allocations succeed, parse_hid_vid_pid_from_uevent returns
    1 with the bus type, vendor id and product id of the first HID_ID
    line (among the first 1023 characters of the text) whose value
    sscanf reads into three numbers, and leaves the heap as it was; when
    no line qualifies it returns 0 and hid_error(NULL) then reads
    'Couldn't find/parse HID_ID'. *)
Theorem first_valid_hid_id_line_decides (uevent : string) (b0 v0 p0 : Z)
    (m : mem) :
  oom m = [] ->
  (forall g, last_global_error_str m = Some g ->
             (g < List.length (cells m))%nat) ->
  exists r b v p m',
    parse_hid_vid_pid_from_uevent uevent b0 v0 p0 m = Some (r, b, v, p, m')
    /\ match find line_sets_id (uevent_lines uevent) with
       | Some line =>
         r = 1 /\ m' = m
         /\ exists value, line = "HID_ID=" ++ value
                          /\ sscanf_x_hx_hx value 0 0 0 = (3, b, v, p)
       | None =>
         r = 0
         /\ hid_error None m' = Some (widen "Couldn't find/parse HID_ID", m')
       end.
Proof.
  intros Hoom Hg. unfold parse_hid_vid_pid_from_uevent.
  apply (parse_hid_vid_pid_lines_outcome _ b0 v0 p0 [] _ m (owns_nil m Hoom Hg)).
Qed.

End UeventMore.

Section EnumeratorMore.
Context {locale : Locale}.
Local Open Scope string_scope.
Local Open Scope Z_scope.

(** X6.  When hid_enumerate returns NULL, hid_error(NULL) afterwards
    reads 'Couldn't create udev context' if udev_new failed, else 'No
    HID devices found in the system.' for the filter (0, 0) and 'No HID
    devices with requested VID/PID found in the system.' for any other
    filter, whatever errors were recorded while the nodes were
    inspected. Assumes that allocations succeed, that no listed node has
    a hid parent without a uevent attribute, and that every uevent file
    the pre-filter reads (one for each listed node when the filter is
    not (0, 0)) has fewer than 1024 bytes. *)
Theorem empty_enumeration_is_explained (env : udev_env) (v p : Z) (m : mem) :
  uevent_attrs_present env ->
  prefilter_reads_fit env v p ->
  oom m = [] ->
  (forall g, last_global_error_str m = Some g ->
             (g < List.length (cells m))%nat) ->
  exists recs m',
    hid_enumerate env v p m = Some (recs, m')
    /\ (recs = [] ->
        hid_error None m'
        = Some (widen (if negb (udev_new_ok env)
                       then "Couldn't create udev context"
                       else if (v =? 0) && (p =? 0)
                       then "No HID devices found in the system."
                       else "No HID devices with requested VID/PID found in the system."),
                m')).
Proof.
  intros Hhid Hfit Hoom Hg. pose proof (owns_nil m Hoom Hg) as Hown.
  unfold hid_enumerate, hid_init.
  destruct (wp_register_global_error [] _ None (fun _ m' => owns [] (List.length (cells m)) m')
              m Hown (fun _ H => H)) as ([] & m0 & Hrun0 & Hown0).
  unfold bind at 1. unfold bind at 1. rewrite Hrun0. cbn [ret].
  destruct (udev_new_ok env); cbn [negb].
  - destruct (enumerate_entries_refines env v p (hidraw_entries env) [] _ m0
                Hown0 Hhid Hfit) as (recs & m1 & Hrun1 & _ & Hown1 & _).
    unfold bind at 1. rewrite Hrun1.
    destruct recs as [|d recs].
    + rewrite app_nil_r in Hown1.
      assert (Hnil : all_cells [] (flat_map (entry_records env v p)
                                            (hidraw_entries env)) = [])
        by reflexivity.
      rewrite Hnil in Hown1.
      destruct ((v =? 0) && (p =? 0));
        match goal with
        | |- context [register_global_error (Some ?s)] =>
          destruct (register_global_error_reported [] _ s m1 Hown1)
            as (m2 & Hrun2 & _ & Herr)
        end;
        unfold bind; rewrite Hrun2; exists [], m2;
        (split; [reflexivity | intros _; exact Herr]).
    + eexists _, _. split; [reflexivity|]. intros H. discriminate H.
  - destruct (register_global_error_reported [] _ "Couldn't create udev context"
                m0 Hown0) as (m2 & Hrun2 & _ & Herr).
    unfold bind. rewrite Hrun2. exists [], m2.
    split; [reflexivity | intros _; exact Herr].
Qed.

(** *** Releasing an enumeration *)

Lemma free_enumeration_run (ds : list hid_device_info) :
  forall m,
    hid_free_enumeration ds m
    = Some (tt, Mem (clear_cells (flat_map free_order ds) (cells m)) (oom m)
                    (last_global_error_str m)).
Proof.
  induction ds as [|d ds IH]; intros [cs o g]; [reflexivity|].
  cbn [hid_free_enumeration]. unfold bind, free.
  destruct d as [p v pd sn rel ms ps pg us ifc bt]. cbn [path serial_number
    manufacturer_string product_string].
  destruct p as [a1|], sn as [a2|], ms as [a3|], ps as [a4|];
    cbn [cells oom last_global_error_str]; rewrite IH; reflexivity.
Qed.

Lemma load_clear_cells (l : list addr) :
  forall cs o g a,
    load a (Mem (clear_cells l cs) o g)
    = if in_dec Nat.eq_dec a l then None else load a (Mem cs o g).
Proof.
  induction l as [|x l IH]; intros cs o g a; [reflexivity|].
  unfold clear_cells in *. cbn [fold_left]. rewrite IH.
  destruct (in_dec Nat.eq_dec a l) as [Hin|Hni];
    destruct (in_dec Nat.eq_dec a (x :: l)) as [Hin'|Hni']; try reflexivity.
  - exfalso. apply Hni'. right. exact Hin.
  - destruct Hin' as [E|Hin']; [|contradiction]. subst x.
    apply load_clear_cell_same.
  - apply load_clear_cell_other. intros E. apply Hni'. left. exact E.
Qed.

Lemma free_order_addrs (d : hid_device_info) (a : addr) :
  In a (free_order d) <-> In a (string_addrs d).
Proof.
  unfold free_order, string_addrs. rewrite !in_app_iff. tauto.
Qed.

Lemma in_flat_map_free_order (ds : list hid_device_info) (a : addr) :
  In a (flat_map free_order ds) <-> In a (flat_map string_addrs ds).
Proof.
  rewrite !in_flat_map. split; intros (d & Hd & Ha); exists d;
    (split; [exact Hd|]); apply free_order_addrs; exact Ha.
Qed.

(** X7.  The strings of the records hid_enumerate returns are distinct
    heap blocks, allocated by the call and live when it returns, and
    hid_free_enumeration of the result frees all of them; every block
    the caller had before (other than the old global error string) keeps
    its content through both calls. Assumes that allocations succeed,
    that no listed node has a hid parent without a uevent attribute, and
    that every uevent file the pre-filter reads (one for each listed
    node when the filter is not (0, 0)) has fewer than 1024 bytes. *)
Theorem enumeration_is_released (env : udev_env) (v p : Z) (m : mem) :
  uevent_attrs_present env ->
  prefilter_reads_fit env v p ->
  oom m = [] ->
  (forall g, last_global_error_str m = Some g ->
             (g < List.length (cells m))%nat) ->
  exists recs m1 m2,
    hid_enumerate env v p m = Some (recs, m1)
    /\ hid_free_enumeration recs m1 = Some (tt, m2)
    /\ NoDup (flat_map string_addrs recs)
    /\ (forall a, In a (flat_map string_addrs recs) ->
                  (List.length (cells m) <= a)%nat
                  /\ load a m1 <> None /\ load a m2 = None)
    /\ (forall a b, load a m = Some b -> last_global_error_str m <> Some a ->
                    load a m1 = Some b /\ load a m2 = Some b).
Proof.
  intros Hhid Hfit Hoom Hg. pose proof (owns_nil m Hoom Hg) as Hown.
  destruct (hid_enumerate_refines env v p [] _ m Hown Hhid Hfit)
    as (recs & m1 & Hrun & Hall & Ho & Hfresh).
  exists recs, m1. eexists. split; [exact Hrun|].
  split; [apply free_enumeration_run|].
  rewrite app_nil_r in Ho.
  pose proof (all_cells_addrs _ _ Hall) as Hperm.
  assert (Hnd : NoDup (flat_map string_addrs recs)).
  { eapply Permutation_NoDup; [exact Hperm|]. apply Ho. }
  split; [exact Hnd|]. split.
  - intros a Hin. split; [|split].
    + apply in_flat_map in Hin. destruct Hin as (d & Hd & Ha).
      rewrite Forall_forall in Hfresh. exact (Hfresh d Hd a Ha).
    + assert (Hin' : In a (map fst (all_cells recs (enumeration env v p))))
        by (eapply Permutation_in; [symmetry; exact Hperm | exact Hin]).
      apply in_map_iff in Hin'. destruct Hin' as ([a' b] & Ea & Hab).
      simpl in Ea. subst a'.
      destruct Ho as (_ & _ & Hload & _). rewrite (Hload a b Hab). discriminate.
    + rewrite load_clear_cells.
      destruct (in_dec Nat.eq_dec a (flat_map free_order recs)) as [_|Hni];
        [reflexivity|].
      exfalso. apply Hni. apply in_flat_map_free_order. exact Hin.
  - intros a b Hload Hne.
    assert (Hown' : owns [(a, b)] (List.length (cells m)) m).
    { split; [exact Hoom|]. split; [repeat constructor; intros []|].
      split; [intros a' b' [E|[]]; inversion E; subst; exact Hload|].
      split; [|apply le_n].
      intros g E. split; [apply Hg; exact E|].
      intros [E'|[]]. simpl in E'. apply Hne. rewrite E, E'. reflexivity. }
    destruct (hid_enumerate_refines env v p [(a, b)] _ m Hown' Hhid Hfit)
      as (recs' & m1' & Hrun' & Hall' & Ho' & _).
    rewrite Hrun in Hrun'. inversion Hrun'; subst recs' m1'. clear Hrun'.
    destruct Ho' as (_ & Hnd' & Hload' & _).
    assert (H1 : load a m1 = Some b).
    { apply Hload'. apply in_or_app. right. left. reflexivity. }
    split; [exact H1|].
    rewrite load_clear_cells.
    destruct (in_dec Nat.eq_dec a (flat_map free_order recs)) as [Hin|_].
    + exfalso. apply in_flat_map_free_order in Hin.
      assert (Hin' : In a (map fst (all_cells recs (enumeration env v p))))
        by (eapply Permutation_in; [symmetry; exact Hperm | exact Hin]).
      rewrite map_app in Hnd'. simpl in Hnd'.
      apply NoDup_remove_2 in Hnd'. apply Hnd'.
      rewrite app_nil_r. exact Hin'.
    + destruct m1; exact H1.
Qed.

End EnumeratorMore.

(** ** Hotplug: handles, registration, worker passes *)

Section HotplugMore.
Context {locale : Locale}.
Variable world : Type.
Implicit Types (ctx : hid_hotplug_context world)
         (cbs : list (hid_hotplug_callback world)).

Local Notation "'handles'" := (map (handle world)).

Lemma Forall_incl {A : Type} (P : A -> Prop) (l l' : list A) :
  Forall P l -> incl l' l -> Forall P l'.
Proof.
  intros H Hi. rewrite Forall_forall in *. intros x Hx. apply H, Hi, Hx.
Qed.

Lemma hotplug_arrived_keeps (infos : list hid_device_info) :
  forall cbs w cbs' w' calls,
    hotplug_arrived world infos cbs w = (cbs', w', calls) ->
    NoDup (handles cbs) -> NoDup (handles cbs') /\ incl cbs' cbs.
Proof.
  induction infos as [|info infos IH]; intros cbs w cbs' w' calls H Hnd.
  - simpl in H. inversion H; subst. split; [exact Hnd | apply incl_refl].
  - simpl in H.
    destruct (hid_internal_invoke_callbacks world cbs info
                HID_API_HOTPLUG_EVENT_DEVICE_ARRIVED w)
      as [[cbs1 w1] calls1] eqn:E1.
    destruct (hotplug_arrived world infos cbs1 w1) as [[cbs2 w2] calls2] eqn:E2.
    inversion H; subst.
    pose proof (invoke_rest_NoDup _ _ _ _ _ _ _ _ E1 Hnd) as Hnd1.
    pose proof (invoke_rest_incl _ _ _ _ _ _ _ _ E1) as Hi1.
    destruct (IH _ _ _ _ _ E2 Hnd1) as [Hnd2 Hi2].
    split; [exact Hnd2 | eapply incl_tran; eassumption].
Qed.

Lemma hotplug_remove_keeps (dev_path : option string)
    (current : list hid_device_info) :
  forall cbs w m rest cbs' w' calls m',
    hotplug_remove world dev_path current cbs w m
    = Some (rest, cbs', w', calls, m') ->
    NoDup (handles cbs) -> NoDup (handles cbs') /\ incl cbs' cbs.
Proof.
  induction current as [|info next IH];
    intros cbs w m rest cbs' w' calls m' H Hnd.
  - simpl in H. inversion H; subst. split; [exact Hnd | apply incl_refl].
  - simpl in H. unfold bind, lift in H.
    destruct dev_path as [udev_path|]; [|discriminate].
    destruct (read_chars (path info) m) as [[info_path m1]|]; [|discriminate].
    destruct (String.eqb (Libc.c_str udev_path) info_path).
    + destruct (hid_internal_invoke_callbacks world cbs info
                  HID_API_HOTPLUG_EVENT_DEVICE_LEFT w)
        as [[cbs1 w1] calls1] eqn:E1.
      destruct (hotplug_remove world (Some udev_path) next cbs1 w1 m1)
        as [[[[[rest2 cbs2] w2] calls2] m2]|] eqn:E2; [|discriminate].
      inversion H; subst.
      pose proof (invoke_rest_NoDup _ _ _ _ _ _ _ _ E1 Hnd) as Hnd1.
      pose proof (invoke_rest_incl _ _ _ _ _ _ _ _ E1) as Hi1.
      destruct (IH _ _ _ _ _ _ _ _ E2 Hnd1) as [Hnd2 Hi2].
      split; [exact Hnd2 | eapply incl_tran; eassumption].
    + destruct (hotplug_remove world (Some udev_path) next cbs w m1)
        as [[[[[rest2 cbs2] w2] calls2] m2]|] eqn:E2; [|discriminate].
      inversion H; subst. eapply IH; eassumption.
Qed.

Lemma NoDup_app_iff_snoc {A : Type} (l : list A) (x : A) :
  NoDup l -> ~ In x l -> NoDup (l ++ [x]).
Proof.
  intros Hnd Hni. induction l as [|a l IH]; simpl.
  - constructor; [intros [] | constructor].
  - inversion Hnd as [|? ? Ha Hl]; subst. constructor.
    + intros Hin. apply in_app_or in Hin. destruct Hin as [Hin|[E|[]]].
      * contradiction.
      * subst. apply Hni. left. reflexivity.
    + apply IH; [exact Hl|]. intros Hin. apply Hni. right. exact Hin.
Qed.

Lemma remove_callback_filter (h : Z) cbs :
  NoDup (handles cbs) ->
  remove_callback world h cbs
  = (filter (fun cb => negb (handle world cb =? h)) cbs,
     if existsb (fun cb => handle world cb =? h) cbs then 0 else -1).
Proof.
  induction cbs as [|cb cbs IH]; intros Hnd; [reflexivity|].
  inversion Hnd as [|? ? Hni Hnd']; subst.
  simpl. destruct (handle world cb =? h) eqn:E; simpl.
  - apply Z.eqb_eq in E. f_equal.
    symmetry. rewrite (filter_all _ cbs true); [reflexivity|].
    intros x Hx. apply negb_true_iff. apply Z.eqb_neq. intros Ex.
    apply Hni. rewrite E, <- Ex. apply in_map. exact Hx.
  - rewrite (IH Hnd'). reflexivity.
Qed.


Lemma handles_below_incl ctx cbs' :
  handles_below world ctx -> NoDup (handles cbs') ->
  incl cbs' (hotplug_cbs world ctx) ->
  handles_below world
    (HotplugContext world (udev_ctx world ctx) (mon world ctx)
                    (monitor_fd world ctx) (workers world ctx)
                    (next_handle world ctx) cbs' (devs world ctx)).
Proof.
  intros (Hnd & Hall & Hnext) Hnd' Hi. unfold handles_below. simpl.
  split; [exact Hnd'|]. split; [|exact Hnext].
  eapply Forall_incl; eassumption.
Qed.

Lemma handles_below_fields ctx u mo fd wk dv :
  handles_below world ctx ->
  handles_below world
    (HotplugContext world u mo fd wk (next_handle world ctx)
                    (hotplug_cbs world ctx) dv).
Proof. intros H. exact H. Qed.

Lemma handles_below_nil u mo fd wk n dv :
  0 < n < 2 ^ 31 ->
  handles_below world (HotplugContext world u mo fd wk n [] dv).
Proof.
  intros H. unfold handles_below. simpl.
  split; [constructor|]. split; [constructor | exact H].
Qed.

Lemma s32_small (z : Z) : - 2 ^ 31 <= z < 2 ^ 31 -> s32 z = z.
Proof.
  intros H. unfold s32.
  rewrite Z.mod_small by (change (2 ^ 32) with (2 * 2 ^ 31); lia). lia.
Qed.

(** X8.  The callback handles in the hotplug context stay distinct,
    positive and below the handle counter through every registration
    (while the counter is below INT_MAX), every deregistration and every
    pass of the worker thread; a registration that returns a handle
    returns the value of the counter before the call, which no
    registered callback has. *)
Theorem handles_stay_distinct ctx (m : mem) :
  handles_below world ctx ->
  (forall env v p ev fl cb ud out r ctx' h m',
      next_handle world ctx < 2 ^ 31 - 1 ->
      hid_hotplug_register_callback world env v p ev fl cb ud out ctx m
      = Some (r, ctx', h, m') ->
      handles_below world ctx'
      /\ forall x, h = Some x ->
                   x = next_handle world ctx
                   /\ ~ In x (handles (hotplug_cbs world ctx)))
  /\ (forall x r ctx' m',
         hid_hotplug_deregister_callback world x ctx m = Some (r, ctx', m') ->
         handles_below world ctx')
  /\ (forall files received w ctx' w' calls m',
         hotplug_thread_pass world files received ctx w m
         = Some (ctx', w', calls, m') ->
         handles_below world ctx').
Proof.
  intros Hinv. pose proof Hinv as (Hnd & Hall & Hnext).
  assert (Hfresh : ~ In (next_handle world ctx)
                        (handles (hotplug_cbs world ctx))).
  { intros Hin. apply in_map_iff in Hin. destruct Hin as (cb & E & Hin).
    rewrite Forall_forall in Hall. specialize (Hall cb Hin). lia. }
  split; [|split].
  - intros env v p ev fl cb ud out r ctx' h m' Hmax H.
    unfold hid_hotplug_register_callback in H.
    destruct ((ev =? 0)
              || negb (Z.land ev
                         (Z.lnot (Z.lor HID_API_HOTPLUG_EVENT_DEVICE_ARRIVED
                                        HID_API_HOTPLUG_EVENT_DEVICE_LEFT))
                       =? 0)
              || negb (Z.land fl (Z.lnot HID_API_HOTPLUG_ENUMERATE) =? 0)
              || match cb with None => true | Some _ => false end).
    { inversion H; subst. split; [exact Hinv | intros x E; discriminate E]. }
    destruct cb as [fn|].
    2:{ inversion H; subst. split; [exact Hinv | intros x E; discriminate E]. }
    unfold bind at 1 in H.
    destruct (request m) as [[ok m1]|]; [|discriminate].
    destruct ok; simpl in H.
    2:{ inversion H; subst. split; [exact Hinv | intros x E; discriminate E]. }
    rewrite s32_small in H by lia.
    assert (Hlt : (next_handle world ctx + 1 <? 0) = false) by lia.
    rewrite Hlt in H.
    assert (Hout : forall x, (if out then Some (next_handle world ctx) else None)
                             = Some x ->
                     x = next_handle world ctx
                     /\ ~ In x (handles (hotplug_cbs world ctx))).
    { intros x E. destruct out; inversion E; subst. split; [reflexivity|].
      exact Hfresh. }
    destruct (hotplug_cbs world ctx) as [|cb0 cbs0] eqn:Ecbs.
    + destruct (udev_new_ok env); simpl in H.
      * unfold bind in H.
        destruct (hid_enumerate env 0 0 m1) as [[enumerated m2]|];
          [|discriminate].
        inversion H; subst. split; [|exact Hout].
        unfold handles_below. simpl. split.
        { constructor; [intros [] | constructor]. }
        split; [|lia]. constructor; [simpl; lia | constructor].
      * inversion H; subst. split; [|exact Hout].
        apply handles_below_nil. lia.
    + inversion H; subst. split; [|exact Hout].
      unfold handles_below. simpl. split.
      * change (handle world cb0 :: handles (cbs0 ++ [_]))
          with (handles ((cb0 :: cbs0) ++
                  [HotplugCallback world (next_handle world ctx) v p ev ud fn])).
        rewrite map_app. simpl map at 2.
        apply NoDup_app_iff_snoc. exact Hnd. exact Hfresh.
      * split; [|lia].
        change (cb0 :: (cbs0 ++ [?x])%list) with ((cb0 :: cbs0) ++ [x])%list.
        apply Forall_app. split.
        -- eapply Forall_impl; [|exact Hall]. simpl. intros a Ha. lia.
        -- constructor; [simpl; lia | constructor].
  - intros x r ctx' m' H. unfold hid_hotplug_deregister_callback in H.
    destruct (hotplug_cbs world ctx) as [|cb0 cbs0] eqn:Ecbs.
    { inversion H; subst. exact Hinv. }
    rewrite (remove_callback_filter x (cb0 :: cbs0) Hnd) in H.
    cbv iota beta in H. unfold bind, hid_internal_hotplug_cleanup in H.
    cbn [hotplug_cbs] in H.
    set (cbs' := filter (fun cb => negb (handle world cb =? x)) (cb0 :: cbs0))
      in *.
    assert (Hnd' : NoDup (handles cbs')) by (apply NoDup_map_filter; exact Hnd).
    assert (Hi : incl cbs' (cb0 :: cbs0)) by (apply incl_filter).
    destruct cbs' as [|c1 cbs1] eqn:Ec'.
    + unfold bind in H. rewrite free_enumeration_run in H.
      inversion H; subst. apply handles_below_nil. exact Hnext.
    + inversion H; subst.
      assert (Hb := handles_below_incl ctx (c1 :: cbs1) Hinv Hnd').
      rewrite Ecbs in Hb. exact (Hb Hi).
  - intros files received w ctx' w' calls m' H.
    unfold hotplug_thread_pass in H.
    destruct received as [[raw_dev action]|];
      [|inversion H; subst; exact Hinv].
    unfold bind at 1, lift in H. destruct action as [action|]; [|discriminate].
    destruct (String.eqb (Libc.c_str action) "add").
    + unfold bind in H.
      destruct (create_device_info_for_device files raw_dev m) as [[info m1]|];
        [|discriminate].
      destruct (hotplug_arrived world info (hotplug_cbs world ctx) w)
        as [[cbs1 w1] calls1] eqn:E1.
      inversion H; subst.
      destruct (hotplug_arrived_keeps _ _ _ _ _ _ E1 Hnd) as [Hnd1 Hi1].
      unfold handles_below. simpl. split; [exact Hnd1|].
      split; [eapply Forall_incl; eassumption | exact Hnext].
    + destruct (String.eqb (Libc.c_str action) "remove");
        [|inversion H; subst; exact Hinv].
      unfold bind in H.
      destruct (hotplug_remove world (devnode raw_dev) (devs world ctx)
                               (hotplug_cbs world ctx) w m)
        as [[[[[devs' cbs1] w1] calls1] m1]|] eqn:E1; [|discriminate].
      inversion H; subst.
      destruct (hotplug_remove_keeps _ _ _ _ _ _ _ _ _ _ E1 Hnd) as [Hnd1 Hi1].
      unfold handles_below. simpl. split; [exact Hnd1|].
      split; [eapply Forall_incl; eassumption | exact Hnext].
Qed.


Lemma existsb_false_filter (h : Z) cbs :
  existsb (fun cb => handle world cb =? h) cbs = false ->
  filter (fun cb => negb (handle world cb =? h)) cbs = cbs.
Proof.
  intros H. rewrite (filter_all _ cbs true); [reflexivity|].
  intros cb Hin. apply negb_true_iff.
  destruct (handle world cb =? h) eqn:E; [|reflexivity].
  assert (Hex : existsb (fun cb => handle world cb =? h) cbs = true)
    by (apply existsb_exists; exists cb; auto).
  congruence.
Qed.

(** X9.  With distinct handles in the callback list,
    hid_hotplug_deregister_callback returns 0 exactly when a callback
    with the given handle is registered and -1 otherwise; it removes
    that callback and keeps all others in their order, does not change
    the handle counter, and on -1 changes neither the context nor the
    heap. *)
Theorem deregistration_removes_one (h : Z) ctx (m : mem) :
  NoDup (handles (hotplug_cbs world ctx)) ->
  exists r ctx' m',
    hid_hotplug_deregister_callback world h ctx m = Some (r, ctx', m')
    /\ r = (if existsb (fun cb => handle world cb =? h) (hotplug_cbs world ctx)
            then 0 else -1)
    /\ hotplug_cbs world ctx'
       = filter (fun cb => negb (handle world cb =? h)) (hotplug_cbs world ctx)
    /\ next_handle world ctx' = next_handle world ctx
    /\ (r = -1 -> ctx' = ctx /\ m' = m).
Proof.
  intros Hnd. unfold hid_hotplug_deregister_callback.
  destruct ctx as [u mo fd wk nh cbs dv]. cbn [hotplug_cbs] in *.
  destruct cbs as [|cb0 cbs0].
  { eexists _, _, _. split; [reflexivity|]. simpl. auto. }
  rewrite (remove_callback_filter h (cb0 :: cbs0) Hnd).
  cbv iota beta. unfold bind, hid_internal_hotplug_cleanup.
  cbn [hotplug_cbs udev_ctx mon monitor_fd workers next_handle devs].
  destruct (existsb (fun cb => handle world cb =? h) (cb0 :: cbs0)) eqn:Eex.
  - destruct (filter (fun cb => negb (handle world cb =? h)) (cb0 :: cbs0))
      as [|c1 cbs1] eqn:Ef.
    + unfold bind. rewrite free_enumeration_run.
      eexists _, _, _. split; [reflexivity|]. simpl.
      repeat split; try reflexivity; intros; discriminate.
    + eexists _, _, _. split; [reflexivity|]. simpl.
      repeat split; try reflexivity; intros; discriminate.
  - rewrite (existsb_false_filter h (cb0 :: cbs0) Eex).
    eexists _, _, _. split; [reflexivity|]. simpl.
    repeat split; reflexivity.
Qed.

(** X10.  While other callbacks are registered, registering a callback
    with valid arguments (the call returns -1, as on every path) appends
    it to the end of the list under the handle that was the counter, and
    deregistering that handle (which returns 0) restores the callback
    list; the device list and the monitor descriptor are untouched, the
    heap is unchanged and the counter has advanced by one. Assumes
    distinct handles below the counter and that allocations succeed. *)
Theorem register_then_deregister (env : udev_env) (v p ev fl ud : Z)
    (fn : hid_hotplug_callback_fn world) ctx (m : mem) :
  handles_below world ctx ->
  next_handle world ctx < 2 ^ 31 - 1 ->
  hotplug_cbs world ctx <> [] ->
  valid_registration ev fl ->
  oom m = [] ->
  exists ctx1 ctx2,
    hid_hotplug_register_callback world env v p ev fl (Some fn) ud true ctx m
    = Some (-1, ctx1, Some (next_handle world ctx), m)
    /\ hotplug_cbs world ctx1
       = (hotplug_cbs world ctx
          ++ [HotplugCallback world (next_handle world ctx) v p ev ud fn])%list
    /\ hid_hotplug_deregister_callback world (next_handle world ctx) ctx1 m
       = Some (0, ctx2, m)
    /\ hotplug_cbs world ctx2 = hotplug_cbs world ctx
    /\ devs world ctx2 = devs world ctx
    /\ monitor_fd world ctx2 = monitor_fd world ctx
    /\ next_handle world ctx2 = next_handle world ctx + 1.
Proof.
  intros Hinv Hmax Hne (Hev & Hfl) Hoom.
  pose proof Hinv as (Hnd & Hall & Hnext).
  assert (Hfresh : ~ In (next_handle world ctx)
                        (handles (hotplug_cbs world ctx))).
  { intros Hin. apply in_map_iff in Hin. destruct Hin as (cb & E & Hin).
    rewrite Forall_forall in Hall. specialize (Hall cb Hin). lia. }
  destruct ctx as [u mo fd wk nh cbs dv].
  cbn [hotplug_cbs next_handle devs monitor_fd] in *.
  destruct cbs as [|cb0 cbs0]; [contradiction|].
  assert (Hcheck :
            (ev =? 0)
            || negb (Z.land ev
                       (Z.lnot (Z.lor HID_API_HOTPLUG_EVENT_DEVICE_ARRIVED
                                      HID_API_HOTPLUG_EVENT_DEVICE_LEFT)) =? 0)
            || negb (Z.land fl (Z.lnot HID_API_HOTPLUG_ENUMERATE) =? 0)
            || false = false).
  { destruct Hev as [E|[E|E]]; subst ev;
      destruct Hfl as [E|E]; subst fl; reflexivity. }
  unfold hid_hotplug_register_callback. rewrite Hcheck.
  unfold bind at 1, request. rewrite Hoom.
  cbn [negb hotplug_cbs next_handle udev_ctx mon monitor_fd workers devs].
  rewrite s32_small by lia.
  assert (Hlt : (nh + 1 <? 0) = false) by lia. rewrite Hlt.
  eexists _, _. split.
  { unfold ret. destruct m as [cs o g]. simpl in Hoom. subst o. reflexivity. }
  split; [reflexivity|].
  unfold hid_hotplug_deregister_callback.
  cbn [hotplug_cbs next_handle udev_ctx mon monitor_fd workers devs].
  assert (Hnd1 : NoDup (handles ((cb0 :: cbs0)
                                 ++ [HotplugCallback world nh v p ev ud fn]))).
  { rewrite map_app. apply NoDup_app_iff_snoc; assumption. }
  change (cb0 :: cbs0 ++ [?x])%list with ((cb0 :: cbs0) ++ [x])%list.
  rewrite (remove_callback_filter nh _ Hnd1).
  rewrite filter_app, existsb_app.
  rewrite (filter_all _ (cb0 :: cbs0) true).
  2:{ intros cb Hin. apply negb_true_iff. apply Z.eqb_neq. intros E.
      apply Hfresh. rewrite <- E. apply in_map. exact Hin. }
  cbn [filter existsb handle]. rewrite Z.eqb_refl. cbn [negb].
  rewrite orb_true_r, app_nil_r.
  cbv iota beta. unfold bind, hid_internal_hotplug_cleanup.
  cbn [hotplug_cbs next_handle udev_ctx mon monitor_fd workers devs].
  split; [reflexivity|]. repeat split.
Qed.

(** *** A pass of the worker is a run of dispatches *)






End HotplugMore.

(** ** Device calls and the device error *)

Section DeviceFacts.
Context {locale : Locale}.
Variable strerror : Z -> string.
Local Open Scope string_scope.
Local Open Scope Z_scope.

(** Clearing the device error never fails and allocates nothing. *)
Lemma register_device_error_none (dev : hid_device) (m : mem) :
  exists m',
    register_device_error dev None m
    = Some (HidDevice (device_handle dev) (blocking dev) None
                      (device_info dev), m')
    /\ oom m' = oom m.
Proof.
  unfold register_device_error, bind. rewrite register_error_str_run.
  eexists. split; reflexivity.
Qed.

(** Recording a device error, when the allocation succeeds. *)
Lemma register_device_error_some (dev : hid_device) (s : string) (m : mem) :
  oom m = [] ->
  exists n m',
    register_device_error dev (Some s) m
    = Some (HidDevice (device_handle dev) (blocking dev) (Some n)
                      (device_info dev), m')
    /\ oom m' = []
    /\ load n m' = Some (Wide (widen s)).
Proof.
  intros Hoom. unfold register_device_error, bind.
  rewrite register_error_str_run, Hoom.
  eexists _, _. split; [reflexivity|]. split; [reflexivity|].
  apply load_app_new.
Qed.

Lemma hid_error_of (dv bl : Z) (n : addr) (info : list hid_device_info)
    (w : list Z) (m : mem) :
  load n m = Some (Wide w) ->
  hid_error (Some (HidDevice dv bl (Some n) info)) m = Some (w, m).
Proof.
  intros H. unfold hid_error, read_wide. cbn [last_error_str]. rewrite H.
  reflexivity.
Qed.

Ltac record_error dev s m Hoom :=
  let n := fresh "n" in
  let m' := fresh "m" in
  let Hrun := fresh "Hrun" in
  let Hoom' := fresh "Hoom" in
  let Hload := fresh "Hload" in
  destruct (register_device_error_some dev s m Hoom)
    as (n & m' & Hrun & Hoom' & Hload);
  unfold bind; rewrite Hrun.

Ltac reported Hload :=
  unfold hid_error, read_wide; cbn [last_error_str]; rewrite Hload;
  reflexivity.

(** X13.  hid_read_timeout returns -1 exactly when it leaves an error
    message on the device: hid_error(dev) then returns that message, and
    L'Success' after every other return value, whatever error the device
    held before the call; a poll that times out makes the call return 0.
    Assumes that allocations succeed and that poll and read return -1 or
    more. *)
Theorem read_result_and_error_agree (dev : hid_device) (milliseconds : Z)
    (poll : Z -> Z * Z * Z) (read : Z * list byte * Z) (m : mem) :
  oom m = [] ->
  -1 <= fst (fst (poll milliseconds)) ->
  -1 <= fst (fst read) < 2 ^ 31 ->
  exists r dev' bytes m',
    hid_read_timeout strerror dev milliseconds poll read m
    = Some (r, dev', bytes, m')
    /\ -1 <= r
    /\ (r = -1 <-> last_error_str dev' <> None)
    /\ (r <> -1 ->
        hid_error (Some dev') m' = Some (Wchar.wide_literal "Success", m'))
    /\ (r = -1 ->
        exists msg, hid_error (Some dev') m' = Some (widen msg, m'))
    /\ (0 <= milliseconds -> fst (fst (poll milliseconds)) = 0 -> r = 0).
Proof.
  intros Hoom Hpoll Hread. unfold hid_read_timeout.
  destruct (register_device_error_none dev m) as (m0 & Hrun0 & Hoom0).
  unfold bind at 1. rewrite Hrun0. rewrite Hoom in Hoom0.
  set (dev0 := HidDevice (device_handle dev) (blocking dev) None
                         (device_info dev)).
  assert (Hbytes :
            exists r dev' bytes m',
              hid_read_bytes strerror dev0 read m0 = Some (r, dev', bytes, m')
              /\ -1 <= r
              /\ (r = -1 <-> last_error_str dev' <> None)
              /\ (r <> -1 ->
                  hid_error (Some dev') m'
                  = Some (Wchar.wide_literal "Success", m'))
              /\ (r = -1 ->
                  exists msg, hid_error (Some dev') m' = Some (widen msg, m'))).
  { unfold hid_read_bytes. destruct read as [[res bytes] errno].
    simpl in Hread. rewrite s32_small by lia.
    destruct (res <? 0) eqn:Eneg;
      [apply Z.ltb_lt in Eneg | apply Z.ltb_ge in Eneg].
    - assert (res = -1) by lia. subst res.
      destruct ((errno =? EAGAIN) || (errno =? EINPROGRESS)).
      + eexists _, _, _, _. split; [reflexivity|]. simpl.
        split; [lia|]. split; [split; [lia | intros H; contradiction]|].
        split; [reflexivity | lia].
      + record_error dev0 (strerror errno) m0 Hoom0.
        eexists _, _, _, _. split; [reflexivity|]. simpl.
        split; [lia|]. split; [split; [discriminate | reflexivity]|].
        split; [intros H; contradiction|].
        intros _. exists (strerror errno). reported Hload.
    - eexists _, _, _, _. split; [reflexivity|]. simpl.
      split; [lia|]. split; [split; [lia | intros H; contradiction]|].
      split; [reflexivity | lia]. }
  destruct (0 <=? milliseconds) eqn:Ems; [apply Z.leb_le in Ems
                                          | apply Z.leb_gt in Ems].
  2:{ destruct Hbytes as (r & dev' & bytes & m' & H & H1 & H2 & H3 & H4).
      exists r, dev', bytes, m'. repeat (split; [assumption|]). lia. }
  destruct (poll milliseconds) as [[ret_ revents] errno] eqn:Epoll.
  simpl in Hpoll.
  destruct (ret_ =? 0) eqn:E0.
  { apply Z.eqb_eq in E0. subst ret_. eexists _, _, _, _. split; [reflexivity|]. simpl.
    split; [lia|]. split; [split; [lia | intros H; contradiction]|].
    split; [reflexivity|]. split; [lia|]. intros; lia. }
  destruct (ret_ =? -1) eqn:E1.
  { apply Z.eqb_eq in E1. subst ret_. record_error dev0 (strerror errno) m0 Hoom0.
    eexists _, _, _, _. split; [reflexivity|]. simpl.
    split; [lia|]. split; [split; [discriminate | lia]|].
    split; [lia|]. split; [|intros; lia].
    intros _. exists (strerror errno). reported Hload. }
  destruct (negb (Z.land revents (Z.lor (Z.lor POLLERR POLLHUP) POLLNVAL) =? 0)).
  { record_error dev0
      "hid_read_timeout: unexpected poll error (device disconnected)" m0 Hoom0.
    eexists _, _, _, _. split; [reflexivity|]. simpl.
    split; [lia|]. split; [split; [discriminate | reflexivity]|].
    split; [intros H; contradiction|]. split; [|intros; lia].
    intros _. eexists. reported Hload. }
  destruct Hbytes as (r & dev' & bytes & m' & H & H1 & H2 & H3 & H4).
  exists r, dev', bytes, m'. repeat (split; [assumption|]).
  intros _ H0. simpl in H0. apply Z.eqb_neq in E0. contradiction.
Qed.


(** X14.  hid_write returns -1 exactly when it leaves an error message
    on the device: for a NULL buffer or length 0 the message is that of
    EINVAL, when write fails it is that of errno, and otherwise the call
    returns what write returned and hid_error(dev) reads L'Success'.
    Assumes that allocations succeed and that write returns -1 or more. *)
Theorem write_result_and_error_agree (dev : hid_device)
    (data : option (list byte)) (length : Z) (write : Z * Z) (m : mem) :
  oom m = [] ->
  -1 <= fst write < 2 ^ 31 ->
  exists r dev' m',
    hid_write strerror dev data length write m = Some (r, dev', m')
    /\ -1 <= r
    /\ (r = -1 <-> last_error_str dev' <> None)
    /\ (r <> -1 ->
        r = fst write
        /\ hid_error (Some dev') m' = Some (Wchar.wide_literal "Success", m'))
    /\ (data = None \/ length = 0 ->
        r = -1
        /\ hid_error (Some dev') m' = Some (widen (strerror EINVAL), m'))
    /\ (data <> None -> length <> 0 -> fst write = -1 ->
        hid_error (Some dev') m' = Some (widen (strerror (snd write)), m')).
Proof.
  intros Hoom Hw. unfold hid_write.
  destruct (match data with None => true | Some _ => false end
            || (length =? 0)) eqn:Echeck.
  - record_error dev (strerror EINVAL) m Hoom.
    eexists _, _, _. split; [reflexivity|]. simpl.
    split; [lia|]. split; [split; [discriminate | reflexivity]|].
    split; [intros H; contradiction|].
    split; [intros _; split; [reflexivity | reported Hload]|].
    intros Hd Hl. exfalso. apply orb_true_iff in Echeck.
    destruct Echeck as [E|E]; [destruct data; [discriminate | contradiction]|].
    apply Z.eqb_eq in E. contradiction.
  - apply orb_false_iff in Echeck. destruct Echeck as [Ed El].
    apply Z.eqb_neq in El.
    destruct write as [res errno]. simpl in Hw. cbv zeta.
    rewrite s32_small by lia.
    destruct (res =? -1) eqn:E1;
      [apply Z.eqb_eq in E1 | apply Z.eqb_neq in E1].
    + subst res. record_error dev (strerror errno) m Hoom.
      eexists _, _, _. split; [reflexivity|]. simpl.
      split; [lia|]. split; [split; [discriminate | reflexivity]|].
      split; [intros H; contradiction|].
      split; [intros [H|H]; [subst data; discriminate | contradiction]|].
      intros _ _ _. reported Hload.
    + destruct (register_device_error_none dev m) as (m0 & Hrun0 & _).
      unfold bind. rewrite Hrun0.
      eexists _, _, _. split; [reflexivity|]. simpl.
      split; [lia|]. split; [split; [lia | intros H; contradiction]|].
      split; [intros _; split; reflexivity|].
      split; [intros [H|H]; [subst data; discriminate | contradiction]|].
      intros _ _ H. contradiction.
Qed.

Lemma hid_report_ioctl_outcome (name : string) (dev : hid_device)
    (ioctl : Z * Z) (m : mem) :
  oom m = [] ->
  exists dev' m',
    hid_report_ioctl strerror name dev ioctl m = Some (fst ioctl, dev', m')
    /\ (fst ioctl < 0 <-> last_error_str dev' <> None)
    /\ hid_error (Some dev') m'
       = Some (if fst ioctl <? 0
               then widen (Libc.copy_prefix 255
                             ("ioctl (" ++ name ++ "): "
                              ++ strerror (snd ioctl)))
               else Wchar.wide_literal "Success", m').
Proof.
  intros Hoom. unfold hid_report_ioctl.
  destruct (register_device_error_none dev m) as (m0 & Hrun0 & Hoom0).
  unfold bind at 1. rewrite Hrun0. rewrite Hoom in Hoom0.
  destruct ioctl as [res errno]. cbn [fst snd].
  destruct (res <? 0) eqn:E; [apply Z.ltb_lt in E | apply Z.ltb_ge in E].
  - unfold register_device_error_format.
    match goal with
    | |- context [register_device_error ?d (Some ?s)] =>
      destruct (register_device_error_some d s m0 Hoom0)
        as (n & m1 & Hrun & _ & Hload)
    end.
    unfold bind. rewrite Hrun.
    eexists _, _. split; [reflexivity|]. simpl.
    split; [split; [discriminate | intros _; exact E]|]. reported Hload.
  - eexists _, _. split; [reflexivity|]. simpl.
    split; [split; [lia | intros H; contradiction] | reflexivity].
Qed.

(** X15.  hid_send_feature_report, hid_get_feature_report and
    hid_get_input_report return what ioctl returned; when that is
    negative hid_error(dev) reads 'ioctl (SFEATURE): ', 'ioctl
    (GFEATURE): ' or 'ioctl (GINPUT): ' followed by the text of errno
    (255 characters at most), and otherwise it reads L'Success'. Assumes
    that allocations succeed. *)
Theorem report_result_and_error_agree (dev : hid_device) (ioctl : Z * Z)
    (m : mem) :
  oom m = [] ->
  (exists dev' m',
      hid_send_feature_report strerror dev ioctl m
      = Some (fst ioctl, dev', m')
      /\ (fst ioctl < 0 <-> last_error_str dev' <> None)
      /\ hid_error (Some dev') m'
         = Some (if fst ioctl <? 0
                 then widen (Libc.copy_prefix 255
                               ("ioctl (SFEATURE): " ++ strerror (snd ioctl)))
                 else Wchar.wide_literal "Success", m'))
  /\ (exists dev' m',
         hid_get_feature_report strerror dev ioctl m
         = Some (fst ioctl, dev', m')
         /\ (fst ioctl < 0 <-> last_error_str dev' <> None)
         /\ hid_error (Some dev') m'
            = Some (if fst ioctl <? 0
                    then widen (Libc.copy_prefix 255
                                  ("ioctl (GFEATURE): "
                                   ++ strerror (snd ioctl)))
                    else Wchar.wide_literal "Success", m'))
  /\ (exists dev' m',
         hid_get_input_report strerror dev ioctl m
         = Some (fst ioctl, dev', m')
         /\ (fst ioctl < 0 <-> last_error_str dev' <> None)
         /\ hid_error (Some dev') m'
            = Some (if fst ioctl <? 0
                    then widen (Libc.copy_prefix 255
                                  ("ioctl (GINPUT): "
                                   ++ strerror (snd ioctl)))
                    else Wchar.wide_literal "Success", m')).
Proof.
  intros Hoom. split; [|split].
  - apply (hid_report_ioctl_outcome "SFEATURE" dev ioctl m Hoom).
  - apply (hid_report_ioctl_outcome "GFEATURE" dev ioctl m Hoom).
  - apply (hid_report_ioctl_outcome "GINPUT" dev ioctl m Hoom).
Qed.


(** *** Strings copied into a caller's buffer *)

Lemma wcs_nonzero (l : list Z) : Forall (fun c => c <> 0) (Wchar.wcs l).
Proof.
  induction l as [|c l IH]; simpl; [constructor|].
  destruct (c =? 0) eqn:E; [constructor|].
  apply Z.eqb_neq in E. constructor; assumption.
Qed.

Lemma wcs_app_zero (x rest : list Z) :
  Forall (fun c => c <> 0) x -> Wchar.wcs (x ++ 0 :: rest) = x.
Proof.
  induction x as [|c x IH]; intros H; simpl; [reflexivity|].
  inversion H as [|? ? Hc Hx]; subst.
  apply Z.eqb_neq in Hc. rewrite Hc. f_equal. apply IH. exact Hx.
Qed.

Lemma wcs_length (l : list Z) : (List.length (Wchar.wcs l) <= List.length l)%nat.
Proof.
  induction l as [|c l IH]; simpl; [lia|].
  destruct (c =? 0); simpl; lia.
Qed.

Lemma Forall_firstn {A : Type} (P : A -> Prop) (n : nat) (l : list A) :
  Forall P l -> Forall P (firstn n l).
Proof.
  intros H. rewrite Forall_forall in *. intros x Hx. apply H.
  rewrite <- (firstn_skipn n l). apply in_or_app. left. exact Hx.
Qed.

Lemma wcsncpy_some (dst src : list Z) (n : nat) (b : list Z) :
  Wchar.wcsncpy dst src n = Some b ->
  (n <= List.length dst)%nat
  /\ b = (firstn n (Wchar.wcs src ++ repeat 0 n) ++ skipn n dst)%list.
Proof.
  unfold Wchar.wcsncpy.
  destruct (List.length dst <? n)%nat eqn:E; [discriminate|].
  apply Nat.ltb_ge in E. intros H. inversion H. auto.
Qed.

Lemma store_some (buf : list Z) (i : nat) (c : Z) (b : list Z) :
  Wchar.store buf i c = Some b ->
  (i < List.length buf)%nat
  /\ b = (firstn i buf ++ c :: skipn (S i) buf)%list.
Proof.
  unfold Wchar.store.
  destruct (i <? List.length buf)%nat eqn:E; [|discriminate].
  apply Nat.ltb_lt in E. intros H. inversion H. auto.
Qed.

(** A string cut to [k] characters, padded with null characters and
    followed by a null character reads as its first [k] characters. *)
Lemma wcs_padded (s : list Z) (k n : nat) (rest : list Z) :
  Forall (fun c => c <> 0) s -> (k < n)%nat ->
  Wchar.wcs (firstn k (s ++ repeat 0 n) ++ 0 :: rest) = firstn k s.
Proof.
  intros Hs Hk.
  destruct (Nat.le_gt_cases k (List.length s)) as [Hle|Hgt].
  - rewrite firstn_app.
    replace (k - List.length s)%nat with 0%nat by lia.
    rewrite firstn_O, app_nil_r.
    apply wcs_app_zero. apply Forall_firstn. exact Hs.
  - rewrite firstn_app, (firstn_all2 s) by lia.
    rewrite <- app_assoc.
    assert (Hz : exists z, (firstn (k - List.length s) (repeat 0 n)
                            ++ 0 :: rest)%list = 0 :: z).
    { destruct (k - List.length s)%nat as [|j] eqn:Ej; [lia|].
      destruct n as [|n']; [lia|]. simpl. eexists. reflexivity. }
    destruct Hz as (z & Ez). rewrite Ez. apply wcs_app_zero. exact Hs.
Qed.

Lemma info_string_fits (field : hid_device_info -> ptr) (env : udev_env)
    (fstat : option Z) (device_new_from_devnum : Z -> option udev_device)
    (dev : hid_device) (buf : list Z) (maxlen : Z) (m : mem)
    (r : Z) (dev' : hid_device) (out : option (list Z)) (m' : mem) :
  0 <= maxlen ->
  hid_get_info_string field env fstat device_new_from_devnum dev
                      (Some buf) maxlen m
  = Some (r, dev', out, m') ->
  string_fits field buf maxlen r dev' out m'.
Proof.
  intros Hmax H. unfold hid_get_info_string in H.
  unfold string_fits.
  destruct (maxlen =? 0) eqn:E0;
    [apply Z.eqb_eq in E0 | apply Z.eqb_neq in E0].
  { unfold bind in H.
    destruct (register_device_error dev (Some "Zero buffer/length") m)
      as [[d1 m1]|]; [|discriminate].
    inversion H; subst. exists buf.
    repeat split; auto; intros; discriminate. }
  unfold bind at 1 in H.
  destruct (hid_get_device_info env fstat device_new_from_devnum dev m)
    as [[[info dev1] m1]|] eqn:Einfo; [|discriminate].
  assert (Hdi : device_info dev1 = info).
  { unfold hid_get_device_info in Einfo.
    destruct (device_info dev) as [|i0 rest0] eqn:Edi.
    - unfold bind in Einfo.
      destruct (create_device_info_for_hid_device env fstat
                  device_new_from_devnum dev m) as [[[i1 d1] m2]|];
        [|discriminate].
      inversion Einfo; subst. reflexivity.
    - inversion Einfo; subst. exact Edi. }
  destruct info as [|info rest].
  { inversion H; subst. exists buf. repeat split; auto; intros; discriminate. }
  destruct (field info) as [a|] eqn:Ef.
  - unfold bind at 1 in H.
    destruct (read_wide (Some a) m1) as [[src m2]|] eqn:Eread; [|discriminate].
    assert (Hsrc : m2 = m1 /\ deref_wide m1 (Some a) = Some src).
    { unfold read_wide in Eread. unfold deref_wide.
      destruct (load a m1) as [[s|w]|]; try discriminate.
      inversion Eread; subst. auto. }
    destruct Hsrc as [-> Hsrc].
    unfold bind at 1, lift in H.
    destruct (Wchar.wcsncpy buf src (Z.to_nat maxlen)) as [b1|] eqn:Ecpy;
      [|discriminate].
    unfold bind, lift in H.
    destruct (Wchar.store b1 (Z.to_nat (maxlen - 1)) 0) as [b2|] eqn:Est;
      [|discriminate].
    inversion H; subst r dev' out m'. clear H.
    apply wcsncpy_some in Ecpy. destruct Ecpy as [Elen Eb1].
    apply store_some in Est. destruct Est as [Ei Eb2].
    subst b2 b1.
    set (n := Z.to_nat maxlen) in *.
    replace (Z.to_nat (maxlen - 1)) with (n - 1)%nat in * by lia.
    assert (Hn : (0 < n)%nat) by lia.
    set (padded := (Wchar.wcs src ++ repeat 0 n)%list).
    assert (Hpl : List.length (firstn n padded) = n).
    { rewrite length_firstn. unfold padded.
      rewrite length_app, repeat_length. lia. }
    assert (Hfirst : firstn (n - 1) (firstn n padded ++ skipn n buf)
                     = firstn (n - 1) padded).
    { rewrite firstn_app, Hpl.
      replace (n - 1 - n)%nat with 0%nat by lia.
      rewrite firstn_O, app_nil_r, firstn_firstn.
      replace (Nat.min (n - 1) n) with (n - 1)%nat by lia. reflexivity. }
    assert (Hskip : skipn (S (n - 1)) (firstn n padded ++ skipn n buf)
                    = skipn n buf).
    { replace (S (n - 1)) with n by lia.
      rewrite skipn_app, Hpl, Nat.sub_diag, skipn_O.
      rewrite (skipn_all2 (firstn n padded)) by lia. reflexivity. }
    rewrite Hfirst, Hskip.
    eexists. split; [reflexivity|].
    assert (Hlen : List.length (firstn (n - 1) padded ++ 0 :: skipn n buf)
                   = List.length buf).
    { rewrite length_app, length_firstn. simpl. rewrite length_skipn.
      unfold padded. rewrite length_app, repeat_length. lia. }
    split; [exact Hlen|]. split.
    { rewrite skipn_app. rewrite (skipn_all2 (firstn (n - 1) padded)).
      2:{ rewrite length_firstn. lia. }
      rewrite length_firstn. unfold padded at 1.
      rewrite length_app, repeat_length.
      replace (n - Nat.min (n - 1) (List.length (Wchar.wcs src) + n))%nat
        with 1%nat by lia.
      reflexivity. }
    split; [left; reflexivity|]. split; [intros; discriminate|].
    intros _. exists info, rest. split; [exact Hdi|].
    rewrite Ef, Hsrc. unfold padded.
    rewrite wcs_padded; [|apply wcs_nonzero | lia].
    split; [reflexivity|]. rewrite length_firstn. lia.
  - unfold bind, lift in H.
    destruct (Wchar.store buf 0 0) as [b2|] eqn:Est; [|discriminate].
    inversion H; subst r dev' out m'. clear H.
    apply store_some in Est. destruct Est as [Ei Eb2]. subst b2.
    destruct buf as [|c buf]; [simpl in Ei; lia|].
    cbn [firstn skipn app].
    eexists. split; [reflexivity|]. split; [reflexivity|]. split.
    { destruct (Z.to_nat maxlen) as [|n] eqn:En; [lia|]. reflexivity. }
    split; [left; reflexivity|]. split; [intros; discriminate|].
    intros _. exists info, rest. split; [exact Hdi|].
    rewrite Ef. cbn [deref_wide]. simpl. rewrite firstn_nil.
    split; [reflexivity | lia].
Qed.



End DeviceFacts.

(** ** Opening a device *)

Section OpenFacts.
Context {locale : Locale}.
Variable strerror : Z -> string.
Local Open Scope string_scope.
Local Open Scope Z_scope.

Lemma scan_uevent_serial (lines : list string) :
  forall f,
    (uf_found_serial f = true -> uf_serial f <> None) ->
    uf_found_serial (scan_uevent lines f) = true ->
    uf_serial (scan_uevent lines f) <> None.
Proof.
  induction lines as [|line rest IH]; intros f Hf; [exact Hf|].
  simpl. destruct (Libc.strchr_split "=" line) as [[key value]|];
    [|apply IH; exact Hf].
  destruct (String.eqb key "HID_ID").
  { destruct (Libc.sscanf_x_hx_hx value (uf_bus f) (uf_vid f) (uf_pid f))
      as [[[r b] v] p]. apply IH. exact Hf. }
  destruct (String.eqb key "HID_NAME"); [apply IH; exact Hf|].
  destruct (String.eqb key "HID_UNIQ"); [|apply IH; exact Hf].
  apply IH. simpl. intros _. discriminate.
Qed.

Lemma seed_record_serial raw_dev bus vid pid serial name :
  r_serial_number (seed_record raw_dev bus vid pid serial name)
  = option_map widen serial.
Proof.
  unfold seed_record.
  destruct (bus =? BUS_USB); [destruct (usb_device_parent raw_dev)|];
    try reflexivity.
  destruct (bus =? BUS_BLUETOOTH); [reflexivity|].
  destruct (bus =? BUS_I2C); reflexivity.
Qed.

Lemma records_of_seed_serial files raw_dev seed r :
  In r (records_of_seed files raw_dev seed) ->
  r_serial_number r = r_serial_number seed.
Proof.
  unfold records_of_seed.
  destruct (descriptor_pairs files (syspath raw_dev)) as [[|pu pairs]|];
    intros Hin.
  - destruct Hin as [E|[]]. subst. auto.
  - apply in_map_iff in Hin. destruct Hin as (x & E & _). subst. auto.
  - destruct Hin as [E|[]]. subst. auto.
Qed.

(** Every record of an enumeration has a serial number string. *)
Lemma enumeration_has_serial (env : udev_env) (v p : Z) (r : device_record) :
  In r (enumeration env v p) -> r_serial_number r <> None.
Proof.
  unfold enumeration. destruct (udev_new_ok env); [|intros []].
  intros Hin. apply in_flat_map in Hin. destruct Hin as (entry & _ & Hin).
  unfold entry_records in Hin. destruct entry as [sp|]; [|destruct Hin].
  destruct (prefilter_rejects (files env) v p sp); [destruct Hin|].
  destruct (device_new_from_syspath env sp) as [raw_dev|]; [|destruct Hin].
  unfold device_records in Hin.
  destruct (hid_parent raw_dev) as [[uevent|]|]; try (destruct Hin; fail).
  set (f := scan_uevent (uevent_lines uevent) no_fields) in *.
  destruct (uf_found_id f && uf_found_name f && uf_found_serial f
            && bus_handled (uf_bus f)) eqn:Eacc; [|destruct Hin].
  apply records_of_seed_serial in Hin. rewrite Hin, seed_record_serial.
  assert (Hs : uf_found_serial f = true).
  { destruct (uf_found_id f), (uf_found_name f), (uf_found_serial f);
      try discriminate Eacc; reflexivity. }
  pose proof (scan_uevent_serial (uevent_lines uevent) no_fields
                ltac:(simpl; discriminate) Hs) as Hser.
  fold f in Hser. destruct (uf_serial f); [discriminate | contradiction].
Qed.

(** The loop of [hid_open] returns the path of the first record that
    is wanted, and reads every serial number it compares. *)
Lemma path_to_open_run (v p : Z) (serial : option (list Z))
    (recs : list hid_device_info) :
  forall specs O lo m,
    Forall2 record_rel recs specs ->
    owns O lo m ->
    (forall d r, In (d, r) (combine recs specs) -> incl (cells_of d r) O) ->
    (forall r, In r specs -> r_serial_number r <> None) ->
    exists q,
      path_to_open v p serial recs m = Some (q, m)
      /\ match find (wanted_record v p serial) specs with
         | Some r => deref_chars m q = r_path r /\ agree q (option_map Chars (r_path r))
         | None => q = None
         end.
Proof.
  induction recs as [|d recs IH]; intros specs O lo m Hall Hown Hin Hser.
  - inversion Hall; subst. exists None. split; reflexivity.
  - inversion Hall as [|? r ? specs' Hrel Hall']; subst.
    assert (Hin' : forall d0 r0, In (d0, r0) (combine recs specs') ->
                                 incl (cells_of d0 r0) O).
    { intros d0 r0 H0. apply Hin. right. exact H0. }
    assert (Hser' : forall r0, In r0 specs' -> r_serial_number r0 <> None).
    { intros r0 H0. apply Hser. right. exact H0. }
    specialize (IH specs' O lo m Hall' Hown Hin' Hser').
    assert (Hres : resolve m d = r).
    { eapply resolve_of_rel; [exact Hrel | exact Hown|].
      apply Hin. left. reflexivity. }
    pose proof Hrel as (Ev & Ep & _ & _ & _ & _ & _ & Hpath & Hsn & _).
    cbn [path_to_open find]. unfold wanted_record at 1.
    rewrite <- Ev, <- Ep.
    destruct ((vendor_id d =? v) && (product_id d =? p)); [|exact IH].
    cbn [andb].
    assert (Hq : deref_chars m (path d) = r_path r
                 /\ agree (path d) (option_map Chars (r_path r))).
    { split; [rewrite <- Hres; reflexivity | exact Hpath]. }
    destruct serial as [wanted|].
    2:{ exists (path d). split; [reflexivity | exact Hq]. }
    assert (Hsr : deref_wide m (serial_number d) = r_serial_number r)
      by (rewrite <- Hres; reflexivity).
    destruct (r_serial_number r) as [found|] eqn:Esn.
    2:{ exfalso. apply (Hser r); [left; reflexivity | exact Esn]. }
    unfold bind. unfold deref_wide in Hsr. unfold read_wide.
    destruct (serial_number d) as [a|]; [|discriminate].
    destruct (load a m) as [[s|w]|]; try discriminate.
    inversion Hsr; subst w.
    destruct (Wchar.wcs_eqb wanted found); [|exact IH].
    exists (path d). split; [reflexivity | exact Hq].
Qed.


(** Releasing the records of an enumeration leaves the global error
    message in place. *)
Lemma hid_error_after_free (ds : list hid_device_info)
    (rs : list device_record) O lo (m : mem) (w : list Z) :
  Forall2 record_rel ds rs ->
  owns (all_cells ds rs ++ O) lo m ->
  hid_error None m = Some (w, m) ->
  exists m',
    hid_free_enumeration ds m = Some (tt, m')
    /\ hid_error None m' = Some (w, m').
Proof.
  intros Hall Hown Herr. rewrite free_enumeration_run.
  eexists. split; [reflexivity|].
  unfold hid_error in *. cbn [last_global_error_str].
  destruct (last_global_error_str m) as [g|] eqn:Eg;
    [|inversion Herr; reflexivity].
  assert (Hload : load g m = Some (Wide w)).
  { unfold read_wide in Herr.
    destruct (load g m) as [[s|w0]|]; try discriminate.
    inversion Herr; subst. reflexivity. }
  unfold read_wide. rewrite load_clear_cells.
  destruct (in_dec Nat.eq_dec g (flat_map free_order ds)) as [Hin|_].
  - exfalso. destruct Hown as (_ & _ & _ & Hlge & _).
    destruct (Hlge g Eg) as [_ Hni]. apply Hni.
    rewrite map_app. apply in_or_app. left.
    apply in_flat_map_free_order in Hin.
    eapply Permutation_in; [symmetry; apply all_cells_addrs; exact Hall|].
    exact Hin.
  - destruct m as [cs o lge]. cbn [cells oom last_global_error_str] in *.
    subst lge. rewrite Hload. reflexivity.
Qed.

Lemma request_ok O lo (m : mem) : owns O lo m -> request m = Some (true, m).
Proof.
  intros (Hoom & _). unfold request. rewrite Hoom. reflexivity.
Qed.


Lemma hid_open_outcome (env : udev_env) (v p : Z)
    (serial : option (list Z))
    (open : string -> Z * Z) (grdescsize : string -> Z * Z) (m : mem) :
  uevent_attrs_present env ->
  prefilter_reads_fit env v p ->
  oom m = [] ->
  (forall g, last_global_error_str m = Some g ->
             (g < List.length (cells m))%nat) ->
  (forall path, 0 <= fst (open path) -> 0 <= fst (grdescsize path)) ->
  exists handle m',
    hid_open strerror env v p serial open grdescsize m = Some (handle, m')
    /\ match find (wanted_record v p serial) (enumeration env v p) with
       | Some r =>
         match r_path r with
         | Some path =>
           if 0 <=? fst (open path)
           then handle = Some (HidDevice (fst (open path)) 1 None [])
           else handle = None
                /\ hid_error None m'
                   = Some (widen (Libc.copy_prefix 255
                                    ("Failed to open a device with path '"
                                     ++ path ++ "': "
                                     ++ strerror (snd (open path)))), m')
         | None =>
           handle = None
           /\ hid_error None m'
              = Some (widen "Device with requested VID/PID/(SerialNumber) not found",
                      m')
         end
       | None =>
         handle = None
         /\ (enumeration env v p <> [] ->
             hid_error None m'
             = Some (widen "Device with requested VID/PID/(SerialNumber) not found",
                     m'))
       end.
Proof.
  intros Hhid Hfit Hoom Hg Hioctl. pose proof (owns_nil m Hoom Hg) as Hown.
  destruct (hid_enumerate_refines env v p [] _ m Hown Hhid Hfit)
    as (recs & m1 & Hrun & Hall & Ho & _).
  unfold hid_open. unfold bind at 1. rewrite Hrun.
  set (specs := enumeration env v p) in *.
  destruct recs as [|d recs'].
  { assert (Es : specs = []) by (inversion Hall; reflexivity).
    rewrite Es. exists None, m1. split; [reflexivity|].
    simpl. split; [reflexivity|]. intros Hne. contradiction. }
  set (recs := d :: recs') in *.
  destruct (path_to_open_run v p serial recs specs _ _ m1 Hall Ho)
    as (q & Hq & Hfind).
  { intros d0 r0 H0. apply incl_appl. eapply all_cells_incl; eassumption. }
  { intros r0 H0. eapply enumeration_has_serial. exact H0. }
  unfold bind at 1. rewrite Hq.
  (* the branch in which nothing is opened *)
  assert (Hmiss :
            exists m',
              (handle <-
                 (register_global_error
                    (Some "Device with requested VID/PID/(SerialNumber) not found")
                  ;;; ret (@None hid_device)) ;;
               hid_free_enumeration recs ;;; ret handle) m1
              = Some (None, m')
              /\ hid_error None m'
                 = Some (widen "Device with requested VID/PID/(SerialNumber) not found",
                         m')).
  { destruct (register_global_error_reported _ _
                "Device with requested VID/PID/(SerialNumber) not found"
                m1 Ho) as (m2 & Hrun2 & Ho2 & Herr2).
    destruct (hid_error_after_free recs specs [] _ m2 _ Hall Ho2 Herr2)
      as (m3 & Hfree & Herr3).
    exists m3. unfold bind. rewrite Hrun2. cbn [ret]. rewrite Hfree.
    split; [reflexivity | exact Herr3]. }
  destruct (find (wanted_record v p serial) specs) as [r|] eqn:Efind.
  2:{ subst q. destruct Hmiss as (m' & Hrun' & Herr').
      exists None, m'. split; [exact Hrun'|]. split; [reflexivity|].
      intros _. exact Herr'. }
  destruct Hfind as [Hderef Hagree].
  destruct (r_path r) as [s|] eqn:Epath.
  2:{ destruct q as [a|]; [simpl in Hagree; contradiction|].
      destruct Hmiss as (m' & Hrun' & Herr').
      exists None, m'. split; [exact Hrun'|]. split; [reflexivity | exact Herr']. }
  destruct q as [a|]; [|simpl in Hagree; contradiction].
  assert (Hread : read_chars (Some a) m1 = Some (s, m1)).
  { unfold deref_chars in Hderef. unfold read_chars.
    destruct (load a m1) as [[s0|w0]|]; try discriminate.
    inversion Hderef; subst. reflexivity. }
  unfold bind at 1. unfold bind at 1. rewrite Hread.
  unfold hid_open_path, hid_init.
  destruct (wp_register_global_error _ _ None
              (fun _ m' => owns (all_cells recs specs ++ [])
                                (List.length (cells m)) m')
              m1 Ho (fun _ H => H)) as ([] & m2 & Hrun2 & Ho2).
  unfold bind at 1. unfold bind at 1. unfold bind at 1. rewrite Hrun2.
  cbn [ret]. unfold bind at 1. unfold new_hid_device. unfold bind at 1.
  rewrite (request_ok _ _ m2 Ho2). cbn [ret].
  cbn [blocking last_error_str device_info].
  specialize (Hioctl s).
  destruct (open s) as [fd errno]. cbn [fst snd] in *.
  destruct (0 <=? fd) eqn:Efd.
  - apply Z.leb_le in Efd. specialize (Hioctl Efd).
    destruct (grdescsize s) as [res e]. cbn [fst] in Hioctl.
    assert (Eres : (res <? 0) = false) by lia. rewrite Eres.
    cbn [ret]. unfold bind. rewrite free_enumeration_run.
    eexists _, _. split; reflexivity.
  - unfold register_global_error_format.
    match goal with
    | |- context [register_global_error (Some ?msg)] =>
      destruct (register_global_error_reported _ _ msg m2 Ho2)
        as (m3 & Hrun3 & Ho3 & Herr3)
    end.
    destruct (hid_error_after_free recs specs [] _ m3 _ Hall Ho3 Herr3)
      as (m4 & Hfree & Herr4).
    unfold bind. rewrite Hrun3. cbn [ret]. rewrite Hfree.
    exists None, m4. split; [reflexivity|]. split; [reflexivity | exact Herr4].
Qed.

End OpenFacts.

(** ** What stays allocated *)

Section LeakFacts.
Context {locale : Locale}.
Local Open Scope string_scope.
Local Open Scope Z_scope.

Lemma bounded_incl A A' lo m : bounded A lo m -> incl A A' -> bounded A' lo m.
Proof.
  intros [Hlo H] Hi. split; [exact Hlo|].
  intros a Ha Hl. destruct (H a Ha Hl) as [Hin|Hg]; [left; apply Hi, Hin | right; exact Hg].
Qed.

Lemma load_live_lt (a : addr) (m : mem) :
  load a m <> None -> (a < List.length (cells m))%nat.
Proof.
  intros H. destruct (load a m) as [b|] eqn:E; [|contradiction].
  eapply load_lt. exact E.
Qed.

Lemma request_bounded A lo m ok m' :
  request m = Some (ok, m') -> bounded A lo m -> bounded A lo m'.
Proof.
  unfold request. destruct (oom m) as [|f rest]; intros H Hb;
    inversion H; subst; exact Hb.
Qed.

Lemma malloc_bounded A lo b m p m' :
  malloc b m = Some (p, m') -> bounded A lo m ->
  bounded (ptr_addrs p ++ A) lo m'.
Proof.
  unfold malloc, bind. intros H [Hlo Hb].
  destruct (request m) as [[ok m1]|] eqn:Er; [|discriminate].
  assert (Hm1 : cells m1 = cells m
                /\ last_global_error_str m1 = last_global_error_str m).
  { unfold request in Er. destruct (oom m); inversion Er; subst; auto. }
  destruct Hm1 as [Hc Hg].
  destruct ok; inversion H; subst; clear H.
  - split; [cbn [cells]; rewrite length_app, Hc; simpl; lia|].
    intros a Ha Hl. cbn [last_global_error_str].
    destruct (Nat.lt_ge_cases a (List.length (cells m1))) as [Hlt|Hge].
    + rewrite load_app_old in Hl by exact Hlt.
      destruct (Hb a Ha) as [Hin|Hg'].
      * destruct m1, m. simpl in *. subst. exact Hl.
      * left. apply in_or_app. right. exact Hin.
      * right. rewrite Hg. exact Hg'.
    + left. apply in_or_app. left. simpl. left.
      apply load_live_lt in Hl. cbn [cells] in Hl. rewrite length_app in Hl.
      simpl in Hl. lia.
  - split; [rewrite Hc; exact Hlo|].
    intros a Ha Hl. simpl.
    destruct (Hb a Ha) as [Hin|Hg'].
    + destruct m', m. simpl in *. subst. exact Hl.
    + left. exact Hin.
    + right. rewrite Hg. exact Hg'.
Qed.

Lemma free_bounded A lo p m u m' :
  free p m = Some (u, m') -> bounded A lo m ->
  bounded (filter (fun a => negb (existsb (Nat.eqb a) (ptr_addrs p))) A) lo m'.
Proof.
  unfold free. intros H [Hlo Hb]. destruct p as [x|].
  - inversion H; subst; clear H. split.
    + cbn [cells]. rewrite length_clear_cell. exact Hlo.
    + intros a Ha Hl. cbn [last_global_error_str].
      destruct (Nat.eq_dec x a) as [E|E].
      * subst. exfalso. apply Hl. apply load_clear_cell_same.
      * rewrite (load_clear_cell_other x a _ _ _ (oom m)
                   (last_global_error_str m) E) in Hl.
        destruct (Hb a Ha) as [Hin|Hg].
        { destruct m. exact Hl. }
        { left. apply filter_In. split; [exact Hin|]. simpl.
          rewrite orb_false_r. apply negb_true_iff. apply Nat.eqb_neq.
          intros E'. apply E. symmetry. exact E'. }
        { right. exact Hg. }
  - inversion H; subst. split; [exact Hlo|].
    intros a Ha Hl. destruct (Hb a Ha Hl) as [Hin|Hg]; [|right; exact Hg].
    left. apply filter_In. split; [exact Hin | reflexivity].
Qed.

Lemma free_bounded_weak A lo p m u m' :
  free p m = Some (u, m') -> bounded A lo m -> bounded A lo m'.
Proof.
  intros H Hb. eapply bounded_incl; [eapply free_bounded; eassumption|].
  apply incl_filter.
Qed.

Lemma register_global_error_bounded A lo msg m u m' :
  register_global_error msg m = Some (u, m') -> bounded A lo m ->
  bounded A lo m'.
Proof.
  unfold register_global_error. rewrite register_error_str_run.
  intros H [Hlo Hb].
  set (cells1 := match last_global_error_str m with
                 | Some g => clear_cell g (cells m)
                 | None => cells m
                 end) in *.
  assert (Hlen : List.length cells1 = List.length (cells m)).
  { unfold cells1. destruct (last_global_error_str m);
      [apply length_clear_cell | reflexivity]. }
  assert (Hold : forall a o g,
             (lo <= a)%nat -> load a (Mem cells1 o g) <> None -> In a A).
  { intros a o g Ha Hl. unfold cells1 in Hl.
    destruct (last_global_error_str m) as [g0|] eqn:Eg.
    - destruct (Nat.eq_dec g0 a) as [E|E].
      + subst. exfalso. apply Hl. apply load_clear_cell_same.
      + rewrite (load_clear_cell_other g0 a _ _ _ (oom m)
                   (last_global_error_str m) E) in Hl.
        destruct (Hb a Ha) as [Hin|Hg]; [destruct m; exact Hl | exact Hin|].
        rewrite ?Eg in Hg. inversion Hg. contradiction.
    - destruct (Hb a Ha) as [Hin|Hg]; [destruct m; exact Hl | exact Hin|].
      rewrite ?Eg in Hg. discriminate. }
  destruct msg as [s|].
  - destruct (oom m) as [|[] rest]; inversion H; subst; clear H;
      (split; [cbn [cells]; rewrite ?length_app, Hlen; simpl; lia|]);
      intros a Ha Hl; cbn [last_global_error_str].
    + destruct (Nat.lt_ge_cases a (List.length cells1)) as [Hlt|Hge].
      * rewrite load_app_old in Hl by exact Hlt. left. eapply Hold; eauto.
      * right. apply load_live_lt in Hl. cbn [cells] in Hl.
        rewrite length_app in Hl. simpl in Hl. f_equal. lia.
    + left. eapply Hold; eauto.
    + destruct (Nat.lt_ge_cases a (List.length cells1)) as [Hlt|Hge].
      * rewrite load_app_old in Hl by exact Hlt. left. eapply Hold; eauto.
      * right. apply load_live_lt in Hl. cbn [cells] in Hl.
        rewrite length_app in Hl. simpl in Hl. f_equal. lia.
  - inversion H; subst; clear H.
    split; [cbn [cells]; rewrite Hlen; exact Hlo|].
    intros a Ha Hl. left. eapply Hold; eauto.
Qed.


Lemma read_chars_mem p m s m' : read_chars p m = Some (s, m') -> m' = m.
Proof.
  unfold read_chars. destruct p as [a|]; [|discriminate].
  destruct (load a m) as [[x|x]|]; intros H; inversion H; reflexivity.
Qed.

Lemma read_wide_mem p m w m' : read_wide p m = Some (w, m') -> m' = m.
Proof.
  unfold read_wide. destruct p as [a|]; [|discriminate].
  destruct (load a m) as [[x|x]|]; intros H; inversion H; reflexivity.
Qed.

Lemma lift_mem {A : Type} (o : option A) m a m' :
  lift o m = Some (a, m') -> m' = m.
Proof. unfold lift. destruct o; intros H; inversion H; reflexivity. Qed.

Lemma strdup_opt_bounded A lo s m p m' :
  strdup_opt s m = Some (p, m') -> bounded A lo m ->
  bounded (ptr_addrs p ++ A) lo m'.
Proof.
  destruct s as [s|]; simpl.
  - apply malloc_bounded.
  - intros H Hb. inversion H; subst. exact Hb.
Qed.

Lemma utf8_to_wchar_t_bounded A lo u m p m' :
  utf8_to_wchar_t u m = Some (p, m') -> bounded A lo m ->
  bounded (ptr_addrs p ++ A) lo m'.
Proof.
  destruct u as [s|]; simpl.
  - destruct (mbstowcs (Libc.c_str s)); apply malloc_bounded.
  - intros H Hb. inversion H; subst. exact Hb.
Qed.

Lemma utf8_to_wchar_t_ptr_bounded A lo q m p m' :
  utf8_to_wchar_t_ptr q m = Some (p, m') -> bounded A lo m ->
  bounded (ptr_addrs p ++ A) lo m'.
Proof.
  destruct q as [a|]; unfold utf8_to_wchar_t_ptr.
  - unfold bind. destruct (read_chars (Some a) m) as [[s m1]|] eqn:E;
      [|discriminate].
    apply read_chars_mem in E. subst m1. apply utf8_to_wchar_t_bounded.
  - intros H Hb. inversion H; subst. exact Hb.
Qed.

Lemma wcsdup_ptr_bounded A lo q m p m' :
  wcsdup_ptr q m = Some (p, m') -> bounded A lo m ->
  bounded (ptr_addrs p ++ A) lo m'.
Proof.
  destruct q as [a|]; simpl.
  - unfold bind. destruct (read_wide (Some a) m) as [[s m1]|] eqn:E;
      [|discriminate].
    apply read_wide_mem in E. subst m1. apply malloc_bounded.
  - intros H Hb. inversion H; subst. exact Hb.
Qed.

Lemma register_global_error_format_bounded A lo msg m u m' :
  register_global_error_format msg m = Some (u, m') -> bounded A lo m ->
  bounded A lo m'.
Proof. apply register_global_error_bounded. Qed.

(** A buffer that is allocated and freed again leaves the bound as it
    was. *)
Lemma scratch_bounded A lo q m u m' :
  free q m = Some (u, m') -> bounded (ptr_addrs q ++ A) lo m ->
  bounded A lo m'.
Proof.
  intros H Hb. eapply bounded_incl; [eapply free_bounded; eassumption|].
  intros a Ha. apply filter_In in Ha. destruct Ha as [Ha Hne].
  apply in_app_or in Ha. destruct Ha as [Ha|Ha]; [|exact Ha].
  exfalso. apply negb_true_iff in Hne.
  assert (Hex : existsb (Nat.eqb a) (ptr_addrs q) = true)
    by (apply existsb_exists; exists a; split; [exact Ha | apply Nat.eqb_refl]).
  congruence.
Qed.

Lemma parse_hid_vid_pid_lines_bounded A lo (lines : list string) :
  forall b v p m res m',
    parse_hid_vid_pid_lines lines b v p m = Some (res, m') ->
    bounded A lo m -> bounded A lo m'.
Proof.
  induction lines as [|line rest IH]; intros b v p m res m' H Hb.
  - simpl in H. unfold bind in H.
    destruct (register_global_error (Some "Couldn't find/parse HID_ID") m)
      as [[u m1]|] eqn:E; [|discriminate].
    inversion H; subst. eapply register_global_error_bounded; eassumption.
  - simpl in H.
    destruct (Libc.strchr_split "=" line) as [[key value]|];
      [|eapply IH; eassumption].
    destruct (String.eqb key "HID_ID"); [|eapply IH; eassumption].
    destruct (Libc.sscanf_x_hx_hx value b v p) as [[[r b1] v1] p1].
    destruct (r =? 3); [inversion H; subst; exact Hb|].
    eapply IH; eassumption.
Qed.

Lemma parse_hid_vid_pid_from_sysfs_bounded A lo files sysfs_path b v p m
    res m' :
  parse_hid_vid_pid_from_sysfs files sysfs_path b v p m = Some (res, m') ->
  bounded A lo m -> bounded A lo m'.
Proof.
  unfold parse_hid_vid_pid_from_sysfs. intros H Hb. unfold bind at 1 in H.
  destruct (malloc _ m) as [[q m1]|] eqn:Em; [|discriminate].
  pose proof (malloc_bounded _ _ _ _ _ _ Em Hb) as Hb1.
  destruct q as [a|]; [|discriminate].
  unfold bind at 1 in H.
  destruct (parse_hid_vid_pid_from_uevent_path files _ b v p m1)
    as [[res1 m2]|] eqn:Ep; [|discriminate].
  assert (Hb2 : bounded (ptr_addrs (Some a) ++ A) lo m2).
  { unfold parse_hid_vid_pid_from_uevent_path in Ep.
    destruct (files _) as [content|e|e].
    - cbv zeta in Ep.
      destruct (1024 <=? Z.of_nat (List.length (firstn 1024 content)));
        [discriminate Ep|].
      eapply parse_hid_vid_pid_lines_bounded; eassumption.
    - unfold bind in Ep.
      destruct (register_global_error_format _ m1) as [[u m3]|] eqn:Er;
        [|discriminate].
      inversion Ep; subst.
      eapply register_global_error_format_bounded; eassumption.
    - unfold bind in Ep.
      destruct (register_global_error_format _ m1) as [[u m3]|] eqn:Er;
        [|discriminate].
      inversion Ep; subst.
      eapply register_global_error_format_bounded; eassumption. }
  unfold bind in H.
  destruct (free (Some a) m2) as [[u m3]|] eqn:Ef; [|discriminate].
  inversion H; subst. eapply scratch_bounded; eassumption.
Qed.

Lemma get_hid_report_descriptor_from_sysfs_bounded A lo files sysfs_path m
    res m' :
  get_hid_report_descriptor_from_sysfs files sysfs_path m = Some (res, m') ->
  bounded A lo m -> bounded A lo m'.
Proof.
  unfold get_hid_report_descriptor_from_sysfs. intros H Hb.
  unfold bind at 1 in H.
  destruct (malloc _ m) as [[q m1]|] eqn:Em; [|discriminate].
  pose proof (malloc_bounded _ _ _ _ _ _ Em Hb) as Hb1.
  destruct q as [a|]; [|discriminate].
  unfold bind at 1 in H.
  destruct (get_hid_report_descriptor files _ m1) as [[res1 m2]|] eqn:Ep;
    [|discriminate].
  assert (Hb2 : bounded (ptr_addrs (Some a) ++ A) lo m2).
  { unfold get_hid_report_descriptor in Ep.
    destruct (files _) as [content|e|e].
    - inversion Ep; subst. exact Hb1.
    - unfold bind in Ep.
      destruct (register_global_error_format _ m1) as [[u m3]|] eqn:Er;
        [|discriminate].
      inversion Ep; subst.
      eapply register_global_error_format_bounded; eassumption.
    - unfold bind in Ep.
      destruct (register_global_error_format _ m1) as [[u m3]|] eqn:Er;
        [|discriminate].
      inversion Ep; subst.
      eapply register_global_error_format_bounded; eassumption. }
  unfold bind in H.
  destruct (free (Some a) m2) as [[u m3]|] eqn:Ef; [|discriminate].
  inversion H; subst. eapply scratch_bounded; eassumption.
Qed.


Lemma key_fits_skip (k : string) (line : string) (rest : list string)
    (p : ptr) :
  line_has_key k line = false ->
  key_fits k (line :: rest) p -> key_fits k rest p.
Proof. unfold key_fits. simpl. intros ->. auto. Qed.

Lemma key_fits_hit (k : string) (line : string) (rest : list string)
    (p : ptr) :
  line_has_key k line = true ->
  key_fits k (line :: rest) p ->
  p = None /\ forall q, key_fits k rest q.
Proof.
  unfold key_fits. simpl. intros ->. simpl. intros H.
  destruct p; [lia|]. split; [reflexivity|]. intros q. destruct q; lia.
Qed.

Lemma parse_uevent_info_lines_bounded A lo (lines : list string) :
  forall st m st' m',
    parse_uevent_info_lines lines st m = Some (st', m') ->
    key_fits "HID_NAME" lines (ui_product_name_utf8 st) ->
    key_fits "HID_UNIQ" lines (ui_serial_number_utf8 st) ->
    bounded (ptr_addrs (ui_serial_number_utf8 st)
             ++ ptr_addrs (ui_product_name_utf8 st) ++ A) lo m ->
    bounded (ptr_addrs (ui_serial_number_utf8 st')
             ++ ptr_addrs (ui_product_name_utf8 st') ++ A) lo m'.
Proof.
  induction lines as [|line rest IH]; intros st m st' m' H Hn Hs Hb.
  - simpl in H. inversion H; subst. exact Hb.
  - simpl in H.
    assert (Hkey : forall k, line_has_key k line
                             = match Libc.strchr_split "=" line with
                               | Some (key, _) => String.eqb key k
                               | None => false
                               end) by reflexivity.
    destruct (Libc.strchr_split "=" line) as [[key value]|] eqn:Esplit.
    2:{ eapply IH; [exact H | | | exact Hb].
        - eapply key_fits_skip; [apply Hkey | exact Hn].
        - eapply key_fits_skip; [apply Hkey | exact Hs]. }
    destruct (String.eqb_spec key "HID_ID") as [Ek|Ek].
    { subst key.
      destruct (Libc.sscanf_x_hx_hx value (ui_bus_type st) (ui_vendor_id st)
                                    (ui_product_id st)) as [[[r b] v] p].
      eapply IH; [exact H | | | exact Hb].
      - eapply key_fits_skip; [rewrite Hkey; reflexivity | exact Hn].
      - eapply key_fits_skip; [rewrite Hkey; reflexivity | exact Hs]. }
    destruct (String.eqb_spec key "HID_NAME") as [En|En].
    { subst key. unfold bind in H.
      destruct (strdup value m) as [[name m1]|] eqn:Ed; [|discriminate].
      destruct (key_fits_hit "HID_NAME" line rest _
                  ltac:(rewrite Hkey; reflexivity) Hn) as [Hnone Hrest].
      eapply IH; [exact H | apply Hrest | | ].
      - cbn [ui_serial_number_utf8].
        eapply key_fits_skip; [rewrite Hkey; reflexivity | exact Hs].
      - cbn [ui_serial_number_utf8 ui_product_name_utf8].
        rewrite Hnone in Hb. simpl app in Hb.
        eapply bounded_incl; [eapply malloc_bounded; eassumption|].
        intros a Ha. rewrite !in_app_iff in *. tauto. }
    destruct (String.eqb_spec key "HID_UNIQ") as [Eu|Eu].
    { subst key. unfold bind in H.
      destruct (strdup value m) as [[serial m1]|] eqn:Ed; [|discriminate].
      destruct (key_fits_hit "HID_UNIQ" line rest _
                  ltac:(rewrite Hkey; reflexivity) Hs) as [Hnone Hrest].
      eapply IH; [exact H | | apply Hrest | ].
      - cbn [ui_product_name_utf8].
        eapply key_fits_skip; [rewrite Hkey; reflexivity | exact Hn].
      - cbn [ui_serial_number_utf8 ui_product_name_utf8].
        rewrite Hnone in Hb. simpl app in Hb.
        eapply bounded_incl; [eapply malloc_bounded; eassumption|].
        intros a Ha. rewrite !in_app_iff in *. tauto. }
    eapply IH; [exact H | | | exact Hb].
    + eapply key_fits_skip; [rewrite Hkey|exact Hn].
      destruct (String.eqb_spec key "HID_NAME"); [contradiction | reflexivity].
    + eapply key_fits_skip; [rewrite Hkey|exact Hs].
      destruct (String.eqb_spec key "HID_UNIQ"); [contradiction | reflexivity].
Qed.

Lemma additional_usages_bounded (fuel : nat) :
  forall A lo dev_path vid pid value size c cur m recs m',
    additional_usages fuel dev_path vid pid value size c cur m
    = Some (recs, m') ->
    bounded A lo m ->
    bounded (flat_map string_addrs recs ++ A) lo m'.
Proof.
  induction fuel as [|fuel IH];
    intros A lo dev_path vid pid value size c cur m recs m' H Hb;
    [discriminate|].
  simpl in H. unfold bind at 1 in H.
  destruct (lift (Parser.get_next_hid_usage value size c) m)
    as [[[r c'] m0]|] eqn:El; [|discriminate].
  apply lift_mem in El. subst m0.
  destruct (r =? 0).
  2:{ inversion H; subst. exact Hb. }
  unfold bind at 1 in H.
  destruct (request m) as [[tmp m1]|] eqn:Er; [|discriminate].
  pose proof (request_bounded _ _ _ _ _ Er Hb) as Hb1.
  destruct tmp; cbn [negb] in H.
  2:{ eapply IH; eassumption. }
  unfold bind at 1 in H.
  destruct (strdup_opt dev_path m1) as [[p m2]|] eqn:E2; [|discriminate].
  pose proof (strdup_opt_bounded _ _ _ _ _ _ E2 Hb1) as Hb2.
  unfold bind at 1 in H.
  destruct (wcsdup_ptr (serial_number cur) m2) as [[sn m3]|] eqn:E3;
    [|discriminate].
  pose proof (wcsdup_ptr_bounded _ _ _ _ _ _ E3 Hb2) as Hb3.
  unfold bind at 1 in H.
  destruct (wcsdup_ptr (manufacturer_string cur) m3) as [[ms m4]|] eqn:E4;
    [|discriminate].
  pose proof (wcsdup_ptr_bounded _ _ _ _ _ _ E4 Hb3) as Hb4.
  unfold bind at 1 in H.
  destruct (wcsdup_ptr (product_string cur) m4) as [[ps m5]|] eqn:E5;
    [|discriminate].
  pose proof (wcsdup_ptr_bounded _ _ _ _ _ _ E5 Hb4) as Hb5.
  unfold bind in H.
  match type of H with
  | context [additional_usages fuel ?dp ?v ?p' ?val ?sz ?cc ?cd m5] =>
    destruct (additional_usages fuel dp v p' val sz cc cd m5)
      as [[rest m6]|] eqn:E6; [|discriminate];
    pose proof (IH _ _ _ _ _ _ _ _ _ _ _ _ E6 Hb5) as Hb6
  end.
  inversion H; subst. clear H.
  eapply bounded_incl; [exact Hb6|].
  intros a Ha. cbn [flat_map]. unfold string_addrs at 1.
  cbn [product_string manufacturer_string serial_number path].
  rewrite !in_app_iff in *. tauto.
Qed.


(** Two allocations in a row and the record made of them. *)
Lemma two_strings_bounded B lo (e1 e2 : prog ptr)
    (mk : ptr -> ptr -> hid_device_info) (m : mem) (cur : hid_device_info)
    (m' : mem) :
  (forall A m p m', e1 m = Some (p, m') -> bounded A lo m ->
                    bounded (ptr_addrs p ++ A) lo m') ->
  (forall A m p m', e2 m = Some (p, m') -> bounded A lo m ->
                    bounded (ptr_addrs p ++ A) lo m') ->
  (ms <- e1 ;; ps <- e2 ;; ret (mk ms ps)) m = Some (cur, m') ->
  bounded B lo m ->
  exists ms ps, cur = mk ms ps
                /\ bounded (ptr_addrs ps ++ ptr_addrs ms ++ B) lo m'.
Proof.
  intros H1 H2 H Hb. unfold bind in H.
  destruct (e1 m) as [[ms m1]|] eqn:E1; [|discriminate].
  destruct (e2 m1) as [[ps m2]|] eqn:E2; [|discriminate].
  inversion H; subst. exists ms, ps. split; [reflexivity|].
  eapply H2; [exact E2|]. eapply H1; eassumption.
Qed.

Lemma wcsdup_bounded A lo w m p m' :
  wcsdup w m = Some (p, m') -> bounded A lo m ->
  bounded (ptr_addrs p ++ A) lo m'.
Proof. apply malloc_bounded. Qed.

Lemma fill_device_info_bounded B lo files raw_dev bus vid pid s n m recs m' :
  fill_device_info files raw_dev bus vid pid s n m = Some (recs, m') ->
  bounded B lo m ->
  bounded (flat_map string_addrs recs ++ B) lo m'.
Proof.
  intros H Hb. unfold fill_device_info in H.
  unfold bind at 1 in H.
  destruct (strdup_opt (devnode raw_dev) m) as [[p m1]|] eqn:E1;
    [|discriminate].
  pose proof (strdup_opt_bounded _ _ _ _ _ _ E1 Hb) as Hb1.
  unfold bind at 1 in H.
  destruct (utf8_to_wchar_t_ptr s m1) as [[sn m2]|] eqn:E2; [|discriminate].
  pose proof (utf8_to_wchar_t_ptr_bounded _ _ _ _ _ _ E2 Hb1) as Hb2.
  unfold bind at 1 in H.
  match type of H with
  | match ?blk ?mm with _ => _ end = _ =>
    destruct (blk mm) as [[cur m3]|] eqn:Ebus; [|discriminate]
  end.
  assert (Hcur : bounded (string_addrs cur ++ B) lo m3).
  { assert (Hplain : forall bt,
              (ms <- wcsdup [] ;;
               ps <- utf8_to_wchar_t_ptr n ;;
               ret (DeviceInfo p vid pid sn 0 ms ps 0 0 (-1) bt)) m2
              = Some (cur, m3) ->
              bounded (string_addrs cur ++ B) lo m3).
    { intros bt Hrun.
      destruct (two_strings_bounded _ lo (wcsdup []) (utf8_to_wchar_t_ptr n)
                  (fun ms ps => DeviceInfo p vid pid sn 0 ms ps 0 0 (-1) bt)
                  m2 cur m3
                  (fun A m p m' => wcsdup_bounded A lo [] m p m')
                  (fun A m p m' => utf8_to_wchar_t_ptr_bounded A lo n m p m')
                  Hrun Hb2) as (ms & ps & Ecur & Hb3).
      subst cur. unfold string_addrs. cbn [product_string manufacturer_string
        serial_number path].
      eapply bounded_incl; [exact Hb3|].
      intros a Ha. rewrite !in_app_iff in *. tauto. }
    destruct (bus =? BUS_USB).
    { destruct (usb_device_parent raw_dev) as [usb_dev|];
        [|eapply Hplain; exact Ebus].
      destruct (two_strings_bounded _ lo
                  (utf8_to_wchar_t (manufacturer usb_dev))
                  (utf8_to_wchar_t (product usb_dev))
                  (fun ms ps =>
                     DeviceInfo p vid pid sn
                       (u16 (strtol16_or (bcdDevice usb_dev) 0)) ms ps 0 0
                       (match usb_interface_parent raw_dev with
                        | Some str => s32 (strtol16_or str (-1))
                        | None => -1
                        end) HID_API_BUS_USB)
                  m2 cur m3
                  (fun A m p m' =>
                     utf8_to_wchar_t_bounded A lo _ m p m')
                  (fun A m p m' =>
                     utf8_to_wchar_t_bounded A lo _ m p m')
                  Ebus Hb2) as (ms & ps & Ecur & Hb3).
      subst cur. unfold string_addrs. cbn [product_string manufacturer_string
        serial_number path].
      eapply bounded_incl; [exact Hb3|].
      intros a Ha. rewrite !in_app_iff in *. tauto. }
    destruct (bus =? BUS_BLUETOOTH); [eapply Hplain; exact Ebus|].
    destruct (bus =? BUS_I2C); [eapply Hplain; exact Ebus|].
    destruct (bus =? BUS_SPI); [eapply Hplain; exact Ebus|].
    inversion Ebus; subst. unfold string_addrs.
    cbn [product_string manufacturer_string serial_number path].
    eapply bounded_incl; [exact Hb2|].
    intros a Ha. simpl. rewrite !in_app_iff in *. tauto. }
  clear Ebus.
  unfold bind at 1 in H.
  destruct (get_hid_report_descriptor_from_sysfs files (syspath raw_dev) m3)
    as [[[[result size] value] m4]|] eqn:E4; [|discriminate].
  pose proof (get_hid_report_descriptor_from_sysfs_bounded _ _ _ _ _ _ _
                E4 Hcur) as Hb4.
  destruct (0 <=? result).
  2:{ inversion H; subst. cbn [flat_map]. rewrite app_nil_r. exact Hb4. }
  unfold bind at 1 in H.
  destruct (lift (Parser.get_next_hid_usage value size (Parser.Cursor 0 0 0))
                 m4) as [[[r c] m5]|] eqn:El; [|discriminate].
  apply lift_mem in El. subst m5.
  unfold bind in H.
  match type of H with
  | context [additional_usages ?f ?dp ?v ?p' ?val ?sz ?cc ?cd m4] =>
    destruct (additional_usages f dp v p' val sz cc cd m4)
      as [[rest m6]|] eqn:E6; [|discriminate];
    pose proof (additional_usages_bounded _ _ _ _ _ _ _ _ _ _ _ _ _ E6 Hb4)
      as Hb6
  end.
  inversion H; subst. clear H.
  eapply bounded_incl; [exact Hb6|].
  intros a Ha. cbn [flat_map].
  assert (Hsame : forall d pg us,
            string_addrs
              (DeviceInfo (path d) (vendor_id d) (product_id d)
                          (serial_number d) (release_number d)
                          (manufacturer_string d) (product_string d)
                          pg us (interface_number d) (bus_type d))
            = string_addrs d) by reflexivity.
  destruct (r =? 0); rewrite ?Hsame; rewrite !in_app_iff in *; tauto.
Qed.

Lemma create_device_info_for_device_bounded A lo files raw_dev m recs m' :
  create_device_info_for_device files raw_dev m = Some (recs, m') ->
  match hid_parent raw_dev with
  | Some (Some uevent) =>
    key_fits "HID_NAME" (uevent_lines uevent) None
    /\ key_fits "HID_UNIQ" (uevent_lines uevent) None
  | _ => True
  end ->
  bounded A lo m ->
  bounded (flat_map string_addrs recs ++ A) lo m'.
Proof.
  intros H Hkeys Hb. unfold create_device_info_for_device in H.
  destruct (hid_parent raw_dev) as [uevent_attr|].
  2:{ unfold bind, free in H. inversion H; subst. exact Hb. }
  unfold bind at 1 in H.
  destruct (lift uevent_attr m) as [[uevent m0]|] eqn:El; [|discriminate].
  pose proof (lift_mem _ _ _ _ El) as ->.
  destruct uevent_attr as [u|]; [|discriminate].
  unfold lift in El. inversion El; subst u. clear El.
  destruct Hkeys as [Hn Hs].
  unfold bind at 1 in H. unfold parse_uevent_info in H. unfold bind at 1 in H.
  match type of H with
  | context [parse_uevent_info_lines ?ls ?st m] =>
    destruct (parse_uevent_info_lines ls st m) as [[st' m1]|] eqn:Ep;
      [|discriminate];
    pose proof (parse_uevent_info_lines_bounded A lo ls st m st' m1 Ep Hn Hs
                  Hb) as Hb1
  end.
  cbn [ret] in H.
  set (s := ui_serial_number_utf8 st') in *.
  set (n := ui_product_name_utf8 st') in *.
  unfold bind at 1 in H.
  match type of H with
  | match ?blk ?mm with _ => _ end = _ =>
    destruct (blk mm) as [[root m2]|] eqn:Eroot; [|discriminate]
  end.
  assert (Hroot : bounded (flat_map string_addrs root
                           ++ ptr_addrs s ++ ptr_addrs n ++ A) lo m2).
  { destruct (_ =? 0); [inversion Eroot; subst; exact Hb1|].
    destruct (negb _); [inversion Eroot; subst; exact Hb1|].
    unfold bind at 1 in Eroot.
    destruct (request m1) as [[ok m3]|] eqn:Er; [|discriminate].
    pose proof (request_bounded _ _ _ _ _ Er Hb1) as Hb3.
    destruct ok; cbn [negb] in Eroot; [|inversion Eroot; subst; exact Hb3].
    eapply fill_device_info_bounded; eassumption. }
  unfold bind in H.
  destruct (free s m2) as [[u1 m3]|] eqn:Ef1; [|discriminate].
  destruct (free n m3) as [[u2 m4]|] eqn:Ef2; [|discriminate].
  inversion H; subst. clear H.
  eapply (scratch_bounded _ lo n); [exact Ef2|].
  eapply (scratch_bounded _ lo s); [exact Ef1|].
  eapply bounded_incl; [exact Hroot|].
  intros a Ha. rewrite !in_app_iff in *. tauto.
Qed.

Lemma enumerate_entries_bounded (env : udev_env) (v p : Z)
    (entries : list (option string)) :
  forall A lo m recs m',
    enumerate_entries env v p entries m = Some (recs, m') ->
    (forall sysfs_path raw_dev,
        In (Some sysfs_path) entries ->
        device_new_from_syspath env sysfs_path = Some raw_dev ->
        match hid_parent raw_dev with
        | Some (Some uevent) =>
          key_fits "HID_NAME" (uevent_lines uevent) None
          /\ key_fits "HID_UNIQ" (uevent_lines uevent) None
        | _ => True
        end) ->
    bounded A lo m ->
    bounded (flat_map string_addrs recs ++ A) lo m'.
Proof.
  induction entries as [|[sysfs_path|] rest IH];
    intros A lo m recs m' H Hkeys Hb.
  - inversion H; subst. exact Hb.
  - assert (Hrest : forall sp d, In (Some sp) rest ->
                      device_new_from_syspath env sp = Some d ->
                      match hid_parent d with
                      | Some (Some uevent) =>
                        key_fits "HID_NAME" (uevent_lines uevent) None
                        /\ key_fits "HID_UNIQ" (uevent_lines uevent) None
                      | _ => True
                      end).
    { intros sp d Hin. apply Hkeys. right. exact Hin. }
    cbn [enumerate_entries] in H. unfold bind at 1 in H.
    match type of H with
    | match ?blk ?mm with _ => _ end = _ =>
      destruct (blk mm) as [[skip m1]|] eqn:Eskip; [|discriminate]
    end.
    assert (Hb1 : bounded A lo m1).
    { destruct (negb (v =? 0) || negb (p =? 0));
        [|inversion Eskip; subst; exact Hb].
      unfold bind in Eskip.
      destruct (parse_hid_vid_pid_from_sysfs (files env) sysfs_path 0 0 0 m)
        as [[[[[ok b] dv] dp] m2]|] eqn:Ep; [|discriminate].
      pose proof (parse_hid_vid_pid_from_sysfs_bounded _ _ _ _ _ _ _ _ _ _
                    Ep Hb) as Hb2.
      destruct (ok =? 0); [inversion Eskip; subst; exact Hb2|].
      destruct (negb (v =? 0) && negb (v =? dv));
        [inversion Eskip; subst; exact Hb2|].
      destruct (negb (p =? 0) && negb (p =? dp));
        inversion Eskip; subst; exact Hb2. }
    destruct skip; [eapply IH; eassumption|].
    destruct (device_new_from_syspath env sysfs_path) as [raw_dev|] eqn:Edev;
      [|eapply IH; eassumption].
    unfold bind in H.
    destruct (create_device_info_for_device (files env) raw_dev m1)
      as [[tmp m2]|] eqn:Ec; [|discriminate].
    pose proof (create_device_info_for_device_bounded A lo _ _ _ _ _ Ec
                  (Hkeys sysfs_path raw_dev (or_introl eq_refl) Edev) Hb1)
      as Hb2.
    destruct (enumerate_entries env v p rest m2) as [[more m3]|] eqn:Em;
      [|discriminate].
    pose proof (IH _ lo _ _ _ Em Hrest Hb2) as Hb3.
    inversion H; subst. clear H.
    eapply bounded_incl; [exact Hb3|].
    intros a Ha. rewrite flat_map_app. rewrite !in_app_iff in *. tauto.
  - cbn [enumerate_entries] in H. eapply IH; [exact H | | exact Hb].
    intros sp d Hin. apply Hkeys. right. exact Hin.
Qed.

Lemma hid_enumerate_bounded (env : udev_env) (v p : Z) A lo m recs m' :
  hid_enumerate env v p m = Some (recs, m') ->
  uevent_keys_unique env ->
  bounded A lo m ->
  bounded (flat_map string_addrs recs ++ A) lo m'.
Proof.
  intros H Hkeys Hb. unfold hid_enumerate, hid_init in H.
  unfold bind at 1 in H. unfold bind at 1 in H.
  destruct (register_global_error None m) as [[u m0]|] eqn:E0;
    [|discriminate].
  pose proof (register_global_error_bounded _ _ _ _ _ _ E0 Hb) as Hb0.
  cbn [ret] in H.
  destruct (negb (udev_new_ok env)).
  { unfold bind in H.
    destruct (register_global_error _ m0) as [[u1 m1]|] eqn:E1;
      [|discriminate].
    inversion H; subst.
    eapply register_global_error_bounded; eassumption. }
  unfold bind at 1 in H.
  destruct (enumerate_entries env v p (hidraw_entries env) m0)
    as [[root m1]|] eqn:Ee; [|discriminate].
  assert (Hb1 : bounded (flat_map string_addrs root ++ A) lo m1).
  { eapply enumerate_entries_bounded; [exact Ee | | exact Hb0].
    intros sp d Hin Edev. specialize (Hkeys sp d Hin Edev).
    destruct (hid_parent d) as [[uevent|]|]; auto. }
  destruct root as [|d root].
  - unfold bind in H.
    destruct ((v =? 0) && (p =? 0));
      match type of H with
      | context [register_global_error ?msg m1] =>
        destruct (register_global_error msg m1) as [[u1 m2]|] eqn:E1;
          [|discriminate]
      end;
      inversion H; subst;
      eapply register_global_error_bounded; eassumption.
  - inversion H; subst. exact Hb1.
Qed.


Lemma bounded_start (m : mem) : bounded [] (List.length (cells m)) m.
Proof.
  split; [apply le_n|]. intros a Ha Hl. apply load_live_lt in Hl. lia.
Qed.

Lemma uevent_keys_unique_present (env : udev_env) :
  uevent_keys_unique env -> uevent_attrs_present env.
Proof.
  intros H sp d Hin Edev E. specialize (H sp d Hin Edev).
  rewrite E in H. exact H.
Qed.

Lemma length_clear_cells (l : list addr) :
  forall cs, List.length (clear_cells l cs) = List.length cs.
Proof.
  unfold clear_cells. induction l as [|x l IH]; intros cs; simpl;
    [reflexivity|].
  rewrite IH. apply length_clear_cell.
Qed.

Lemma free_enumeration_bounded A lo (ds : list hid_device_info) m u m' :
  hid_free_enumeration ds m = Some (u, m') ->
  bounded (flat_map string_addrs ds ++ A) lo m ->
  bounded A lo m'.
Proof.
  rewrite free_enumeration_run. intros H [Hlo Hb]. inversion H; subst.
  split.
  - cbn [cells]. rewrite length_clear_cells. exact Hlo.
  - intros a Ha Hl. cbn [last_global_error_str].
    rewrite load_clear_cells in Hl.
    destruct (in_dec Nat.eq_dec a (flat_map free_order ds)) as [Hin|Hni];
      [contradiction|].
    destruct (Hb a Ha) as [Hin|Hg]; [destruct m; exact Hl | | right; exact Hg].
    apply in_app_or in Hin. destruct Hin as [Hin|Hin]; [|left; exact Hin].
    exfalso. apply Hni. apply in_flat_map_free_order. exact Hin.
Qed.

(** X16.  When every uevent attribute that is read holds at most one
    HID_NAME and one HID_UNIQ line, every uevent file the pre-filter
    reads (one for each listed node when the filter is not (0, 0)) has
    fewer than 1024 bytes, and allocations succeed, hid_enumerate
    returns, and the only heap blocks it allocated that are still live
    are the strings of the returned records and possibly the global
    error string; after hid_free_enumeration of the result only the
    global error string can remain. *)
Theorem enumeration_leaks_nothing (env : udev_env) (v p : Z) (m : mem) :
  uevent_keys_unique env ->
  prefilter_reads_fit env v p ->
  oom m = [] ->
  (forall g, last_global_error_str m = Some g ->
             (g < List.length (cells m))%nat) ->
  exists recs m1 m2,
    hid_enumerate env v p m = Some (recs, m1)
    /\ hid_free_enumeration recs m1 = Some (tt, m2)
    /\ (forall a, (List.length (cells m) <= a)%nat -> load a m1 <> None ->
                  In a (flat_map string_addrs recs)
                  \/ last_global_error_str m1 = Some a)
    /\ (forall a, (List.length (cells m) <= a)%nat -> load a m2 <> None ->
                  last_global_error_str m2 = Some a).
Proof.
  intros Hkeys Hfit Hoom Hg. pose proof (owns_nil m Hoom Hg) as Hown.
  destruct (hid_enumerate_refines env v p [] _ m Hown
              (uevent_keys_unique_present env Hkeys) Hfit)
    as (recs & m1 & Hrun & _).
  pose proof (hid_enumerate_bounded env v p [] _ m recs m1 Hrun Hkeys
                (bounded_start m)) as Hb1.
  exists recs, m1. eexists. split; [exact Hrun|].
  split; [apply free_enumeration_run|]. split.
  - intros a Ha Hl. destruct Hb1 as [_ Hb1].
    destruct (Hb1 a Ha Hl) as [Hin|Hg']; [left | right; exact Hg'].
    rewrite app_nil_r in Hin. exact Hin.
  - pose proof (free_enumeration_bounded [] _ recs m1 tt _
                  (free_enumeration_run recs m1) Hb1) as [_ Hb2].
    intros a Ha Hl. destruct (Hb2 a Ha Hl) as [[]|Hg']. exact Hg'.
Qed.

End LeakFacts.

(** ** Opening and arming without leaks *)

Section OpenLeak.
Context {locale : Locale}.
Variable strerror : Z -> string.
Local Open Scope string_scope.
Local Open Scope Z_scope.

Lemma path_to_open_mem (v p : Z) (serial : option (list Z))
    (devs : list hid_device_info) :
  forall m q m', path_to_open v p serial devs m = Some (q, m') -> m' = m.
Proof.
  induction devs as [|d devs IH]; intros m q m' H.
  - inversion H. reflexivity.
  - cbn [path_to_open] in H.
    destruct ((vendor_id d =? v) && (product_id d =? p)); [|eapply IH; exact H].
    destruct serial as [wanted|]; [|inversion H; reflexivity].
    unfold bind in H.
    destruct (read_wide (serial_number d) m) as [[found m1]|] eqn:Er;
      [|discriminate].
    apply read_wide_mem in Er. subst m1.
    destruct (Wchar.wcs_eqb wanted found); [inversion H; reflexivity|].
    eapply IH; exact H.
Qed.

Lemma hid_open_path_bounded A lo path open grdescsize m handle m' :
  hid_open_path strerror path open grdescsize m = Some (handle, m') ->
  bounded A lo m -> bounded A lo m'.
Proof.
  unfold hid_open_path, hid_init. intros H Hb.
  unfold bind at 1 in H. unfold bind at 1 in H.
  destruct (register_global_error None m) as [[u m0]|] eqn:E0;
    [|discriminate].
  pose proof (register_global_error_bounded _ _ _ _ _ _ E0 Hb) as Hb0.
  cbn [ret] in H. unfold bind at 1 in H. unfold new_hid_device in H.
  unfold bind at 1 in H.
  destruct (request m0) as [[ok m1]|] eqn:Er; [|discriminate].
  pose proof (request_bounded _ _ _ _ _ Er Hb0) as Hb1.
  destruct ok; cbn [ret] in H.
  - destruct open as [fd errno].
    destruct (0 <=? fd).
    + destruct grdescsize as [res e].
      destruct (res <? 0).
      * unfold bind, stuck in H.
        destruct (hid_close _ m1) as [[u1 m2]|]; discriminate.
      * inversion H; subst. exact Hb1.
    + unfold bind in H.
      destruct (register_global_error_format _ m1) as [[u1 m2]|] eqn:E1;
        [|discriminate].
      inversion H; subst.
      eapply register_global_error_format_bounded; eassumption.
  - unfold bind in H.
    destruct (register_global_error _ m1) as [[u1 m2]|] eqn:E1;
      [|discriminate].
    inversion H; subst.
    eapply register_global_error_bounded; eassumption.
Qed.

Lemma hid_open_bounded A lo env v p serial open grdescsize m handle m' :
  hid_open strerror env v p serial open grdescsize m = Some (handle, m') ->
  uevent_keys_unique env ->
  bounded A lo m -> bounded A lo m'.
Proof.
  unfold hid_open. intros H Hkeys Hb. unfold bind at 1 in H.
  destruct (hid_enumerate env v p m) as [[devs m1]|] eqn:Ee; [|discriminate].
  pose proof (hid_enumerate_bounded _ _ _ _ _ _ _ _ Ee Hkeys Hb) as Hb1.
  destruct devs as [|d devs]; [inversion H; subst; exact Hb1|].
  unfold bind at 1 in H.
  destruct (path_to_open v p serial (d :: devs) m1) as [[q m2]|] eqn:Ep;
    [|discriminate].
  apply path_to_open_mem in Ep. subst m2.
  unfold bind at 1 in H.
  match type of H with
  | match ?blk ?mm with _ => _ end = _ =>
    destruct (blk mm) as [[h m3]|] eqn:Eh; [|discriminate]
  end.
  assert (Hb3 : bounded (flat_map string_addrs (d :: devs) ++ A) lo m3).
  { destruct q as [a|].
    - unfold bind in Eh.
      destruct (read_chars (Some a) m1) as [[path m4]|] eqn:Er;
        [|discriminate].
      apply read_chars_mem in Er. subst m4.
      eapply hid_open_path_bounded; eassumption.
    - unfold bind in Eh.
      destruct (register_global_error _ m1) as [[u1 m4]|] eqn:E1;
        [|discriminate].
      inversion Eh; subst.
      eapply register_global_error_bounded; eassumption. }
  unfold bind in H.
  destruct (hid_free_enumeration (d :: devs) m3) as [[u2 m4]|] eqn:Ef;
    [|discriminate].
  inversion H; subst.
  eapply free_enumeration_bounded; eassumption.
Qed.

(** X17.  hid_open opens the path of the first enumerated record whose
    vendor id and product id equal the arguments as given (0 is not a
    wildcard here) and whose serial number equals the one asked for, if
    any: it returns a blocking device without error on the descriptor
    that open returned, or NULL with the global error 'Failed to open a
    device with path ...' when open fails, or 'Device with requested
    VID/PID/(SerialNumber) not found' when records were enumerated and
    none qualifies. Assumes that allocations succeed, that every uevent
    file the pre-filter reads has fewer than 1024 bytes, and that the
    descriptor-size ioctl succeeds on a path that opens; when each
    uevent holds at most one HID_NAME and one HID_UNIQ line, no heap
    block allocated by the call remains except possibly the global error
    string. *)
Theorem open_takes_the_first_exact_match (env : udev_env) (v p : Z)
    (serial : option (list Z))
    (open : string -> Z * Z) (grdescsize : string -> Z * Z) (m : mem) :
  uevent_attrs_present env ->
  prefilter_reads_fit env v p ->
  oom m = [] ->
  (forall g, last_global_error_str m = Some g ->
             (g < List.length (cells m))%nat) ->
  (forall path, 0 <= fst (open path) -> 0 <= fst (grdescsize path)) ->
  exists handle m',
    hid_open strerror env v p serial open grdescsize m = Some (handle, m')
    /\ match find (wanted_record v p serial) (enumeration env v p) with
       | Some r =>
         match r_path r with
         | Some path =>
           if 0 <=? fst (open path)
           then handle = Some (HidDevice (fst (open path)) 1 None [])
           else handle = None
                /\ hid_error None m'
                   = Some (widen (Libc.copy_prefix 255
                                    ("Failed to open a device with path '"
                                     ++ path ++ "': "
                                     ++ strerror (snd (open path)))), m')
         | None =>
           handle = None
           /\ hid_error None m'
              = Some (widen "Device with requested VID/PID/(SerialNumber) not found",
                      m')
         end
       | None =>
         handle = None
         /\ (enumeration env v p <> [] ->
             hid_error None m'
             = Some (widen "Device with requested VID/PID/(SerialNumber) not found",
                     m'))
       end
    /\ (uevent_keys_unique env ->
        forall a, (List.length (cells m) <= a)%nat -> load a m' <> None ->
                  last_global_error_str m' = Some a).
Proof.
  intros Hhid Hfit Hoom Hg Hioctl.
  destruct (hid_open_outcome strerror env v p serial open grdescsize m
              Hhid Hfit Hoom Hg Hioctl) as (handle & m' & Hrun & Hout).
  exists handle, m'. split; [exact Hrun|]. split; [exact Hout|].
  intros Hkeys a Ha Hl.
  destruct (hid_open_bounded _ _ _ _ _ _ _ _ _ _ _ Hrun Hkeys
              (bounded_start m)) as [_ Hb].
  destruct (Hb a Ha Hl) as [[]|Hgl]. exact Hgl.
Qed.

End OpenLeak.

Section HotplugLeak.
Context {locale : Locale}.
Variable world : Type.
Local Open Scope string_scope.
Local Open Scope Z_scope.

(** X18.  Registering the first callback (the call returns -1, as on
    every path) arms the monitor and fills the device list with the
    enumeration of all devices; deregistering it again (which returns 0)
    empties the callback and device lists, gives back the references on
    the udev context and monitor, and frees every string of the device
    list, so that no heap block allocated since the registration remains
    except possibly the global error string. Assumes valid arguments,
    that udev_new and allocations succeed, and that each uevent holds
    one HID_NAME and one HID_UNIQ line at most. *)
Theorem arming_and_disarming_releases_the_device_list
    (env : udev_env) (v p ev fl ud : Z)
    (fn : hid_hotplug_callback_fn world)
    (ctx : hid_hotplug_context world) (m : mem) :
  hotplug_cbs world ctx = [] ->
  devs world ctx = [] ->
  0 < next_handle world ctx < 2 ^ 31 - 1 ->
  valid_registration ev fl ->
  udev_new_ok env = true ->
  uevent_keys_unique env ->
  oom m = [] ->
  (forall g, last_global_error_str m = Some g ->
             (g < List.length (cells m))%nat) ->
  exists ctx1 m1 ctx2 m2,
    hid_hotplug_register_callback world env v p ev fl (Some fn) ud true ctx m
    = Some (-1, ctx1, Some (next_handle world ctx), m1)
    /\ hotplug_cbs world ctx1
       = [HotplugCallback world (next_handle world ctx) v p ev ud fn]
    /\ map (resolve m1) (devs world ctx1) = enumeration env 0 0
    /\ monitor_fd world ctx1 = monitor_get_fd env
    /\ hid_hotplug_deregister_callback world (next_handle world ctx) ctx1 m1
       = Some (0, ctx2, m2)
    /\ hotplug_cbs world ctx2 = []
    /\ devs world ctx2 = []
    /\ udev_ctx world ctx2 = udev_ctx world ctx
    /\ mon world ctx2 = mon world ctx
    /\ next_handle world ctx2 = next_handle world ctx + 1
    /\ (forall a, (List.length (cells m) <= a)%nat -> load a m2 <> None ->
                  last_global_error_str m2 = Some a).
Proof.
  intros Hcbs Hdevs Hnext (Hev & Hfl) Hudev Hkeys Hoom Hg.
  pose proof (owns_nil m Hoom Hg) as Hown.
  destruct (hid_enumerate_refines env 0 0 [] _ m Hown
              (uevent_keys_unique_present env Hkeys)
              (prefilter_reads_fit_all env))
    as (recs & m1 & Hrun & Hall & Ho & _).
  pose proof (hid_enumerate_bounded env 0 0 [] _ m recs m1 Hrun Hkeys
                (bounded_start m)) as Hb1.
  destruct ctx as [u mo fd wk nh cbs dv].
  cbn [hotplug_cbs next_handle devs monitor_fd udev_ctx mon] in *.
  subst cbs dv.
  assert (Hcheck :
            (ev =? 0)
            || negb (Z.land ev
                       (Z.lnot (Z.lor HID_API_HOTPLUG_EVENT_DEVICE_ARRIVED
                                      HID_API_HOTPLUG_EVENT_DEVICE_LEFT)) =? 0)
            || negb (Z.land fl (Z.lnot HID_API_HOTPLUG_ENUMERATE) =? 0)
            || false = false).
  { destruct Hev as [E|[E|E]]; subst ev;
      destruct Hfl as [E|E]; subst fl; reflexivity. }
  unfold hid_hotplug_register_callback. rewrite Hcheck.
  unfold bind at 1. rewrite (request_ok _ _ m Hown).
  cbn [negb hotplug_cbs next_handle udev_ctx mon monitor_fd workers devs].
  rewrite s32_small by lia.
  assert (Hlt : (nh + 1 <? 0) = false) by lia. rewrite Hlt.
  rewrite Hudev. cbn [negb]. unfold bind at 1. rewrite Hrun.
  eexists _, _, _, _. split; [reflexivity|].
  cbn [hotplug_cbs next_handle udev_ctx mon monitor_fd workers devs].
  split; [reflexivity|].
  split; [eapply resolve_all; eassumption|].
  split; [reflexivity|].
  unfold hid_hotplug_deregister_callback.
  cbn [hotplug_cbs next_handle udev_ctx mon monitor_fd workers devs
       remove_callback handle].
  rewrite Z.eqb_refl. cbv iota beta.
  unfold bind at 1. unfold hid_internal_hotplug_cleanup.
  cbn [hotplug_cbs next_handle udev_ctx mon monitor_fd workers devs].
  unfold bind. rewrite free_enumeration_run.
  split; [reflexivity|]. cbn [hotplug_cbs devs udev_ctx mon next_handle pred].
  repeat (split; [reflexivity|]).
  pose proof (free_enumeration_bounded [] _ recs m1 tt _
                (free_enumeration_run recs m1) Hb1) as [_ Hb2].
  intros a Ha Hl. destruct (Hb2 a Ha Hl) as [[]|Hg']. exact Hg'.
Qed.

End HotplugLeak.

(** ** The strings a device owns *)

Section DeviceLeak.
Context {locale : Locale}.
Variable strerror : Z -> string.
Local Open Scope string_scope.
Local Open Scope Z_scope.

Lemma register_device_error_bounded A lo dev msg m dev' m' :
  register_device_error dev msg m = Some (dev', m') ->
  bounded (device_addrs dev ++ A) lo m ->
  bounded (device_addrs dev' ++ A) lo m'
  /\ device_info dev' = device_info dev.
Proof.
  unfold register_device_error, register_error_str, bind. intros H Hb.
  destruct (free (last_error_str dev) m) as [[u m1]|] eqn:Ef; [|discriminate].
  destruct (utf8_to_wchar_t msg m1) as [[p m2]|] eqn:Eu; [|discriminate].
  inversion H; subst. clear H. split; [|reflexivity].
  unfold device_addrs in *. cbn [last_error_str device_info].
  rewrite <- app_assoc in Hb.
  pose proof (scratch_bounded _ lo _ _ _ _ Ef Hb) as Hb1.
  rewrite <- app_assoc.
  eapply utf8_to_wchar_t_bounded; eassumption.
Qed.

Lemma register_device_error_format_bounded A lo dev msg m dev' m' :
  register_device_error_format dev msg m = Some (dev', m') ->
  bounded (device_addrs dev ++ A) lo m ->
  bounded (device_addrs dev' ++ A) lo m'
  /\ device_info dev' = device_info dev.
Proof. apply register_device_error_bounded. Qed.

Ltac reg_step H Hb :=
  unfold bind at 1 in H;
  match type of H with
  | match register_device_error ?d ?msg ?mm with _ => _ end = _ =>
    let d' := fresh "dev" in
    let m' := fresh "m" in
    let E := fresh "E" in
    let Hb' := fresh "Hb" in
    destruct (register_device_error d msg mm) as [[d' m']|] eqn:E;
    [|discriminate H];
    destruct (register_device_error_bounded _ _ _ _ _ _ _ E Hb) as [Hb' _]
  | match register_device_error_format ?d ?msg ?mm with _ => _ end = _ =>
    let d' := fresh "dev" in
    let m' := fresh "m" in
    let E := fresh "E" in
    let Hb' := fresh "Hb" in
    destruct (register_device_error_format d msg mm) as [[d' m']|] eqn:E;
    [|discriminate H];
    destruct (register_device_error_format_bounded _ _ _ _ _ _ _ E Hb)
      as [Hb' _]
  end.

Lemma hid_write_bounded A lo dev data length write m r dev' m' :
  hid_write strerror dev data length write m = Some (r, dev', m') ->
  bounded (device_addrs dev ++ A) lo m ->
  bounded (device_addrs dev' ++ A) lo m'.
Proof.
  unfold hid_write. intros H Hb.
  destruct (_ || _).
  - reg_step H Hb. inversion H; subst. assumption.
  - destruct write as [res errno]. reg_step H Hb.
    inversion H; subst. assumption.
Qed.

Lemma hid_read_bytes_bounded A lo dev read m r dev' bytes m' :
  hid_read_bytes strerror dev read m = Some (r, dev', bytes, m') ->
  bounded (device_addrs dev ++ A) lo m ->
  bounded (device_addrs dev' ++ A) lo m'.
Proof.
  unfold hid_read_bytes. intros H Hb. destruct read as [[res bytes0] errno].
  destruct (s32 res <? 0); [|inversion H; subst; exact Hb].
  destruct (_ || _); [inversion H; subst; exact Hb|].
  reg_step H Hb. inversion H; subst. assumption.
Qed.

Lemma hid_read_timeout_bounded A lo dev ms poll read m r dev' bytes m' :
  hid_read_timeout strerror dev ms poll read m = Some (r, dev', bytes, m') ->
  bounded (device_addrs dev ++ A) lo m ->
  bounded (device_addrs dev' ++ A) lo m'.
Proof.
  unfold hid_read_timeout. intros H Hb. reg_step H Hb.
  destruct (0 <=? ms); [|eapply hid_read_bytes_bounded; eassumption].
  destruct (poll ms) as [[ret_ revents] errno].
  destruct (ret_ =? 0); [inversion H; subst; assumption|].
  destruct (ret_ =? -1).
  { reg_step H Hb0. inversion H; subst. assumption. }
  destruct (negb _).
  { reg_step H Hb0. inversion H; subst. assumption. }
  eapply hid_read_bytes_bounded; eassumption.
Qed.

Lemma hid_report_ioctl_bounded A lo name dev ioctl m r dev' m' :
  hid_report_ioctl strerror name dev ioctl m = Some (r, dev', m') ->
  bounded (device_addrs dev ++ A) lo m ->
  bounded (device_addrs dev' ++ A) lo m'.
Proof.
  unfold hid_report_ioctl. intros H Hb. reg_step H Hb.
  destruct ioctl as [res errno].
  destruct (res <? 0); [|inversion H; subst; assumption].
  reg_step H Hb0. inversion H; subst. assumption.
Qed.

Lemma hid_get_device_info_bounded A lo env fstat devnum dev m info dev' m' :
  hid_get_device_info env fstat devnum dev m = Some (info, dev', m') ->
  node_keys_unique fstat devnum ->
  bounded (device_addrs dev ++ A) lo m ->
  bounded (device_addrs dev' ++ A) lo m'.
Proof.
  unfold hid_get_device_info. intros H Hkeys Hb.
  destruct (device_info dev) as [|i0 rest0] eqn:Edi;
    [|inversion H; subst; exact Hb].
  unfold bind in H.
  destruct (create_device_info_for_hid_device env fstat devnum dev m)
    as [[[info1 dev1] m1]|] eqn:Ec; [|discriminate].
  inversion H; subst. clear H.
  unfold create_device_info_for_hid_device in Ec.
  reg_step Ec Hb.
  assert (Hdi0 : device_info dev0 = []).
  { destruct (register_device_error_bounded _ _ _ _ _ _ _ E Hb) as [_ Hd].
    rewrite Hd. exact Edi. }
  destruct fstat as [st_rdev|].
  2:{ reg_step Ec Hb0. inversion Ec; subst.
      destruct (register_device_error_bounded _ _ _ _ _ _ _ E0 Hb0)
        as [_ Hd].
      unfold device_addrs in *. cbn [last_error_str device_info].
      rewrite Hd, Hdi0 in Hb1. exact Hb1. }
  destruct (negb (udev_new_ok env)).
  { reg_step Ec Hb0. inversion Ec; subst.
    destruct (register_device_error_bounded _ _ _ _ _ _ _ E0 Hb0) as [_ Hd].
    unfold device_addrs in *. cbn [last_error_str device_info].
    rewrite Hd, Hdi0 in Hb1. exact Hb1. }
  unfold bind at 1 in Ec.
  match type of Ec with
  | match ?blk ?mm with _ => _ end = _ =>
    destruct (blk mm) as [[root m2]|] eqn:Eroot; [|discriminate]
  end.
  assert (Hroot : bounded (flat_map string_addrs root
                           ++ device_addrs dev0 ++ A) lo m2).
  { destruct (devnum st_rdev) as [udev_dev|] eqn:Edev.
    - eapply create_device_info_for_device_bounded; [exact Eroot | | exact Hb0].
      apply (Hkeys st_rdev udev_dev eq_refl Edev).
    - inversion Eroot; subst. exact Hb0. }
  destruct root as [|d root].
  - reg_step Ec Hroot. 
    inversion Ec; subst.
    destruct (register_device_error_bounded _ _ _ _ _ _ _ E0 Hroot)
      as [_ Hd].
    unfold device_addrs in *. cbn [last_error_str device_info].
    rewrite Hd, Hdi0 in Hb1. exact Hb1.
  - inversion Ec; subst. unfold device_addrs in *.
    cbn [last_error_str device_info]. rewrite Hdi0 in Hroot.
    eapply bounded_incl; [exact Hroot|].
    intros a Ha. rewrite !in_app_iff in *. simpl in Ha. tauto.
Qed.

Lemma hid_get_info_string_bounded A lo field env fstat devnum dev buf maxlen m
    r dev' out m' :
  hid_get_info_string field env fstat devnum dev buf maxlen m
  = Some (r, dev', out, m') ->
  node_keys_unique fstat devnum ->
  bounded (device_addrs dev ++ A) lo m ->
  bounded (device_addrs dev' ++ A) lo m'.
Proof.
  unfold hid_get_info_string. intros H Hkeys Hb.
  destruct buf as [buf|].
  2:{ reg_step H Hb. inversion H; subst. assumption. }
  destruct (maxlen =? 0).
  { reg_step H Hb. inversion H; subst. assumption. }
  unfold bind at 1 in H.
  destruct (hid_get_device_info env fstat devnum dev m)
    as [[[info dev1] m1]|] eqn:Eg; [|discriminate].
  pose proof (hid_get_device_info_bounded _ _ _ _ _ _ _ _ _ _ Eg Hkeys Hb)
    as Hb1.
  destruct info as [|i rest]; [inversion H; subst; exact Hb1|].
  destruct (field i) as [x|].
  - unfold bind at 1 in H.
    destruct (read_wide (Some x) m1) as [[src m2]|] eqn:Er; [|discriminate].
    apply read_wide_mem in Er. subst m2.
    unfold bind at 1 in H.
    destruct (lift (Wchar.wcsncpy buf src (Z.to_nat maxlen)) m1)
      as [[b1 m2]|] eqn:E1; [|discriminate].
    apply lift_mem in E1. subst m2.
    unfold bind at 1 in H.
    destruct (lift (Wchar.store b1 (Z.to_nat (maxlen - 1)) 0) m1)
      as [[b2 m2]|] eqn:E2; [|discriminate].
    apply lift_mem in E2. subst m2.
    inversion H; subst. exact Hb1.
  - unfold bind at 1 in H.
    destruct (lift (Wchar.store buf 0 0) m1) as [[b2 m2]|] eqn:E2;
      [|discriminate].
    apply lift_mem in E2. subst m2.
    inversion H; subst. exact Hb1.
Qed.

Lemma hid_close_bounded A lo dev m u m' :
  hid_close dev m = Some (u, m') ->
  bounded (device_addrs dev ++ A) lo m ->
  bounded A lo m'.
Proof.
  unfold hid_close. intros H Hb. unfold bind in H.
  destruct (register_device_error dev None m) as [[dev1 m1]|] eqn:E;
    [|discriminate].
  unfold register_device_error, register_error_str, bind in E.
  destruct (free (last_error_str dev) m) as [[u0 m0]|] eqn:Ef;
    [|discriminate].
  cbn [utf8_to_wchar_t ret] in E. inversion E; subst. clear E.
  cbn [device_info] in H.
  unfold device_addrs in Hb. rewrite <- app_assoc in Hb.
  pose proof (scratch_bounded _ lo _ _ _ _ Ef Hb) as Hb1.
  eapply free_enumeration_bounded; eassumption.
Qed.

(** X19.  Through hid_write, hid_read_timeout, the report ioctls,
    hid_get_device_info and the string getters, every heap block
    allocated since a given point is a string the device owns (its error
    string or a string of its device-info records), a block of a given
    set, or the global error string; hid_close always returns and frees
    every string the device owns. Assumes that the uevent of the node
    behind the handle holds at most one HID_NAME and one HID_UNIQ line. *)
Theorem device_calls_leak_nothing (env : udev_env) (fstat : option Z)
    (devnum : Z -> option udev_device) (dev : hid_device)
    (A : list addr) (lo : nat) (m : mem) :
  node_keys_unique fstat devnum ->
  bounded (device_addrs dev ++ A) lo m ->
  (forall data length write r dev' m',
      hid_write strerror dev data length write m = Some (r, dev', m') ->
      bounded (device_addrs dev' ++ A) lo m')
  /\ (forall ms poll read r dev' bytes m',
      hid_read_timeout strerror dev ms poll read m
      = Some (r, dev', bytes, m') ->
      bounded (device_addrs dev' ++ A) lo m')
  /\ (forall name ioctl r dev' m',
      hid_report_ioctl strerror name dev ioctl m = Some (r, dev', m') ->
      bounded (device_addrs dev' ++ A) lo m')
  /\ (forall info dev' m',
      hid_get_device_info env fstat devnum dev m = Some (info, dev', m') ->
      bounded (device_addrs dev' ++ A) lo m')
  /\ (forall field buf maxlen r dev' out m',
      hid_get_info_string field env fstat devnum dev buf maxlen m
      = Some (r, dev', out, m') ->
      bounded (device_addrs dev' ++ A) lo m')
  /\ (exists m', hid_close dev m = Some (tt, m') /\ bounded A lo m').
Proof.
  intros Hkeys Hb.
  split; [intros; eapply hid_write_bounded; eassumption|].
  split; [intros; eapply hid_read_timeout_bounded; eassumption|].
  split; [intros; eapply hid_report_ioctl_bounded; eassumption|].
  split; [intros; eapply hid_get_device_info_bounded; eassumption|].
  split; [intros; eapply hid_get_info_string_bounded; eassumption|].
  assert (Hrun : exists m', hid_close dev m = Some (tt, m')).
  { unfold hid_close, bind.
    destruct (register_device_error_none dev m) as (m1 & E & _).
    rewrite E. rewrite free_enumeration_run. eexists. reflexivity. }
  destruct Hrun as (m' & Hrun). exists m'. split; [exact Hrun|].
  eapply hid_close_bounded; eassumption.
Qed.

End DeviceLeak.

(** ** String getters *)

Section GetterFacts.
Context {locale : Locale}.
Local Open Scope string_scope.
Local Open Scope Z_scope.

Lemma wp_register_device_error lo (dev : hid_device) (msg : option string)
    (Q : hid_device -> mem -> Prop) (m : mem) :
  owns [] lo m ->
  (forall p m',
      owns [] lo m' ->
      Q (HidDevice (device_handle dev) (blocking dev) p (device_info dev))
        m') ->
  wp (register_device_error dev msg) Q m.
Proof.
  intros Hown H. unfold register_device_error, register_error_str.
  apply wp_bind. apply wp_bind.
  eapply wp_free_any; [exact Hown|]. intros m1 Ho1.
  assert (Hown1 : owns [] lo m1).
  { apply Ho1; [apply incl_refl | constructor | intros a _ []]. }
  eapply wp_utf8_to_wchar_t; [exact Hown1|]. intros p m2 Ho2 _ _.
  apply wp_ret. apply H.
  eapply owns_incl; [exact Ho2 | | constructor].
  intros x [].
Qed.

Lemma hid_get_device_info_outcome (env : udev_env) (fstat : option Z)
    (devnum : Z -> option udev_device) (dev : hid_device) lo (m : mem) :
  owns [] lo m ->
  device_info dev = [] ->
  node_attr_present fstat devnum ->
  wp (hid_get_device_info env fstat devnum dev)
     (fun res m' =>
        device_info (snd res) = fst res
        /\ Forall2 record_rel (fst res) (node_records env fstat devnum)
        /\ owns (all_cells (fst res) (node_records env fstat devnum)) lo m')
     m.
Proof.
  intros Hown Hdi Hnode. unfold hid_get_device_info. rewrite Hdi.
  apply wp_bind. unfold create_device_info_for_hid_device.
  apply wp_bind. apply wp_register_device_error with (lo := lo);
    [exact Hown|].
  intros p0 m0 Hown0. unfold node_records.
  destruct fstat as [st_rdev|].
  2:{ apply wp_bind. apply wp_register_device_error with (lo := lo);
        [exact Hown0|].
      intros p1 m1 Hown1. apply wp_ret. apply wp_ret. simpl.
      split; [reflexivity|]. split; [constructor | exact Hown1]. }
  destruct (udev_new_ok env); cbn [negb].
  2:{ apply wp_bind. apply wp_register_device_error with (lo := lo);
        [exact Hown0|].
      intros p1 m1 Hown1. apply wp_ret. apply wp_ret. simpl.
      split; [reflexivity|]. split; [constructor | exact Hown1]. }
  apply wp_bind.
  destruct (devnum st_rdev) as [raw_dev|] eqn:Edev.
  - eapply wp_mono.
    { apply (create_device_info_for_device_refines (files env) raw_dev []
               lo m0 Hown0). eapply Hnode; [reflexivity | exact Edev]. }
    intros root m2 (Hall & Ho & _). rewrite app_nil_r in Ho.
    destruct root as [|d root].
    + inversion Hall as [E|]; subst.
      apply wp_bind. apply wp_register_device_error with (lo := lo).
      { exact Ho. }
      intros p1 m1 Hown1. apply wp_ret. apply wp_ret. simpl.
      split; [reflexivity|]. split; [constructor | exact Hown1].
    + apply wp_ret. apply wp_ret. simpl.
      split; [reflexivity|]. split; [exact Hall | exact Ho].
  - apply wp_ret. apply wp_bind.
    apply wp_register_device_error with (lo := lo); [exact Hown0|].
    intros p1 m1 Hown1. apply wp_ret. apply wp_ret. simpl.
    split; [reflexivity|]. split; [constructor | exact Hown1].
Qed.

Lemma info_string_returns (field : hid_device_info -> ptr)
    (env : udev_env) (fstat : option Z) (devnum : Z -> option udev_device)
    (dev : hid_device) (buf : list Z) (maxlen : Z) lo (m : mem) :
  (forall d r, record_rel d r ->
               exists e, agree (field d) (option_map Wide e)
                         /\ incl (cell_of (field d) (option_map Wide e))
                                 (cells_of d r)) ->
  0 <= maxlen <= Z.of_nat (List.length buf) ->
  owns [] lo m ->
  device_info dev = [] ->
  node_attr_present fstat devnum ->
  exists r dev' out m',
    hid_get_info_string field env fstat devnum dev (Some buf) maxlen m
    = Some (r, dev', out, m')
    /\ (r = 0 <-> maxlen <> 0 /\ node_records env fstat devnum <> [])
    /\ (r = 0 ->
        map (resolve m') (device_info dev') = node_records env fstat devnum).
Proof.
  intros Hf Hmax Hown Hdi Hnode. unfold hid_get_info_string.
  destruct (maxlen =? 0) eqn:E0;
    [apply Z.eqb_eq in E0 | apply Z.eqb_neq in E0].
  { destruct (wp_register_device_error lo dev (Some "Zero buffer/length")
                (fun _ _ => True) m Hown) as (d1 & m1 & Hrun & _);
      [intros; exact I|].
    unfold bind. rewrite Hrun. eexists _, _, _, _.
    split; [reflexivity|]. split; [|intros Hr; discriminate Hr].
    split; [intros Hr; discriminate Hr | intros [Hc _]; contradiction]. }
  destruct (hid_get_device_info_outcome env fstat devnum dev lo m Hown Hdi
              Hnode) as ([info dev1] & m1 & Hrun & Hinfo & Hall & Ho).
  cbn [fst snd] in Hinfo, Hall, Ho.
  unfold bind at 1. rewrite Hrun.
  destruct (node_records env fstat devnum) as [|r0 rs] eqn:Er.
  { inversion Hall; subst. eexists _, _, _, _.
    split; [reflexivity|]. split; [|intros Hr; discriminate Hr].
    split; [intros Hr; discriminate Hr|].
    intros [_ Hc]. exfalso. apply Hc. reflexivity. }
  destruct info as [|d rest]; [inversion Hall|].
  assert (Hrel : record_rel d r0) by (inversion Hall; assumption).
  assert (Hres : map (resolve m1) (device_info dev1) = r0 :: rs).
  { rewrite Hinfo. eapply resolve_all; [exact Hall|].
    rewrite app_nil_r. exact Ho. }
  assert (Hne : r0 :: rs <> []) by discriminate.
  destruct (Hf d r0 Hrel) as (e & Hag & Hin).
  destruct (field d) as [x|] eqn:Ef.
  - destruct e as [w|]; [|contradiction Hag].
    assert (Hload : load x m1 = Some (Wide w)).
    { destruct Ho as (_ & _ & Hl & _). apply Hl.
      apply (all_cells_incl (d :: rest) (r0 :: rs) d r0).
      - exact Hall.
      - left. reflexivity.
      - apply Hin. left. reflexivity. }
    unfold bind at 1. unfold read_wide. rewrite Hload.
    unfold bind at 1. unfold lift at 1. unfold Wchar.wcsncpy.
    assert (Hlen : (List.length buf <? Z.to_nat maxlen)%nat = false).
    { apply Nat.ltb_ge. lia. }
    rewrite Hlen.
    set (b1 := (firstn (Z.to_nat maxlen)
                       (Wchar.wcs w ++ repeat 0 (Z.to_nat maxlen))
                ++ skipn (Z.to_nat maxlen) buf)%list).
    assert (Hb1 : List.length b1 = List.length buf).
    { unfold b1. rewrite length_app, length_firstn, length_skipn,
        length_app, repeat_length. lia. }
    unfold bind at 1. unfold lift at 1. unfold Wchar.store.
    assert (Hlt : (Z.to_nat (maxlen - 1) <? List.length b1)%nat = true).
    { apply Nat.ltb_lt. rewrite Hb1. lia. }
    rewrite Hlt. eexists _, _, _, _. split; [reflexivity|].
    split; [split; [intros _; split; assumption | reflexivity]|].
    intros _. exact Hres.
  - unfold bind at 1. unfold lift at 1. unfold Wchar.store.
    assert (Hlt : (0 <? List.length buf)%nat = true).
    { apply Nat.ltb_lt. lia. }
    rewrite Hlt. eexists _, _, _, _. split; [reflexivity|].
    split; [split; [intros _; split; assumption | reflexivity]|].
    intros _. exact Hres.
Qed.

Lemma info_string_outcome (field : hid_device_info -> ptr)
    (env : udev_env) (fstat : option Z) (devnum : Z -> option udev_device)
    (dev : hid_device) (buf : list Z) (maxlen : Z) (m : mem) :
  (forall d r, record_rel d r ->
               exists e, agree (field d) (option_map Wide e)
                         /\ incl (cell_of (field d) (option_map Wide e))
                                 (cells_of d r)) ->
  0 <= maxlen <= Z.of_nat (List.length buf) ->
  oom m = [] ->
  (forall g, last_global_error_str m = Some g ->
             (g < List.length (cells m))%nat) ->
  device_info dev = [] ->
  node_attr_present fstat devnum ->
  exists r dev' out m',
    hid_get_info_string field env fstat devnum dev (Some buf) maxlen m
    = Some (r, dev', out, m')
    /\ string_fits field buf maxlen r dev' out m'
    /\ (r = 0 <-> maxlen <> 0 /\ node_records env fstat devnum <> [])
    /\ (r = 0 ->
        map (resolve m') (device_info dev') = node_records env fstat devnum).
Proof.
  intros Hf Hmax Hoom Hg Hdi Hnode.
  destruct (info_string_returns field env fstat devnum dev buf maxlen _ m
              Hf Hmax (owns_nil m Hoom Hg) Hdi Hnode)
    as (r & dev' & out & m' & Hrun & Hr & Hres).
  exists r, dev', out, m'. split; [exact Hrun|].
  split; [|split; assumption].
  eapply info_string_fits; [apply Hmax | exact Hrun].
Qed.

(** X20.  Called on a device whose info is not loaded yet, with a buffer
    of at least maxlen characters, hid_get_manufacturer_string,
    hid_get_product_string and hid_get_serial_number_string return 0
    exactly when maxlen is not 0 and the node behind the handle yields a
    record; the buffer then holds, null-terminated, the first maxlen - 1
    characters of that string of the first record, and the device keeps
    the records. On -1 the buffer is untouched, and no call writes at
    index maxlen or beyond. Assumes that allocations succeed and that
    the node is not one whose hid parent lacks a uevent attribute. *)
Theorem string_getters_fit_the_buffer (env : udev_env)
    (fstat : option Z) (devnum : Z -> option udev_device)
    (dev : hid_device) (buf : list Z) (maxlen : Z) (m : mem) :
  0 <= maxlen <= Z.of_nat (List.length buf) ->
  oom m = [] ->
  (forall g, last_global_error_str m = Some g ->
             (g < List.length (cells m))%nat) ->
  device_info dev = [] ->
  node_attr_present fstat devnum ->
  (exists r dev' out m',
      hid_get_manufacturer_string env fstat devnum dev (Some buf) maxlen m
      = Some (r, dev', out, m')
      /\ string_fits manufacturer_string buf maxlen r dev' out m'
      /\ (r = 0 <-> maxlen <> 0 /\ node_records env fstat devnum <> [])
      /\ (r = 0 ->
          map (resolve m') (device_info dev')
          = node_records env fstat devnum))
  /\ (exists r dev' out m',
      hid_get_product_string env fstat devnum dev (Some buf) maxlen m
      = Some (r, dev', out, m')
      /\ string_fits product_string buf maxlen r dev' out m'
      /\ (r = 0 <-> maxlen <> 0 /\ node_records env fstat devnum <> [])
      /\ (r = 0 ->
          map (resolve m') (device_info dev')
          = node_records env fstat devnum))
  /\ (exists r dev' out m',
      hid_get_serial_number_string env fstat devnum dev (Some buf) maxlen m
      = Some (r, dev', out, m')
      /\ string_fits serial_number buf maxlen r dev' out m'
      /\ (r = 0 <-> maxlen <> 0 /\ node_records env fstat devnum <> [])
      /\ (r = 0 ->
          map (resolve m') (device_info dev')
          = node_records env fstat devnum)).
Proof.
  intros Hmax Hoom Hg Hdi Hnode.
  split; [|split];
    (apply info_string_outcome; try assumption;
     intros d r (_ & _ & _ & _ & _ & _ & _ & _ & Hsn & Hms & Hps)).
  - exists (r_manufacturer_string r). split; [exact Hms|].
    unfold cells_of. intros x Hx. rewrite !in_app_iff. tauto.
  - exists (r_product_string r). split; [exact Hps|].
    unfold cells_of. intros x Hx. rewrite !in_app_iff. tauto.
  - exists (r_serial_number r). split; [exact Hsn|].
    unfold cells_of. intros x Hx. rewrite !in_app_iff. tauto.
Qed.

End GetterFacts.

(** ** The properties on the sample system *)

Lemma keyboard_keys_unique : uevent_keys_unique Sample.keyboard_system.
Proof.
  intros sp d [E|[]] Edev. inversion E; subst sp.
  vm_compute in Edev. inversion Edev; subst d.
  split; vm_compute; repeat constructor.
Qed.

Lemma keyboard_attrs_present : uevent_attrs_present Sample.keyboard_system.
Proof.
  intros sp d [E|[]] Edev. inversion E; subst sp.
  vm_compute in Edev. inversion Edev; subst d. discriminate.
Qed.

Lemma empty_mem_global (g : addr) :
  last_global_error_str Sample.empty_mem = Some g ->
  (g < List.length (cells Sample.empty_mem))%nat.
Proof. intros E. discriminate E. Qed.

Lemma first_valid_hid_id_line_decides_witness :
  oom Sample.empty_mem = []
  /\ exists m',
       @parse_hid_vid_pid_from_uevent Sample.byte_locale
         Sample.keyboard_uevent 0 0 0 Sample.empty_mem
       = Some (1, 3, 0x05AC, 0x8242, m').
Proof.
  split; [reflexivity|].
  destruct (@first_valid_hid_id_line_decides Sample.byte_locale
              Sample.keyboard_uevent 0 0 0 Sample.empty_mem eq_refl
              empty_mem_global)
    as (r & b & v & p & m' & Hrun & _).
  exists m'. rewrite Hrun. vm_compute in Hrun.
  inversion Hrun. reflexivity.
Defined.

Lemma empty_enumeration_is_explained_witness :
  uevent_attrs_present Sample.keyboard_system
  /\ prefilter_reads_fit Sample.keyboard_system 1 1
  /\ oom Sample.empty_mem = []
  /\ exists m',
       @hid_enumerate Sample.byte_locale Sample.keyboard_system 1 1
                      Sample.empty_mem = Some ([], m')
       /\ hid_error None m'
          = Some (@widen Sample.byte_locale
                    "No HID devices with requested VID/PID found in the system.",
                  m').
Proof.
  split; [exact keyboard_attrs_present|].
  split; [exact (keyboard_reads_fit 1 1)|]. split; [reflexivity|].
  destruct (@empty_enumeration_is_explained Sample.byte_locale
              Sample.keyboard_system 1 1 Sample.empty_mem
              keyboard_attrs_present (keyboard_reads_fit 1 1) eq_refl
              empty_mem_global)
    as (recs & m' & Hrun & Hexp).
  assert (Er : recs = []).
  { assert (Hrun' := Hrun). vm_compute in Hrun'.
    injection Hrun' as Er _. symmetry. exact Er. }
  subst recs. exists m'. split; [exact Hrun|]. exact (Hexp eq_refl).
Defined.

Lemma enumeration_is_released_witness :
  uevent_attrs_present Sample.keyboard_system
  /\ prefilter_reads_fit Sample.keyboard_system 0x05AC 0x8242
  /\ oom Sample.empty_mem = []
  /\ exists recs m1 m2,
       @hid_enumerate Sample.byte_locale Sample.keyboard_system
                      0x05AC 0x8242 Sample.empty_mem = Some (recs, m1)
       /\ List.length recs = 2%nat
       /\ hid_free_enumeration recs m1 = Some (tt, m2)
       /\ NoDup (flat_map string_addrs recs)
       /\ forall a, In a (flat_map string_addrs recs) ->
                    load a m1 <> None /\ load a m2 = None.
Proof.
  split; [exact keyboard_attrs_present|].
  split; [exact (keyboard_reads_fit 0x05AC 0x8242)|]. split; [reflexivity|].
  destruct (@enumeration_is_released Sample.byte_locale
              Sample.keyboard_system 0x05AC 0x8242 Sample.empty_mem
              keyboard_attrs_present (keyboard_reads_fit 0x05AC 0x8242)
              eq_refl empty_mem_global)
    as (recs & m1 & m2 & Hrun & Hfree & Hnd & Hin & _).
  exists recs, m1, m2. split; [exact Hrun|].
  split.
  { assert (Hrun' := Hrun). vm_compute in Hrun'.
    injection Hrun' as Er _. rewrite <- Er. reflexivity. }
  split; [exact Hfree|].
  split; [exact Hnd|]. intros a Ha. apply (Hin a Ha).
Defined.

Lemma enumeration_leaks_nothing_witness :
  uevent_keys_unique Sample.keyboard_system
  /\ prefilter_reads_fit Sample.keyboard_system 0x05AC 0
  /\ oom Sample.empty_mem = []
  /\ exists recs m1 m2,
       @hid_enumerate Sample.byte_locale Sample.keyboard_system 0x05AC 0
                      Sample.empty_mem = Some (recs, m1)
       /\ List.length recs = 2%nat
       /\ hid_free_enumeration recs m1 = Some (tt, m2)
       /\ forall a, load a m2 <> None -> last_global_error_str m2 = Some a.
Proof.
  split; [exact keyboard_keys_unique|].
  split; [exact (keyboard_reads_fit 0x05AC 0)|]. split; [reflexivity|].
  destruct (@enumeration_leaks_nothing Sample.byte_locale
              Sample.keyboard_system 0x05AC 0 Sample.empty_mem
              keyboard_keys_unique (keyboard_reads_fit 0x05AC 0) eq_refl
              empty_mem_global)
    as (recs & m1 & m2 & Hrun & Hfree & _ & Hleak).
  exists recs, m1, m2. split; [exact Hrun|].
  split.
  { assert (Hrun' := Hrun). vm_compute in Hrun'.
    injection Hrun' as Er _. rewrite <- Er. reflexivity. }
  split; [exact Hfree|].
  intros a Ha. apply Hleak; [apply Nat.le_0_l | exact Ha].
Defined.

Section HotplugWitnesses.
Local Open Scope string_scope.
Local Open Scope Z_scope.

Lemma armed_handles_below : handles_below nat DeviceSample.armed_context.
Proof.
  split; [|split].
  - simpl. constructor.
    + simpl. intros [H|[]]. discriminate H.
    + constructor; [intros [] | constructor].
  - simpl. repeat constructor; simpl; lia.
  - simpl. lia.
Qed.

End HotplugWitnesses.

Lemma handles_stay_distinct_witness :
  handles_below nat DeviceSample.armed_context
  /\ exists r ctx' m',
       hid_hotplug_deregister_callback nat 1
         DeviceSample.armed_context Sample.empty_mem = Some (r, ctx', m')
       /\ handles_below nat ctx'.
Proof.
  split; [exact armed_handles_below|].
  destruct (hid_hotplug_deregister_callback nat 1
              DeviceSample.armed_context Sample.empty_mem)
    as [[[r ctx'] m']|] eqn:E; [|discriminate E].
  exists r, ctx', m'. split; [reflexivity|].
  exact (proj1 (proj2 (@handles_stay_distinct Sample.byte_locale nat
                         DeviceSample.armed_context Sample.empty_mem
                         armed_handles_below))
               1 r ctx' m' E).
Defined.

Lemma deregistration_removes_one_witness :
  NoDup (map (handle nat) (hotplug_cbs nat DeviceSample.armed_context))
  /\ exists ctx' m',
       hid_hotplug_deregister_callback nat 1 DeviceSample.armed_context
                                       Sample.empty_mem
       = Some (0, ctx', m')
       /\ hotplug_cbs nat ctx' = tl Sample.sample_callbacks.
Proof.
  assert (Hnd : NoDup (map (handle nat) (hotplug_cbs nat DeviceSample.armed_context)))
    by exact (proj1 armed_handles_below).
  split; [exact Hnd|].
  destruct (deregistration_removes_one nat 1 DeviceSample.armed_context
              Sample.empty_mem Hnd)
    as (r & ctx' & m' & Hrun & Hr & Hcbs & _).
  exists ctx', m'. split.
  - rewrite Hrun, Hr. reflexivity.
  - rewrite Hcbs. reflexivity.
Defined.

Lemma register_then_deregister_witness :
  handles_below nat DeviceSample.armed_context
  /\ next_handle nat DeviceSample.armed_context < 2 ^ 31 - 1
  /\ hotplug_cbs nat DeviceSample.armed_context <> []
  /\ valid_registration HID_API_HOTPLUG_EVENT_DEVICE_ARRIVED 0
  /\ oom Sample.empty_mem = []
  /\ exists ctx1 ctx2,
       @hid_hotplug_register_callback Sample.byte_locale nat
         Sample.keyboard_system 0 0 HID_API_HOTPLUG_EVENT_DEVICE_ARRIVED 0
         (Some DeviceSample.counting_callback) 0 true
         DeviceSample.armed_context Sample.empty_mem
       = Some (-1, ctx1, Some 3, Sample.empty_mem)
       /\ hid_hotplug_deregister_callback nat 3 ctx1 Sample.empty_mem
          = Some (0, ctx2, Sample.empty_mem)
       /\ hotplug_cbs nat ctx2 = Sample.sample_callbacks.
Proof.
  assert (H2 : next_handle nat DeviceSample.armed_context < 2 ^ 31 - 1)
    by (simpl; lia).
  assert (H3 : hotplug_cbs nat DeviceSample.armed_context <> [])
    by discriminate.
  assert (H4 : valid_registration HID_API_HOTPLUG_EVENT_DEVICE_ARRIVED 0).
  { split; left; reflexivity. }
  split; [exact armed_handles_below|]. split; [exact H2|].
  split; [exact H3|]. split; [exact H4|]. split; [reflexivity|].
  destruct (@register_then_deregister Sample.byte_locale nat
              Sample.keyboard_system 0 0
              HID_API_HOTPLUG_EVENT_DEVICE_ARRIVED 0 0
              DeviceSample.counting_callback DeviceSample.armed_context
              Sample.empty_mem armed_handles_below H2 H3 H4 eq_refl)
    as (ctx1 & ctx2 & Hreg & _ & Hder & Hcbs & _).
  exists ctx1, ctx2. split; [exact Hreg|]. split; [exact Hder|]. exact Hcbs.
Defined.



Lemma arming_and_disarming_releases_the_device_list_witness :
  hotplug_cbs nat (hid_hotplug_context_init nat) = []
  /\ devs nat (hid_hotplug_context_init nat) = []
  /\ 0 < next_handle nat (hid_hotplug_context_init nat) < 2 ^ 31 - 1
  /\ valid_registration HID_API_HOTPLUG_EVENT_DEVICE_ARRIVED 0
  /\ udev_new_ok Sample.keyboard_system = true
  /\ uevent_keys_unique Sample.keyboard_system
  /\ oom Sample.empty_mem = []
  /\ exists ctx1 m1 ctx2 m2,
       @hid_hotplug_register_callback Sample.byte_locale nat
         Sample.keyboard_system 0 0 HID_API_HOTPLUG_EVENT_DEVICE_ARRIVED 0
         (Some DeviceSample.counting_callback) 0 true
         (hid_hotplug_context_init nat) Sample.empty_mem
       = Some (-1, ctx1, Some 1, m1)
       /\ hid_hotplug_deregister_callback nat 1 ctx1 m1 = Some (0, ctx2, m2)
       /\ devs nat ctx2 = []
       /\ forall a, load a m2 <> None -> last_global_error_str m2 = Some a.
Proof.
  assert (H3 : 0 < next_handle nat (hid_hotplug_context_init nat)
               < 2 ^ 31 - 1) by (simpl; lia).
  assert (H4 : valid_registration HID_API_HOTPLUG_EVENT_DEVICE_ARRIVED 0).
  { split; left; reflexivity. }
  split; [reflexivity|]. split; [reflexivity|]. split; [exact H3|].
  split; [exact H4|]. split; [reflexivity|].
  split; [exact keyboard_keys_unique|]. split; [reflexivity|].
  destruct (@arming_and_disarming_releases_the_device_list
              Sample.byte_locale nat Sample.keyboard_system 0 0
              HID_API_HOTPLUG_EVENT_DEVICE_ARRIVED 0 0
              DeviceSample.counting_callback (hid_hotplug_context_init nat)
              Sample.empty_mem eq_refl eq_refl H3 H4 eq_refl
              keyboard_keys_unique eq_refl empty_mem_global)
    as (ctx1 & m1 & ctx2 & m2 & Hreg & _ & _ & _ & Hder & _ & Hd & _ & _ & _
        & Hleak).
  exists ctx1, m1, ctx2, m2. split; [exact Hreg|]. split; [exact Hder|].
  split; [exact Hd|]. intros a Ha. apply Hleak; [apply Nat.le_0_l | exact Ha].
Defined.

Lemma read_result_and_error_agree_witness :
  oom Sample.empty_mem = []
  /\ -1 <= fst (fst ((fun _ : Z => (-1, 0, 5)) 100))
  /\ -1 <= fst (fst (0, @nil byte, 0)) < 2 ^ 31
  /\ exists dev' m',
       @hid_read_timeout Sample.byte_locale DeviceSample.numbered_strerror
         DeviceSample.opened_device 100 (fun _ => (-1, 0, 5)) (0, [], 0)
         Sample.empty_mem
       = Some (-1, dev', [], m')
       /\ last_error_str dev' <> None.
Proof.
  assert (H2 : -1 <= fst (fst ((fun _ : Z => (-1, 0, 5)) 100)))
    by (simpl; lia).
  assert (H3 : -1 <= fst (fst (0, @nil byte, 0)) < 2 ^ 31) by (simpl; lia).
  split; [reflexivity|]. split; [exact H2|]. split; [exact H3|].
  destruct (@read_result_and_error_agree Sample.byte_locale
              DeviceSample.numbered_strerror DeviceSample.opened_device 100
              (fun _ => (-1, 0, 5)) (0, [], 0) Sample.empty_mem
              eq_refl H2 H3)
    as (r & dev' & bytes & m' & Hrun & _ & Herr & _).
  assert (Hrun' := Hrun). vm_compute in Hrun'.
  injection Hrun' as Er _ Eb _.
  exists dev', m'. split.
  - rewrite Hrun, <- Er, <- Eb. reflexivity.
  - apply Herr. symmetry. exact Er.
Defined.

Lemma write_result_and_error_agree_witness :
  oom Sample.empty_mem = []
  /\ -1 <= fst (2, 0) < 2 ^ 31
  /\ exists dev' m',
       @hid_write Sample.byte_locale DeviceSample.numbered_strerror
         DeviceSample.opened_device (Some [x00; x01]) 2 (2, 0)
         Sample.empty_mem
       = Some (2, dev', m')
       /\ hid_error (Some dev') m'
          = Some (Wchar.wide_literal "Success", m').
Proof.
  assert (H2 : -1 <= fst (2, 0) < 2 ^ 31) by (simpl; lia).
  split; [reflexivity|]. split; [exact H2|].
  destruct (@write_result_and_error_agree Sample.byte_locale
              DeviceSample.numbered_strerror DeviceSample.opened_device
              (Some [x00; x01]) 2 (2, 0) Sample.empty_mem eq_refl H2)
    as (r & dev' & m' & Hrun & _ & _ & Hok & _).
  assert (Hrun' := Hrun). vm_compute in Hrun'.
  injection Hrun' as Er _ _.
  exists dev', m'. split.
  - rewrite Hrun, <- Er. reflexivity.
  - apply Hok. rewrite <- Er. discriminate.
Defined.

Lemma report_result_and_error_agree_witness :
  oom Sample.empty_mem = []
  /\ exists dev' m',
       @hid_get_feature_report Sample.byte_locale
         DeviceSample.numbered_strerror DeviceSample.opened_device (-1, 5)
         Sample.empty_mem
       = Some (-1, dev', m')
       /\ hid_error (Some dev') m'
          = Some (@widen Sample.byte_locale
                    "ioctl (GFEATURE): Input/output error", m').
Proof.
  split; [reflexivity|].
  destruct (@report_result_and_error_agree Sample.byte_locale
              DeviceSample.numbered_strerror DeviceSample.opened_device
              (-1, 5) Sample.empty_mem eq_refl)
    as (_ & (dev' & m' & Hrun & _ & Herr) & _).
  exists dev', m'. split; [exact Hrun | exact Herr].
Defined.

Lemma keyboard_node_present :
  node_attr_present (Some 0xf700) DeviceSample.keyboard_devnum.
Proof.
  intros rdev raw E Edev. inversion E; subst rdev.
  vm_compute in Edev. inversion Edev; subst raw. discriminate.
Qed.

Lemma keyboard_node_keys_unique :
  node_keys_unique (Some 0xf700) DeviceSample.keyboard_devnum.
Proof.
  intros rdev raw E Edev. inversion E; subst rdev.
  vm_compute in Edev. inversion Edev; subst raw.
  split; vm_compute; repeat constructor.
Qed.

Lemma string_getters_fit_the_buffer_witness :
  0 <= 8 <= Z.of_nat (List.length (repeat 7 10))
  /\ oom Sample.empty_mem = []
  /\ device_info DeviceSample.opened_device = []
  /\ node_attr_present (Some 0xf700) DeviceSample.keyboard_devnum
  /\ exists dev' out m',
       @hid_get_product_string Sample.byte_locale Sample.keyboard_system
         (Some 0xf700) DeviceSample.keyboard_devnum
         DeviceSample.opened_device (Some (repeat 7 10)) 8 Sample.empty_mem
       = Some (0, dev', out, m')
       /\ string_fits product_string (repeat 7 10) 8 0 dev' out m'
       /\ out = Some (Wchar.wide_literal "Keyboar" ++ [0; 7; 7])%list.
Proof.
  assert (H1 : 0 <= 8 <= Z.of_nat (List.length (repeat 7 10)))
    by (simpl; lia).
  split; [exact H1|]. split; [reflexivity|]. split; [reflexivity|].
  split; [exact keyboard_node_present|].
  destruct (@string_getters_fit_the_buffer Sample.byte_locale
              Sample.keyboard_system (Some 0xf700)
              DeviceSample.keyboard_devnum DeviceSample.opened_device
              (repeat 7 10) 8 Sample.empty_mem H1 eq_refl empty_mem_global
              eq_refl keyboard_node_present)
    as (_ & (r & dev' & out & m' & Hrun & Hfit & _) & _).
  assert (Hrun' := Hrun). vm_compute in Hrun'.
  injection Hrun' as Er _ Eo _. subst r.
  exists dev', out, m'. split; [exact Hrun|]. split; [exact Hfit|].
  rewrite <- Eo. reflexivity.
Defined.

Lemma open_takes_the_first_exact_match_witness :
  uevent_attrs_present Sample.keyboard_system
  /\ prefilter_reads_fit Sample.keyboard_system 0x05AC 0x8242
  /\ oom Sample.empty_mem = []
  /\ (forall path : string,
         0 <= fst ((fun _ : string => (3, 0)) path) ->
         0 <= fst ((fun _ : string => (0, 0)) path))
  /\ exists m',
       @hid_open Sample.byte_locale DeviceSample.numbered_strerror
         Sample.keyboard_system 0x05AC 0x8242 None
         (fun _ => (3, 0)) (fun _ => (0, 0)) Sample.empty_mem
       = Some (Some DeviceSample.opened_device, m')
       /\ forall a, load a m' <> None -> last_global_error_str m' = Some a.
Proof.
  assert (H4 : forall path : string,
             0 <= fst ((fun _ : string => (3, 0)) path) ->
             0 <= fst ((fun _ : string => (0, 0)) path))
    by (intros; simpl; lia).
  split; [exact keyboard_attrs_present|].
  split; [exact (keyboard_reads_fit 0x05AC 0x8242)|]. split; [reflexivity|].
  split; [exact H4|].
  destruct (@open_takes_the_first_exact_match Sample.byte_locale
              DeviceSample.numbered_strerror Sample.keyboard_system
              0x05AC 0x8242 None (fun _ => (3, 0)) (fun _ => (0, 0))
              Sample.empty_mem keyboard_attrs_present
              (keyboard_reads_fit 0x05AC 0x8242) eq_refl
              empty_mem_global H4)
    as (handle & m' & Hrun & _ & Hleak).
  assert (Hrun' := Hrun). vm_compute in Hrun'.
  injection Hrun' as Eh _. subst handle.
  exists m'. split; [exact Hrun|].
  intros a Ha.
  apply (Hleak keyboard_keys_unique a (Nat.le_0_l _) Ha).
Defined.

Lemma device_calls_leak_nothing_witness :
  node_keys_unique (Some 0xf700) DeviceSample.keyboard_devnum
  /\ bounded (device_addrs DeviceSample.opened_device ++ []) 0
             Sample.empty_mem
  /\ exists info dev' m1 m2,
       @hid_get_device_info Sample.byte_locale Sample.keyboard_system
         (Some 0xf700) DeviceSample.keyboard_devnum
         DeviceSample.opened_device Sample.empty_mem
       = Some (info, dev', m1)
       /\ info <> []
       /\ @hid_close Sample.byte_locale dev' m1 = Some (tt, m2)
       /\ bounded [] 0 m2.
Proof.
  assert (H2 : bounded (device_addrs DeviceSample.opened_device ++ []) 0
                       Sample.empty_mem) by exact (bounded_start Sample.empty_mem).
  split; [exact keyboard_node_keys_unique|]. split; [exact H2|].
  destruct (@hid_get_device_info Sample.byte_locale Sample.keyboard_system
              (Some 0xf700) DeviceSample.keyboard_devnum
              DeviceSample.opened_device Sample.empty_mem)
    as [[[info dev'] m1]|] eqn:Erun; [|vm_compute in Erun; discriminate Erun].
  assert (Hb1 : bounded (device_addrs dev' ++ []) 0 m1).
  { exact (proj1 (proj2 (proj2 (proj2
             (@device_calls_leak_nothing Sample.byte_locale
                DeviceSample.numbered_strerror Sample.keyboard_system
                (Some 0xf700) DeviceSample.keyboard_devnum
                DeviceSample.opened_device [] 0%nat Sample.empty_mem
                keyboard_node_keys_unique H2))))
             info dev' m1 Erun). }
  destruct (proj2 (proj2 (proj2 (proj2 (proj2
             (@device_calls_leak_nothing Sample.byte_locale
                DeviceSample.numbered_strerror Sample.keyboard_system
                (Some 0xf700) DeviceSample.keyboard_devnum
                dev' [] 0%nat m1 keyboard_node_keys_unique Hb1))))))
    as (m2 & Hclose & Hb2).
  exists info, dev', m1, m2. split; [reflexivity|]. split.
  - assert (Erun' := Erun). vm_compute in Erun'.
    injection Erun' as Ei _ _. rewrite <- Ei. discriminate.
  - split; [exact Hclose | exact Hb2].
Defined.
